(* ===== verification/_CoqProject ===== *)
-Q . S2P
Prelude.v
Params.v
MCache.v
Os.v
DramBank.v
DramChannel.v
Dram.v
MCore.v
MemSys.v
MemSysDramsim3.v
Sim.v
Common.v
Config.v
Timing.v
Stats.v
BankState.v
BankSpec.v
ChannelState.v
ChannelSpec.v
ChannelRun.v
ChannelSafety.v
Refresh.v
CommandQueue.v
Controller.v
DramSystem.v
QueueSpec.v
ControllerSpec.v
DramSystemSpec.v
Hmc.v
HmcSpec.v
Trace.v
Dramsim3.v
Cpu.v
CpuSpec.v
ThermalSolver.v
ThermalSolverSpec.v
ThermalHeat.v
Thermal.v
ThermalSpec.v
ThermalRun.v
ThermalReplay.v
ThermalReplaySpec.v
