(* ===== verification/Prelude.v ===== *)
(** * mds3: a verification library for the trace-driven memory simulator

    mds3 is a multi-core simulator of caches and main memory written in C++. Cores replay traces of memory
    accesses (src/src/mcore.cpp), the operating system maps their pages (os.cpp), a shared last-level cache filters
    them (mcache.cpp), and misses go to the main memory, either the built-in DRAM model (memsys.cpp, dram.cpp,
    dramchannel.cpp, drambank.cpp) or the cycle-accurate simulator DRAMsim3, extended with the row-hammer defences
    PRAC, MOAT, PAC and MOPAC (memsys_dramsim3.cpp, DRAMsim3/src). This library translates that program into
    executable definitions, one file per component, and proves the properties that make each component and their
    composition correct. The files under src/ named here are those of the repository.

    ** Files, and the sources they model

    The simulator (src/src):
    - [Prelude]: integers of fixed width, outcomes of calls, arrays, loops, record update, [double], random sources.
    - [Params] (params.h): the command line, its defaults and checks, and the parameters it sets.
    - [MCache] (mcache.h, mcache.cpp): the cache with its four replacement policies. State [MCache].
    - [Os] (os.h, os.cpp): page table, inverted page table and the search for a victim frame. State [OS].
    - [DramBank], [DramChannel], [Dram] (drambank, dramchannel, dram): queues, FR-FCFS, bus tokens, refresh and
      RFM, the four address mappings, writes drained in batches.
    - [MCore] (mcore.h, mcore.cpp): the reorder buffer as a ring, the trace reader, a cycle of a core. It sees the
      memory through the class [MemAccess], of which both memory systems are instances.
    - [MemSys] (memsys.cpp): the table of outstanding reads over the built-in DRAM, with the callback of a done read.
    - [MemSysDramsim3] (memsys_dramsim3.cpp): the same over DRAMsim3, which it sees through the class [MemorySystem];
      [MemorySystemLaws] says what it relies on, and [DramSystemSpec] proves it of the real one.
    - [Sim] (sim.cpp): the main loop, which runs cores in rotation until all are done.
    DRAMsim3 (src/DRAMsim3/src), from the leaves up:
    - [Common] (common.h, common.cc): commands, addresses, transactions and numeric helpers.
    - [Config] (configuration.cc and the reader in ext/headers/INIReader.h): every parameter and the address layout.
    - [Timing] (timing.cc): the seven tables of delays between commands.
    - [Stats] (simple_stats.cc): counters, vectors, histograms, energies; epochs and the final report.
    - [BankState] (bankstate.cc), [BankSpec]: the state machine of a bank and the row-hammer counters.
    - [ChannelState] (channel_state.cc), [ChannelSpec], [ChannelRun], [ChannelSafety]: the grid of banks of a
      channel, what a command does to every bank, runs of a channel.
    - [Refresh] (refresh.cc): the generator of refreshes, its schedule.
    - [CommandQueue] (command_queue.cc), [QueueSpec]: queues per rank or bank and the choice of the next command.
    - [Controller] (controller.cc), [ControllerSpec]: transactions, write drains, the cycle of a channel.
    - [DramSystem] (dram_system.cc), [DramSystemSpec]: all channels, the ideal memory, callbacks.
    - [Hmc] (hmc.cc), [HmcSpec]: the hybrid memory cube: packets, links, crossbars, vaults, its two clocks.
    - [Trace] (operator>> in common.cc): transactions read from a trace file, over formatted extraction.
    - [Dramsim3] (memory_system.cc): the interface to a CPU, which runs the memory that the configuration names.
    - [Cpu] (cpu.cc, main.cc, covert_channel.cc), [CpuSpec]: the stand-alone driver with its four processors.
    The thermal model (only in THERMAL builds):
    - [ThermalSolver] (thermal_solver.c, thermal_config.h), over any arithmetic ([Arith], with [double] as the one of
      the program): the conductance matrix, its compressed form, the steady and the transient solver;
      [ThermalSolverSpec] proves the matrix and its compression, [ThermalHeat] the solvers.
    - [Thermal] (thermal.cc, InitThermalParams in configuration.cc): the calculator with its floor plan, power maps,
      refresh counters, epochs and final temperatures. [ThermalSpec] has its invariants, [ThermalRun] floor plans of the
      stacked memories, whole runs, refresh counters and the planar memories.
    - [ThermalReplay] (thermal_replay.cc), [ThermalReplaySpec]: the replay of a file of commands.

    A definition has the name of the C++ function, method or field it models wherever Rocq allows it; a field of a
    class is a field of the record of the same name. Where a function is long, its loops and cases are definitions of
    their own, named for what they do, and the function is composed of them the way the code is.

    ** How the parts interact

    [Sim] calls [mcore_cycle] of each core and then the memory's cycle. A core that issues an access translates it
    ([os_v2p_lineaddr]), looks it up in the cache, and on a miss calls [memsys_access]; the memory answers later by
    the callback, which wakes the entry of the reorder buffer that the table names. Below the wrapper,
    [DramSystem.AddTransaction] gives the transaction to the controller of its channel; [Controller.ClockTick] makes
    a refresh or a waiting access the next command ([CommandQueue], [ChannelState.GetReadyCommand]), issues it
    ([ChannelState.UpdateTimingAndStates]) and moves transactions into the command queues; the next tick of the
    system returns what is done through the callback. Objects that are shared in the source are shared here: the
    statistics and the static random generator travel in one record [Shared] through every call of a channel, and
    the callback changes the same table and cores the memory cycle was given ([World]). In THERMAL builds the
    controllers and the memory system also call the calculator of [Thermal]; these calls are the events of a thermal
    run ([ThermalEvent]), and the controllers are modelled as the other builds compile them.

    ** Conventions

    Integers are [Z], with the wrap of their width written where the source computes ([u32], [u64], [i32]); signed
    overflow, which the language leaves undefined, is modelled by two's complement, and the theorems' premises keep
    the values in range. (Inside [ThermalSolver] the sizes and the numbers of nodes are plain [Z]; the premises of the
    theorems about the calculator bound eight times the network by 2^31, [ints_ok].) A call has an [outcome]: it returns, or it stops with a fault (a failed assertion, an exit
    with its status, an exception, an index out of range, a division by zero). An index outside a vector is
    [OutOfRange]. [returns e P] is total correctness: the call ends, without a fault, in a state of [P]. Loops that
    count are [for_] and [for_ret] over their range; the few others have fuel ([Diverge] when it runs out), and their
    theorems show that the fuel is enough: 31 halvings in [LogBase2] for an [int], one round more than the first way's
    counter in [srrip_loop], the length of the return queue plus one in [return_done], one more than the links in
    [try_links], one more than the picoseconds of a DRAM cycle in [catch_up] (each logic cycle takes at least one), 32 doublings in
    [tile_rows], the steps until an epoch of the transient solver is stable in [count_steps] (a premise names them, since
    they depend on rounding, and keeps them [int]s), and the number of turns in [Sim]'s loop, which [sim_loop_stops] bounds. The fuel of [stuck_loop] is never
    enough, as its theorem says. [double] is the Standard Library's binary64 specification.

    Parameters, each with the behaviour that is used: [rand] and [std::mt19937_64] (classes [RandSource], [Rng64],
    with the range of their results), [strtod] ([Strtod]), the existence of a directory, the bytes of trace files,
    the callbacks of a memory system, and SuperLU's [pdgssv], of which only the length of its result is used. The witnesses instantiate them with concrete functions. The build options
    of DRAMsim3 ([USE_PRAC], [ROWPRESS], WB_HAS_INF_CAPACITY) are arguments, so a theorem speaks of all builds unless
    it says otherwise.

    ** What the theorems show

    - Data structures refine their abstraction: the cache a finite map ([mcache_refines_map]), the reorder buffer a
      queue ([mcore_cycle_in_order]), page translation a stable injection ([os_translation_injective]) that fails exactly
      when memory is exhausted ([os_translation_safe]). A turn of the main loop cycles each core once, in rotation, and
      stops when all are done ([sim_round_robin]).
    - Address mappings are bijections ([dram_parseaddr_bijective], [address_mapping_bijective]).
    - No transaction is lost or answered twice: [memsys_access_consistent] and [memsys_cycle_delivers] for the built-in
      memory; [controller_cycle] and [dramsim3_promises] for the reads and writes of DRAMsim3, [hmc_promises] for the
      reads of the cube, [memsys3_contract] for the wrapper over any memory with the same laws ([jedec_laws],
      [hmc_laws], [ideal_laws] are instances).
    - The two halves together: over DRAMsim3 with any configuration that [memory_config] admits the simulator's memory
      system is consistent from the start and stays so ([dramsim3_stack]).
    - The driver: requests are neither lost nor repeated when the memory refuses ([random_cpu_requests],
      [stream_cpu_elements], [trace_cpu_order]), the covert channel keeps its budget ([covert_channel_budget]), trace lines
      are read as they are written ([trace_roundtrip]), and the exact requests of a trace, one too many
      ([trace_cpu_schedule]). They hold over any memory with the laws, recorded by [recorded_memory], and for runs in
      which it is ready for each tick.
    - The cube: its two clocks never drift apart ([hmc_clocks]), each waiting source is served once in a logic cycle
      ([hmc_arbitration]), and the packets have the size and kind of their data ([hmc_packets]).
    - The state machine of a bank, the commands it offers and the service of an access in at most four rounds
      ([bank_update_refines], [bank_ready_legal], [bank_serves_access]).
    - Timing: the tables equal an independent reference matrix ([timing_tables_reference]); over every run of a
      channel no two commands are closer than the matrix allows ([channel_timing_safety]) and no rank exceeds its
      activation windows ([channel_activate_window]); what a command does to each bank of the channel
      ([channel_command_refines]); the queues offer, round robin and first ready, only commands that a waiting request
      needs and the channel can carry out, and nothing only when no request has one ([queue_issue]).
    - Refresh: the schedule in closed form ([refresh_schedule]), its fairness ([refresh_covers]), and the bank sets one
      policy never reaches.
    - The thermal solver: the matrix has the conductances of the grid, sorted and symmetric bit for bit
      ([conductance_matrix]); compressing its rows gives its columns ([compressed_columns]); the blocked transient
      solver computes the plain steps ([transient_reference]); in exact arithmetic ([ExactArith], which the rationals
      satisfy) the heat that leaves is the power put in, in the steady state ([steady_heat_balance]) and, with the heat
      stored, in each step ([transient_heat_balance]).
    - The calculator: a command adds exactly its energy to its cells, in the banks that the code selects
      ([thermal_command_energy]), a run on a stacked memory whose [num_row_refresh] divides the rows ends without an
      error ([thermal_run_safe]), the refreshes walk through the rows, or past them ([thermal_refresh_rows]), and planar
      memories hang ([thermal_planar_stuck]). The replay counts what its file says ([thermal_replay_run]).
    - Statistics conserve events; several theorems establish defects of the program in the form of the behaviour
      the code really has ([bank_acts_lost_after_window], [refresh_bankset_skips], [total_energy_ignores_refab],
      [refresh_bank_leaves_bank_free]).
    The theorems about the controller and above assume a configuration without RFM, self-refresh and HBM dual
    commands, in which no alert can happen ([quiet], [ctl_config]: alerts are off, or the build has no PRAC scheme
    that tracks rows, as the default build of the repository's baseline.ini) and, for each tick, banks whose counters are in range ([ctl_ready]); the
    operations themselves are modelled in full.

    ** Not modelled

    Output: printing, JSON, epoch files, deadlock dumps, the CSV files of the thermal model and the sums that are only
    printed in them. Functions that nothing calls (square_array, get_maxT). Parsing of INI files below the key/value map.
    Vendored libraries, with them SuperLU and the parsing of the arguments of the drivers. Python scripts and result
    data. *)
From Stdlib Require Export ZArith Lia.
From stdpp Require Export base numbers option list gmap strings.
Open Scope Z_scope.

(** ** Fixed-width integers

    [uns] is a 32-bit, [uns64]/[Addr]/[size_t] a 64-bit unsigned integer; both
    wrap.  They are kept as [Z] with the wrap-around written where the source
    computes. *)
Definition u8 (x : Z) : Z := x mod 256.
Definition u16 (x : Z) : Z := x mod 65536.
Definition u32 (x : Z) : Z := x mod 4294967296.
Definition u64 (x : Z) : Z := x mod 18446744073709551616.
(** conversion to a 32-bit [int] (two's complement) *)
Definition i32 (x : Z) : Z := (x + 2147483648) mod 4294967296 - 2147483648.

Definition is_u8 (x : Z) : Prop := 0 <= x < 256.
Definition is_u16 (x : Z) : Prop := 0 <= x < 65536.
Definition is_u32 (x : Z) : Prop := 0 <= x < 4294967296.
Definition is_u64 (x : Z) : Prop := 0 <= x < 18446744073709551616.
Definition is_i32 (x : Z) : Prop := -2147483648 <= x < 2147483648.

Create HintDb mds.

(** [lia] with [/] and [mod] by a constant or a variable *)
Ltac dmlia := Z.div_mod_to_equations; lia.

Lemma u8_is (x : Z) : is_u8 (u8 x).
Proof. unfold is_u8, u8. dmlia. Qed.
Lemma u16_is (x : Z) : is_u16 (u16 x).
Proof. unfold is_u16, u16. dmlia. Qed.
Lemma u32_is (x : Z) : is_u32 (u32 x).
Proof. unfold is_u32, u32. dmlia. Qed.
Lemma u64_is (x : Z) : is_u64 (u64 x).
Proof. unfold is_u64, u64. dmlia. Qed.
Lemma u16_id (x : Z) : is_u16 x → u16 x = x.
Proof. unfold is_u16, u16. intros. apply Z.mod_small. lia. Qed.
Lemma u32_id (x : Z) : is_u32 x → u32 x = x.
Proof. unfold is_u32, u32. intros. apply Z.mod_small. lia. Qed.
Lemma u64_id (x : Z) : is_u64 x → u64 x = x.
Proof. unfold is_u64, u64. intros. apply Z.mod_small. lia. Qed.
Lemma i32_id (x : Z) : is_i32 x → i32 x = x.
Proof. unfold is_i32, i32. intros. rewrite Z.mod_small; lia. Qed.
Lemma i32_is (x : Z) : is_i32 (i32 x).
Proof. unfold is_i32, i32. dmlia. Qed.
#[export] Hint Resolve u8_is u16_is u32_is u64_is i32_is : mds.

(** Removes the wrap-arounds of the goal that [lia] proves to be the identity,
    innermost first. *)
Ltac unwrap64 :=
  repeat match goal with
  | |- context [u64 ?e] =>
      lazymatch e with context [u64 _] => fail | _ => rewrite (u64_id e) by (unfold is_u64; lia) end
  end.
Ltac unwrap32 :=
  repeat match goal with
  | |- context [u32 ?e] =>
      lazymatch e with context [u32 _] => fail | _ => rewrite (u32_id e) by (unfold is_u32; lia) end
  end.

Ltac unwrapi :=
  repeat match goal with
  | |- context [i32 ?e] =>
      lazymatch e with context [i32 _] => fail | _ => rewrite (i32_id e) by (unfold is_i32; lia) end
  end.

(** ** Outcomes: how a call ends

    A call returns, or the process stops (a failed [assert], [exit]/[die_message]
    with its status, [AbruptExit], a thrown exception), or the C++ behaviour is
    undefined (an index outside an array, a division by zero). [Diverge] marks a
    loop bound (fuel) that ran out; the termination theorems rule it out. *)
Inductive fault : Set :=
  | AssertFail
  | Exit (status : Z)
  | Throw
  | OutOfRange
  | DivByZero
  | Undefined
  | Diverge.

Inductive outcome (A : Type) : Type :=
  | Ret (a : A)
  | Fault (f : fault).
Arguments Ret {A} _.
Arguments Fault {A} _.

#[export] Instance fault_eq_dec : EqDecision fault.
Proof. solve_decision. Defined.

#[export] Instance outcome_ret : MRet outcome := λ A a, Ret a.
#[export] Instance outcome_bind : MBind outcome := λ A B k e,
  match e with Ret a => k a | Fault f => Fault f end.
#[export] Instance outcome_fmap : FMap outcome := λ A B k e,
  match e with Ret a => Ret (k a) | Fault f => Fault f end.

(** [assert(b)] *)
Definition assert_ (b : bool) : outcome unit :=
  if b then Ret tt else Fault AssertFail.

(** [x / y] and [x % y] on unsigned operands *)
Definition udiv (x y : Z) : outcome Z := if y =? 0 then Fault DivByZero else Ret (x / y).
Definition umod (x y : Z) : outcome Z := if y =? 0 then Fault DivByZero else Ret (x mod y).

(** [x / y] and [x % y] on [int]s truncate towards zero *)
Definition iquot (x y : Z) : outcome Z := if y =? 0 then Fault DivByZero else Ret (Z.quot x y).
Definition irem (x y : Z) : outcome Z := if y =? 0 then Fault DivByZero else Ret (Z.rem x y).

Lemma bind_Ret {A B} (e : outcome A) (k : A → outcome B) (b : B) :
  (x ← e; k x) = Ret b ↔ ∃ a, e = Ret a ∧ k a = Ret b.
Proof. destruct e; simpl; naive_solver. Qed.

Lemma assert_Ret (b : bool) (u : unit) : assert_ b = Ret u ↔ b = true.
Proof. destruct b, u; simpl; naive_solver. Qed.
Lemma udiv_Ret (x y q : Z) : udiv x y = Ret q ↔ y ≠ 0 ∧ q = x / y.
Proof. unfold udiv. destruct (Z.eqb_spec y 0); naive_solver. Qed.
Lemma umod_Ret (x y r : Z) : umod x y = Ret r ↔ y ≠ 0 ∧ r = x mod y.
Proof. unfold umod. destruct (Z.eqb_spec y 0); naive_solver. Qed.

Lemma udiv_ok (x y : Z) : y ≠ 0 → udiv x y = Ret (x / y).
Proof. intros. by apply udiv_Ret. Qed.
Lemma umod_ok (x y : Z) : y ≠ 0 → umod x y = Ret (x mod y).
Proof. intros. by apply umod_Ret. Qed.
Lemma iquot_ok (x y : Z) : y ≠ 0 → iquot x y = Ret (Z.quot x y).
Proof. unfold iquot. by destruct (Z.eqb_spec y 0). Qed.
Lemma irem_ok (x y : Z) : y ≠ 0 → irem x y = Ret (Z.rem x y).
Proof. unfold irem. by destruct (Z.eqb_spec y 0). Qed.
Lemma assert_ok (b : bool) : b = true → assert_ b = Ret tt.
Proof. by intros ->. Qed.

(** two results of the same call are equal *)
Ltac ret_eq :=
  repeat match goal with
  | H1 : ?e = Ret ?a, H2 : ?e = Ret ?b |- _ =>
      rewrite H1 in H2; injection H2 as H2
  end; subst.

(** Total correctness: the call returns, with a result in [P]. *)
Definition returns {A} (e : outcome A) (P : A → Prop) : Prop := ∃ a, e = Ret a ∧ P a.

Lemma returns_ret {A} (a : A) (P : A → Prop) : P a → returns (Ret a) P.
Proof. by exists a. Qed.
Lemma returns_bind {A B} (e : outcome A) (k : A → outcome B) P Q :
  returns e P → (∀ a, P a → returns (k a) Q) → returns (x ← e; k x) Q.
Proof. intros (a & -> & Ha) Hk. by apply Hk. Qed.
Lemma returns_mono {A} (e : outcome A) (P Q : A → Prop) :
  returns e P → (∀ a, P a → Q a) → returns e Q.
Proof. intros (a & -> & Ha) HPQ. exists a. auto. Qed.
Lemma returns_inv {A} (e : outcome A) (P : A → Prop) a :
  returns e P → e = Ret a → P a.
Proof. intros (a' & -> & Ha) [= ->]. done. Qed.
#[export] Hint Resolve returns_ret : mds.

(** ** Arrays and vectors

    [a[i]] and [a[i] = x]; outside the array the source has undefined behaviour,
    which the model reports as [OutOfRange]. *)
Definition aget {A} (l : list A) (i : Z) : outcome A :=
  if i <? 0 then Fault OutOfRange
  else match l !! Z.to_nat i with Some x => Ret x | None => Fault OutOfRange end.
Definition aset {A} (l : list A) (i : Z) (x : A) : outcome (list A) :=
  if (i <? 0) || (Z.of_nat (length l) <=? i) then Fault OutOfRange
  else Ret (<[Z.to_nat i := x]> l).

(** size of a container, as an unsigned integer *)
Definition zlen {A} (l : list A) : Z := Z.of_nat (length l).

Section Arrays.
Context {A : Type}.
Implicit Types (l : list A) (x y : A) (i j : Z).

Lemma aget_Ret l i x : aget l i = Ret x ↔ 0 <= i ∧ l !! Z.to_nat i = Some x.
Proof.
  unfold aget. destruct (Z.ltb_spec i 0); [split; [done|lia]|].
  destruct (l !! Z.to_nat i); naive_solver.
Qed.
Lemma aget_bound l i x : aget l i = Ret x → 0 <= i < zlen l.
Proof. intros [? ?%lookup_lt_Some]%aget_Ret. unfold zlen. lia. Qed.
Lemma aget_ok l i : 0 <= i < zlen l → ∃ x, aget l i = Ret x.
Proof.
  unfold zlen. intros Hi.
  destruct (lookup_lt_is_Some_2 l (Z.to_nat i)) as [x Hx]; [lia|].
  exists x. apply aget_Ret. split; [lia|done].
Qed.
Lemma aset_ok l i x : 0 <= i < zlen l → aset l i x = Ret (<[Z.to_nat i := x]> l).
Proof.
  unfold aset, zlen. intros.
  destruct (Z.ltb_spec i 0); [lia|]. destruct (Z.leb_spec (Z.of_nat (length l)) i); [lia|done].
Qed.
Lemma aset_Ret l i x l' :
  aset l i x = Ret l' ↔ 0 <= i < zlen l ∧ l' = <[Z.to_nat i := x]> l.
Proof.
  split.
  - unfold aset, zlen. destruct (Z.ltb_spec i 0), (Z.leb_spec (Z.of_nat (length l)) i);
      simpl; intros; simplify_eq; split; done || lia.
  - intros [? ->]. by apply aset_ok.
Qed.
Lemma aset_length l i x l' : aset l i x = Ret l' → zlen l' = zlen l.
Proof. intros [_ ->]%aset_Ret. unfold zlen. by rewrite length_insert. Qed.
Lemma aget_aset l i j x l' :
  aset l i x = Ret l' → aget l' j = if j =? i then Ret x else aget l j.
Proof.
  intros [Hi ->]%aset_Ret. unfold aget. destruct (Z.eqb_spec j i) as [->|Hne].
  - destruct (Z.ltb_spec i 0); [lia|]. rewrite list_lookup_insert_eq; [done|].
    unfold zlen in Hi. lia.
  - destruct (Z.ltb_spec j 0); [done|]. rewrite list_lookup_insert_ne; [done|lia].
Qed.
Lemma zlen_nonneg l : 0 <= zlen l.
Proof. unfold zlen. lia. Qed.
End Arrays.
#[export] Hint Resolve zlen_nonneg : mds.

(** ** Counted loops

    [for_ l s f] runs the body [f] on the state for each element of [l] (an index range, or
    the elements a range-[for] visits); [for_ret] is the
    same with a body that may leave the function ([return] inside the loop). *)
Fixpoint for_ {S X} (l : list X) (s : S) (f : S → X → outcome S) : outcome S :=
  match l with
  | [] => Ret s
  | x :: l => s ← f s x; for_ l s f
  end.
Fixpoint for_ret {S R X} (l : list X) (s : S) (f : S → X → outcome (S * option R)) :
    outcome (S * option R) :=
  match l with
  | [] => Ret (s, None)
  | x :: l =>
      r ← f s x;
      match r.2 with Some v => Ret (r.1, Some v) | None => for_ret l r.1 f end
  end.

Lemma for_inv {S X} (I : S → Prop) (l : list X) (s : S) (f : S → X → outcome S) :
  I s → (∀ s x, x ∈ l → I s → returns (f s x) I) → returns (for_ l s f) I.
Proof.
  revert s. induction l as [|x l IH]; intros s Hs Hf; simpl; [by apply returns_ret|].
  eapply returns_bind; [apply Hf; [left|done]|]. intros s' Hs'. apply IH; [done|].
  intros. apply Hf; [by right|done].
Qed.

(** total correctness of a [for] with an invariant that follows the index *)
Lemma for_seqZ {S} (I : Z → S → Prop) (m n : Z) (s : S) (f : S → Z → outcome S) :
  0 <= n → I m s → (∀ s i, m <= i < m + n → I i s → returns (f s i) (I (i + 1))) →
  returns (for_ (seqZ m n) s f) (I (m + n)).
Proof.
  intros Hn. revert m s. pattern n. apply natlike_ind; [| |done]; clear n Hn.
  { intros m s Hs _. rewrite Z.add_0_r. by apply returns_ret. }
  intros n Hn IH m s Hs Hf. rewrite seqZ_cons by lia. simpl.
  eapply returns_bind; [apply Hf; [lia|done]|]. intros s' Hs'.
  rewrite Z.pred_succ. replace (m + Z.succ n) with (Z.succ m + n) by lia.
  replace (m + 1) with (Z.succ m) in Hs' by lia.
  apply IH; [done|]. intros. apply Hf; [lia|done].
Qed.

Lemma for_ret_inv {S R X} (I : S → Prop) (Q : R → S → Prop) (l : list X) (s : S)
    (f : S → X → outcome (S * option R)) :
  I s →
  (∀ s x, x ∈ l → I s →
    returns (f s x) (λ r, match r.2 with Some v => Q v r.1 | None => I r.1 end)) →
  returns (for_ret l s f) (λ r, match r.2 with Some v => Q v r.1 | None => I r.1 end).
Proof.
  revert s. induction l as [|x l IH]; intros s Hs Hf; simpl; [by apply returns_ret|].
  eapply returns_bind; [apply Hf; [left|done]|]. intros [s' [v|]] Hs'; simpl in *.
  { by apply returns_ret. }
  apply IH; [done|]. intros. apply Hf; [by right|done].
Qed.

(** the same with an invariant that follows the index *)
Lemma for_ret_seq {S R} (I : Z → S → Prop) (Q : R → S → Prop) (m n : Z) (s : S)
    (f : S → Z → outcome (S * option R)) :
  0 <= n → I m s →
  (∀ s i, m <= i < m + n → I i s →
    returns (f s i) (λ r, match r.2 with Some v => Q v r.1 | None => I (i + 1) r.1 end)) →
  returns (for_ret (seqZ m n) s f) (λ r, match r.2 with Some v => Q v r.1 | None => I (m + n) r.1 end).
Proof.
  intros Hn. revert m s. pattern n. apply natlike_ind; [| |done]; clear n Hn.
  { intros m s Hs _. rewrite Z.add_0_r. by apply returns_ret. }
  intros n Hn IH m s Hs Hf. rewrite seqZ_cons by lia. cbn [for_ret].
  eapply returns_bind; [apply Hf; [lia|done]|]. intros [s' [v|]] Hs'; cbn [fst snd] in *.
  { by apply returns_ret. }
  rewrite Z.pred_succ. replace (m + Z.succ n) with (Z.succ m + n) by lia.
  replace (m + 1) with (Z.succ m) in Hs' by lia.
  apply IH; [done|]. intros. apply Hf; [lia|done].
Qed.

(** partial correctness of the same loop, for calls known to return *)
Lemma for_ret_seqZ {S R} (I : Z → S → Prop) (Q : R → S → Prop) (m n : Z) (s s' : S) (r : option R)
    (f : S → Z → outcome (S * option R)) :
  0 <= n → I m s →
  (∀ s i s' r, m <= i < m + n → I i s → f s i = Ret (s', r) →
     match r with Some v => Q v s' | None => I (i + 1) s' end) →
  for_ret (seqZ m n) s f = Ret (s', r) →
  match r with Some v => Q v s' | None => I (m + n) s' end.
Proof.
  intros Hn. revert m s. pattern n. apply natlike_ind; [| |done]; clear n Hn.
  { intros m s Hs _ [= <- <-]. by rewrite Z.add_0_r. }
  intros n Hn IH m s Hs Hf. rewrite seqZ_cons by lia. cbn [for_ret].
  intros ([s1 [v|]] & H1 & H2)%bind_Ret; cbn [fst snd] in H2.
  - injection H2 as <- <-. apply (Hf s m s1 (Some v) ltac:(lia) Hs H1).
  - pose proof (Hf s m s1 None ltac:(lia) Hs H1) as Hs1. cbn in Hs1. rewrite Z.pred_succ in H2.
    replace (m + Z.succ n) with (Z.succ m + n) by lia.
    apply (IH (Z.succ m) s1); [by replace (Z.succ m) with (m + 1) by lia| |done].
    intros s2 i s3 r3 Hi HI Hfi. apply (Hf s2 i s3 r3); [lia|done|done].
Qed.

(** ** Record update

    [r <| f := v |>] writes one field, as an assignment through a pointer does;
    [set_field] finds the setter of a projection. *)
Class Setter {R T} (proj : R → T) : Type := setter : (T → T) → R → R.
Definition set_field {R T} (proj : R → T) {S : Setter proj} (f : T → T) (r : R) : R :=
  setter f r.

(** [λ r, Build (field1 r) ... (fieldn r)]: found by solving [?r' = r] fieldwise,
    so that a projection of an updated record computes without a case on it. *)
Ltac eta_record R :=
  let w := constr:(ltac:(
    let r := fresh "r" in
    intro r; unshelve refine (ex_intro _ _ _);
    [ econstructor; case r; clear r; intros | case r; reflexivity ])
    : ∀ r : R, ∃ r', r' = r) in
  lazymatch w with λ r, ex_intro _ (@?e r) _ => e end.

Ltac app_head t := lazymatch t with ?f _ => app_head f | _ => t end.

Ltac derive_setter :=
  lazymatch goal with
  | |- @Setter ?R ?T ?proj =>
    let e := eta_record R in
    let hd := app_head proj in
    let fld := eval cbv beta delta [hd] in (λ r : R, proj r) in
    exact (λ (f : T → T) (r : R), ltac:(
      let b := eval cbv beta in (e r) in
      let v := eval cbv beta in (fld r) in
      let g := eval pattern v in b in
      lazymatch g with ?F _ => let res := eval cbv beta in (F (f v)) in exact res end))
  end.
#[export] Hint Extern 1 (Setter _) => derive_setter : typeclass_instances.

Arguments set_field {R T} proj {S} f r : simpl never.

Declare Scope mds_scope.
Delimit Scope mds_scope with mds.
Open Scope mds_scope.
Notation "r <| p := v |>" := (set_field p (λ _, v) r)
  (at level 12, p at level 11, v at level 200, left associativity,
   format "r  '[' <| p  :=  v |> ']'") : mds_scope.
Notation "r <| p ::= f |>" := (set_field p f r)
  (at level 12, p at level 11, f at level 200, left associativity,
   format "r  '[' <| p  ::=  f |> ']'") : mds_scope.

(** ** [rand()]

    The C library's generator is a parameter: a state and a step whose results
    lie between 0 and [RAND_MAX]. *)
Class RandSource (G : Type) := {
  rand : G → Z * G;
  rand_range : ∀ g, 0 <= (rand g).1 < 2147483648
}.

(** A counter as the generator, for the concrete runs of the witnesses. *)
#[export] Instance counter_rand : RandSource Z | 10 := {|
  rand g := (g mod 2147483648, g + 1);
  rand_range g := Z.mod_pos_bound g 2147483648 eq_refl
|}.

(** [std::mt19937_64]: a state and a step that returns 64 bits *)
Class Rng64 (G : Type) := {
  rng : G → Z * G;
  rng_range : ∀ g, is_u64 (rng g).1
}.
#[export] Instance counter_rng : Rng64 Z | 10 := {|
  rng g := (u64 g, g + 1);
  rng_range g := u64_is g
|}.

(** ** Numbers in C strings

    [strtol(s, &end, 0)] skips white space, takes a sign and a base prefix, and reads
    digits; [None] when there is no digit ([end == s]). The value saturates at the
    range of [long]. *)
From Stdlib Require Ascii.
Notation ascii := Ascii.ascii.
Definition code (c : ascii) : Z := Z.of_nat (Ascii.nat_of_ascii c).
Definition is_space (c : ascii) : bool := (code c =? 32) || ((9 <=? code c) && (code c <=? 13)).
Definition digit (c : ascii) : option Z :=
  if (48 <=? code c) && (code c <=? 57) then Some (code c - 48) else None.
Fixpoint digits (acc : Z) (s : string) : Z :=
  match s with
  | EmptyString => acc
  | String c s => match digit c with Some d => digits (10 * acc + d) s | None => acc end
  end.
Definition clamp_long (n : Z) : Z := Z.max (-9223372036854775808) (Z.min n 9223372036854775807).

Definition tolower (c : ascii) : ascii :=
  if (65 <=? code c) && (code c <=? 90) then Ascii.ascii_of_nat (Z.to_nat (code c + 32)) else c.
Fixpoint lower (s : string) : string :=
  match s with EmptyString => EmptyString | String c s => String (tolower c) (lower s) end.
Definition digit_val (c : ascii) : option Z :=
  let n := code (tolower c) in
  if (48 <=? n) && (n <=? 57) then Some (n - 48)
  else if (97 <=? n) && (n <=? 122) then Some (n - 87) else None.
Fixpoint digits_in (base : Z) (acc : option Z) (s : string) : option Z :=
  match s with
  | EmptyString => acc
  | String c s =>
      match digit_val c with
      | Some d => if d <? base then digits_in base (Some (base * default 0 acc + d)) s else acc
      | None => acc
      end
  end.
Definition magnitude (s : string) : option Z :=
  match s with
  | String c0 (String c1 s') =>
      if code c0 =? 48 then
        if code (tolower c1) =? 120 then Some (default 0 (digits_in 16 None s'))
        else digits_in 8 None s
      else digits_in 10 None s
  | _ => digits_in 10 None s
  end.
Fixpoint strtol (s : string) : option Z :=
  match s with
  | EmptyString => None
  | String c s' =>
      if is_space c then strtol s'
      else if code c =? 45 then (λ n, clamp_long (- n)) <$> magnitude s'
      else clamp_long <$> magnitude (if code c =? 43 then s' else s)
  end.

(** Projections of updated records, computed without unfolding the update. *)
Ltac rsimp :=
  repeat match goal with
  | |- context [?q (@set_field ?R ?T ?p ?S ?f ?r)] =>
      first [ change (q (@set_field R T p S f r)) with (f (q r)); cbv beta
            | change (q (@set_field R T p S f r)) with (q r) ]
  | H : context [?q (@set_field ?R ?T ?p ?S ?f ?r)] |- _ =>
      first [ change (q (@set_field R T p S f r)) with (f (q r)) in H; cbv beta in H
            | change (q (@set_field R T p S f r)) with (q r) in H ]
  end.

(** One step of a call: the bind is computed, updates stay folded. *)
Ltac osimp :=
  cbn [mbind outcome_bind mret outcome_ret fmap outcome_fmap assert_
       fst snd negb andb orb]; rsimp.

(** ** [double]

    IEEE binary64 values and operations are the specification floats of the
    Standard Library (pure integer computations, no primitive). *)
From Stdlib Require Export SpecFloat.
Definition double : Type := spec_float.
Definition double_of_Z (n : Z) : double :=
  match n with
  | Z0 => S754_zero false
  | Zpos p => binary_normalize 53 1024 (Zpos p) 0 false
  | Zneg p => binary_normalize 53 1024 (Zneg p) 0 true
  end.
Definition dadd : double → double → double := SFadd 53 1024.
Definition dsub : double → double → double := SFsub 53 1024.
Definition dmul : double → double → double := SFmul 53 1024.
Definition ddiv : double → double → double := SFdiv 53 1024.
Definition dltb : double → double → bool := SFltb.
Definition dleb : double → double → bool := SFleb.
