(* ===== verification/Params.v ===== *)
(** * Command-line parameters (src/params.h)

    The globals of params.h are the fields of [Params]; [read_params] is the loop
    over [argv] that sets them. *)
From S2P Require Import Prelude.
From Stdlib Require Import Ascii.
Open Scope Z_scope.

Record Params := mkParams {
  CORE_WIDTH : Z; ROB_SIZE : Z;
  TRACE_LIMIT : Z; INST_LIMIT : Z; NUM_THREADS : Z; RATE_MODE_THREADS : Z;
  LINESIZE : Z; OS_PAGESIZE : Z;
  L3_SIZE_KB : Z; L3_ASSOC : Z; L3_LATENCY : Z; L3_REPL : Z; L3_PERFECT : Z;
  MEM_SIZE_MB : Z; MEM_CHANNELS : Z; MEM_BANKS : Z; MEM_PAGESIZE : Z; MEM_CLOSEPAGE : Z;
  DRAM_REF_POLICY : Z; DRAM_MAP_POLICY : Z; DRAM_SCHED_POLICY : Z; DRAM_MOP_GANGSIZE : Z;
  tRC : Z; tRFC : Z; tACT : Z; tCAS : Z; tPRE : Z; tRAS : Z; tRDRD : Z; tREFI : Z;
  tREFW : Z; tBUS : Z; tALERT : Z; tRFM : Z; tDRFM : Z;
  MCPARA_DRFM_PERIOD : Z;
  DRAM_RFM_POLICY : Z; RFM_TH : Z; RFM_REFTH : Z; RFM_RAAMMT : Z; DRAM_BANKGROUPS : Z;
  DRAM_MAX_TOPEN : Z; MEM_RSRV_MB : Z; RAND_SEED : Z;
  DRAMSIM3CFG : string
}.

Definition CONFIG_FILE_DEFAULT : string := "../config_dramsim3/DDR5_32Gb_x4_4800_norfm.ini".

(** the initialisers of params.h (and [tFAW] of dramchannel.cpp is its own constant) *)
Definition default_params : Params := {|
  CORE_WIDTH := 4; ROB_SIZE := 256;
  TRACE_LIMIT := 2000000000; INST_LIMIT := 1000000000; NUM_THREADS := 0;
  RATE_MODE_THREADS := 0;
  LINESIZE := 64; OS_PAGESIZE := 4096;
  L3_SIZE_KB := 8192; L3_ASSOC := 16; L3_LATENCY := 24; L3_REPL := 0; L3_PERFECT := 0;
  MEM_SIZE_MB := 32768; MEM_CHANNELS := 2; MEM_BANKS := 64; MEM_PAGESIZE := 8192;
  MEM_CLOSEPAGE := 0;
  DRAM_REF_POLICY := 2; DRAM_MAP_POLICY := 3; DRAM_SCHED_POLICY := 1;
  DRAM_MOP_GANGSIZE := 2;
  tRC := 48*4; tRFC := 410*4; tACT := 12*4; tCAS := 12*4; tPRE := 12*4; tRAS := 36*4;
  tRDRD := 3*4; tREFI := 3900*4; tREFW := 32*1000*1000*4; tBUS := 3*4; tALERT := 350*4;
  tRFM := 205*4; tDRFM := 410*4;
  MCPARA_DRFM_PERIOD := 0;
  DRAM_RFM_POLICY := 0; RFM_TH := 16; RFM_REFTH := 16; RFM_RAAMMT := 6*16;
  DRAM_BANKGROUPS := 8; DRAM_MAX_TOPEN := 3900*5; MEM_RSRV_MB := 0; RAND_SEED := 1234;
  DRAMSIM3CFG := CONFIG_FILE_DEFAULT
|}.

(** ** [atoi]: leading white space, an optional sign, digits; the value saturates at
    the range of [long] and is truncated to [int] (as the C library does) *)
Fixpoint atoi (s : string) : Z :=
  match s with
  | EmptyString => 0
  | String c s' =>
      if is_space c then atoi s'
      else if Ascii.eqb c "-" then i32 (clamp_long (- digits 0 s'))
      else if Ascii.eqb c "+" then i32 (clamp_long (digits 0 s'))
      else i32 (clamp_long (digits 0 s))
  end.

(** ** The option chain *)

(** what an option does: set a flag, stop, take the next argument as a number or as
    the DRAMsim3 configuration *)
Inductive option_kind :=
  | OptHelp
  | OptFlag (f : Params → Params)
  | OptNum (f : Z → Params → Params)
  | OptCfg.

(** The [else if (!strcmp(argv[ii], ...))] chain. The assignments convert the [int]
    of [atoi] to [uns64]. *)
Definition sim_option (arg : string) : option option_kind :=
  let opt s := String.eqb arg s in
  if opt "-h"%string || opt "-help"%string then Some OptHelp
  else if opt "-inst_limit"%string then Some (OptNum (λ v p, p <| INST_LIMIT := u64 v |>))
  else if opt "-robsize"%string then Some (OptNum (λ v p, p <| ROB_SIZE := u64 v |>))
  else if opt "-os_pagesize"%string then Some (OptNum (λ v p, p <| OS_PAGESIZE := u64 v |>))
  else if opt "-l3perfect"%string then Some (OptFlag (λ p, p <| L3_PERFECT := 1 |>))
  else if opt "-l3repl"%string then Some (OptNum (λ v p, p <| L3_REPL := u64 v |>))
  else if opt "-l3sizekb"%string then Some (OptNum (λ v p, p <| L3_SIZE_KB := u64 v |>))
  else if opt "-l3sizemb"%string then Some (OptNum (λ v p, p <| L3_SIZE_KB := u64 (i32 (1024 * v)) |>))
  else if opt "-l3assoc"%string then Some (OptNum (λ v p, p <| L3_ASSOC := u64 v |>))
  else if opt "-l3latency"%string then Some (OptNum (λ v p, p <| L3_LATENCY := u64 v |>))
  else if opt "-memclosepage"%string then Some (OptFlag (λ p, p <| MEM_CLOSEPAGE := 1 |>))
  else if opt "-drammaxtopen"%string then Some (OptNum (λ v p, p <| DRAM_MAX_TOPEN := u64 v |>))
  else if opt "-rand_seed"%string then Some (OptNum (λ v p, p <| RAND_SEED := u64 v |>))
  else if opt "-mtapp"%string then Some (OptNum (λ v p, p <| RATE_MODE_THREADS := u64 v |>))
  else if opt "-ratemode"%string then Some (OptNum (λ v p, p <| RATE_MODE_THREADS := u64 v |>))
  else if opt "-dramrefpolicy"%string then Some (OptNum (λ v p, p <| DRAM_REF_POLICY := u64 v |>))
  else if opt "-drammappolicy"%string then Some (OptNum (λ v p, p <| DRAM_MAP_POLICY := u64 v |>))
  else if opt "-dramschedpolicy"%string then Some (OptNum (λ v p, p <| DRAM_SCHED_POLICY := u64 v |>))
  else if opt "-drammop"%string then Some (OptNum (λ v p, p <| DRAM_MOP_GANGSIZE := u64 v |>))
  else None.

(** the rest of the chain: trace limit, DRAM timing, refresh management *)
Definition dram_option (arg : string) : option option_kind :=
  let opt s := String.eqb arg s in
  if opt "-limit"%string then Some (OptNum (λ v p, p <| TRACE_LIMIT := u64 v |>))
  else if opt "-tRC"%string then Some (OptNum (λ v p, p <| tRC := u64 v |>))
  else if opt "-tRFC"%string then Some (OptNum (λ v p, p <| tRFC := u64 v |>))
  else if opt "-tACT"%string then Some (OptNum (λ v p, p <| tACT := u64 v |>))
  else if opt "-tCAS"%string then Some (OptNum (λ v p, p <| tCAS := u64 v |>))
  else if opt "-tPRE"%string then Some (OptNum (λ v p, p <| tPRE := u64 v |>))
  else if opt "-tRAS"%string then Some (OptNum (λ v p, p <| tRAS := u64 v |>))
  else if opt "-tRDRD"%string then Some (OptNum (λ v p, p <| tRDRD := u64 v |>))
  else if opt "-tREFI"%string then Some (OptNum (λ v p, p <| tREFI := u64 v |>))
  else if opt "-tREFW"%string then Some (OptNum (λ v p, p <| tREFW := u64 v |>))
  else if opt "-tRFM"%string then Some (OptNum (λ v p, p <| tRFM := u64 v |>))
  else if opt "-mcpara"%string then Some (OptNum (λ v p, p <| MCPARA_DRFM_PERIOD := u64 v |>))
  else if opt "-enablerfm"%string then Some (OptFlag (λ p, p <| DRAM_RFM_POLICY := 2 |>))
  else if opt "-dramrfmpolicy"%string then Some (OptNum (λ v p, p <| DRAM_RFM_POLICY := u64 v |>))
  else if opt "-rfmth"%string then Some (OptNum (λ v p, p <| RFM_TH := u64 v |>))
  else if opt "-rfmrefth"%string then Some (OptNum (λ v p, p <| RFM_REFTH := u64 v |>))
  else if opt "-rfmraammt"%string then Some (OptNum (λ v p, p <| RFM_RAAMMT := u64 v |>))
  else if opt "-dramsim3cfg"%string then Some OptCfg
  else None.

Definition param_option (arg : string) : option option_kind :=
  match sim_option arg with Some k => Some k | None => dram_option arg end.

(** ** The loop over the arguments *)

Definition MAX_THREADS : Z := 64.

(** the parameters, [num_threads] and the 256 trace file names *)
Record Cmdline := mkCmdline {
  params : Params;
  num_threads : Z;
  addr_trace_filename : list string
}.
Definition cmdline0 : Cmdline := mkCmdline default_params 0 (replicate 256 EmptyString).

(** [strcpy(addr_trace_filename[i], s)], a buffer of 1024 characters *)
Definition strcpy_name (c : Cmdline) (i : Z) (s : string) : outcome Cmdline :=
  if (String.length s <? 1024)%nat then
    l ← aset c.(addr_trace_filename) i s;
    Ret (c <| addr_trace_filename := l |>)
  else Fault OutOfRange.

(** [sprintf(msg, "Invalid option %s", ...); die_message(msg)], [msg] of 256 characters *)
Definition invalid_option (arg : string) : fault :=
  if (String.length arg <? 241)%nat then Exit 1 else OutOfRange.

(** the effect of [-dramsim3cfg]: [getcwd] may fail *)
Definition set_cfg (cwd : option string) (v : string) (p : Params) : Params :=
  match cwd with
  | Some d => p <| DRAMSIM3CFG := (d ++ "/" ++ v)%string |>
  | None => p
  end.

Definition starts_with_dash (s : string) : bool :=
  match s with String c _ => Ascii.eqb c "-" | EmptyString => false end.

Fixpoint read_args (cwd : option string) (args : list string) (c : Cmdline) : outcome Cmdline :=
  match args with
  | [] => Ret c
  | arg :: rest =>
      if starts_with_dash arg then
        match param_option arg, rest with
        | None, _ => Fault (invalid_option arg)
        | Some OptHelp, _ => Fault (Exit 0)
        | Some (OptFlag f), _ => read_args cwd rest (c <| params ::= f |>)
        | Some (OptNum f), v :: rest => read_args cwd rest (c <| params ::= f (atoi v) |>)
        | Some OptCfg, v :: rest => read_args cwd rest (c <| params ::= set_cfg cwd v |>)
        (* [if (ii < argc - 1)]: a last option without its value is ignored *)
        | Some _, [] => Ret c
        end
      else if c.(num_threads) <? MAX_THREADS then
        c ← strcpy_name c c.(num_threads) arg;
        let n := c.(num_threads) + 1 in
        read_args cwd rest (c <| num_threads := n |>
                              <| params ::= λ p, p <| NUM_THREADS := n |> |>)
      else Fault (invalid_option arg)
  end.

(** [for (ii = 1; ii < num_threads; ii++) strcpy(name[ii], name[0])] *)
Definition copy_names (c : Cmdline) : outcome Cmdline :=
  foldl (λ r ii, c ← r; s ← aget c.(addr_trace_filename) 0; strcpy_name c ii s)
    (Ret c) (seqZ 1 (c.(num_threads) - 1)).

Definition read_params (cwd : option string) (args : list string) : outcome Cmdline :=
  c ← read_args cwd args cmdline0;
  if c.(num_threads) =? 0 then Fault (Exit 1)
  else if negb (c.(params).(RATE_MODE_THREADS) =? 0) then
    let n := c.(params).(RATE_MODE_THREADS) in
    copy_names (c <| num_threads := i32 n |> <| params ::= λ p, p <| NUM_THREADS := n |> |>)
  else Ret c.

(** ** What a successful parse promises *)

Definition is_int64 (n : Z) : Prop := ∃ v, is_i32 v ∧ n = u64 v.

Lemma atoi_is (s : string) : is_i32 (atoi s).
Proof.
  induction s as [|c s IH]; cbn [atoi]; [by vm_compute|].
  destruct (is_space c); [done|]. repeat case_match; apply i32_is.
Qed.

(** an option leaves the thread count alone and stores a converted [int] *)
Definition keeps (p p' : Params) : Prop :=
  p'.(NUM_THREADS) = p.(NUM_THREADS) ∧
  (is_int64 p.(RATE_MODE_THREADS) → is_int64 p'.(RATE_MODE_THREADS)).

Lemma param_option_keeps (arg : string) (k : option_kind) :
  param_option arg = Some k →
  match k with
  | OptFlag f => ∀ p, keeps p (f p)
  | OptNum f => ∀ v p, is_i32 v → keeps p (f v p)
  | _ => True
  end.
Proof.
  intros H. unfold param_option in H.
  destruct (sim_option arg) as [k'|] eqn:E; [injection H as ->; unfold sim_option in E; clear - E; rename E into H
    |clear E; unfold dram_option in H];
  repeat match type of H with
  | (if ?b then _ else _) = _ => destruct b; [injection H as <-; first
      [ exact I | intros; split; rsimp; [reflexivity|intros ?; assumption]
      | intros; split; rsimp; [reflexivity|intros _; eexists; split; [eassumption|reflexivity]] ]|]
  end;
  discriminate H.
Qed.

Record args_wf (c : Cmdline) : Prop := {
  aw_threads : 0 <= c.(num_threads) <= MAX_THREADS;
  aw_agree : c.(params).(NUM_THREADS) = c.(num_threads);
  aw_rate : is_int64 c.(params).(RATE_MODE_THREADS);
  aw_len : zlen c.(addr_trace_filename) = 256;
  aw_names : Forall (λ s, (String.length s < 1024)%nat) c.(addr_trace_filename)
}.

Lemma args_wf_params c f :
  args_wf c → (∀ p, keeps p (f p)) → args_wf (c <| params ::= f |>).
Proof.
  intros [] Hf. destruct (Hf c.(params)) as [Hn Hr]. split; rsimp; try assumption.
  - by rewrite Hn.
  - by apply Hr.
Qed.

Lemma strcpy_name_spec c i s c' :
  strcpy_name c i s = Ret c' →
  (String.length s < 1024)%nat ∧ 0 <= i < zlen c.(addr_trace_filename) ∧
  c' = c <| addr_trace_filename := <[Z.to_nat i := s]> c.(addr_trace_filename) |>.
Proof.
  unfold strcpy_name. destruct (Nat.ltb_spec (String.length s) 1024); [|done].
  intros (l & [? ->]%aset_Ret & Hk)%bind_Ret. injection Hk as <-. done.
Qed.

Lemma strcpy_wf c i s c' :
  args_wf c → strcpy_name c i s = Ret c' → args_wf c' ∧ c'.(num_threads) = c.(num_threads).
Proof.
  intros [] (Hs & Hi & ->)%strcpy_name_spec. split; [|done].
  split; rsimp; try assumption.
  - unfold zlen. by rewrite length_insert.
  - by apply Forall_insert.
Qed.

Lemma read_args_wf cwd args c c' :
  args_wf c → read_args cwd args c = Ret c' → args_wf c'.
Proof.
  revert c. induction args as [args IH] using (induction_ltof1 _ (@length string)).
  unfold ltof in IH. intros c Hwf. destruct args as [|arg rest]; cbn [read_args].
  { intros [= <-]. done. }
  destruct (starts_with_dash arg).
  - destruct (param_option arg) as [k|] eqn:Hk; [|done].
    apply param_option_keeps in Hk.
    destruct k as [|f|f|], rest as [|v rest]; try done;
      try (intros [= <-]; assumption);
      apply IH; simpl; try lia; apply args_wf_params; auto.
    + intros p. apply Hk, atoi_is.
    + intros p. unfold set_cfg. destruct cwd; split; done.
  - destruct (Z.ltb_spec (num_threads c) MAX_THREADS); [|done].
    intros (c1 & Hc1 & Hk)%bind_Ret. apply strcpy_wf in Hc1 as [[] Hn]; [|done].
    eapply IH in Hk; [done|simpl; lia|]. split; rsimp; try assumption; lia.
Qed.

Lemma seqZ_cons_pos (m n : Z) : 0 < n → seqZ m n = m :: seqZ (m + 1) (n - 1).
Proof. intros. rewrite (seqZ_cons m n) by lia. by rewrite <- Z.sub_1_r. Qed.

Lemma foldl_fault {A B} (f : A → B → outcome A) (e : fault) (l : list B) :
  foldl (λ r x, a ← r; f a x) (Fault e) l = Fault e.
Proof. induction l; simpl; auto. Qed.

(** after the copies, names [0 .. n-1] are name 0 *)
Lemma copy_names_spec s0 (m : Z) k c c' :
  0 < m → aget c.(addr_trace_filename) 0 = Ret s0 →
  (∀ i, 0 <= i < m → aget c.(addr_trace_filename) i = Ret s0) →
  foldl (λ r ii, c ← r; s ← aget c.(addr_trace_filename) 0; strcpy_name c ii s)
    (Ret c) (seqZ m k) = Ret c' →
  (∀ i, 0 <= i < m + k → aget c'.(addr_trace_filename) i = Ret s0) ∧
  zlen c'.(addr_trace_filename) = zlen c.(addr_trace_filename) ∧
  c'.(num_threads) = c.(num_threads) ∧ c'.(params) = c.(params).
Proof.
  destruct (decide (0 <= k)) as [Hk|].
  2:{ rewrite seqZ_nil by lia. intros ??? [= <-]. split_and!; auto with lia. }
  revert m c. pattern k. apply natlike_ind; [| |done]; clear k Hk.
  { intros m c ? ? Hall [= <-]. rewrite Z.add_0_r. done. }
  intros k Hk IH m c Hm H0 Hall. rewrite seqZ_cons_pos by lia.
  replace (Z.succ k - 1) with k by lia. cbn [foldl]. osimp. rewrite H0. osimp.
  destruct (strcpy_name c m s0) as [c1|] eqn:Hc; [|rewrite foldl_fault; done].
  apply strcpy_name_spec in Hc as (Hs & Hb & ->).
  assert (aset c.(addr_trace_filename) m s0 = Ret (<[Z.to_nat m:=s0]> c.(addr_trace_filename)))
    as Hset by by apply aset_ok.
  intros Hf. apply IH in Hf as (H1 & H2 & H3 & H4); [|lia| |]; rsimp.
  - split_and!; try done.
    + intros i Hi. apply H1. lia.
    + rewrite H2. unfold zlen. by rewrite length_insert.
  - rewrite (aget_aset _ _ _ _ _ Hset). destruct (_ =? _); [done|]. apply Hall. lia.
  - intros i Hi. rewrite (aget_aset _ _ _ _ _ Hset).
    destruct (Z.eqb_spec i m); [done|]. apply Hall. lia.
Qed.

(** What the simulator starts from when the command line is accepted: the thread
    count is not zero, [NUM_THREADS] is that count as an [uns64], it is at most the 256
    rows of the trace-name table, every thread has a terminated name in it, and
    in rate mode all threads replay the first trace. *)
Theorem read_params_threads (cwd : option string) (args : list string) (c : Cmdline) :
  read_params cwd args = Ret c →
  c.(num_threads) ≠ 0 ∧ c.(params).(NUM_THREADS) = u64 c.(num_threads) ∧
  c.(num_threads) <= 256 ∧
  (c.(params).(RATE_MODE_THREADS) = 0 → c.(num_threads) <= MAX_THREADS) ∧
  ∃ s0, aget c.(addr_trace_filename) 0 = Ret s0 ∧
    ∀ i, 0 <= i < c.(num_threads) →
      ∃ s, aget c.(addr_trace_filename) i = Ret s ∧ (String.length s < 1024)%nat ∧
        (c.(params).(RATE_MODE_THREADS) ≠ 0 → s = s0).
Proof.
  unfold read_params. intros (c1 & Hargs & Hk)%bind_Ret.
  assert (args_wf c1) as [Hth Hag [v [Hv Hrate]] Hlen Hnames].
  { eapply read_args_wf; [|exact Hargs]. split; cbn; try done; [by exists 0|].
    apply (Forall_replicate _ 256). cbn. lia. }
  unfold MAX_THREADS in *.
  destruct (Z.eqb_spec (num_threads c1) 0) as [|Hne]; [done|].
  destruct (aget_ok c1.(addr_trace_filename) 0) as [s0 Hs0]; [lia|].
  assert (∀ l i s, Forall (λ s, (String.length s < 1024)%nat) l → aget l i = Ret s →
    (String.length s < 1024)%nat) as Hlook.
  { intros l i s Hl [_ Hs]%aget_Ret. by eapply Forall_lookup_1 in Hl. }
  destruct (Z.eqb_spec (RATE_MODE_THREADS (params c1)) 0) as [Hz|Hnz]; cbn in Hk.
  - injection Hk as <-. rewrite Hag, u64_id by (unfold is_u64; lia).
    split_and!; [done|done|lia|lia|]. exists s0. split; [done|]. intros i Hi.
    destruct (aget_ok c1.(addr_trace_filename) i) as [s Hs]; [lia|].
    exists s. split; [done|]. split; [by eapply Hlook|]. congruence.
  - assert (i32 (RATE_MODE_THREADS (params c1)) = v) as Hi.
    { rewrite Hrate. unfold is_i32, i32, u64 in *. clear -Hv. dmlia. }
    assert (v ≠ 0) by (intros ->; apply Hnz; by rewrite Hrate).
    unfold copy_names in Hk. rewrite Hi in Hk.
    match type of Hk with context [seqZ 1 (num_threads ?c2 - 1)] =>
      change (num_threads c2) with v in Hk;
      pose proof (copy_names_spec s0 1 (v - 1) c2 _ ltac:(lia) Hs0
        ltac:(intros i ?; assert (i = 0) as -> by lia; exact Hs0) Hk) as (Hall & Hl & Hn & Hp)
    end.
    rsimp. rewrite Hn, Hp. rsimp.
    assert (v <= 256).
    { destruct (Z.leb_spec v 256); [done|]. pose proof (aget_bound _ _ _ (Hall 256 ltac:(lia))).
      rewrite Hl in *. rsimp. lia. }
    split_and!; [done|by rewrite Hrate|done|done|]. exists s0. split.
    + destruct (decide (0 < v)); [by apply Hall; lia|].
      rewrite seqZ_nil in Hk by lia. injection Hk as <-. done.
    + intros i Hi'. exists s0. split; [apply Hall; lia|]. split; [by eapply Hlook|done].
Qed.

Lemma read_params_threads_witness :
  ∃ c, read_params None ["-ratemode"; "3"; "-robsize"; "128"; "a.gz"]%string = Ret c ∧
    num_threads c = 3 ∧ ROB_SIZE (params c) = 128 ∧
    ∃ s, aget (addr_trace_filename c) 2 = Ret s ∧ (String.length s < 1024)%nat.
Proof.
  eexists. split; [vm_compute; reflexivity|].
  match goal with |- num_threads ?c = _ ∧ _ =>
    pose proof (read_params_threads None ["-ratemode"; "3"; "-robsize"; "128"; "a.gz"]%string c
      ltac:(vm_compute; reflexivity)) as (_ & _ & _ & _ & s0 & _ & Hn) end.
  split; [reflexivity|]. split; [reflexivity|].
  destruct (Hn 2) as (s & Hs & Hl & _); [vm_compute; split; discriminate || reflexivity|].
  exists s. split; [exact Hs|exact Hl].
Defined.

(** A command line with no trace file never starts the simulator: with only
    options the process exits with status 0 (help) or 1, or an over-long option
    overruns the message buffer. *)
Theorem read_params_no_trace (cwd : option string) (args : list string) :
  Forall (λ a, starts_with_dash a = true) args →
  ∃ f, read_params cwd args = Fault f ∧ (f = Exit 0 ∨ f = Exit 1 ∨ f = OutOfRange).
Proof.
  intros Hd. unfold read_params.
  assert (∀ c, c.(num_threads) = 0 →
    (∃ f, read_args cwd args c = Fault f ∧ (f = Exit 0 ∨ f = Exit 1 ∨ f = OutOfRange)) ∨
    (∃ c', read_args cwd args c = Ret c' ∧ c'.(num_threads) = 0)) as H.
  { revert Hd. induction args as [args IH] using (induction_ltof1 _ (@length string)).
    unfold ltof in IH. intros Hd c Hc. destruct args as [|arg rest]; cbn [read_args].
    { right. eauto. }
    apply Forall_cons in Hd as [Ha Hd]. rewrite Ha.
    destruct (param_option arg) as [[|f|f|]|].
    - left. eauto.
    - apply IH; [simpl; lia|done|done].
    - destruct rest as [|v rest]; [right; eauto|].
      apply IH; [simpl; lia|by inversion Hd|done].
    - destruct rest as [|v rest]; [right; eauto|].
      apply IH; [simpl; lia|by inversion Hd|done].
    - left. eexists. split; [done|]. unfold invalid_option. case_match; auto. }
  destruct (H cmdline0 eq_refl) as [(f & -> & Hf)|(c & -> & Hc)]; simpl; eauto.
  rewrite Hc. simpl. eauto.
Qed.

Lemma read_params_no_trace_witness :
  ∃ f, read_params None ["-robsize"; "-l3perfect"]%string = Fault f ∧
    (f = Exit 0 ∨ f = Exit 1 ∨ f = OutOfRange).
Proof. apply read_params_no_trace. repeat constructor. Defined.
