(* ===== verification/MCache.v ===== *)
(** * The last-level cache (src/mcache.h, src/mcache.cpp)

    A set-associative cache over line addresses with four replacement policies.
    First the data and the operations as the source has them, then the
    invariant, the contents as a finite map, and the refinement theorems. *)
From S2P Require Import Prelude.

Definition MCACHE_SRRIP_MAX : Z := 7.
Definition MCACHE_SRRIP_INIT : Z := 1.
(** [LRU_WB_TTH] of params.h: no option changes it *)
Definition LRU_WB_TTH : Z := 32.

(** The enum; a cast from [uns] can also give a value without a name. *)
Inductive MCache_ReplPolicy : Set :=
  | REPL_LRU
  | REPL_RND
  | REPL_SRRIP
  | REPL_LRU_WBT
  | NUM_REPL_POLICY
  | REPL_unnamed (n : Z).

Definition to_MCache_ReplPolicy (n : Z) : MCache_ReplPolicy :=
  match n with
  | 0 => REPL_LRU
  | 1 => REPL_RND
  | 2 => REPL_SRRIP
  | 3 => REPL_LRU_WBT
  | 4 => NUM_REPL_POLICY
  | _ => REPL_unnamed n
  end.

Record MCache_Entry := mkEntry {
  valid : bool;
  dirty : bool;
  tag : Z;
  ripctr : Z;
  last_access : Z;
  orig_lineaddr : Z
}.

Record MCache := mkMCache {
  sets : Z;
  assocs : Z;
  repl_policy : MCache_ReplPolicy;
  index_policy : Z;
  entries : list MCache_Entry;
  touched_wayid : Z;
  touched_setid : Z;
  touched_lineid : Z;
  evicted_dirty_line : bool;
  evicted_line_addr : Z;
  s_count : Z;
  s_miss : Z;
  s_evict : Z;
  s_wb_avoided : Z;
  s_wb_forced : Z;
  wb_in_2k_epoch : Z
}.

(** [calloc] zeroes the entries. *)
Definition entry0 : MCache_Entry := mkEntry false false 0 0 0 0.

Definition mcache_new (sets assocs repl_policy : Z) : MCache :=
  mkMCache sets assocs (to_MCache_ReplPolicy repl_policy) 0
    (replicate (Z.to_nat (u32 (sets * assocs))) entry0)
    0 0 0 false 0 0 0 0 0 0 0.

Definition mcache_get_index (c : MCache) (addr : Z) : outcome Z :=
  match c.(index_policy) with
  | 0 => r ← umod addr c.(sets); Ret (u32 r)
  | _ => Fault (Exit (-1))
  end.

(** first and one-past-last line of a set, and [for (ii = start; ii < end; ii++)] *)
Definition set_start (c : MCache) (set : Z) : Z := u32 (set * c.(assocs)).
Definition set_end (c : MCache) (set : Z) : Z := u32 (set_start c set + c.(assocs)).
Definition ways (start en : Z) : list Z := seqZ start (en - start).

(** the search loop the operations share *)
Fixpoint find_tag (es : list MCache_Entry) (t : Z) (ii : list Z) : outcome (option Z) :=
  match ii with
  | [] => Ret None
  | i :: rest =>
      e ← aget es i;
      if e.(valid) && (e.(tag) =? t) then Ret (Some i) else find_tag es t rest
  end.

Definition mcache_access (c : MCache) (addr : Z) : outcome (MCache * bool) :=
  set ← mcache_get_index c addr;
  let start := set_start c set in
  let c := c <| s_count := u64 (c.(s_count) + 1) |> in
  hit ← find_tag c.(entries) addr (ways start (set_end c set));
  match hit with
  | Some ii =>
      e ← aget c.(entries) ii;
      es ← aset c.(entries) ii
             (e <| last_access := c.(s_count) |> <| ripctr := MCACHE_SRRIP_MAX |>);
      Ret (c <| entries := es |> <| touched_wayid := i32 (u32 (ii - start)) |>
             <| touched_setid := i32 set |> <| touched_lineid := i32 ii |>, true)
  | None =>
      Ret (c <| touched_wayid := 0 |> <| touched_setid := i32 set |>
             <| touched_lineid := i32 start |> <| s_miss := u64 (c.(s_miss) + 1) |>, false)
  end.

Definition mcache_probe (c : MCache) (addr : Z) : outcome bool :=
  set ← mcache_get_index c addr;
  hit ← find_tag c.(entries) addr (ways (set_start c set) (set_end c set));
  Ret (bool_decide (is_Some hit)).

Definition mcache_invalidate (c : MCache) (addr : Z) : outcome (MCache * bool) :=
  set ← mcache_get_index c addr;
  hit ← find_tag c.(entries) addr (ways (set_start c set) (set_end c set));
  match hit with
  | Some ii =>
      e ← aget c.(entries) ii;
      es ← aset c.(entries) ii (e <| valid := false |>);
      Ret (c <| entries := es |>, true)
  | None => Ret (c, false)
  end.

Definition mcache_mark_dirty (c : MCache) (addr : Z) : outcome (MCache * bool) :=
  set ← mcache_get_index c addr;
  hit ← find_tag c.(entries) addr (ways (set_start c set) (set_end c set));
  match hit with
  | Some ii =>
      e ← aget c.(entries) ii;
      es ← aset c.(entries) ii (e <| dirty := true |>);
      Ret (c <| entries := es |>, true)
  | None => Ret (c, false)
  end.

(** ** Victim selection *)

Fixpoint lru_scan (es : list MCache_Entry) (ii : list Z) (lowest : Z) : outcome Z :=
  match ii with
  | [] => Ret lowest
  | i :: rest =>
      e ← aget es i;
      l ← aget es lowest;
      lru_scan es rest (if e.(last_access) <? l.(last_access) then i else lowest)
  end.

Definition mcache_find_victim_lru (c : MCache) (set : Z) : outcome Z :=
  let start := set_start c set in
  lru_scan c.(entries) (ways start (set_end c set)) start.

Definition mcache_find_victim_rnd {G} `{RandSource G} (g : G) (c : MCache) (set : Z) :
    outcome (G * Z) :=
  let (r, g) := rand g in
  w ← umod (u32 r) c.(assocs);
  Ret (g, u32 (set_start c set + w)).

Fixpoint first_zero_rip (es : list MCache_Entry) (ii : list Z) : outcome (option Z) :=
  match ii with
  | [] => Ret None
  | i :: rest =>
      e ← aget es i;
      if e.(ripctr) =? 0 then Ret (Some i) else first_zero_rip es rest
  end.

Fixpoint dec_rip (es : list MCache_Entry) (ii : list Z) : outcome (list MCache_Entry) :=
  match ii with
  | [] => Ret es
  | i :: rest =>
      e ← aget es i;
      es ← aset es i (e <| ripctr := u32 (e.(ripctr) - 1) |>);
      dec_rip es rest
  end.

(** [while (victim == end)]; the fuel is a bound on the rounds *)
Fixpoint srrip_loop (fuel : nat) (es : list MCache_Entry) (ii : list Z) :
    outcome (list MCache_Entry * Z) :=
  match fuel with
  | O => Fault Diverge
  | S fuel =>
      z ← first_zero_rip es ii;
      match z with
      | Some victim => Ret (es, victim)
      | None => es ← dec_rip es ii; srrip_loop fuel es ii
      end
  end.

(** The counter of the first way bounds the number of rounds. *)
Definition srrip_fuel (c : MCache) (start : Z) : nat :=
  match aget c.(entries) start with
  | Ret e => S (Z.to_nat e.(ripctr))
  | Fault _ => 1
  end.

Definition mcache_find_victim_srrip (c : MCache) (set : Z) : outcome (MCache * Z) :=
  let start := set_start c set in
  r ← srrip_loop (srrip_fuel c start) c.(entries) (ways start (set_end c set));
  Ret (c <| entries := r.1 |>, r.2).

(** the scan of [mcache_find_victim_lru_wbt]: (found, lowest) *)
Fixpoint wbt_scan (es : list MCache_Entry) (wb : Z) (ii : list Z) (found : bool) (lowest : Z) :
    outcome (bool * Z) :=
  match ii with
  | [] => Ret (found, lowest)
  | i :: rest =>
      e ← aget es i;
      if negb e.(valid) then Ret (true, i)
      else
        l ← aget es lowest;
        if (negb found || (e.(last_access) <? l.(last_access)))
           && (negb e.(dirty) || (wb <? LRU_WB_TTH))
        then wbt_scan es wb rest true i
        else wbt_scan es wb rest found lowest
  end.

Definition mcache_find_victim_lru_wbt (c : MCache) (set : Z) : outcome (MCache * Z) :=
  let start := set_start c set in
  fl ← wbt_scan c.(entries) c.(wb_in_2k_epoch) (ways start (set_end c set)) false start;
  let '(found, lowest) := fl in
  lruv ← mcache_find_victim_lru c set;
  cl ← (if negb found then
          Ret (c <| s_wb_forced := u64 (c.(s_wb_forced) + 1) |>, lruv)
        else
          ev ← aget c.(entries) lruv;
          el ← aget c.(entries) lowest;
          Ret (if negb (lruv =? lowest) && ev.(dirty) && negb el.(dirty)
               then c <| s_wb_avoided := u64 (c.(s_wb_avoided) + 1) |> else c, lowest));
  let '(c, lowest) := cl in
  e ← aget c.(entries) lowest;
  Ret (if e.(dirty) then c <| wb_in_2k_epoch := u32 (c.(wb_in_2k_epoch) + 1) |> else c, lowest).

Fixpoint first_invalid (es : list MCache_Entry) (ii : list Z) : outcome (option Z) :=
  match ii with
  | [] => Ret None
  | i :: rest =>
      e ← aget es i;
      if negb e.(valid) then Ret (Some i) else first_invalid es rest
  end.

(** [int start], [int end]: the products are converted to [int] here. *)
Definition mcache_find_victim {G} `{RandSource G} (g : G) (c : MCache) (set : Z) :
    outcome (G * MCache * Z) :=
  let start := i32 (set * c.(assocs)) in
  let en := i32 (start + c.(assocs)) in
  inv ← first_invalid c.(entries) (ways start en);
  match inv with
  | Some ii => Ret (g, c, u32 ii)
  | None =>
      match c.(repl_policy) with
      | REPL_LRU => v ← mcache_find_victim_lru c set; Ret (g, c, v)
      | REPL_RND => gv ← mcache_find_victim_rnd g c set; Ret (gv.1, c, gv.2)
      | REPL_SRRIP => cv ← mcache_find_victim_srrip c set; Ret (g, cv.1, cv.2)
      | REPL_LRU_WBT => cv ← mcache_find_victim_lru_wbt c set; Ret (g, cv.1, cv.2)
      | NUM_REPL_POLICY | REPL_unnamed _ => Fault (Exit 1)
      end
  end.

Definition mcache_install {G} `{RandSource G} (g : G) (c : MCache) (addr : Z) :
    outcome (G * MCache) :=
  set ← mcache_get_index c addr;
  let c := c <| evicted_dirty_line := false |> in
  hit ← find_tag c.(entries) addr (ways (set_start c set) (set_end c set));
  match hit with
  | Some _ => Fault (Exit (-1))
  | None =>
      r ← mcache_find_victim g c set;
      let '(g, c, victim) := r in
      e ← aget c.(entries) victim;
      let c :=
        if e.(valid) then
          let c := c <| s_evict := u64 (c.(s_evict) + 1) |> in
          if e.(dirty) then
            c <| evicted_dirty_line := true |> <| evicted_line_addr := e.(tag) |>
          else c
        else c in
      es ← aset c.(entries) victim
             (e <| tag := addr |> <| valid := true |> <| dirty := false |>
                <| ripctr := MCACHE_SRRIP_INIT |> <| last_access := c.(s_count) |>);
      Ret (g, c <| entries := es |> <| touched_lineid := i32 victim |>
                <| touched_setid := i32 set |>
                <| touched_wayid := i32 (u32 (victim - u32 (set * c.(assocs)))) |>)
  end.

(** ** Well-formedness and the cache invariant *)

Definition known_policy (p : MCache_ReplPolicy) : bool :=
  match p with NUM_REPL_POLICY | REPL_unnamed _ => false | _ => true end.

Record wf (c : MCache) : Prop := {
  wf_sets : 0 < c.(sets);
  wf_assocs : 0 < c.(assocs);
  wf_size : c.(sets) * c.(assocs) < 2147483648;
  wf_len : zlen c.(entries) = c.(sets) * c.(assocs);
  wf_index : c.(index_policy) = 0;
  wf_rip : ∀ i e, aget c.(entries) i = Ret e → 0 <= e.(ripctr) <= MCACHE_SRRIP_MAX
}.

(** Every valid line sits in the set its address selects, and no address is
    held twice. *)
Definition placed (c : MCache) : Prop :=
  ∀ i e, aget c.(entries) i = Ret e → e.(valid) = true →
    0 <= e.(tag) ∧ i / c.(assocs) = e.(tag) mod c.(sets).
Definition unique (es : list MCache_Entry) : Prop :=
  ∀ i j e f, aget es i = Ret e → aget es j = Ret f →
    e.(valid) = true → f.(valid) = true → e.(tag) = f.(tag) → i = j.
Definition inv (c : MCache) : Prop := wf c ∧ placed c ∧ unique c.(entries).

(** The abstract cache: a finite map from line address to its dirty bit. *)
Definition holds (es : list MCache_Entry) (a : Z) (d : bool) : Prop :=
  ∃ i e, aget es i = Ret e ∧ e.(valid) = true ∧ e.(tag) = a ∧ e.(dirty) = d.
Definition models (c : MCache) (m : gmap Z bool) : Prop :=
  ∀ a d, m !! a = Some d ↔ holds c.(entries) a d.

(** the ways of the set that [a] selects *)
Definition set_of (c : MCache) (a : Z) : Z := a mod c.(sets).
Definition in_set (c : MCache) (s i : Z) : Prop :=
  s * c.(assocs) <= i < s * c.(assocs) + c.(assocs).

Lemma elem_of_ways s e i : i ∈ ways s e ↔ s <= i < e.
Proof. unfold ways. rewrite elem_of_seqZ. lia. Qed.

Section Sets.
Context (c : MCache) (Hwf : wf c).
Context (s : Z) (Hs : 0 <= s < c.(sets)).

Lemma set_bound : 0 <= s * c.(assocs) ∧ s * c.(assocs) + c.(assocs) <= c.(sets) * c.(assocs).
Proof using All. destruct Hwf. nia. Qed.
Lemma set_start_eq : set_start c s = s * c.(assocs).
Proof using All. destruct Hwf, set_bound. apply u32_id. unfold is_u32. lia. Qed.
Lemma set_end_eq : set_end c s = s * c.(assocs) + c.(assocs).
Proof using All.
  unfold set_end. rewrite set_start_eq. destruct Hwf, set_bound.
  apply u32_id. unfold is_u32. lia.
Qed.
Lemma set_way i : i ∈ ways (set_start c s) (set_end c s) ↔ in_set c s i.
Proof using All. rewrite elem_of_ways, set_start_eq, set_end_eq. done. Qed.
Lemma in_set_range i : in_set c s i → 0 <= i < zlen c.(entries).
Proof using All. destruct Hwf as [? ? ? -> ? ?], set_bound. unfold in_set. lia. Qed.
Lemma in_set_div i : in_set c s i ↔ 0 <= i ∧ i / c.(assocs) = s.
Proof using All.
  destruct Hwf, set_bound. unfold in_set. split.
  - intros. split; [lia|]. symmetry. apply (Z.div_unique_pos _ _ _ (i - s * c.(assocs))); lia.
  - intros [? <-]. pose proof (Z.div_mod i c.(assocs)). pose proof (Z.mod_pos_bound i c.(assocs)). lia.
Qed.
End Sets.

Lemma get_index_eq c a : wf c → mcache_get_index c a = Ret (set_of c a).
Proof.
  intros []. unfold mcache_get_index, set_of. rewrite wf_index0, umod_ok by lia. simpl. f_equal.
  assert (0 <= a mod c.(sets) < c.(sets)) by (apply Z.mod_pos_bound; lia).
  apply u32_id. unfold is_u32.
  assert (c.(sets) <= c.(sets) * c.(assocs)) by (apply Z.le_mul_diag_r; lia). lia.
Qed.
Lemma set_of_range c a : wf c → 0 <= set_of c a < c.(sets).
Proof. intros []. apply Z.mod_pos_bound; lia. Qed.
#[export] Hint Resolve set_of_range : mds.

(** ** The search loop *)

Definition hit_at (es : list MCache_Entry) (t i : Z) : Prop :=
  ∃ e, aget es i = Ret e ∧ e.(valid) = true ∧ e.(tag) = t.

Lemma find_tag_spec es t ii :
  (∀ i, i ∈ ii → 0 <= i < zlen es) →
  returns (find_tag es t ii) (λ r, match r with
    | Some i => i ∈ ii ∧ hit_at es t i
    | None => ∀ i, i ∈ ii → ¬ hit_at es t i end).
Proof.
  induction ii as [|i ii IH]; intros Hr; simpl.
  { apply returns_ret. intros ? []%not_elem_of_nil. }
  destruct (aget_ok es i) as [e He]; [apply Hr; left|]. rewrite He. simpl.
  destruct (e.(valid) && (e.(tag) =? t)) eqn:Hh.
  - apply returns_ret. split; [left|]. exists e.
    apply andb_true_iff in Hh as [? ?%Z.eqb_eq]. done.
  - eapply returns_mono; [apply IH; intros; apply Hr; by right|].
    intros [j|]; simpl.
    + intros []. split; [by right|done].
    + intros Hn j [->|Hj]%elem_of_cons; [|by apply Hn].
      intros (e' & He' & Hv & <-). rewrite He in He'. simplify_eq.
      rewrite Hv, Z.eqb_refl in Hh. done.
Qed.

Lemma hit_in_set c a i :
  wf c → placed c → hit_at c.(entries) a i → in_set c (set_of c a) i.
Proof.
  intros Hwf Hp (e & He & Hv & <-). destruct (Hp _ _ He Hv) as [? Hi].
  apply in_set_div; auto with mds. split; [|done]. apply aget_bound in He. lia.
Qed.

(** The loop over the ways of the selected set finds the address wherever it is. *)
Lemma lookup_spec c a :
  wf c → placed c →
  returns (find_tag c.(entries) a (ways (set_start c (set_of c a)) (set_end c (set_of c a))))
    (λ r, match r with
       | Some i => in_set c (set_of c a) i ∧ hit_at c.(entries) a i
       | None => ∀ i, ¬ hit_at c.(entries) a i end).
Proof.
  intros Hwf Hp. eapply returns_mono.
  { apply find_tag_spec. intros i Hi%set_way; [|done|auto with mds].
    eapply in_set_range; eauto with mds. }
  intros [i|].
  - intros [Hi ?]. rewrite set_way in Hi; auto with mds.
  - intros Hn i Hh. apply (Hn i); [|done].
    rewrite set_way; auto with mds. by apply hit_in_set.
Qed.

(** ** Writing one entry *)

Lemma unique_write es i e e' es' :
  unique es → aget es i = Ret e → aset es i e' = Ret es' →
  (∀ j, j ≠ i → e'.(valid) = true → ¬ hit_at es e'.(tag) j) → unique es'.
Proof.
  intros Hu He Hs Hn j k f g Hj Hk Hvf Hvg Htag.
  rewrite (aget_aset _ _ _ _ _ Hs) in Hj. rewrite (aget_aset _ _ _ _ _ Hs) in Hk.
  destruct (Z.eqb_spec j i), (Z.eqb_spec k i); simplify_eq.
  - done.
  - destruct (Hn k); [done|done|]. exists g. by rewrite Htag.
  - destruct (Hn j); [done|done|]. exists f. done.
  - by eapply Hu.
Qed.

Lemma holds_write es i e e' es' a d :
  unique es → aget es i = Ret e → aset es i e' = Ret es' →
  holds es' a d ↔
    (e'.(valid) = true ∧ e'.(tag) = a ∧ e'.(dirty) = d)
    ∨ (holds es a d ∧ ¬ (e.(valid) = true ∧ e.(tag) = a)).
Proof.
  intros Hu He Hs. unfold holds. setoid_rewrite (aget_aset _ _ _ _ _ Hs). split.
  - intros (j & f & Hf & Hv & Ht & Hd). destruct (Z.eqb_spec j i); simplify_eq.
    { by left. }
    right. split; [by exists j, f|]. intros []. eauto.
  - intros [(?&?&?)|[(j & f & Hf & Hv & Ht & Hd) Hn]].
    + exists i, e'. by rewrite Z.eqb_refl.
    + exists j, f. destruct (Z.eqb_spec j i) as [->|]; [|done].
      rewrite He in Hf. simplify_eq. by destruct Hn.
Qed.

Lemma holds_fun es a d d' : unique es → holds es a d → holds es a d' → d = d'.
Proof.
  intros Hu (i & e & Hi & Hv & Ht & <-) (j & f & Hj & Hv' & Ht' & <-).
  assert (i = j) by (eapply Hu; eauto; congruence). congruence.
Qed.
Lemma hit_holds es a : (∃ i, hit_at es a i) ↔ ∃ d, holds es a d.
Proof. unfold hit_at, holds. naive_solver. Qed.

(** The invariant reads only the geometry and the entries. *)
Definition same_geometry (c c' : MCache) : Prop :=
  c'.(sets) = c.(sets) ∧ c'.(assocs) = c.(assocs) ∧ c'.(index_policy) = c.(index_policy).

Lemma inv_write c c' i e e' :
  inv c → same_geometry c c' → aget c.(entries) i = Ret e →
  aset c.(entries) i e' = Ret c'.(entries) →
  0 <= e'.(ripctr) <= MCACHE_SRRIP_MAX →
  (e'.(valid) = true →
     0 <= e'.(tag) ∧ in_set c (set_of c e'.(tag)) i ∧
     ∀ j, j ≠ i → ¬ hit_at c.(entries) e'.(tag) j) →
  inv c'.
Proof.
  intros (Hwf & Hp & Hu) (Hg1 & Hg2 & Hg3) He Hs Hrip Hv.
  pose proof (λ j, aget_aset _ _ j _ _ Hs) as Hget.
  split; [|split].
  - destruct Hwf. split; rewrite ?Hg1, ?Hg2, ?Hg3; try done.
    + by rewrite (aset_length _ _ _ _ Hs).
    + intros j f. rewrite Hget. destruct (j =? i); intros; simplify_eq; [done|by eapply wf_rip0].
  - intros j f. rewrite Hget, Hg1, Hg2. destruct (Z.eqb_spec j i); intros Hf Hvf; simplify_eq.
    + destruct (Hv Hvf) as (? & Hi & _). split; [done|].
      apply in_set_div in Hi; auto with mds. apply Hi.
    + by apply Hp.
  - eapply unique_write; eauto. intros j Hj Hv'. by apply Hv.
Qed.

Lemma inv_ext c c' : inv c → same_geometry c c' → c'.(entries) = c.(entries) → inv c'.
Proof.
  intros (Hwf & Hp & Hu) (Hg1 & Hg2 & Hg3) He. split; [|split].
  - destruct Hwf. by split; rewrite ?Hg1, ?Hg2, ?Hg3, ?He.
  - intros i e. rewrite He, Hg1, Hg2. apply Hp.
  - by rewrite He.
Qed.

(** A write that keeps [valid] and [tag] keeps the invariant. *)
Lemma inv_touch c c' i e e' :
  inv c → same_geometry c c' → aget c.(entries) i = Ret e →
  aset c.(entries) i e' = Ret c'.(entries) →
  0 <= e'.(ripctr) <= MCACHE_SRRIP_MAX →
  (e'.(valid) = true → e.(valid) = true) → e'.(tag) = e.(tag) → inv c'.
Proof.
  intros Hi Hg He Hs Hrip Hv Ht. eapply inv_write; eauto.
  destruct Hi as (Hwf & Hp & Hu). intros Hv'%Hv. rewrite Ht.
  assert (hit_at c.(entries) e.(tag) i) as Hh by (by exists e).
  repeat split; [by eapply Hp| | |]; [by apply (hit_in_set c)..|].
  intros j Hj (f & Hf & Hvf & Htf). apply Hj. by eapply Hu.
Qed.

(** Equal contents up to the replacement metadata. *)
Definition same_line (e e' : MCache_Entry) : Prop :=
  e'.(valid) = e.(valid) ∧ e'.(dirty) = e.(dirty) ∧ e'.(tag) = e.(tag)
  ∧ e'.(last_access) = e.(last_access) ∧ 0 <= e'.(ripctr) <= e.(ripctr).
Definition same_lines (es es' : list MCache_Entry) : Prop := Forall2 same_line es es'.

Lemma same_lines_get es es' i e :
  same_lines es es' → aget es i = Ret e → ∃ e', aget es' i = Ret e' ∧ same_line e e'.
Proof.
  intros Hs [Hi He]%aget_Ret. destruct (Forall2_lookup_l _ _ _ _ _ Hs He) as (e' & ? & ?).
  exists e'. split; [by apply aget_Ret|done].
Qed.
Lemma same_lines_get_r es es' i e' :
  same_lines es es' → aget es' i = Ret e' → ∃ e, aget es i = Ret e ∧ same_line e e'.
Proof.
  intros Hs [Hi He]%aget_Ret. destruct (Forall2_lookup_r _ _ _ _ _ Hs He) as (e & ? & ?).
  exists e. split; [by apply aget_Ret|done].
Qed.
Lemma same_lines_zlen es es' : same_lines es es' → zlen es' = zlen es.
Proof. intros H%Forall2_length. unfold zlen. by rewrite H. Qed.

Lemma inv_same_lines c c' :
  inv c → same_geometry c c' → same_lines c.(entries) c'.(entries) → inv c'.
Proof.
  intros (Hwf & Hp & Hu) (Hg1 & Hg2 & Hg3) Hs.
  split; [|split].
  - destruct Hwf. split; rewrite ?Hg1, ?Hg2, ?Hg3; try done.
    + by rewrite (same_lines_zlen _ _ Hs).
    + intros i e He. destruct (same_lines_get_r _ _ _ _ Hs He) as (f & Hf & _&_&_&_&?).
      apply wf_rip0 in Hf. lia.
  - intros i e He Hv. destruct (same_lines_get_r _ _ _ _ Hs He) as (f & Hf & Hvf & _ & Ht & _).
    rewrite Ht, Hg1, Hg2. eapply Hp; [done|congruence].
  - intros i j e f He Hf Hve Hvf Htag.
    destruct (same_lines_get_r _ _ _ _ Hs He) as (e0 & He0 & Hse).
    destruct (same_lines_get_r _ _ _ _ Hs Hf) as (f0 & Hf0 & Hsf).
    destruct Hse as (? & ? & ? & ?), Hsf as (? & ? & ? & ?).
    eapply (Hu i j e0 f0); congruence.
Qed.

Lemma holds_same_lines es es' a d : same_lines es es' → holds es' a d ↔ holds es a d.
Proof.
  intros Hs. split; intros (i & e & He & Hv & Ht & Hd).
  - destruct (same_lines_get_r _ _ _ _ Hs He) as (f & Hf & ? & ? & ? & _).
    exists i, f. naive_solver congruence.
  - destruct (same_lines_get _ _ _ _ Hs He) as (f & Hf & ? & ? & ? & _).
    exists i, f. naive_solver congruence.
Qed.

(** ** Victim selection: what each policy picks *)

Definition older (es : list MCache_Entry) (i j : Z) : Prop :=
  ∃ e f, aget es i = Ret e ∧ aget es j = Ret f ∧ e.(last_access) <= f.(last_access).

Lemma lru_scan_spec es ii l :
  (∀ i, i ∈ l :: ii → 0 <= i < zlen es) →
  returns (lru_scan es ii l) (λ v, v ∈ l :: ii ∧ ∀ j, j ∈ l :: ii → older es v j).
Proof.
  revert l. induction ii as [|i ii IH]; intros l Hr; simpl.
  - apply returns_ret. split; [left|]. intros j ->%list_elem_of_singleton.
    destruct (aget_ok es l) as [e He]; [apply Hr; left|]. exists e, e. done.
  - destruct (aget_ok es i) as [e He]; [apply Hr; right; left|].
    destruct (aget_ok es l) as [f Hf]; [apply Hr; left|]. rewrite He, Hf. simpl.
    eapply returns_mono.
    + apply IH. intros j [->|Hj]%elem_of_cons; [|apply Hr; by do 2 right].
      destruct (_ <? _); apply Hr; [right; left|left].
    + intros v [Hv Hmin]. destruct (Z.ltb_spec e.(last_access) f.(last_access)).
      * split; [by right|]. intros j Hj. destruct (decide (j = l)) as [->|].
        -- destruct (Hmin i) as (a & b & Ha & Hb & ?); [left|]. exists a, f.
           rewrite He in Hb. simplify_eq. split_and!; [done..|lia].
        -- apply Hmin. by apply elem_of_cons in Hj as [|].
      * split; [apply elem_of_cons in Hv as [->|]; [left|by do 2 right]|].
        intros j Hj. destruct (decide (j = i)) as [->|].
        -- destruct (Hmin l) as (a & b & Ha & Hb & ?); [left|]. exists a, e.
           rewrite Hf in Hb. simplify_eq. split_and!; [done..|lia].
        -- apply Hmin. apply elem_of_cons in Hj as [->|Hj]; [left|].
           apply elem_of_cons in Hj as [|]; [done|by right].
Qed.

Lemma first_invalid_spec es ii :
  (∀ i, i ∈ ii → 0 <= i < zlen es) →
  returns (first_invalid es ii) (λ r, match r with
    | Some i => i ∈ ii ∧ ∃ e, aget es i = Ret e ∧ e.(valid) = false
    | None => ∀ i e, i ∈ ii → aget es i = Ret e → e.(valid) = true end).
Proof.
  induction ii as [|i ii IH]; intros Hr; simpl.
  { apply returns_ret. intros ?? []%not_elem_of_nil. }
  destruct (aget_ok es i) as [e He]; [apply Hr; left|]. rewrite He. simpl.
  destruct (valid e) eqn:Hv; simpl.
  - eapply returns_mono; [apply IH; intros; apply Hr; by right|].
    intros [j|]; simpl; [intros []; split; [by right|done]|].
    intros Hn j f [->|Hj]%elem_of_cons Hf; [congruence|eauto].
  - apply returns_ret. split; [left|eauto].
Qed.

(** One round of the SRRIP loop. *)
Lemma first_zero_rip_spec es ii :
  (∀ i, i ∈ ii → 0 <= i < zlen es) →
  returns (first_zero_rip es ii) (λ r, match r with
    | Some i => i ∈ ii ∧ ∃ e, aget es i = Ret e ∧ e.(ripctr) = 0
    | None => ∀ i e, i ∈ ii → aget es i = Ret e → e.(ripctr) ≠ 0 end).
Proof.
  induction ii as [|i ii IH]; intros Hr; simpl.
  { apply returns_ret. intros ?? []%not_elem_of_nil. }
  destruct (aget_ok es i) as [e He]; [apply Hr; left|]. rewrite He. simpl.
  destruct (Z.eqb_spec (ripctr e) 0).
  - apply returns_ret. split; [left|eauto].
  - eapply returns_mono; [apply IH; intros; apply Hr; by right|].
    intros [j|]; simpl; [intros []; split; [by right|done]|].
    intros Hn j f [->|Hj]%elem_of_cons Hf; [congruence|eauto].
Qed.

(** [k] rounds took [k] from every counter of the set and touched nothing else. *)
Definition aged (k : Z) (ii : list Z) (es es' : list MCache_Entry) : Prop :=
  zlen es' = zlen es ∧
  ∀ i e, aget es i = Ret e →
    aget es' i = Ret (if decide (i ∈ ii) then e <| ripctr := e.(ripctr) - k |> else e).

Lemma dec_rip_spec es ii :
  NoDup ii → (∀ i, i ∈ ii → ∃ e, aget es i = Ret e ∧ 0 < e.(ripctr) < 4294967296) →
  returns (dec_rip es ii) (aged 1 ii es).
Proof.
  intros Hnd. revert es. induction Hnd as [|i ii Hi Hnd IH]; intros es Hr; simpl.
  { apply returns_ret. split; [done|]. intros i e He. destruct (decide (i ∈ [])); [|done].
    by apply not_elem_of_nil in e0. }
  destruct (Hr i) as (e & He & Hrip); [left|]. rewrite He. simpl.
  rewrite aset_ok by (by eapply aget_bound). simpl.
  set (es1 := <[_:=_]> es).
  assert (aset es i (e <| ripctr := u32 (e.(ripctr) - 1) |>) = Ret es1) as Hs.
  { apply aset_ok. by eapply aget_bound. }
  eapply returns_mono; [apply IH|].
  - intros j Hj. rewrite (aget_aset _ _ _ _ _ Hs).
    destruct (Z.eqb_spec j i) as [->|]; [done|]. apply Hr. by right.
  - intros es' [Hl Hget]. split; [by rewrite Hl, (aset_length _ _ _ _ Hs)|].
    intros j f Hf. pose proof (aget_aset _ _ j _ _ Hs) as Hj.
    destruct (decide (j = i)) as [->|Hne].
    + rewrite Z.eqb_refl in Hj. rewrite (Hget _ _ Hj). rewrite He in Hf. simplify_eq.
      rewrite decide_False by done. rewrite decide_True by left.
      rewrite u32_id by (unfold is_u32; lia). done.
    + rewrite (proj2 (Z.eqb_neq _ _) Hne), Hf in Hj. rewrite (Hget _ _ Hj). f_equal.
      destruct (decide (j ∈ ii)), (decide (j ∈ i :: ii)) as [Hd|Hd]; try done.
      * destruct Hd. by right.
      * by apply elem_of_cons in Hd as [|].
Qed.

Lemma aged_trans k ii es es1 es2 :
  aged 1 ii es es1 → aged k ii es1 es2 → aged (k + 1) ii es es2.
Proof.
  intros [Hl1 H1] [Hl2 H2]. split; [congruence|]. intros i e He.
  rewrite (H2 _ _ (H1 _ _ He)). destruct (decide (i ∈ ii)); [|done].
  unfold set_field, setter. cbn. do 2 f_equal. lia.
Qed.

Lemma aged_same_lines k ii es es' :
  0 <= k → aged k ii es es' →
  (∀ i e, i ∈ ii → aget es i = Ret e → k <= e.(ripctr)) →
  (∀ i e, aget es i = Ret e → 0 <= e.(ripctr)) → same_lines es es'.
Proof.
  intros Hk [Hl H] Hge Hnn. apply Forall2_same_length_lookup. split.
  { unfold zlen in Hl. lia. }
  intros n e e' He He'.
  assert (aget es (Z.of_nat n) = Ret e) as Hg by (apply aget_Ret; split; [lia|by rewrite Nat2Z.id]).
  assert (aget es' (Z.of_nat n) = Ret e') as Hg' by (apply aget_Ret; split; [lia|by rewrite Nat2Z.id]).
  rewrite (H _ _ Hg) in Hg'. pose proof (Hnn _ _ Hg).
  destruct (decide (Z.of_nat n ∈ ii)) as [Hin|]; simplify_eq; repeat split; rsimp; try done; try lia.
  specialize (Hge _ _ Hin Hg). lia.
Qed.

(** The loop ends: the fuel [ripctr of the first way + 1] is enough. The victim
    had the smallest counter [k] of the set, and every counter went down by [k]. *)
Lemma srrip_loop_spec fuel es ii i0 e0 :
  NoDup ii → i0 ∈ ii → aget es i0 = Ret e0 → (Z.to_nat e0.(ripctr) < fuel)%nat →
  (∀ i, i ∈ ii → ∃ e, aget es i = Ret e ∧ 0 <= e.(ripctr) < 4294967296) →
  returns (srrip_loop fuel es ii) (λ '(es', v), ∃ k e,
    v ∈ ii ∧ aget es v = Ret e ∧ e.(ripctr) = k ∧ 0 <= k ∧ aged k ii es es' ∧
    ∀ i e, i ∈ ii → aget es i = Ret e → k <= e.(ripctr)).
Proof.
  intros Hnd Hi0. revert es e0. induction fuel as [|fuel IH]; intros es e0 He0 Hf Hr; [lia|]. simpl.
  assert (∀ i, i ∈ ii → 0 <= i < zlen es) as Hb.
  { intros i Hi. destruct (Hr i Hi) as (? & ? & ?). by eapply aget_bound. }
  eapply returns_bind; [by apply first_zero_rip_spec|]. intros [v|]; simpl.
  - intros (Hv & e & He & Hz). apply returns_ret. exists 0, e. split_and!; try done.
    + split; [done|]. intros i f ->. destruct (decide _); [|done].
      destruct f; unfold set_field, setter; cbn. by rewrite Z.sub_0_r.
    + intros i f Hi Hg. destruct (Hr i Hi) as (? & ? & ?). ret_eq. lia.
  - intros Hnz.
    assert (∀ i, i ∈ ii → ∃ e, aget es i = Ret e ∧ 0 < e.(ripctr) < 4294967296) as Hpos.
    { intros i Hi. destruct (Hr i Hi) as (e & He & ?). exists e. split; [done|].
      specialize (Hnz i e Hi He). lia. }
    eapply returns_bind; [by apply dec_rip_spec|]. intros es1 Haged.
    assert (∀ i e, i ∈ ii → aget es i = Ret e →
      aget es1 i = Ret (e <| ripctr := e.(ripctr) - 1 |>)) as Hg1.
    { intros i e Hi He. destruct Haged as [_ ->%(λ H, H i e He)]. by rewrite decide_True. }
    eapply returns_mono.
    + eapply (IH es1 (e0 <| ripctr := e0.(ripctr) - 1 |>)); [by auto|rsimp|].
      * specialize (Hnz _ _ Hi0 He0). destruct (Hpos _ Hi0) as (? & ? & ?). ret_eq. lia.
      * intros i Hi. destruct (Hpos i Hi) as (e & He & ?). rewrite (Hg1 _ _ Hi He).
        eexists. split; [done|]. rsimp. lia.
    + intros [es' v] (k & e & Hv & He & Hk & Hk0 & Hag & Hmin).
      destruct (Hpos v Hv) as (f & Hf' & Hfr). exists (k + 1), f.
      pose proof (Hg1 _ _ Hv Hf') as Hgv. ret_eq. rsimp.
      split_and!; [done|done|lia|lia|by eapply aged_trans|].
      intros i g Hi Hg. specialize (Hmin i _ Hi (Hg1 _ _ Hi Hg)). rsimp. lia.
Qed.

(** The write-back-throttled policy prefers lines whose eviction costs no
    write-back, unless the epoch's budget is not used up. *)
Definition eligible (wb : Z) (e : MCache_Entry) : bool := negb e.(dirty) || (wb <? LRU_WB_TTH).
Definition elig_at (es : list MCache_Entry) (wb i : Z) : Prop :=
  ∃ e, aget es i = Ret e ∧ eligible wb e = true.

Lemma older_trans es i j k : older es i j → older es j k → older es i k.
Proof.
  intros (e & f & He & Hf & ?) (f' & g & Hf' & Hg & ?). ret_eq. exists e, g. split_and!; [done..|lia].
Qed.
Lemma older_refl es i e : aget es i = Ret e → older es i i.
Proof. exists e, e. done. Qed.

Lemma wbt_scan_true es wb ii l :
  (∀ i e, i ∈ ii → aget es i = Ret e → e.(valid) = true) →
  (∀ i, i ∈ l :: ii → 0 <= i < zlen es) → elig_at es wb l →
  returns (wbt_scan es wb ii true l) (λ '(found, v),
    found = true ∧ v ∈ l :: ii ∧ elig_at es wb v ∧
    ∀ i, i ∈ l :: ii → elig_at es wb i → older es v i).
Proof.
  revert l. induction ii as [|i ii IH]; intros l Hv Hr Hl; simpl.
  - apply returns_ret. destruct Hl as (e & He & Hel). split_and!; [done|left|by exists e|].
    intros j ->%list_elem_of_singleton _. by eapply older_refl.
  - destruct (aget_ok es i) as [e He]; [apply Hr; right; left|].
    destruct Hl as (f & Hf & Hel). rewrite He, Hf. simpl. rewrite (Hv i e) by (done || left).
    simpl. fold (eligible wb e).
    destruct ((last_access e <? last_access f) && eligible wb e) eqn:Hc.
    + apply andb_true_iff in Hc as [Hlt%Z.ltb_lt Hee]. eapply returns_mono.
      { apply IH; [intros; apply (Hv i0); [by right|done]|intros; apply Hr; by right|by exists e]. }
      intros [found v] (-> & Hin & Hev & Hmin). split_and!; [done|by right|done|].
      intros j [->|Hj]%elem_of_cons Hej; [|by apply Hmin].
      eapply older_trans; [apply Hmin; [left|by exists e]|]. exists e, f. split_and!; [done..|lia].
    + eapply returns_mono.
      { apply IH; [intros; apply (Hv i0); [by right|done]| |by exists f].
        intros j [->|Hj]%elem_of_cons; apply Hr; [left|by do 2 right]. }
      intros [found v] (-> & Hin & Hev & Hmin). split_and!; [done| |done|].
      { apply elem_of_cons in Hin as [->|]; [left|by do 2 right]. }
      intros j [->|[->|Hj]%elem_of_cons]%elem_of_cons Hej.
      * apply Hmin; [left|done].
      * destruct Hej as (e' & He' & Hel'). ret_eq. rewrite Hel', andb_true_r in Hc.
        eapply older_trans; [apply Hmin; [left|by exists f]|].
        exists f, e'. apply Z.ltb_ge in Hc. done.
      * apply Hmin; [by right|done].
Qed.

Lemma wbt_scan_spec es wb ii l :
  (∀ i e, i ∈ ii → aget es i = Ret e → e.(valid) = true) →
  (∀ i, i ∈ l :: ii → 0 <= i < zlen es) →
  returns (wbt_scan es wb ii false l) (λ '(found, v),
    if found : bool then v ∈ ii ∧ elig_at es wb v ∧ ∀ i, i ∈ ii → elig_at es wb i → older es v i
    else v = l ∧ ∀ i, i ∈ ii → ¬ elig_at es wb i).
Proof.
  induction ii as [|i ii IH]; intros Hv Hr; simpl.
  { apply returns_ret. split; [done|]. intros ? []%not_elem_of_nil. }
  destruct (aget_ok es i) as [e He]; [apply Hr; right; left|].
  destruct (aget_ok es l) as [f Hf]; [apply Hr; left|].
  rewrite He, Hf. simpl. rewrite (Hv i e) by (done || left). simpl. fold (eligible wb e).
  destruct (eligible wb e) eqn:Hee.
  - eapply returns_mono.
    { apply wbt_scan_true; [intros; apply (Hv i0); [by right|done]| |by exists e].
      intros; apply Hr; by right. }
    intros [found v] (-> & ? & ? & ?). done.
  - eapply returns_mono.
    { apply IH; [intros; apply (Hv i0); [by right|done]|].
      intros j [->|Hj]%elem_of_cons; apply Hr; [left|by do 2 right]. }
    intros [[] v].
    + intros (Hin & Hev & Hmin). split_and!; [by right|done|].
      intros j [->|Hj]%elem_of_cons Hej; [|by apply Hmin].
      destruct Hej as (e' & He' & ?). ret_eq. congruence.
    + intros [-> Hn]. split; [done|]. intros j [->|Hj]%elem_of_cons; [|by apply Hn].
      intros (e' & He' & ?). ret_eq. congruence.
Qed.

(** ** What a policy may change: the replacement metadata and its counters *)

Record same_but_metadata (c c' : MCache) : Prop := {
  sbm_geometry : same_geometry c c';
  sbm_lines : same_lines c.(entries) c'.(entries);
  sbm_policy : c'.(repl_policy) = c.(repl_policy);
  sbm_evd : c'.(evicted_dirty_line) = c.(evicted_dirty_line);
  sbm_eva : c'.(evicted_line_addr) = c.(evicted_line_addr);
  sbm_count : c'.(s_count) = c.(s_count);
  sbm_miss : c'.(s_miss) = c.(s_miss);
  sbm_evict : c'.(s_evict) = c.(s_evict)
}.

Lemma same_lines_refl c : wf c → same_lines c.(entries) c.(entries).
Proof.
  intros Hwf. apply Forall2_same_length_lookup. split; [done|]. intros n e e' He He'.
  simplify_eq. assert (aget c.(entries) (Z.of_nat n) = Ret e) as Hg%(wf_rip _ Hwf).
  { apply aget_Ret. split; [lia|by rewrite Nat2Z.id]. }
  repeat split; lia.
Qed.
Lemma sbm_refl c : wf c → same_but_metadata c c.
Proof. intros. split; [done|by apply same_lines_refl|done..]. Qed.

Section Victims.
Context (c : MCache) (Hinv : inv c) (s : Z) (Hs : 0 <= s < c.(sets)).
Let Hwf : wf c := proj1 Hinv.
Local Abbreviation set_ways := (ways (set_start c s) (set_end c s)).

Lemma set_ways_range i : i ∈ set_ways → 0 <= i < zlen c.(entries).
Proof using All. rewrite set_way by done. by apply in_set_range. Qed.
Lemma first_way : set_start c s ∈ set_ways.
Proof using All.
  rewrite set_way by done. rewrite set_start_eq by done. unfold in_set. destruct Hwf. lia.
Qed.

(** LRU: the way that was used the longest ago. *)
Lemma victim_lru_spec :
  returns (mcache_find_victim_lru c s) (λ v, in_set c s v ∧
    ∀ j, in_set c s j → older c.(entries) v j).
Proof using All.
  unfold mcache_find_victim_lru. eapply returns_mono.
  - apply lru_scan_spec. intros i [->|Hi]%elem_of_cons; apply set_ways_range; [apply first_way|done].
  - intros v [Hv Hmin]. split.
    + rewrite <- set_way by done. apply elem_of_cons in Hv as [->|]; [apply first_way|done].
    + intros j Hj. apply Hmin. right. by rewrite set_way.
Qed.

Lemma victim_rnd_spec {G} `{RandSource G} (g : G) :
  returns (mcache_find_victim_rnd g c s) (λ '(_, v), in_set c s v).
Proof using All.
  unfold mcache_find_victim_rnd. destruct (rand g) as [r g'] eqn:Hr. destruct Hwf, (set_bound c Hwf s Hs).
  rewrite umod_ok by lia. simpl. apply returns_ret.
  pose proof (Z.mod_pos_bound (u32 r) c.(assocs)).
  rewrite set_start_eq, u32_id by (try done; unfold is_u32; lia). unfold in_set. lia.
Qed.

(** SRRIP: a way with the smallest re-reference counter [k]; the others age by [k]. *)
Lemma victim_srrip_spec :
  returns (mcache_find_victim_srrip c s) (λ '(c', v), in_set c s v ∧
    same_but_metadata c c' ∧ ∃ k e, aget c.(entries) v = Ret e ∧ e.(ripctr) = k ∧
      0 <= k <= MCACHE_SRRIP_MAX ∧ aged k set_ways c.(entries) c'.(entries) ∧
      ∀ i f, in_set c s i → aget c.(entries) i = Ret f → k <= f.(ripctr)).
Proof using All.
  unfold mcache_find_victim_srrip.
  destruct (aget_ok c.(entries) (set_start c s)) as [e0 He0]; [apply set_ways_range, first_way|].
  eapply returns_bind.
  - eapply (srrip_loop_spec _ _ _ (set_start c s) e0); [|apply first_way|done| |].
    + apply NoDup_seqZ.
    + unfold srrip_fuel. rewrite He0. lia.
    + intros i Hi%set_ways_range%aget_ok. destruct Hi as [e He]. exists e. split; [done|].
      apply (wf_rip _ Hwf) in He. unfold MCACHE_SRRIP_MAX in He. lia.
  - intros [es' v] (k & e & Hv & He & Hk & Hk0 & Hag & Hmin). apply returns_ret. cbn.
    split; [by rewrite <- set_way|]. split.
    + split; try done. eapply aged_same_lines; eauto.
      intros i f Hf. apply (wf_rip _ Hwf) in Hf. lia.
    + exists k, e. split_and!; try done.
      * apply (wf_rip _ Hwf) in He. lia.
      * intros i f Hi. apply Hmin. by rewrite set_way.
Qed.
End Victims.

Section Install.
Context {G : Type} `{RandSource G}.

(** The write-back-throttled victim: among the lines whose eviction is
    allowed (clean ones, or any while the epoch has budget) the least recently
    used; when every line is dirty and the budget is gone, plain LRU. *)
Lemma victim_wbt_spec (c : MCache) (s : Z) :
  inv c → 0 <= s < c.(sets) →
  (∀ i e, in_set c s i → aget c.(entries) i = Ret e → e.(valid) = true) →
  returns (mcache_find_victim_lru_wbt c s) (λ '(c', v), in_set c s v ∧
    same_but_metadata c c' ∧
    ∃ e, aget c.(entries) v = Ret e ∧
      c'.(wb_in_2k_epoch) =
        (if e.(dirty) then u32 (c.(wb_in_2k_epoch) + 1) else c.(wb_in_2k_epoch)) ∧
      if eligible c.(wb_in_2k_epoch) e
      then ∀ i, in_set c s i → elig_at c.(entries) c.(wb_in_2k_epoch) i → older c.(entries) v i
      else c'.(s_wb_forced) = u64 (c.(s_wb_forced) + 1) ∧
           ∀ i, in_set c s i → ¬ elig_at c.(entries) c.(wb_in_2k_epoch) i).
Proof using Type.
  intros Hinv Hs Hval. pose proof Hinv as (Hwf & _ & _).
  unfold mcache_find_victim_lru_wbt. eapply returns_bind.
  { apply wbt_scan_spec.
    - intros i e Hi. apply Hval. by rewrite <- set_way.
    - intros i [->|Hi]%elem_of_cons; apply (set_ways_range c Hinv s Hs); [by apply first_way|done]. }
  intros [found v] Hv. eapply returns_bind; [by apply victim_lru_spec|]. intros lv [Hlv Hold].
  destruct (aget_ok c.(entries) lv) as [el Hel]; [by eapply in_set_range|].
  pose proof (sbm_refl c Hwf) as [? ? ? ? ? ? ? ?].
  destruct found; osimp.
  - destruct Hv as (Hin & (e & He & Hee) & Hmin). rewrite Hel, He. osimp.
    assert (in_set c s v) by (by rewrite <- set_way).
    destruct (negb (lv =? v) && dirty el && negb (dirty e)); osimp; rewrite He; osimp;
      apply returns_ret; (split; [done|]); (split; [by destruct (dirty e)|]);
      exists e; rewrite Hee; (split_and!; [done|by destruct (dirty e)|]);
      intros i Hi; apply Hmin; by rewrite set_way.
  - destruct Hv as [-> Hn]. rewrite Hel. osimp. apply returns_ret. split; [done|].
    split; [by destruct (dirty el)|]. exists el.
    assert (¬ elig_at c.(entries) c.(wb_in_2k_epoch) lv) as Hne by (apply Hn; by rewrite set_way).
    destruct (eligible _ el) eqn:E; [by destruct Hne; exists el|].
    split_and!; [done|by destruct (dirty el)|by destruct (dirty el)|].
    intros i Hi. apply Hn. by rewrite set_way.
Qed.

(** Whatever the policy: the victim lies in the set, a valid line is evicted
    only from a full set, and the lines themselves are not touched. *)
Lemma find_victim_spec (g : G) (c : MCache) (s : Z) :
  inv c → 0 <= s < c.(sets) → known_policy c.(repl_policy) = true →
  returns (mcache_find_victim g c s) (λ '(_, c', v), in_set c s v ∧ same_but_metadata c c' ∧
    ((∃ e, aget c.(entries) v = Ret e ∧ e.(valid) = false) ∨
     ∀ i e, in_set c s i → aget c.(entries) i = Ret e → e.(valid) = true)).
Proof using Type.
  intros Hinv Hs Hpol. pose proof Hinv as (Hwf & _ & _).
  unfold mcache_find_victim. destruct (set_bound c Hwf s Hs).
  rewrite (i32_id (s * c.(assocs))), i32_id by (destruct Hwf; unfold is_i32; lia).
  replace (ways (s * assocs c) (s * assocs c + assocs c))
    with (ways (set_start c s) (set_end c s)) by (by rewrite set_start_eq, set_end_eq).
  eapply returns_bind; [apply first_invalid_spec; by apply set_ways_range|].
  intros [v|].
  - intros [Hv Hinval]. apply returns_ret. rewrite set_way in Hv by done.
    pose proof (in_set_range c Hwf s Hs v Hv). rewrite u32_id.
    2:{ destruct Hwf. unfold is_u32. lia. }
    split_and!; [done|by apply sbm_refl|by left].
  - intros Hfull.
    assert (∀ i e, in_set c s i → aget c.(entries) i = Ret e → e.(valid) = true) as Hval.
    { intros i e Hi. apply Hfull. by rewrite set_way. }
    destruct c.(repl_policy) eqn:Hp; try done.
    + eapply returns_bind; [by apply victim_lru_spec|]. intros v [Hv _]. apply returns_ret.
      split_and!; [done|by apply sbm_refl|by right].
    + eapply returns_bind; [by apply victim_rnd_spec|]. intros [g' v] Hv. apply returns_ret.
      split_and!; [done|by apply sbm_refl|by right].
    + eapply returns_bind; [by apply victim_srrip_spec|]. intros [c' v] (Hv & ? & _). apply returns_ret.
      split_and!; [done|done|by right].
    + eapply returns_bind; [by apply victim_wbt_spec|]. intros [c' v] (Hv & ? & _). apply returns_ret.
      split_and!; [done|done|by right].
Qed.
End Install.

(** ** The abstract cache and the refinement

    The contents are a map from line address to dirty bit. A call of the API is
    a [cache_op]; [spec_step] is what a caller may rely on. *)
Inductive cache_op : Set :=
  | OpAccess (a : Z)
  | OpProbe (a : Z)
  | OpMarkDirty (a : Z)
  | OpInvalidate (a : Z)
  | OpInstall (a : Z).

(** Installing [a] may displace one line [v] of the same set; [evd] is the dirty
    victim that has to be written back. *)
Inductive spec_step (nsets : Z) (m : gmap Z bool) : cache_op → bool → option Z → gmap Z bool → Prop :=
  | SpecAccess a : spec_step nsets m (OpAccess a) (bool_decide (is_Some (m !! a))) None m
  | SpecProbe a : spec_step nsets m (OpProbe a) (bool_decide (is_Some (m !! a))) None m
  | SpecMarkDirty a :
      spec_step nsets m (OpMarkDirty a) (bool_decide (is_Some (m !! a))) None
        (alter (λ _, true) a m)
  | SpecInvalidate a :
      spec_step nsets m (OpInvalidate a) (bool_decide (is_Some (m !! a))) None (delete a m)
  | SpecInstall a : m !! a = None →
      spec_step nsets m (OpInstall a) true None (<[a := false]> m)
  | SpecReplace a v d : m !! a = None → m !! v = Some d → v mod nsets = a mod nsets →
      spec_step nsets m (OpInstall a) true (if d : bool then Some v else None)
        (<[a := false]> (delete v m)).

Lemma models_hit c m a :
  models c m → is_Some (m !! a) ↔ ∃ i, hit_at c.(entries) a i.
Proof.
  intros Hm. rewrite hit_holds. unfold is_Some. split; intros [d ?]; exists d; by apply Hm.
Qed.

Section Refinement.
Context (c : MCache) (m : gmap Z bool) (Hinv : inv c) (Hm : models c m) (a : Z).
Let Hwf : wf c := proj1 Hinv.
Let Hpl : placed c := proj1 (proj2 Hinv).
Let Hun : unique c.(entries) := proj2 (proj2 Hinv).

(** The search loop decides membership in the map. *)
Lemma lookup_models :
  returns (find_tag c.(entries) a (ways (set_start c (set_of c a)) (set_end c (set_of c a))))
    (λ r, match r with
       | Some i => is_Some (m !! a) ∧ in_set c (set_of c a) i ∧ hit_at c.(entries) a i
       | None => m !! a = None end).
Proof using All.
  eapply returns_mono; [by apply lookup_spec|]. intros [i|].
  - intros []. split_and!; [|done|done]. apply (models_hit c m a Hm). eauto.
  - intros Hn. apply eq_None_not_Some. intros [i Hi]%(models_hit c m a Hm). by apply (Hn i).
Qed.

(** The contents after one entry is overwritten. *)
Lemma models_write c' i e e' (f : gmap Z bool) :
  aget c.(entries) i = Ret e → aset c.(entries) i e' = Ret c'.(entries) →
  (∀ b d, f !! b = Some d ↔
    (e'.(valid) = true ∧ e'.(tag) = b ∧ e'.(dirty) = d)
    ∨ (m !! b = Some d ∧ ¬ (e.(valid) = true ∧ e.(tag) = b))) →
  models c' f.
Proof using All.
  intros He Hs Hf b d. rewrite Hf, (Hm b d). symmetry. by eapply holds_write.
Qed.

Lemma mcache_access_spec :
  returns (mcache_access c a) (λ '(c', hit), inv c' ∧ models c' m ∧
    hit = bool_decide (is_Some (m !! a)) ∧ c'.(repl_policy) = c.(repl_policy) ∧
    c'.(sets) = c.(sets) ∧ c'.(s_count) = u64 (c.(s_count) + 1) ∧
    c'.(s_miss) = if hit then c.(s_miss) else u64 (c.(s_miss) + 1)).
Proof using All.
  unfold mcache_access. rewrite get_index_eq by done. osimp.
  eapply returns_bind; [apply lookup_models|]. intros [i|].
  - intros (Hsome & Hi & e & He & Hv & Ht). osimp. rewrite He. osimp.
    rewrite aset_ok by (by eapply aget_bound). osimp. apply returns_ret.
    split_and!; try done; [| |by rewrite bool_decide_true].
    + eapply inv_touch; [done|done|done|apply aset_ok; by eapply aget_bound|..]; rsimp; done.
    + eapply models_write; [done|apply aset_ok; by eapply aget_bound|]. rsimp. intros b d.
      rewrite (Hm b d). split.
      * intros Hh. destruct (decide (e.(tag) = b)) as [<-|]; [|right; split; [done|naive_solver]].
        left. split_and!; [done|done|]. eapply (holds_fun c.(entries) e.(tag)); [done| |done].
        by exists i, e.
      * intros [(_ & <- & <-)|[? _]]; [by exists i, e|done].
  - intros Hn. apply returns_ret. split_and!; try done; [by eapply inv_ext|by rewrite Hn].
Qed.

Lemma mcache_probe_spec : mcache_probe c a = Ret (bool_decide (is_Some (m !! a))).
Proof using All.
  unfold mcache_probe. rewrite get_index_eq by done. osimp.
  destruct lookup_models as ([i|] & -> & Hr); osimp; f_equal; apply bool_decide_ext.
  - naive_solver.
  - rewrite Hr. split; intros [? ?]; done.
Qed.

Lemma mcache_mark_dirty_spec :
  returns (mcache_mark_dirty c a) (λ '(c', hit), inv c' ∧ models c' (alter (λ _, true) a m) ∧
    hit = bool_decide (is_Some (m !! a)) ∧ c'.(repl_policy) = c.(repl_policy) ∧
    c'.(sets) = c.(sets)).
Proof using All.
  unfold mcache_mark_dirty. rewrite get_index_eq by done. osimp.
  eapply returns_bind; [apply lookup_models|]. intros [i|].
  - intros (Hsome & Hi & e & He & Hv & Ht). rewrite He. osimp.
    rewrite aset_ok by (by eapply aget_bound). osimp. apply returns_ret.
    split_and!; try done; [| |by rewrite bool_decide_true].
    + eapply inv_touch; [done|done|done|apply aset_ok; by eapply aget_bound|..]; rsimp; try done.
      by apply (wf_rip _ Hwf) in He.
    + eapply models_write; [done|apply aset_ok; by eapply aget_bound|]. rsimp. intros b d.
      rewrite lookup_alter. rewrite Ht. case_decide as Hab; [|naive_solver]. subst b.
      destruct Hsome as [d0 Hd0]. rewrite Hd0. naive_solver.
  - intros Hn. apply returns_ret. split_and!; try done; [|by rewrite Hn].
    by rewrite alter_id'.
Qed.

Lemma mcache_invalidate_spec :
  returns (mcache_invalidate c a) (λ '(c', hit), inv c' ∧ models c' (delete a m) ∧
    hit = bool_decide (is_Some (m !! a)) ∧ c'.(repl_policy) = c.(repl_policy) ∧
    c'.(sets) = c.(sets)).
Proof using All.
  unfold mcache_invalidate. rewrite get_index_eq by done. osimp.
  eapply returns_bind; [apply lookup_models|]. intros [i|].
  - intros (Hsome & Hi & e & He & Hv & Ht). rewrite He. osimp.
    rewrite aset_ok by (by eapply aget_bound). osimp. apply returns_ret.
    split_and!; try done; [| |by rewrite bool_decide_true].
    + eapply inv_touch; [done|done|done|apply aset_ok; by eapply aget_bound|..]; rsimp; try done.
      by apply (wf_rip _ Hwf) in He.
    + eapply models_write; [done|apply aset_ok; by eapply aget_bound|]. rsimp. intros b d.
      rewrite lookup_delete. rewrite Ht. case_decide as Hab; naive_solver.
  - intros Hn. apply returns_ret. split_and!; try done; [|by rewrite Hn].
    by rewrite delete_id.
Qed.
End Refinement.

Section InstallRefinement.
Context {G : Type} `{RandSource G}.

Lemma sbm_models c c' m : same_but_metadata c c' → models c m → models c' m.
Proof. intros [_ Hl _ _ _ _ _ _] Hm a d. rewrite (Hm a d). symmetry. by apply holds_same_lines. Qed.
Lemma sbm_inv c c' : same_but_metadata c c' → inv c → inv c'.
Proof. intros [? ? _ _ _ _ _ _] ?. by eapply inv_same_lines. Qed.

(** Writing [a] over the victim's entry. *)
Lemma fill_models c m i e e' a :
  inv c → models c m → m !! a = None → aget c.(entries) i = Ret e →
  e'.(valid) = true → e'.(tag) = a → e'.(dirty) = false →
  ∀ c', aset c.(entries) i e' = Ret c'.(entries) →
  models c' (<[a := false]> (if e.(valid) then delete e.(tag) m else m)).
Proof.
  intros Hinv Hm Hn He Hv' Ht' Hd' c' Hs.
  eapply (models_write c m Hinv Hm a); [done|done|]. intros b d.
  rewrite Hv', Ht', Hd', lookup_insert. case_decide as Hab.
  - subst b. rewrite Hn. naive_solver.
  - destruct (valid e) eqn:Hv; [rewrite lookup_delete; case_decide|]; naive_solver.
Qed.

Lemma mcache_install_spec (g : G) (c : MCache) (m : gmap Z bool) (a : Z) :
  inv c → models c m → known_policy c.(repl_policy) = true → 0 <= a → m !! a = None →
  returns (mcache_install g c a) (λ '(_, c'), inv c' ∧
    c'.(repl_policy) = c.(repl_policy) ∧ c'.(sets) = c.(sets) ∧
    ∃ evd m', spec_step c.(sets) m (OpInstall a) true evd m' ∧ models c' m' ∧
      c'.(evicted_dirty_line) = bool_decide (is_Some evd) ∧
      ∀ v, evd = Some v → c'.(evicted_line_addr) = v).
Proof.
  intros Hinv Hm Hpol Ha Hn. pose proof Hinv as (Hwf & _ & _).
  unfold mcache_install. rewrite get_index_eq by done. osimp.
  set (c0 := c <| evicted_dirty_line := false |>).
  assert (inv c0) as Hinv0 by (by eapply inv_ext).
  eapply returns_bind; [by apply (lookup_models c0 m Hinv0 Hm a)|].
  intros [i|]; [intros ([? ?] & _); congruence|]. intros _.
  eapply returns_bind; [apply (find_victim_spec g c0 (set_of c a)); [done|by apply (set_of_range c)|done]|].
  intros [[g' c1] v] (Hvs & Hsbm & Hfull).
  pose proof (sbm_inv _ _ Hsbm Hinv0) as Hinv1. pose proof (sbm_models _ _ _ Hsbm Hm) as Hm1.
  destruct Hsbm as [(Hg1 & Hg2 & Hg3) Hl Hp Hev Heva Hcnt Hmiss Hevict].
  destruct (aget_ok c1.(entries) v) as [e He].
  { rewrite (same_lines_zlen _ _ Hl). 
    apply (in_set_range c0 (proj1 Hinv0) (set_of c a)); [by apply (set_of_range c)|done]. }
  rewrite He. osimp.
  match goal with |- context [aset (entries ?c2) _ _] => set (c2' := c2) end.
  assert (entries c2' = entries c1 ∧ same_geometry c1 c2' ∧ repl_policy c2' = repl_policy c1 ∧
    assocs c2' = assocs c1 ∧
    evicted_dirty_line c2' = (valid e && dirty e) ∧
    (valid e && dirty e = true → evicted_line_addr c2' = tag e)) as (He2 & Hg' & Hp2 & Ha2 & Hed & Hea).
  { subst c2'. destruct (valid e), (dirty e); split_and!; rsimp; done. }
  rewrite He2, aset_ok by (by eapply aget_bound). osimp. apply returns_ret.
  match goal with |- inv ?c3 ∧ _ => set (c3' := c3) end.
  assert (aset c1.(entries) v (e <| tag := a |> <| valid := true |> <| dirty := false |>
    <| ripctr := MCACHE_SRRIP_INIT |> <| last_access := s_count c2' |>) = Ret c3'.(entries)) as Hset.
  { apply aset_ok. by eapply aget_bound. }
  destruct Hg' as (Hga & Hgb & Hgc).
  assert (inv c3') as Hinv3.
  { eapply (inv_write c1); [done| |done|exact Hset|..]; rsimp.
    - repeat split; subst c3'; rsimp; congruence.
    - unfold MCACHE_SRRIP_INIT, MCACHE_SRRIP_MAX. lia.
    - intros _. split; [done|]. split.
      + unfold in_set, set_of in *. subst c0. rsimp. by rewrite Hg1, Hg2.
      + intros j _ Hh. apply (eq_None_not_Some (m !! a)); [done|].
        apply (models_hit c1 m a Hm1). eauto. }
  split; [done|]. split; [subst c3' c0; rsimp; congruence|].
  split; [subst c3' c0; rsimp; congruence|].
  assert (models c3' (<[a := false]> (if valid e then delete (tag e) m else m))) as Hm3.
  { by eapply (fill_models c1 m v e); [..|exact Hset]. }
  destruct (valid e) eqn:Hve.
  - assert (m !! tag e = Some (dirty e)) as Hmt.
    { apply Hm1. by exists v, e. }
    exists (if dirty e then Some (tag e) else None), (<[a := false]> (delete (tag e) m)).
    split; [|split; [done|split]].
    + eapply SpecReplace; [done|done|]. destruct Hinv1 as (Hwf1 & Hp1 & _).
      destruct (Hp1 _ _ He Hve) as [_ Ht]. subst c0. rsimp. rewrite Hg1, Hg2 in Ht. rewrite <- Ht.
      apply in_set_div in Hvs; [apply Hvs|by destruct Hinv0|by apply set_of_range].
    + subst c3'. rsimp. rewrite Hed. by destruct (dirty e).
    + subst c3'. rsimp. destruct (dirty e); [|done]. intros ? [= <-]. by apply Hea.
  - exists None, (<[a := false]> m). split; [by apply SpecInstall|]. split; [done|]. split; [|done].
    subst c3'. rsimp. by rewrite Hed.
Qed.

(** Installing a line that is present stops the simulator. *)
Lemma mcache_install_present (g : G) (c : MCache) (m : gmap Z bool) (a : Z) :
  inv c → models c m → is_Some (m !! a) → mcache_install g c a = Fault (Exit (-1)).
Proof.
  intros Hinv Hm Hs. pose proof Hinv as (Hwf & _ & _).
  unfold mcache_install. rewrite get_index_eq by done. osimp.
  assert (inv (c <| evicted_dirty_line := false |>)) as Hinv0 by (by eapply inv_ext).
  destruct (lookup_models _ m Hinv0 Hm a) as ([i|] & Hf & Hr).
  - unfold set_start, set_end, set_of in *. rsimp. rewrite Hf. done.
  - rewrite Hr in Hs. by destruct Hs.
Qed.
End InstallRefinement.

(** ** The API as one step, and the reachable caches *)

Definition mcache_exec {G} `{RandSource G} (g : G) (c : MCache) (op : cache_op) :
    outcome (G * MCache * bool) :=
  match op with
  | OpAccess a => r ← mcache_access c a; Ret (g, r.1, r.2)
  | OpProbe a => r ← mcache_probe c a; Ret (g, c, r)
  | OpMarkDirty a => r ← mcache_mark_dirty c a; Ret (g, r.1, r.2)
  | OpInvalidate a => r ← mcache_invalidate c a; Ret (g, r.1, r.2)
  | OpInstall a => r ← mcache_install g c a; Ret (r.1, r.2, true)
  end.

Definition op_addr (op : cache_op) : Z :=
  match op with
  | OpAccess a | OpProbe a | OpMarkDirty a | OpInvalidate a | OpInstall a => a
  end.
Definition is_install (op : cache_op) : bool := match op with OpInstall _ => true | _ => false end.

Lemma aget_replicate {A} (n : nat) (x : A) i y : aget (replicate n x) i = Ret y → y = x.
Proof. by intros [_ [-> _]%lookup_replicate_1]%aget_Ret. Qed.

Lemma mcache_new_inv (s a r : Z) :
  0 < s → 0 < a → s * a < 2147483648 → inv (mcache_new s a r) ∧ models (mcache_new s a r) ∅.
Proof.
  intros Hs Ha Hsa. unfold mcache_new.
  assert (0 < s * a) by nia. split; [split; [split|split]|]; cbn; try done.
  - unfold zlen. rewrite length_replicate, u32_id by (unfold is_u32; lia). lia.
  - intros i e ->%aget_replicate. done.
  - intros i e ->%aget_replicate. done.
  - intros i j e f ->%aget_replicate. done.
  - intros b d. rewrite lookup_empty. split; [done|].
    intros (i & e & ->%aget_replicate & ? & _). done.
Qed.

Section Api.
Context {G : Type} `{RandSource G}.

(** One call, for a caller that installs only absent lines. *)
Lemma mcache_exec_spec (g : G) (c : MCache) (m : gmap Z bool) (op : cache_op) :
  inv c → models c m → known_policy c.(repl_policy) = true →
  (is_install op = true → 0 <= op_addr op ∧ m !! op_addr op = None) →
  returns (mcache_exec g c op) (λ '(_, c', r), inv c' ∧
    c'.(repl_policy) = c.(repl_policy) ∧ c'.(sets) = c.(sets) ∧
    ∃ evd m', spec_step c.(sets) m op r evd m' ∧ models c' m' ∧
      (is_install op = true → c'.(evicted_dirty_line) = bool_decide (is_Some evd) ∧
         ∀ v, evd = Some v → c'.(evicted_line_addr) = v)).
Proof.
  intros Hinv Hm Hpol Hop. destruct op as [a|a|a|a|a]; cbn [mcache_exec is_install op_addr] in *.
  - eapply returns_bind; [by apply (mcache_access_spec c m)|].
    intros [c' r] (? & ? & -> & ? & ? & _). apply returns_ret. split_and!; try done.
    exists None, m. split_and!; [constructor|done|done].
  - rewrite (mcache_probe_spec c m Hinv Hm a). apply returns_ret. split_and!; try done.
    exists None, m. split_and!; [constructor|done|done].
  - eapply returns_bind; [by apply (mcache_mark_dirty_spec c m)|].
    intros [c' r] (? & ? & -> & ? & ?). apply returns_ret. split_and!; try done.
    exists None, (alter (λ _, true) a m). split_and!; [constructor|done|done].
  - eapply returns_bind; [by apply (mcache_invalidate_spec c m)|].
    intros [c' r] (? & ? & -> & ? & ?). apply returns_ret. split_and!; try done.
    exists None, (delete a m). split_and!; [constructor|done|done].
  - destruct Hop as [? ?]; [done|].
    eapply returns_bind; [by apply (mcache_install_spec g c m a)|].
    intros [g' c'] (? & ? & ? & evd & m' & ? & ? & ? & ?). apply returns_ret. split_and!; try done.
    exists evd, m'. done.
Qed.

(** the caches that calls which return can produce *)
Inductive reachable (s a r : Z) : MCache → Prop :=
  | reachable_new : reachable s a r (mcache_new s a r)
  | reachable_call g g' c op c' b :
      reachable s a r c → (is_install op = true → 0 <= op_addr op) →
      mcache_exec g c op = Ret (g', c', b) → reachable s a r c'.
End Api.

(** ** Properties *)

(** C2. the cache refines a finite map from line address to dirty bit. From a
    state that models [m], every API call with the caller's contract (install only
    an absent line) returns, keeps the invariant, answers hit or miss as
    membership in [m], and leaves a state that models the map the specification
    gives: an install adds the line clean and drops at most one line, of the same
    set, and reports it in [evicted_dirty_line]/[evicted_line_addr] exactly when
    it was dirty. *)
Theorem mcache_refines_map {G : Type} `{RandSource G} (g : G) (c : MCache) (m : gmap Z bool)
    (op : cache_op) (Hinv : inv c) (Hm : models c m)
    (Hpol : known_policy c.(repl_policy) = true)
    (Hop : is_install op = true → 0 <= op_addr op ∧ m !! op_addr op = None) :
  returns (mcache_exec g c op) (λ '(_, c', r), inv c' ∧
    ∃ evd m', spec_step c.(sets) m op r evd m' ∧ models c' m' ∧
      (is_install op = true → c'.(evicted_dirty_line) = bool_decide (is_Some evd) ∧
         ∀ v, evd = Some v → c'.(evicted_line_addr) = v)).
Proof.
  eapply returns_mono; [by apply (mcache_exec_spec g c m op)|].
  intros [[g' c'] r] (? & _ & _ & ?). done.
Qed.

Lemma mcache_refines_map_witness :
  returns (mcache_exec (0 : Z) (mcache_new 2 2 0) (OpInstall 5)) (λ '(_, c', r), inv c' ∧
    ∃ evd m', spec_step 2 ∅ (OpInstall 5) r evd m' ∧ models c' m' ∧
      (is_install (OpInstall 5) = true → c'.(evicted_dirty_line) = bool_decide (is_Some evd) ∧
         ∀ v, evd = Some v → c'.(evicted_line_addr) = v)).
Proof.
  assert (0 < 2) as H2 by lia. assert (2 * 2 < 2147483648) as H4 by lia.
  destruct (mcache_new_inv 2 2 0 H2 H2 H4) as [Hi Hm].
  apply (mcache_refines_map 0 (mcache_new 2 2 0) ∅ (OpInstall 5) Hi Hm eq_refl).
  intros _. split; [cbn; lia|reflexivity].
Defined.

(** C24. in every reachable cache each line is held at most once, in the set its
    address selects; the geometry and the counters' bounds never change. *)
Theorem mcache_reachable_inv {G : Type} `{RandSource G} (s a r : Z) (c : MCache)
    (Hs : 0 < s) (Ha : 0 < a) (Hsa : s * a < 2147483648)
    (Hpol : known_policy (to_MCache_ReplPolicy r) = true)
    (Hr : reachable (G := G) s a r c) :
  inv c ∧ c.(sets) = s ∧ ∃ m, models c m.
Proof.
  enough (inv c ∧ c.(repl_policy) = to_MCache_ReplPolicy r ∧ c.(sets) = s ∧ ∃ m, models c m) by naive_solver.
  induction Hr as [|g g' c op c' b _ (Hinv & Hp & Hset & m & Hm) Hop Hex].
  - destruct (mcache_new_inv s a r) as [? ?]; [done..|]. split_and!; try done. by exists ∅.
  - rewrite <- Hp in Hpol.
    destruct (decide (is_install op = true ∧ is_Some (m !! op_addr op))) as [[Hi Hsome]|Hn].
    { destruct op; cbn in *; try done. by rewrite (mcache_install_present _ _ m) in Hex. }
    destruct (mcache_exec_spec g c m op) as ([[? ?] ?] & Hex' & Hpost); try done.
    { intros Hi. split; [by apply Hop|]. apply eq_None_not_Some. intros Hsome. by apply Hn. }
    rewrite Hex in Hex'. simplify_eq. destruct Hpost as (? & ? & ? & evd & m' & _ & ? & _).
    split_and!; [done|congruence|congruence|by exists m'].
Qed.

Lemma mcache_reachable_inv_witness :
  inv (mcache_new 4 2 2) ∧ (mcache_new 4 2 2).(sets) = 4 ∧ ∃ m, models (mcache_new 4 2 2) m.
Proof.
  apply (mcache_reachable_inv (G := Z) 4 2 2); [lia|lia|lia|reflexivity|constructor].
Defined.

(** the SRRIP search ends in every set of a well-formed cache and never runs
    out of its bound ([ripctr] of the first way plus one rounds, at most 8). Its
    victim had the smallest re-reference counter [k] of the set; every counter of
    the set went down by exactly [k], so the order of the survivors is kept and no
    counter wraps. *)
Theorem srrip_victim_terminates (c : MCache) (s : Z) (Hinv : inv c) (Hs : 0 <= s < c.(sets)) :
  returns (mcache_find_victim_srrip c s) (λ '(c', v), in_set c s v ∧
    (∃ k e, aget c.(entries) v = Ret e ∧ e.(ripctr) = k ∧ 0 <= k <= MCACHE_SRRIP_MAX ∧
      (∀ i f, in_set c s i → aget c.(entries) i = Ret f →
         k <= f.(ripctr) ∧ aget c'.(entries) i = Ret (f <| ripctr := f.(ripctr) - k |>)))).
Proof.
  eapply returns_mono; [by apply victim_srrip_spec|].
  intros [c' v] (? & _ & k & e & ? & ? & ? & [_ Hag] & Hmin). split; [done|]. exists k, e.
  split_and!; try done; try lia. intros i f Hi Hf. split; [by eapply Hmin|].
  rewrite (Hag _ _ Hf), decide_True; [done|]. apply set_way; [apply Hinv|done..].
Qed.

Definition srrip_example : MCache :=
  mkMCache 2 2 REPL_SRRIP 0
    [mkEntry true false 0 5 1 0; mkEntry true false 2 3 1 0;
     mkEntry true false 1 7 1 0; mkEntry true true 3 2 1 0]
    0 0 0 false 0 0 0 0 0 0 0.
Lemma srrip_example_inv : inv srrip_example.
Proof.
  split; [split; cbn; try lia; try done|split].
  - intros i e [Hi He]%aget_Ret. apply list_elem_of_lookup_2 in He.
    repeat (apply elem_of_cons in He as [->|He]; [cbn; unfold MCACHE_SRRIP_MAX; lia|]).
    by apply not_elem_of_nil in He.
  - intros i e [Hi He]%aget_Ret _. apply lookup_lt_Some in He as Hlt. cbn in Hlt.
    assert (i = 0 ∨ i = 1 ∨ i = 2 ∨ i = 3) as [->|[->|[->| ->]]] by lia; vm_compute in He; simplify_eq;
      (split; by vm_compute).
  - intros i j e f [Hi He]%aget_Ret [Hj Hf]%aget_Ret _ _ Ht.
    apply lookup_lt_Some in He as Hlt. apply lookup_lt_Some in Hf as Hlt'. cbn in Hlt, Hlt'.
    assert (i = 0 ∨ i = 1 ∨ i = 2 ∨ i = 3) as [->|[->|[->| ->]]] by lia;
      assert (j = 0 ∨ j = 1 ∨ j = 2 ∨ j = 3) as [->|[->|[->| ->]]] by lia;
      vm_compute in He, Hf; simplify_eq; done.
Qed.

Lemma srrip_victim_terminates_witness :
  returns (mcache_find_victim_srrip srrip_example 1) (λ '(c', v), in_set srrip_example 1 v ∧
    (∃ k e, aget srrip_example.(entries) v = Ret e ∧ e.(ripctr) = k ∧ 0 <= k <= MCACHE_SRRIP_MAX ∧
      (∀ i f, in_set srrip_example 1 i → aget srrip_example.(entries) i = Ret f →
         k <= f.(ripctr) ∧ aget c'.(entries) i = Ret (f <| ripctr := f.(ripctr) - k |>)))).
Proof.
  apply (srrip_victim_terminates srrip_example 1); [apply srrip_example_inv|cbn; lia].
Defined.

(** the write-back-throttled policy. On a full set it evicts the least
    recently used line among those it may evict (clean lines, or every line while
    fewer than [LRU_WB_TTH] write-backs were counted). A dirty line is evicted
    beyond that budget only when the whole set is dirty, and then the forced
    write-back is counted in [s_wb_forced]; the epoch counter goes up exactly with
    the dirty victims. *)
Theorem lru_wbt_victim (c : MCache) (s : Z) (Hinv : inv c) (Hs : 0 <= s < c.(sets))
    (Hfull : ∀ i e, in_set c s i → aget c.(entries) i = Ret e → e.(valid) = true) :
  returns (mcache_find_victim_lru_wbt c s) (λ '(c', v), in_set c s v ∧
    ∃ e, aget c.(entries) v = Ret e ∧
      c'.(wb_in_2k_epoch) =
        (if e.(dirty) then u32 (c.(wb_in_2k_epoch) + 1) else c.(wb_in_2k_epoch)) ∧
      if eligible c.(wb_in_2k_epoch) e
      then ∀ i, in_set c s i → elig_at c.(entries) c.(wb_in_2k_epoch) i → older c.(entries) v i
      else c'.(s_wb_forced) = u64 (c.(s_wb_forced) + 1) ∧
           ∀ i, in_set c s i → ¬ elig_at c.(entries) c.(wb_in_2k_epoch) i).
Proof.
  eapply returns_mono; [by apply victim_wbt_spec|]. intros [c' v] (? & _ & ?). done.
Qed.

Lemma lru_wbt_victim_witness :
  returns (mcache_find_victim_lru_wbt srrip_example 1) (λ '(c', v), in_set srrip_example 1 v ∧
    ∃ e, aget srrip_example.(entries) v = Ret e ∧
      c'.(wb_in_2k_epoch) =
        (if e.(dirty) then u32 (srrip_example.(wb_in_2k_epoch) + 1) else srrip_example.(wb_in_2k_epoch)) ∧
      if eligible srrip_example.(wb_in_2k_epoch) e
      then ∀ i, in_set srrip_example 1 i →
        elig_at srrip_example.(entries) srrip_example.(wb_in_2k_epoch) i → older srrip_example.(entries) v i
      else c'.(s_wb_forced) = u64 (srrip_example.(s_wb_forced) + 1) ∧
           ∀ i, in_set srrip_example 1 i →
             ¬ elig_at srrip_example.(entries) srrip_example.(wb_in_2k_epoch) i).
Proof.
  apply (lru_wbt_victim srrip_example 1); [apply srrip_example_inv|cbn; lia|].
  intros i e Hi [Hi0 He]%aget_Ret. unfold in_set in Hi. cbn in Hi.
  assert (i = 2 ∨ i = 3) as [->| ->] by lia; vm_compute in He; by simplify_eq.
Defined.
