(* ===== verification/Os.v ===== *)
(** * Virtual-to-physical translation (src/os.h, src/os.cpp)

    Pages are allocated on first touch, at random among the free physical pages;
    the thread id is embedded above bit 36 of the virtual page number. *)
From S2P Require Import Prelude.

Record OS := mkOS {
  pt : gmap Z Z;
  ipt : list bool;
  lines_in_page : Z;
  num_threads : Z;
  num_pages : Z;
  s_miss_count : Z
}.

(** The page and line sizes are read through [extern uns] declarations. *)
Definition os_new (OS_PAGESIZE LINESIZE num_pages num_threads : Z) : outcome OS :=
  lip ← udiv (u32 OS_PAGESIZE) (u32 LINESIZE);
  ipt ← aset (replicate (Z.to_nat num_pages) false) 0 true;
  Ret (mkOS ∅ ipt lip num_threads num_pages 0).

Definition MAX_TRIES : nat := 1000.

(** [while (tries < MAX_TRIES)]: draw a page, take it if it is free *)
Fixpoint draw_page {G} `{RandSource G} (tries : nat) (g : G) (os : OS) : outcome (G * OS * Z) :=
  match tries with
  | O => Fault AssertFail
  | S tries =>
      let (r, g) := rand g in
      v ← umod (u64 r) os.(num_pages);
      let victim := u32 v in
      used ← aget os.(ipt) victim;
      if negb used then
        ipt' ← aset os.(ipt) victim true;
        Ret (g, os <| ipt := ipt' |>, victim)
      else draw_page tries g os
  end.

(** the literal [0.95] *)
Definition d0_95 : double := S754_finite false 8556839292003942 (-53).

Definition os_get_victim_from_ipt {G} `{RandSource G} (g : G) (os : OS) : outcome (G * OS * Z) :=
  _ ← assert_ (dltb (double_of_Z os.(s_miss_count)) (dmul d0_95 (double_of_Z os.(num_pages))));
  draw_page MAX_TRIES g os.

Definition tid_vpn (tid vpn : Z) : Z := u64 (u64 (Z.shiftl tid 36) + vpn).

Definition os_vpn_to_pfn {G} `{RandSource G} (g : G) (os : OS) (vpn tid : Z) : outcome (G * OS * Z) :=
  _ ← assert_ (Z.shiftr vpn 36 =? 0);
  let key := tid_vpn tid vpn in
  match os.(pt) !! key with
  | Some pfn => Ret (g, os, pfn)
  | None =>
      r ← os_get_victim_from_ipt g os;
      let '(g, os, victim_pfn) := r in
      Ret (g, os <| pt ::= <[key := victim_pfn]> |>
                 <| s_miss_count := u64 (os.(s_miss_count) + 1) |>, victim_pfn)
  end.

Definition os_v2p_lineaddr {G} `{RandSource G} (g : G) (os : OS) (lineaddr tid : Z) :
    outcome (G * OS * Z) :=
  vpn ← udiv lineaddr os.(lines_in_page);
  lineid ← umod lineaddr os.(lines_in_page);
  r ← os_vpn_to_pfn g os vpn tid;
  let '(g, os, pfn) := r in
  Ret (g, os, u64 (u64 (pfn * os.(lines_in_page)) + lineid)).

(** the translations of a sequence of (line address, thread) requests *)
Fixpoint os_run {G} `{RandSource G} (g : G) (os : OS) (calls : list (Z * Z)) :
    outcome (G * OS * list Z) :=
  match calls with
  | [] => Ret (g, os, [])
  | (a, tid) :: calls =>
      r ← os_v2p_lineaddr g os a tid;
      let '(g, os, p) := r in
      rs ← os_run g os calls;
      Ret (rs.1, p :: rs.2)
  end.

(** ** The allocation invariant *)

Record wf (os : OS) : Prop := {
  wf_lip : 0 < os.(lines_in_page);
  wf_pages : 0 < os.(num_pages) < 4294967296;
  wf_mem : os.(num_pages) * os.(lines_in_page) < 18446744073709551616;
  wf_ipt : zlen os.(ipt) = os.(num_pages);
  (** page 0 is reserved; every page in the table is marked as used *)
  wf_zero : aget os.(ipt) 0 = Ret true;
  wf_used : ∀ k p, os.(pt) !! k = Some p → 0 < p < os.(num_pages) ∧ aget os.(ipt) p = Ret true;
  wf_inj : ∀ k k' p, os.(pt) !! k = Some p → os.(pt) !! k' = Some p → k = k'
}.

(** requests as the simulator makes them: at most 2^28 threads, 64-bit lines *)
Definition is_request (c : Z * Z) : Prop := is_u64 c.1 ∧ 0 <= c.2 < 268435456.

Lemma tid_vpn_eq tid vpn :
  0 <= tid < 268435456 → 0 <= vpn < 68719476736 → tid_vpn tid vpn = tid * 68719476736 + vpn.
Proof.
  intros. unfold tid_vpn. rewrite Z.shiftl_mul_pow2 by lia.
  change (2 ^ 36) with 68719476736. rewrite (u64_id (tid * _)), u64_id; unfold is_u64; lia.
Qed.
Lemma tid_vpn_inj tid vpn tid' vpn' :
  0 <= tid < 268435456 → 0 <= tid' < 268435456 →
  0 <= vpn < 68719476736 → 0 <= vpn' < 68719476736 →
  tid_vpn tid vpn = tid_vpn tid' vpn' → tid = tid' ∧ vpn = vpn'.
Proof. intros ????. rewrite !tid_vpn_eq by done. lia. Qed.

Lemma vpn_guard vpn : 0 <= vpn → (Z.shiftr vpn 36 =? 0) = true → vpn < 68719476736.
Proof.
  intros Hv Hs%Z.eqb_eq. rewrite Z.shiftr_div_pow2 in Hs by lia.
  change (2 ^ 36) with 68719476736 in Hs. dmlia.
Qed.

Section Alloc.
Context {G : Type} `{RandSource G}.

(** A drawn page was free before and is marked used after; nothing else changes. *)
Lemma draw_page_spec n (g g' : G) os os' p :
  wf os → draw_page n g os = Ret (g', os', p) →
  0 <= p < os.(num_pages) ∧ aget os.(ipt) p = Ret false ∧
  ∃ l, aset os.(ipt) p true = Ret l ∧ os' = os <| ipt := l |>.
Proof.
  intros Hwf. revert g. induction n as [|n IH]; intros g; simpl; [done|].
  destruct (rand g) as [r g1]. intros (v & Hv & Hk)%bind_Ret. apply umod_Ret in Hv as [_ ->].
  apply bind_Ret in Hk as (used & Hu & Hk). destruct used; simpl in Hk; [by eapply IH|].
  apply bind_Ret in Hk as (l & Hl & Hk). simplify_eq.
  pose proof (aget_bound _ _ _ Hu) as Hb. rewrite (wf_ipt _ Hwf) in Hb. eauto.
Qed.

Lemma draw_page_safe n (g : G) os :
  wf os → (∃ r, draw_page n g os = Ret r) ∨ draw_page n g os = Fault AssertFail.
Proof.
  intros Hwf. revert g. induction n as [|n IH]; intros g; simpl; [by right|].
  destruct (rand g) as [r g1]. pose proof (wf_pages _ Hwf) as Hn.
  rewrite umod_ok by lia. simpl.
  pose proof (Z.mod_pos_bound (u64 r) (num_pages os) ltac:(lia)).
  rewrite u32_id by (unfold is_u32; lia).
  destruct (aget_ok os.(ipt) (u64 r mod num_pages os)) as [u Hu].
  { by rewrite (wf_ipt _ Hwf). }
  rewrite Hu. destruct u; simpl; [apply IH|].
  rewrite aset_ok by by rewrite (wf_ipt _ Hwf). simpl. eauto.
Qed.

(** A translation keeps the invariant, only adds to the page table, and returns
    the page the table holds afterwards. *)
Lemma vpn_to_pfn_spec (g g' : G) os os' vpn tid pfn :
  wf os → os_vpn_to_pfn g os vpn tid = Ret (g', os', pfn) →
  wf os' ∧ os.(pt) ⊆ os'.(pt) ∧ os'.(pt) !! tid_vpn tid vpn = Some pfn ∧
  os'.(lines_in_page) = os.(lines_in_page) ∧ os'.(num_pages) = os.(num_pages) ∧
  (Z.shiftr vpn 36 =? 0) = true.
Proof.
  intros Hwf. unfold os_vpn_to_pfn. intros (? & Hassert%assert_Ret & Hk)%bind_Ret.
  destruct (pt os !! tid_vpn tid vpn) as [p|] eqn:Hpt; [injection Hk as <- <- <-; split_and!; assumption || reflexivity|].
  apply bind_Ret in Hk as ([[g1 os1] v] & Hd & Hk). injection Hk as <- <- ->.
  unfold os_get_victim_from_ipt in Hd. apply bind_Ret in Hd as (? & _ & Hd).
  apply draw_page_spec in Hd as (Hp & Hfree & l & Hl & ->); [|done]. rsimp.
  assert (∀ q, aget os.(ipt) q = Ret true → q ≠ pfn ∧ aget l q = Ret true) as Hused.
  { intros q Hq. assert (q ≠ pfn) as Hne by congruence. split; [done|].
    rewrite (aget_aset _ _ _ _ _ Hl). by rewrite (proj2 (Z.eqb_neq _ _) Hne). }
  assert (pfn ≠ 0) by (intros ->; by rewrite (wf_zero _ Hwf) in Hfree).
  split_and!; [|by apply insert_subseteq|by rewrite lookup_insert_eq|reflexivity|reflexivity|assumption].
  destruct Hwf. split; rsimp; try done.
  - by rewrite (aset_length _ _ _ _ Hl).
  - by apply Hused.
  - intros k q. rewrite lookup_insert. case_decide; intros; simplify_eq.
    + split; [lia|]. rewrite (aget_aset _ _ _ _ _ Hl). by rewrite Z.eqb_refl.
    + destruct (wf_used0 k q) as [? ?]; [done|]. split; [done|by apply Hused].
  - intros k k' q. rewrite !lookup_insert.
    do 2 case_decide; intros Hk1 Hk2; [congruence| | |by eapply wf_inj0].
    + injection Hk1 as <-. destruct (wf_used0 k' pfn) as [_ Hq%Hused]; [done|]. by destruct Hq.
    + injection Hk2 as <-. destruct (wf_used0 k pfn) as [_ Hq%Hused]; [done|]. by destruct Hq.
Qed.

(** the physical line of a request under a page table *)
Definition phys (os : OS) (c : Z * Z) (p : Z) : Prop :=
  ∃ pfn, os.(pt) !! tid_vpn c.2 (c.1 / os.(lines_in_page)) = Some pfn ∧
    c.1 / os.(lines_in_page) < 68719476736 ∧
    p = pfn * os.(lines_in_page) + c.1 mod os.(lines_in_page).

Lemma v2p_spec (g g' : G) os os' a tid p :
  wf os → is_request (a, tid) → os_v2p_lineaddr g os a tid = Ret (g', os', p) →
  wf os' ∧ os.(pt) ⊆ os'.(pt) ∧ phys os' (a, tid) p ∧
  os'.(lines_in_page) = os.(lines_in_page) ∧ os'.(num_pages) = os.(num_pages).
Proof.
  intros Hwf [Ha Ht] (vpn & [Hn ->]%udiv_Ret & Hk)%bind_Ret.
  apply bind_Ret in Hk as (lid & [_ ->]%umod_Ret & Hk).
  apply bind_Ret in Hk as ([[g1 os1] pfn] & Hv & Hk). simplify_eq. simpl in *.
  pose proof (vpn_to_pfn_spec _ _ _ _ _ _ _ Hwf Hv) as (Hwf' & Hsub & Hpt & Hlip & Hnp & Hg).
  split_and!; try done. exists pfn. rewrite Hlip. split_and!; [done| |].
  - apply vpn_guard; [|done]. apply Z.div_pos; [apply Ha|]. destruct Hwf. lia.
  - destruct Hwf'. destruct (wf_used0 _ _ Hpt) as [? _]. rewrite Hlip, Hnp in *.
    pose proof (Z.mod_pos_bound a os.(lines_in_page) ltac:(lia)).
    assert ((pfn + 1) * lines_in_page os <= num_pages os * lines_in_page os) by nia.
    pose proof (Z.mul_nonneg_nonneg pfn (lines_in_page os) ltac:(lia) ltac:(lia)).
    rewrite Z.mul_add_distr_r in *. rewrite (u64_id (pfn * _)) by (unfold is_u64; lia).
    apply u64_id. unfold is_u64. cbn [fst]. lia.
Qed.

Lemma phys_mono os os' c p :
  os.(pt) ⊆ os'.(pt) → os'.(lines_in_page) = os.(lines_in_page) → phys os c p → phys os' c p.
Proof.
  intros Hs Hl (pfn & ? & ? & ?). exists pfn. rewrite Hl. split_and!; [|done..].
  by eapply lookup_weaken.
Qed.

Lemma os_run_spec (g g' : G) os os' calls ps :
  wf os → Forall is_request calls → os_run g os calls = Ret (g', os', ps) →
  wf os' ∧ os.(pt) ⊆ os'.(pt) ∧ os'.(lines_in_page) = os.(lines_in_page) ∧
  os'.(num_pages) = os.(num_pages) ∧ Forall2 (phys os') calls ps.
Proof.
  intros Hwf Hreq. revert g os ps Hwf. induction Hreq as [|[a tid] calls Hr _ IH];
    intros g os ps Hwf; simpl.
  { intros. simplify_eq. by split_and!. }
  intros ([[g1 os1] p] & Hv & Hk)%bind_Ret. apply bind_Ret in Hk as ([[g2 os2] ps2] & Hrun & Hk).
  simplify_eq/=. apply v2p_spec in Hv as (Hwf1 & Hs1 & Hp & Hl1 & Hn1); [|done..].
  apply IH in Hrun as (Hwf2 & Hs2 & Hl2 & Hn2 & Hf); [|done].
  split_and!; [done|by etrans|congruence|congruence|].
  constructor; [|done]. by eapply phys_mono.
Qed.
End Alloc.

(** ** Counting the allocated pages *)
Definition used_pages (os : OS) : Z := zlen (filter (λ u, u = true) os.(ipt)).
Record counted (os : OS) : Prop := {
  ct_wf : wf os;
  ct_miss : os.(s_miss_count) = Z.of_nat (size os.(pt));
  ct_used : used_pages os = 1 + Z.of_nat (size os.(pt))
}.
(** from [os] to [os']: nothing when the page is mapped, else one free page is taken for it *)
Definition allocates (os : OS) (key : Z) (os' : OS) : Prop :=
  match os.(pt) !! key with
  | Some _ => os' = os
  | None => ∃ pfn, aget os.(ipt) pfn = Ret false ∧ os'.(pt) = <[key := pfn]> os.(pt) ∧
      aset os.(ipt) pfn true = Ret os'.(ipt) ∧ os'.(lines_in_page) = os.(lines_in_page) ∧
      os'.(num_pages) = os.(num_pages) ∧ os'.(num_threads) = os.(num_threads)
  end.

Lemma mark_page_count (l l' : list bool) i : aget l i = Ret false → aset l i true = Ret l' →
  zlen (filter (λ u, u = true) l') = 1 + zlen (filter (λ u, u = true) l).
Proof.
  intros [Hi Hl]%aget_Ret [_ ->]%aset_Ret. rewrite <- (take_drop_middle l (Z.to_nat i) false Hl) at 2.
  rewrite insert_take_drop by (by eapply lookup_lt_Some). rewrite !filter_app, !filter_cons.
  rewrite decide_True, decide_False by done. unfold zlen. rewrite !length_app. cbn [length]. lia.
Qed.
Lemma filter_bound {A} (p : A → Prop) `{∀ x, Decision (p x)} l : zlen (filter p l) <= zlen l.
Proof. unfold zlen. pose proof (length_filter p l). lia. Qed.

Section Exhaustion.
Context {G : Type} `{RandSource G}.

(** the generator and the number of the [i]-th draw from now *)
Fixpoint draw_at (i : nat) (g : G) : Z := match i with O => (rand g).1 | S i => draw_at i (rand g).2 end.
(** all of the next [tries] draws hit allocated pages *)
Definition all_used (tries : nat) (g : G) (os : OS) : Prop :=
  ∀ i, (i < tries)%nat → aget os.(ipt) (u64 (draw_at i g) mod os.(num_pages)) = Ret true.
(** no page can be found: 95% of them are allocated, or no draw finds one *)
Definition exhausted (g : G) (os : OS) : Prop :=
  dltb (double_of_Z (Z.of_nat (size os.(pt)))) (dmul d0_95 (double_of_Z os.(num_pages))) = false ∨
  all_used MAX_TRIES g os.
(** the translation of [a] cannot go on *)
Definition stuck (g : G) (os : OS) (a tid : Z) : Prop :=
  68719476736 <= a / os.(lines_in_page) ∨
  os.(pt) !! tid_vpn tid (a / os.(lines_in_page)) = None ∧ exhausted g os.

Lemma draw_page_exhausted n (g : G) os : wf os → all_used n g os ↔ draw_page n g os = Fault AssertFail.
Proof.
  intros Hwf. pose proof (wf_pages _ Hwf) as Hn. revert g. induction n as [|n IH]; intros g; cbn [draw_page].
  { split; [done|]. intros _ i Hi. lia. }
  assert (Hu : ∀ g0 : G, u32 (u64 (rand g0).1 mod num_pages os) = u64 (rand g0).1 mod num_pages os).
  { intros g0. pose proof (Z.mod_pos_bound (u64 (rand g0).1) (num_pages os) ltac:(lia)). apply u32_id. unfold is_u32. lia. }
  specialize (Hu g). specialize (IH (rand g).2).
  assert (Hst : all_used (S n) g os ↔ aget os.(ipt) (u64 (rand g).1 mod num_pages os) = Ret true ∧ all_used n (rand g).2 os).
  { split.
    - intros Ha. split; [apply (Ha 0%nat); lia|]. intros i Hi. apply (Ha (S i)). lia.
    - intros [H0 Ha] [|i] Hi; [done|]. apply (Ha i). lia. }
  destruct (rand g) as [r g1]. cbn [fst snd] in *. rewrite umod_ok by lia. cbn [mbind outcome_bind]. rewrite Hu, Hst.
  destruct (aget_ok os.(ipt) (u64 r mod num_pages os)) as [u Eu].
  { rewrite (wf_ipt _ Hwf). apply Z.mod_pos_bound. lia. }
  rewrite Eu. cbn [mbind outcome_bind]. destruct u; cbn [negb].
  - rewrite IH. naive_solver.
  - pose proof (aget_bound _ _ _ Eu). rewrite aset_ok by done. cbn [mbind outcome_bind]. naive_solver.
Qed.

Lemma counted_bound os : counted os → Z.of_nat (size os.(pt)) < 4294967295.
Proof.
  intros [Hwf _ Hu]. pose proof (wf_pages _ Hwf). pose proof (wf_ipt _ Hwf).
  pose proof (filter_bound (λ u, u = true) os.(ipt)). unfold used_pages in Hu. lia.
Qed.

(** the page of a request *)
Lemma vpn_to_pfn_counted (g g' : G) os os' vpn tid pfn :
  counted os → os_vpn_to_pfn g os vpn tid = Ret (g', os', pfn) →
  counted os' ∧ allocates os (tid_vpn tid vpn) os'.
Proof.
  intros Hct. pose proof Hct as [Hwf Hmiss Hused]. intros Hv.
  pose proof (vpn_to_pfn_spec _ _ _ _ _ _ _ Hwf Hv) as (Hwf' & _).
  unfold os_vpn_to_pfn in Hv. apply bind_Ret in Hv as (? & _ & Hk). unfold allocates.
  destruct (pt os !! tid_vpn tid vpn) as [p|] eqn:Hpt; [by injection Hk as <- <- <-|].
  apply bind_Ret in Hk as ([[g1 os1] v] & Hd & Hk). injection Hk as <- <- ->.
  unfold os_get_victim_from_ipt in Hd. apply bind_Ret in Hd as (? & _ & Hd).
  apply draw_page_spec in Hd as (Hp & Hfree & l & Hl & ->); [|done]. rsimp.
  pose proof (counted_bound _ Hct) as Hb. split.
  - split; [done| |]; unfold used_pages in *; rsimp; rewrite map_size_insert_None by done.
    + rewrite Hmiss, u64_id by (unfold is_u64; lia). lia.
    + rewrite (mark_page_count _ _ _ Hfree Hl), Hused. lia.
  - exists pfn. by split_and!.
Qed.
Lemma v2p_page (g g' : G) os os' a tid p : wf os → os_v2p_lineaddr g os a tid = Ret (g', os', p) →
  ∃ pfn, os_vpn_to_pfn g os (a / os.(lines_in_page)) tid = Ret (g', os', pfn).
Proof.
  intros Hwf (vpn & [_ ->]%udiv_Ret & Hk)%bind_Ret. apply bind_Ret in Hk as (lid & _ & Hk).
  apply bind_Ret in Hk as ([[g1 os1] pfn] & Hv & Hk). simplify_eq. by exists pfn.
Qed.
Lemma os_run_counted (g g' : G) os os' calls ps :
  counted os → Forall is_request calls → os_run g os calls = Ret (g', os', ps) → counted os'.
Proof.
  intros Hct Hreq. revert g os ps Hct. induction Hreq as [|[a tid] calls Hr _ IH]; intros g os ps Hct; cbn [os_run].
  { intros. by simplify_eq. }
  intros ([[g1 os1] p] & Hv & Hk)%bind_Ret. apply bind_Ret in Hk as ([[g2 os2] ps2] & Hrun & Hk). simplify_eq/=.
  eapply IH; [|exact Hrun]. apply v2p_page in Hv as [pfn Hv]; [|apply Hct]. by eapply vpn_to_pfn_counted.
Qed.

Lemma vpn_check a L : 0 <= a → 0 < L → (Z.shiftr (a / L) 36 =? 0) = negb (68719476736 <=? a / L).
Proof.
  intros Ha HL. rewrite Z.shiftr_div_pow2 by lia. change (2 ^ 36) with 68719476736.
  assert (0 <= a / L) by (apply Z.div_pos; lia). generalize dependent (a / L). intros q Hq.
  destruct (Z.leb_spec 68719476736 q); cbn [negb]; [apply Z.eqb_neq|apply Z.eqb_eq]; dmlia.
Qed.
Lemma v2p_stuck (g : G) os a tid : counted os → is_request (a, tid) →
  stuck g os a tid → os_v2p_lineaddr g os a tid = Fault AssertFail.
Proof.
  intros [Hwf Hmiss _] [[Ha _] _] Hst. cbn [fst] in Ha. pose proof (wf_lip _ Hwf) as HL.
  unfold os_v2p_lineaddr. rewrite udiv_ok, umod_ok by lia. cbn [mbind outcome_bind].
  unfold os_vpn_to_pfn. rewrite vpn_check by lia.
  destruct Hst as [Hbig|[Hnone Hex]]; [by rewrite (proj2 (Z.leb_le _ _) Hbig)|].
  destruct (_ <=? _); [done|]. cbn [negb assert_ mbind outcome_bind]. rewrite Hnone.
  unfold os_get_victim_from_ipt. rewrite Hmiss.
  destruct Hex as [->|Hall%draw_page_exhausted]; [done| |done].
  destruct (dltb _ _); [|done]. cbn [assert_ mbind outcome_bind]. by rewrite Hall.
Qed.
Lemma v2p_counted (g : G) os a tid : counted os → is_request (a, tid) → ¬ stuck g os a tid →
  returns (os_v2p_lineaddr g os a tid) (λ r,
    counted r.1.2 ∧ phys r.1.2 (a, tid) r.2 ∧ allocates os (tid_vpn tid (a / os.(lines_in_page))) r.1.2).
Proof.
  intros Hct Hr Hn. pose proof Hct as [Hwf Hmiss _]. pose proof Hr as [[Ha _] _]. cbn [fst] in Ha.
  pose proof (wf_lip _ Hwf) as HL.
  assert (∃ r, os_v2p_lineaddr g os a tid = Ret r) as [[[g1 os1] p] E].
  { unfold os_v2p_lineaddr. rewrite udiv_ok, umod_ok by lia. cbn [mbind outcome_bind].
    unfold os_vpn_to_pfn. rewrite vpn_check by lia. unfold stuck in Hn.
    destruct (Z.leb_spec 68719476736 (a / os.(lines_in_page))); [naive_solver|]. cbn [negb assert_ mbind outcome_bind].
    destruct (pt os !! _) as [pfn|]; [eexists; reflexivity|]. unfold exhausted in Hn.
    unfold os_get_victim_from_ipt. rewrite Hmiss. destruct (dltb _ _); [|naive_solver]. cbn [assert_ mbind outcome_bind].
    destruct (draw_page_safe MAX_TRIES g os Hwf) as [[[[g2 os2] v] ->]|E]; [eexists; reflexivity|].
    exfalso. apply Hn. right. split; [done|]. right. by apply draw_page_exhausted. }
  exists (g1, os1, p). split; [done|]. cbn [fst snd].
  pose proof (v2p_spec _ _ _ _ _ _ _ Hwf Hr E) as (_ & _ & Hp & _).
  apply v2p_page in E as [pfn E]; [|done]. destruct (vpn_to_pfn_counted _ _ _ _ _ _ _ Hct E). done.
Qed.
End Exhaustion.

(** Physical lines determine the request, and the request the line. *)
Lemma phys_inj os c c' p :
  wf os → is_request c → is_request c' → phys os c p → phys os c' p → c = c'.
Proof.
  destruct c as [a t], c' as [a' t']. intros Hwf [Ha Ht] [Ha' Ht'] (pfn & Hp & Hb & He) (pfn' & Hp' & Hb' & He').
  simpl in *. destruct Hwf. set (L := lines_in_page os) in *.
  pose proof (Z.mod_pos_bound a L ltac:(lia)). pose proof (Z.mod_pos_bound a' L ltac:(lia)).
  assert (pfn = pfn' ∧ a mod L = a' mod L) as [<- Hm] by (apply (Z.div_mod_unique L); lia).
  assert (0 <= a / L) by (apply Z.div_pos; [apply Ha|lia]).
  assert (0 <= a' / L) by (apply Z.div_pos; [apply Ha'|lia]).
  apply (wf_inj0 _ _ _ Hp), tid_vpn_inj in Hp' as [<- Hq]; [|done..].
  pose proof (Z.div_mod a L ltac:(lia)). pose proof (Z.div_mod a' L ltac:(lia)). f_equal. congruence.
Qed.
Lemma phys_fun os c p p' : phys os c p → phys os c p' → p = p'.
Proof. intros (? & ? & _ & ->) (? & ? & _ & ->). by simplify_eq. Qed.

Lemma os_new_wf P L n t :
  0 < L <= P → P < 4294967296 → 0 < n < 4294967296 → n * (P / L) < 18446744073709551616 →
  returns (os_new P L n t) (λ os, wf os ∧ os.(lines_in_page) = P / L ∧ os.(num_pages) = n).
Proof.
  intros HL HP Hn Hm. unfold os_new.
  rewrite (u32_id P), (u32_id L), udiv_ok by (unfold is_u32; lia). simpl.
  assert (zlen (replicate (Z.to_nat n) false) = n) as Hlen.
  { unfold zlen. rewrite length_replicate. lia. }
  rewrite aset_ok by lia. simpl. apply returns_ret.
  assert (0 < P / L <= P) by (split; [apply Z.div_str_pos; lia|apply Z.div_le_upper_bound; nia]).
  split; [|done]. split; cbn [pt ipt lines_in_page num_pages]; try done.
  - lia.
  - unfold zlen in *. by rewrite length_insert.
  - erewrite (aget_aset (replicate (Z.to_nat n) false) 0 0 true); [done|]. apply aset_ok. lia.
Qed.

Lemma os_new_counted P L n t :
  0 < L <= P → P < 4294967296 → 0 < n < 4294967296 → n * (P / L) < 18446744073709551616 →
  returns (os_new P L n t) counted.
Proof.
  intros HL HP Hn Hm. destruct (os_new_wf P L n t HL HP Hn Hm) as (os & E & Hwf & _). exists os. split; [done|].
  unfold os_new in E. apply bind_Ret in E as (lip & _ & E). apply bind_Ret in E as (l & Hl & E). injection E as <-.
  split; [done|done|]. unfold used_pages. cbn [ipt pt]. rewrite map_size_empty.
  rewrite (mark_page_count (replicate (Z.to_nat n) false) l 0); [|apply aget_Ret; split; [done|]; apply lookup_replicate_2; lia|done].
  assert (filter (λ u, u = true) (replicate (Z.to_nat n) false) = []) as ->; [|done].
  generalize (Z.to_nat n). intros k. induction k as [|k IH]; [done|]. cbn [replicate]. by rewrite filter_cons, decide_False.
Qed.

Section Translation.
Context {G : Type} `{RandSource G}.

(** C20. Address translation is injective and stable over a run: of a sequence of
    requests that all return, two get the same physical line exactly when they are
    the same line of the same thread; the offset within the page is kept, and
    the physical page is never page 0 and lies in the physical memory. *)
Theorem os_translation_injective (P L n t : Z) (g g' : G) (os0 os' : OS)
    (calls : list (Z * Z)) (ps : list Z) (i j : nat) (ci cj : Z * Z) (pi pj : Z) :
  0 < L <= P → P < 4294967296 → 0 < n < 4294967296 →
  n * (P / L) < 18446744073709551616 →
  Forall is_request calls →
  os_new P L n t = Ret os0 →
  os_run g os0 calls = Ret (g', os', ps) →
  calls !! i = Some ci → calls !! j = Some cj → ps !! i = Some pi → ps !! j = Some pj →
  (pi = pj ↔ ci = cj) ∧
  pi mod (P / L) = ci.1 mod (P / L) ∧ 0 < pi / (P / L) < n.
Proof.
  intros HL HP Hn Hm Hreq Hnew Hrun Hci Hcj Hpi Hpj.
  pose proof (os_new_wf P L n t HL HP Hn Hm) as (os0' & Hnew' & Hwf & Hl & Hp).
  assert (os0' = os0) as -> by congruence.
  pose proof (os_run_spec _ _ _ _ _ _ Hwf Hreq Hrun) as (Hwf' & _ & Hl' & Hp' & Hf).
  pose proof (Forall2_lookup_lr _ _ _ _ _ _ Hf Hci Hpi) as Phi.
  pose proof (Forall2_lookup_lr _ _ _ _ _ _ Hf Hcj Hpj) as Phj.
  rewrite Forall_lookup in Hreq. split; [split|].
  - intros <-. eapply phys_inj; [exact Hwf'|by eapply Hreq|by eapply Hreq|exact Phi|exact Phj].
  - intros <-. by eapply phys_fun.
  - destruct Phi as (pfn & Hpt & _ & ->). rewrite Hl', Hl.
    destruct Hwf'. destruct (wf_used0 _ _ Hpt) as [? _]. rewrite Hl', Hl in *.
    pose proof (Z.mod_pos_bound ci.1 (P / L) ltac:(lia)).
    rewrite Z.add_comm, Z.mod_add, Z.mod_mod, Z.div_add, (Z.div_small (_ mod _)) by lia. lia.
Qed.

(** C21. Page faults. In every state that a run of translations reaches, the tables are well formed and count what
    is allocated: the pages marked in the inverted table are page 0 and those of the page table, and [s_miss_count] is
    their number. There the next translation stops, with a failed assertion, exactly when the page number does not fit
    36 bits or an unmapped page finds memory exhausted: 95% of the pages are allocated, or 1000 draws in a row hit
    allocated pages. Otherwise it returns the line of the page that the table then has for it, the tables
    are well formed again, and nothing has changed but, for an unmapped page, that a page which was free is marked
    and entered. *)
Theorem os_translation_safe (P L n t : Z) (g g' : G) (os0 os' : OS)
    (calls : list (Z * Z)) (ps : list Z) (a tid : Z) :
  0 < L <= P → P < 4294967296 → 0 < n < 4294967296 →
  n * (P / L) < 18446744073709551616 →
  Forall is_request calls → is_request (a, tid) →
  os_new P L n t = Ret os0 →
  os_run g os0 calls = Ret (g', os', ps) →
  counted os' ∧
  (stuck g' os' a tid → os_v2p_lineaddr g' os' a tid = Fault AssertFail) ∧
  (¬ stuck g' os' a tid → returns (os_v2p_lineaddr g' os' a tid) (λ r,
     counted r.1.2 ∧ phys r.1.2 (a, tid) r.2 ∧ allocates os' (tid_vpn tid (a / os'.(lines_in_page))) r.1.2)).
Proof.
  intros HL HP Hn Hm Hreq Hr Hnew Hrun.
  pose proof (os_new_counted P L n t HL HP Hn Hm) as (os0' & Hnew' & Hct).
  assert (os0' = os0) as -> by congruence.
  assert (counted os') as Hct' by by eapply os_run_counted.
  split; [done|]. split; [by apply v2p_stuck|by apply v2p_counted].
Qed.
End Translation.

(** a run on 8 pages of 64 lines, with a counter as the generator *)
Definition demo_calls : list (Z * Z) := [(70, 0); (70, 1); (71, 0); (70, 0)].
Definition demo_os : OS := Eval vm_compute in
  match os_new 4096 64 8 4 with Ret os => os | Fault _ => mkOS ∅ [] 1 0 0 0 end.
Definition demo_run : Z * OS * list Z := Eval vm_compute in
  match os_run (1:Z) demo_os demo_calls with Ret r => r | Fault _ => (0, demo_os, []) end.

Lemma os_translation_injective_witness :
  os_run (1:Z) demo_os demo_calls = Ret demo_run ∧ demo_run.2 = [70; 134; 71; 70] ∧
  (70 = 134 ↔ (70, 0) = (70, 1)).
Proof.
  assert (os_run (1:Z) demo_os demo_calls = Ret demo_run) as Hr by (vm_compute; reflexivity).
  split; [exact Hr|]. split; [reflexivity|].
  refine (proj1 (os_translation_injective 4096 64 8 4 1 demo_run.1.1 demo_os demo_run.1.2
     demo_calls demo_run.2 0 1 (70, 0) (70, 1) 70 134 _ _ _ _ _ _ Hr _ _ _ _));
    [split; reflexivity || discriminate|reflexivity|split; reflexivity|reflexivity| |
     vm_compute; reflexivity|reflexivity..].
  unfold demo_calls, is_request, is_u64. repeat constructor; vm_compute; done.
Defined.

(** the next page is free: the request returns *)
Definition full_os : OS := Eval vm_compute in
  match os_run (1:Z) demo_os [(70, 0); (134, 0); (198, 0); (262, 0); (326, 0); (390, 0); (454, 0)] with
  | Ret r => r.1.2 | Fault _ => demo_os end.
Lemma os_translation_safe_witness : counted demo_run.1.2 ∧
  returns (os_v2p_lineaddr demo_run.1.1 demo_run.1.2 70 0) (λ r,
    counted r.1.2 ∧ r.1.2 = demo_run.1.2) ∧
  (∃ g r, os_run (1:Z) demo_os [(70, 0); (134, 0); (198, 0); (262, 0); (326, 0); (390, 0); (454, 0)] = Ret (g, full_os, r) ∧
    os_v2p_lineaddr g full_os 518 0 = Fault AssertFail).
Proof.
  destruct (os_translation_safe 4096 64 8 4 1 demo_run.1.1 demo_os demo_run.1.2
     demo_calls demo_run.2 70 0) as (Hc & _ & Hret);
    [split; reflexivity || discriminate|reflexivity|split; reflexivity|reflexivity| | |
     vm_compute; reflexivity|vm_compute; reflexivity|].
  { unfold demo_calls, is_request, is_u64. repeat constructor; vm_compute; done. }
  { unfold is_request, is_u64. repeat constructor; vm_compute; done. }
  split; [exact Hc|]. split.
  - destruct Hret as (r & E & Hr & _ & Ha).
    { intros [Hb|[Hn _]]; [vm_compute in Hb; by destruct Hb|vm_compute in Hn; discriminate]. }
    exists r. split; [exact E|]. split; [exact Hr|exact Ha].
  - eexists _, _. split; [vm_compute; reflexivity|].
    destruct (os_translation_safe 4096 64 8 4 1 (8:Z) demo_os full_os
     [(70, 0); (134, 0); (198, 0); (262, 0); (326, 0); (390, 0); (454, 0)] [70; 134; 198; 262; 326; 390; 454] 518 0)
     as (Hf & Hst & _);
     [split; reflexivity || discriminate|reflexivity|split; reflexivity|reflexivity| | |
     vm_compute; reflexivity|vm_compute; reflexivity|].
    + unfold is_request, is_u64. repeat constructor; vm_compute; done.
    + unfold is_request, is_u64. repeat constructor; vm_compute; done.
    + apply Hst. right. split; [vm_compute; reflexivity|]. right. apply draw_page_exhausted; [apply Hf|].
      vm_compute. reflexivity.
Defined.
