(* ===== verification/DramBank.v ===== *)
(** * A DRAM bank (src/drambank.h, src/drambank.cpp)

    A bank owns its request queue, its row buffer and its refresh-management counter.
    Through the pointer to its channel it also reads and writes the channel's bus
    queue and RFM flags; that shared part of the channel is the record [ChanShared],
    declared here and embedded in [DRAM_Channel]. *)
From S2P Require Import Prelude Params.

Inductive DRAM_ReqType :=
  | DRAM_REQ_RD | DRAM_REQ_WB | DRAM_REQ_NRR | DRAM_REQ_REF | DRAM_REQ_RFM.
#[export] Instance DRAM_ReqType_dec : EqDecision DRAM_ReqType.
Proof. solve_decision. Defined.

(** [DRAM_SchedulingPolicy], compared with the numeric parameter *)
Definition DRAM_SCHED_FCFS : Z := 0.
Definition DRAM_SCHED_FRFCFS : Z := 1.
(** [DRAM_RFMType] (dram.h) *)
Definition DRAM_RFM_SB : Z := 1.
Definition DRAM_RFM_AB : Z := 2.

Inductive DRAM_BankStatusType := DRAM_BANK_BUSY | DRAM_BANK_READY.
#[export] Instance DRAM_BankStatusType_dec : EqDecision DRAM_BankStatusType.
Proof. solve_decision. Defined.

Inductive DRAM_BankQEntryStatusType :=
  | DRAM_BANKQ_ENTRY_INVALID | DRAM_BANKQ_ENTRY_WAIT
  | DRAM_BANKQ_ENTRY_INSERVICE | DRAM_BANKQ_ENTRY_DONE.
#[export] Instance DRAM_BankQEntryStatusType_dec : EqDecision DRAM_BankQEntryStatusType.
Proof. solve_decision. Defined.

Record DRAM_BankQ_Entry := mkBankQEntry {
  e_status : DRAM_BankQEntryStatusType;
  e_reqtype : DRAM_ReqType;
  e_rowid : Z;
  e_lineaddr : Z;
  e_birth_time : Z;
  e_done_time : Z;
  e_service_delay : Z;
  e_wait_delay : Z
}.

Record DRAM_Bank := mkBank {
  b_id : Z;
  b_channelid : Z;
  b_num_rows : Z;
  b_status : DRAM_BankStatusType;
  bankq : list DRAM_BankQ_Entry;
  row_valid : bool;
  open_row_id : Z;
  sleep_cycle : Z;
  rowbufopen_cycle : Z;
  rowbufclose_cycle : Z;
  RAA : Z;
  s_ACT : Z;
  s_REQ : Z;
  s_service_delay : Z;
  s_wait_delay : Z
}.

(** ** The part of the channel a bank touches (src/dramchannel.h) *)

Record DRAM_BusQ_Entry := mkBusQEntry {
  q_valid : bool;
  q_reqtype : DRAM_ReqType;
  q_lineaddr : Z;
  q_ready_time : Z
}.
Record DRAM_BusQ := mkBusQ { entries : list DRAM_BusQ_Entry; q_size : Z }.
Record ChanShared := mkChanShared {
  RFMAB : bool;
  RFMSB : Z;
  dbusq : DRAM_BusQ;
  banks_in_bankgroup : Z
}.

Definition NUM_DRAM_BANK_ENTRIES : Z := 16.
Definition NUM_DRAM_BUSQ_ENTRIES : Z := 128.

(** [dram_channel_insert_rdwrq] (src/dramchannel.cpp): the bus slot of the bank *)
Definition dram_channel_insert_rdwrq (sh : ChanShared) (bankid : Z) (reqtype : DRAM_ReqType)
    (lineaddr ready_time : Z) : outcome ChanShared :=
  e ← aget sh.(dbusq).(entries) bankid;
  _ ← assert_ (negb e.(q_valid));
  es ← aset sh.(dbusq).(entries) bankid (mkBusQEntry true reqtype lineaddr ready_time);
  Ret (sh <| dbusq := mkBusQ es (u32 (sh.(dbusq).(q_size) + 1)) |>).

(** ** Bank operations *)

(** With [-memclosepage] the constructor also sets the global [DRAM_MAX_TOPEN]. *)
Definition dram_bank_new (P : Params) (bankid channelid num_rows : Z) : DRAM_Bank * Params :=
  (mkBank bankid channelid num_rows DRAM_BANK_READY [] false 0 0 0 0 0 0 0 0 0,
   if negb (P.(MEM_CLOSEPAGE) =? 0) then P <| DRAM_MAX_TOPEN := P.(tRAS) |> else P).

(** The four times of a new entry that are not initialised are written before they
    are read; they are 0 here. *)
Definition dram_bank_insert (cycle : Z) (b : DRAM_Bank) (type : DRAM_ReqType) (rowid lineaddr : Z) :
    outcome (DRAM_Bank * bool) :=
  _ ← assert_ (rowid <? b.(b_num_rows));
  if zlen b.(bankq) =? NUM_DRAM_BANK_ENTRIES then Ret (b, false)
  else
    let b := match type with
             | DRAM_REQ_RD | DRAM_REQ_WB => b <| s_REQ := u64 (b.(s_REQ) + 1) |>
             | _ => b end in
    let entry := mkBankQEntry DRAM_BANKQ_ENTRY_WAIT type rowid lineaddr cycle 0 0 0 in
    Ret (b <| bankq := b.(bankq) ++ [entry] |>, true).

Definition dram_bank_remove (b : DRAM_Bank) (index : Z) : outcome DRAM_Bank :=
  _ ← assert_ (0 <? zlen b.(bankq));
  e ← aget b.(bankq) index;
  _ ← assert_ (bool_decide (e.(e_status) = DRAM_BANKQ_ENTRY_DONE));
  Ret (b <| bankq := take (Z.to_nat index) b.(bankq) ++ drop (S (Z.to_nat index)) b.(bankq) |>).

Definition is_rdwr (t : DRAM_ReqType) : bool :=
  match t with DRAM_REQ_RD | DRAM_REQ_WB => true | _ => false end.

(** the row-buffer part of a read or write: the bank after it, the activation delay
    and whether the row was activated *)
Definition service_row (P : Params) (cycle : Z) (b : DRAM_Bank) (rowid : Z) : DRAM_Bank * Z * bool :=
  (* check for early page closure *)
  let '(b, act_delay) :=
    if b.(row_valid) && (b.(rowbufclose_cycle) <=? cycle) then
      let delta := u64 (cycle - b.(rowbufclose_cycle)) in
      (b <| row_valid := false |>,
       if delta <? P.(tPRE) then u64 (0 + u64 (P.(tPRE) - delta)) else 0)
    else (b, 0) in
  if negb b.(row_valid) then
    let rbo := u64 (cycle + act_delay) in
    let act_delay := u64 (act_delay + P.(tACT)) in
    (b <| rowbufopen_cycle := rbo |> <| rowbufclose_cycle := u64 (rbo + P.(DRAM_MAX_TOPEN)) |>
       <| row_valid := true |> <| open_row_id := rowid |>, act_delay, true)
  else if negb (b.(open_row_id) =? rowid) then
    let delta := u64 (cycle - b.(rowbufopen_cycle)) in
    let ras_delay := if delta <? P.(tRAS) then u64 (P.(tRAS) - delta) else 0 in
    let rbo := u64 (u64 (cycle + ras_delay) + P.(tPRE)) in
    let act_delay := u64 (u64 (ras_delay + P.(tPRE)) + P.(tACT)) in
    (b <| rowbufopen_cycle := rbo |> <| rowbufclose_cycle := u64 (rbo + P.(DRAM_MAX_TOPEN)) |>
       <| row_valid := true |> <| open_row_id := rowid |>, act_delay, true)
  else (b, 0, false).

(** RFM scheduling after an activation: raise the channel's flag for this bank *)
Definition raise_rfm (P : Params) (b : DRAM_Bank) (sh : ChanShared) : outcome ChanShared :=
  if (0 <? P.(DRAM_RFM_POLICY)) && (u64 (3 * P.(RFM_TH)) <=? b.(RAA)) then
    let sh := if P.(DRAM_RFM_POLICY) =? DRAM_RFM_AB then sh <| RFMAB := true |> else sh in
    if P.(DRAM_RFM_POLICY) =? DRAM_RFM_SB then
      let num_bg := u32 sh.(banks_in_bankgroup) in
      my_offset ← udiv b.(b_id) num_bg;
      if 32 <=? my_offset then Fault OutOfRange
      else Ret (sh <| RFMSB := Z.lor sh.(RFMSB) (u32 (Z.shiftl 1 my_offset)) |>)
    else Ret sh
  else Ret sh.

(** PARA with DRFM: with probability 1/period the row is closed and the bank sleeps on *)
Definition mcpara {G} `{RandSource G} (P : Params) (g : G) (b : DRAM_Bank) : G * DRAM_Bank :=
  if negb (P.(MCPARA_DRFM_PERIOD) =? 0) then
    let (r, g) := rand g in
    let randval := ddiv (double_of_Z (r mod 1048576)) (double_of_Z 1048576) in
    let para_p := ddiv (double_of_Z 1) (double_of_Z P.(MCPARA_DRFM_PERIOD)) in
    if dltb randval para_p then
      let para_delay := u32 (P.(tPRE) + P.(tDRFM)) in
      (g, b <| row_valid := false |> <| sleep_cycle := u64 (b.(sleep_cycle) + para_delay) |>)
    else (g, b)
  else (g, b).

(** [dram_bank_service]: the returned delay, with the bank and channel updated *)
Definition dram_bank_service {G} `{RandSource G} (P : Params) (cycle : Z) (g : G) (b : DRAM_Bank)
    (sh : ChanShared) (type : DRAM_ReqType) (rowid : Z) : outcome (G * DRAM_Bank * ChanShared * Z) :=
  _ ← assert_ (bool_decide (b.(b_status) ≠ DRAM_BANK_BUSY));
  if is_rdwr type then
    let '(b, act_delay, new_act) := service_row P cycle b rowid in
    let b := b <| b_status := DRAM_BANK_BUSY |>
               <| sleep_cycle := u64 (u64 (cycle + act_delay) + P.(tRDRD)) |> in
    if new_act : bool then
      let b := b <| s_ACT := u64 (b.(s_ACT) + 1) |> <| RAA := u32 (b.(RAA) + 1) |> in
      sh ← raise_rfm P b sh;
      let (g, b) := mcpara P g b in
      Ret (g, b, sh, act_delay)
    else Ret (g, b, sh, act_delay)
  else Ret (g, b, sh, 0).

(** first read of the open row, for FR-FCFS *)
Fixpoint first_row_hit (row : Z) (ii : Z) (q : list DRAM_BankQ_Entry) : option Z :=
  match q with
  | [] => None
  | e :: q =>
      if bool_decide (e.(e_reqtype) = DRAM_REQ_RD) && (e.(e_rowid) =? row) then Some ii
      else first_row_hit row (ii + 1) q
  end.

Definition dram_bank_schedule (P : Params) (b : DRAM_Bank) : outcome Z :=
  _ ← assert_ (negb (zlen b.(bankq) =? 0));
  if P.(DRAM_SCHED_POLICY) =? DRAM_SCHED_FCFS then Ret 0
  else if P.(DRAM_SCHED_POLICY) =? DRAM_SCHED_FRFCFS then
    if b.(row_valid) then
      match first_row_hit b.(open_row_id) 0 b.(bankq) with Some ii => Ret ii | None => Ret 0 end
    else Ret 0
  else Fault AssertFail.

(** [b->bankq[index].field = ...] *)
Definition upd_entry (b : DRAM_Bank) (index : Z) (f : DRAM_BankQ_Entry → DRAM_BankQ_Entry) :
    outcome DRAM_Bank :=
  e ← aget b.(bankq) index;
  q ← aset b.(bankq) index (f e);
  Ret (b <| bankq := q |>).

Definition dram_bank_cycle {G} `{RandSource G} (P : Params) (cycle : Z) (g : G) (b : DRAM_Bank)
    (sh : ChanShared) : outcome (G * DRAM_Bank * ChanShared) :=
  if bool_decide (b.(b_status) = DRAM_BANK_BUSY) && (cycle <=? b.(sleep_cycle)) then Ret (g, b, sh)
  else
    let b := b <| b_status := DRAM_BANK_READY |> in
    if zlen b.(bankq) =? 0 then Ret (g, b, sh)
    else
      slot ← aget sh.(dbusq).(entries) b.(b_id);
      if slot.(q_valid) : bool then Ret (g, b, sh)
      else
        index ← dram_bank_schedule P b;
        e ← aget b.(bankq) index;
        _ ← assert_ (bool_decide (e.(e_status) = DRAM_BANKQ_ENTRY_WAIT));
        r ← dram_bank_service P cycle g b sh e.(e_reqtype) e.(e_rowid);
        let '(g, b, sh, bank_delay) := r in
        b ← upd_entry b index (λ e,
          e <| e_status := DRAM_BANKQ_ENTRY_INSERVICE |>
            <| e_done_time := u64 (cycle + bank_delay) |>
            <| e_service_delay := bank_delay |>
            <| e_wait_delay := u64 (cycle - e.(e_birth_time)) |>
            <| e_status := DRAM_BANKQ_ENTRY_DONE |>);
        e ← aget b.(bankq) index;
        bs ← (if is_rdwr e.(e_reqtype) then
                sh ← dram_channel_insert_rdwrq sh b.(b_id) e.(e_reqtype) e.(e_lineaddr) e.(e_done_time);
                Ret (b <| s_service_delay := u64 (b.(s_service_delay) + bank_delay) |>
                       <| s_wait_delay := u64 (b.(s_wait_delay) + e.(e_wait_delay)) |>, sh)
              else Ret (b, sh));
        b ← dram_bank_remove bs.1 index;
        Ret (g, b, bs.2).

Definition dram_bank_refresh (P : Params) (b : DRAM_Bank) (in_cycle : Z) : DRAM_Bank :=
  b <| b_status := DRAM_BANK_BUSY |> <| sleep_cycle := u64 (in_cycle + P.(tRFC)) |>
    <| row_valid := false |>
    <| RAA := if P.(RFM_REFTH) <? b.(RAA) then u32 (b.(RAA) - P.(RFM_REFTH)) else 0 |>.

Definition dram_bank_rfmab (P : Params) (b : DRAM_Bank) (in_cycle : Z) : DRAM_Bank :=
  b <| b_status := DRAM_BANK_BUSY |> <| sleep_cycle := u64 (in_cycle + P.(tRFC) / 2) |>
    <| row_valid := false |>
    <| RAA := if P.(RFM_TH) <? b.(RAA) then u32 (b.(RAA) - P.(RFM_TH)) else 0 |>.

Definition dram_bank_rfmsb (P : Params) (b : DRAM_Bank) (in_cycle : Z) : DRAM_Bank :=
  dram_bank_rfmab P b in_cycle.

(** ** Invariants *)

(** parameters as a configuration gives them: times that fit 32 bits, a row stays
    open at least [tRAS], a known scheduling policy *)
Record params_ok (P : Params) : Prop := {
  po_pre : 0 <= P.(tPRE) < 4294967296;
  po_act : 0 <= P.(tACT) < 4294967296;
  po_ras : 0 <= P.(tRAS) < 4294967296;
  po_rdrd : 0 <= P.(tRDRD) < 4294967296;
  po_topen : P.(tRAS) <= P.(DRAM_MAX_TOPEN) < 4294967296;
  po_sched : P.(DRAM_SCHED_POLICY) = DRAM_SCHED_FCFS ∨ P.(DRAM_SCHED_POLICY) = DRAM_SCHED_FRFCFS
}.

(** 2^62: cycles stay far from the end of their 64-bit range *)
Definition is_cycle (t : Z) : Prop := 0 <= t < 4611686018427387904.

Definition is_wait (e : DRAM_BankQ_Entry) : Prop := e.(e_status) = DRAM_BANKQ_ENTRY_WAIT.

(** bank [i], of [rows] rows, between two operations, at most [now] cycles into the run *)
Record bank_ok (P : Params) (rows now i : Z) (b : DRAM_Bank) : Prop := {
  bk_id : b.(b_id) = i;
  bk_rows : b.(b_num_rows) = rows;
  bk_len : zlen b.(bankq) <= NUM_DRAM_BANK_ENTRIES;
  bk_wait : Forall is_wait b.(bankq);
  bk_open : row_valid b = true → 0 <= b.(rowbufopen_cycle);
  bk_close : row_valid b = true →
    b.(rowbufclose_cycle) = b.(rowbufopen_cycle) + P.(DRAM_MAX_TOPEN);
  (** the row is open by the time the bank is free again *)
  bk_busy : row_valid b = true → b.(b_status) = DRAM_BANK_BUSY →
    b.(rowbufopen_cycle) <= b.(sleep_cycle);
  bk_ready : row_valid b = true → b.(b_status) = DRAM_BANK_READY → b.(rowbufopen_cycle) <= now
}.

(** the bus slot of a bank: data is on the bus only after the row is open *)
Record slot_ok (b : DRAM_Bank) (e : DRAM_BusQ_Entry) : Prop := {
  sl_type : e.(q_valid) = true → is_rdwr e.(q_reqtype) = true;
  sl_ready : e.(q_valid) = true → row_valid b = true → b.(rowbufopen_cycle) <= e.(q_ready_time)
}.

(** the reads a bank has in flight: those in its queue and the one on the bus *)
Definition rd_of_entry (e : DRAM_BankQ_Entry) : option Z :=
  match e.(e_reqtype) with DRAM_REQ_RD => Some e.(e_lineaddr) | _ => None end.
Definition rd_of_slot (e : DRAM_BusQ_Entry) : list Z :=
  match e.(q_valid), e.(q_reqtype) with true, DRAM_REQ_RD => [e.(q_lineaddr)] | _, _ => [] end.
Definition bank_reads (b : DRAM_Bank) (e : DRAM_BusQ_Entry) : list Z :=
  omap rd_of_entry b.(bankq) ++ rd_of_slot e.

(** consecutive activations of a bank whose row stays open are at least
    [tRAS + tPRE] apart *)
Definition act_spaced (P : Params) (b b' : DRAM_Bank) : Prop :=
  row_valid b = true →
  b'.(rowbufopen_cycle) = b.(rowbufopen_cycle) ∨
  b.(rowbufopen_cycle) + P.(tRAS) + P.(tPRE) <= b'.(rowbufopen_cycle).

(** ** Lemmas *)

Lemma service_row_spec P cycle b rowid b' d new :
  params_ok P → is_cycle cycle →
  (row_valid b = true → 0 <= b.(rowbufopen_cycle) <= cycle) →
  (row_valid b = true → b.(rowbufclose_cycle) = b.(rowbufopen_cycle) + P.(DRAM_MAX_TOPEN)) →
  service_row P cycle b rowid = (b', d, new) →
  row_valid b' = true ∧ b'.(open_row_id) = rowid ∧
  b'.(rowbufclose_cycle) = b'.(rowbufopen_cycle) + P.(DRAM_MAX_TOPEN) ∧
  0 <= d < 12884901888 ∧ 0 <= b'.(rowbufopen_cycle) <= cycle + d ∧ act_spaced P b b' ∧
  (b'.(b_id), b'.(bankq), b'.(b_num_rows), b'.(RAA), b'.(s_ACT)) =
  (b.(b_id), b.(bankq), b.(b_num_rows), b.(RAA), b.(s_ACT)).
Proof.
  intros [] Hc Ho Hcl. unfold is_cycle in Hc. unfold service_row, act_spaced.
  destruct (row_valid b) eqn:Hv; cbn [andb].
  - specialize (Ho eq_refl). specialize (Hcl eq_refl).
    destruct (Z.leb_spec (rowbufclose_cycle b) cycle); cbn [andb negb]; rsimp; cbn [negb].
    + rewrite (u64_id (cycle - rowbufclose_cycle b)) by (unfold is_u64; lia). destruct (Z.ltb_spec (cycle - rowbufclose_cycle b) (tPRE P));
        unwrap64; intros [= <- <- <-]; rsimp; split_and!; try done; try lia; intros; lia.
    + rewrite Hv. cbn [negb]. destruct (Z.eqb_spec (open_row_id b) rowid); cbn [negb].
      * intros [= <- <- <-]. split_and!; try done; try lia.
      * rewrite (u64_id (cycle - _)) by (unfold is_u64; lia).
        destruct (Z.ltb_spec (cycle - rowbufopen_cycle b) (tRAS P));
          unwrap64; intros [= <- <- <-]; rsimp; split_and!; try done; try lia; intros; lia.
  - rewrite Hv. cbn [negb]. unwrap64. intros [= <- <- <-]; rsimp; split_and!; try done; lia.
Qed.

Lemma mcpara_spec {G} `{RandSource G} P (g g' : G) b b' :
  mcpara P g b = (g', b') →
  b' = b ∨ ∃ s, b' = b <| row_valid := false |> <| sleep_cycle := s |>.
Proof. unfold mcpara. repeat case_match; intros [= <- <-]; eauto. Qed.

(** the RFM flags: with groups of [n] banks the flag raised is the bank's group *)
Definition rfm_ok (P : Params) (num_banks : Z) (sh : ChanShared) : Prop :=
  (P.(DRAM_RFM_POLICY) = DRAM_RFM_SB →
   0 < sh.(banks_in_bankgroup) < 4294967296 ∧ (sh.(banks_in_bankgroup) | num_banks) ∧
   0 <= sh.(RFMSB) < 4294967296 ∧
   ∀ k, Z.testbit sh.(RFMSB) k = true → (k + 1) * sh.(banks_in_bankgroup) <= num_banks) ∧
  (P.(DRAM_RFM_POLICY) ≠ DRAM_RFM_SB → sh.(RFMSB) = 0).

Lemma lor_u32 x y : is_u32 x → is_u32 y → is_u32 (Z.lor x y).
Proof.
  unfold is_u32. intros [Hx Hx'] [Hy Hy'].
  assert (0 <= Z.lor x y) by (by apply Z.lor_nonneg). split; [done|].
  destruct (Z.eq_dec (Z.lor x y) 0); [lia|].
  apply (Z.log2_lt_pow2 _ 32); [lia|]. rewrite Z.log2_lor by lia.
  apply Z.max_lub_lt.
  - destruct (Z.eq_dec x 0) as [->|]; [by vm_compute|]. apply Z.log2_lt_pow2; [lia|done].
  - destruct (Z.eq_dec y 0) as [->|]; [by vm_compute|]. apply Z.log2_lt_pow2; [lia|done].
Qed.

Lemma raise_rfm_spec P b sh n :
  0 <= b.(b_id) < n → n <= 32 → rfm_ok P n sh →
  returns (raise_rfm P b sh) (λ sh', rfm_ok P n sh' ∧ sh'.(dbusq) = sh.(dbusq) ∧
    sh'.(banks_in_bankgroup) = sh.(banks_in_bankgroup)).
Proof.
  intros Hid Hn Hok. unfold raise_rfm.
  destruct (_ && _); [|by apply returns_ret].
  assert (rfm_ok P n (if DRAM_RFM_POLICY P =? DRAM_RFM_AB then sh <| RFMAB := true |> else sh))
    as Hok1 by (destruct (_ =? _); exact Hok).
  destruct (Z.eqb_spec (DRAM_RFM_POLICY P) DRAM_RFM_SB) as [Hsb|].
  2:{ apply returns_ret. split; [done|]. by destruct (_ =? _). }
  apply proj1 in Hok. rewrite Hsb in *. cbn [Z.eqb DRAM_RFM_AB DRAM_RFM_SB Pos.eqb] in *.
  destruct (Hok eq_refl) as (Hg & [q Hq] & Hr & Hbits).
  rewrite u32_id, udiv_ok by (unfold is_u32; lia). osimp.
  assert (0 <= b_id b / banks_in_bankgroup sh < 32).
  { split; [apply Z.div_pos; lia|]. apply Z.div_lt_upper_bound; nia. }
  set (o := b_id b / banks_in_bankgroup sh) in *.
  destruct (Z.leb_spec 32 o); [lia|]. apply returns_ret.
  assert (u32 (Z.shiftl 1 o) = 2 ^ o) as ->.
  { rewrite Z.shiftl_1_l. apply u32_id. split; [lia|]. apply (Z.pow_lt_mono_r 2 o 32); lia. }
  split; [|done]. split; [intros _|congruence]. rsimp. split_and!; try lia; [by exists q| | |].
  - apply Z.lor_nonneg. lia.
  - apply lor_u32; [done|]. split; [lia|]. apply (Z.pow_lt_mono_r 2 o 32); lia.
  - intros k. rewrite Z.lor_spec. intros [Hk|Hk]%orb_true_iff; [by apply Hbits|].
    destruct (Z.eq_dec o k) as [<-|]; [|rewrite Z.pow2_bits_false in Hk by lia; done].
    assert (o * banks_in_bankgroup sh <= b_id b) by (rewrite Z.mul_comm; apply Z.mul_div_le; lia).
    rewrite Hq in *. assert (o < q) by nia. nia.
Qed.

(** [first_row_hit] finds the first index whose entry reads the row *)
Definition row_hit (row : Z) (e : DRAM_BankQ_Entry) : Prop :=
  e.(e_reqtype) = DRAM_REQ_RD ∧ e.(e_rowid) = row.

Lemma first_row_hit_spec row ii q :
  match first_row_hit row ii q with
  | Some k => ii <= k ∧ ∃ e, q !! Z.to_nat (k - ii) = Some e ∧ row_hit row e ∧
      ∀ j e', (j < Z.to_nat (k - ii))%nat → q !! j = Some e' → ¬ row_hit row e'
  | None => Forall (λ e, ¬ row_hit row e) q
  end.
Proof.
  revert ii. induction q as [|e q IH]; intros ii; simpl; [constructor|].
  destruct (bool_decide_reflect (e_reqtype e = DRAM_REQ_RD)) as [Ht|Ht]; cbn [andb].
  - destruct (Z.eqb_spec (e_rowid e) row) as [Hr|Hr].
    + rewrite Z.sub_diag. split; [lia|]. exists e. split_and!; [done|by split|].
      intros j e' Hj. lia.
    + specialize (IH (ii + 1)). destruct (first_row_hit row (ii + 1) q) as [k|].
      * destruct IH as (Hk & e0 & He0 & Hh & Hb). split; [lia|]. exists e0.
        replace (Z.to_nat (k - ii)) with (S (Z.to_nat (k - (ii + 1)))) by lia.
        split_and!; [done|done|]. intros [|j] e' Hj Hq; simpl in Hq.
        { injection Hq as <-. by intros [_ ?]. } eapply Hb; [|done]. lia.
      * constructor; [|done]. by intros [_ ?].
  - specialize (IH (ii + 1)). destruct (first_row_hit row (ii + 1) q) as [k|].
    + destruct IH as (Hk & e0 & He0 & Hh & Hb). split; [lia|]. exists e0.
      replace (Z.to_nat (k - ii)) with (S (Z.to_nat (k - (ii + 1)))) by lia.
      split_and!; [done|done|]. intros [|j] e' Hj Hq; simpl in Hq.
      { injection Hq as <-. by intros [? _]. } eapply Hb; [|done]. lia.
    + constructor; [|done]. by intros [? _].
Qed.

Lemma schedule_ok P b :
  params_ok P → bankq b ≠ [] →
  returns (dram_bank_schedule P b) (λ k, 0 <= k < zlen b.(bankq)).
Proof.
  intros HP Hq. unfold dram_bank_schedule, zlen.
  assert (Z.of_nat (length (bankq b)) ≠ 0) by (destruct (bankq b); [by destruct Hq|simpl; lia]).
  destruct (Z.eqb_spec (Z.of_nat (length (bankq b))) 0); [done|]. osimp.
  destruct (po_sched _ HP) as [->| ->]; cbn [Z.eqb DRAM_SCHED_FCFS DRAM_SCHED_FRFCFS Pos.eqb].
  { apply returns_ret. lia. }
  destruct (row_valid b); [|apply returns_ret; lia].
  pose proof (first_row_hit_spec (open_row_id b) 0 (bankq b)) as Hf.
  destruct (first_row_hit _ _ _) as [k|]; apply returns_ret; [|lia].
  destruct Hf as (Hk & e & He%lookup_lt_Some & _). lia.
Qed.

Lemma remove_at {A} (l : list A) (k : nat) (x : A) :
  l !! k = Some x → l ≡ₚ x :: (take k l ++ drop (S k) l).
Proof. intros H. rewrite <- (take_drop_middle l k x H) at 1. by rewrite Permutation_middle. Qed.

Lemma omap_perm {A B} (f : A → option B) (l l' : list A) : l ≡ₚ l' → omap f l ≡ₚ omap f l'.
Proof.
  induction 1; cbn; [done| | |by etrans].
  - destruct (f x); [by constructor|done].
  - destruct (f x), (f y); try done. constructor.
Qed.

(** removing the entry just served *)
Lemma served_queue (b : DRAM_Bank) k e f :
  aget b.(bankq) k = Ret e → e_status (f e) = DRAM_BANKQ_ENTRY_DONE →
  ∃ b1, upd_entry b k f = Ret b1 ∧ b1 = b <| bankq := <[Z.to_nat k := f e]> b.(bankq) |> ∧
    aget b1.(bankq) k = Ret (f e) ∧
    ∀ b2, b2.(bankq) = b1.(bankq) →
      dram_bank_remove b2 k = Ret (b2 <| bankq := take (Z.to_nat k) b.(bankq)
                                            ++ drop (S (Z.to_nat k)) b.(bankq) |>).
Proof.
  intros He Hd. pose proof (aget_bound _ _ _ He) as Hb. unfold upd_entry. rewrite He. osimp.
  rewrite aset_ok by done. osimp. eexists. split; [done|]. split; [done|]. rsimp.
  assert (aget (<[Z.to_nat k := f e]> b.(bankq)) k = Ret (f e)) as Hg.
  { rewrite (aget_aset b.(bankq) k k (f e)) by by apply aset_ok. by rewrite Z.eqb_refl. }
  split; [exact Hg|]. intros b2 Hb2. unfold dram_bank_remove. rewrite Hb2.
  assert (zlen (<[Z.to_nat k := f e]> b.(bankq)) = zlen b.(bankq)) as ->.
  { unfold zlen. by rewrite length_insert. }
  rewrite (proj2 (Z.ltb_lt _ _)) by lia. osimp. rewrite Hg. osimp.
  rewrite bool_decide_eq_true_2 by done. osimp.
  rewrite take_insert_ge, drop_insert_lt by lia. done.
Qed.

(** ** What a service does to the bank *)
Lemma service_spec {G} `{RandSource G} P R cycle (g : G) b sh e n :
  params_ok P → is_cycle cycle → bank_ok P R cycle b.(b_id) b → b_status b = DRAM_BANK_READY →
  0 <= b.(b_id) < n → n <= 32 → rfm_ok P n sh →
  returns (dram_bank_service P cycle g b sh (e_reqtype e) (e_rowid e)) (λ r,
    let '(g', b', sh', d) := r in
    bank_ok P R (cycle + 1) b.(b_id) b' ∧ b'.(bankq) = b.(bankq) ∧
    rfm_ok P n sh' ∧ sh'.(dbusq) = sh.(dbusq) ∧
    sh'.(banks_in_bankgroup) = sh.(banks_in_bankgroup) ∧ act_spaced P b b' ∧
    0 <= d < 12884901888 ∧
    (is_rdwr (e_reqtype e) = true → row_valid b' = true → b'.(rowbufopen_cycle) <= cycle + d)).
Proof.
  intros HP Hc Hb Hrdy Hid Hn Hrfm. unfold dram_bank_service.
  rewrite Hrdy, bool_decide_eq_true_2 by done. osimp.
  assert (bank_ok P R (cycle + 1) (b_id b) b) as Hb1.
  { destruct Hb. split; try done. intros Hv Hs. specialize (bk_ready0 Hv Hs). lia. }
  destruct (is_rdwr (e_reqtype e)) eqn:Hrw; osimp.
  2:{ apply returns_ret. split_and!; first [done|lia|by left]. }
  destruct (service_row P cycle b (e_rowid e)) as [[b1 d] new] eqn:Hs.
  apply service_row_spec in Hs as (Hv1 & _ & Hcl1 & Hd & Hop1 & Hsp & Heq); [|done|done| |].
  2:{ intros Hv. destruct Hb. split; [by apply bk_open0|by apply bk_ready0]. }
  2:{ apply Hb. }
  injection Heq as Hid1 Hq1 Hr1 _ _. unfold is_cycle in Hc. destruct HP.
  assert (u64 (u64 (cycle + d) + tRDRD P) = cycle + d + tRDRD P) as Hsl by (by unwrap64).
  destruct new.
  - eapply returns_bind.
    { apply raise_rfm_spec; [rsimp; rewrite Hid1; exact Hid|done|exact Hrfm]. }
    intros sh1 (Hrfm1 & Hbq & Hbg).
    destruct (mcpara _ _ _) as [g2 b2] eqn:Hpara. apply returns_ret.
    apply mcpara_spec in Hpara. destruct Hb.
    destruct Hpara as [->|(s & ->)].
    + split_and!; try done; try (rsimp; lia).
      split; rsimp; try congruence; intros; lia.
    + split_and!; try done; try (rsimp; lia); rsimp.
      split; rsimp; congruence.
  - apply returns_ret. destruct Hb. split_and!; try done; try (rsimp; lia).
    split; rsimp; try congruence; intros; lia.
Qed.

(** a slot update by the bank that owns it *)
Record slot_step (i : Z) (sh sh' : ChanShared) (e e' : DRAM_BusQ_Entry) : Prop := {
  ss_bg : sh'.(banks_in_bankgroup) = sh.(banks_in_bankgroup);
  ss_entries : (e' = e ∧ sh'.(dbusq) = sh.(dbusq)) ∨
    (e.(q_valid) = false ∧ e'.(q_valid) = true ∧
     sh'.(dbusq) = mkBusQ (<[Z.to_nat i := e']> sh.(dbusq).(entries)) (u32 (sh.(dbusq).(q_size) + 1)))
}.

(** One cycle of a bank: it returns, keeps the invariant, activates rows at most every
    [tRAS + tPRE] while they stay open, and neither loses nor duplicates a read. *)
Lemma bank_cycle_spec {G} `{RandSource G} P R cycle (g : G) b sh e n :
  params_ok P → is_cycle cycle → bank_ok P R cycle b.(b_id) b →
  0 <= b.(b_id) < n → n <= 32 → rfm_ok P n sh →
  aget sh.(dbusq).(entries) b.(b_id) = Ret e → slot_ok b e →
  returns (dram_bank_cycle P cycle g b sh) (λ r,
    let '(g', b', sh') := r in ∃ e',
    bank_ok P R (cycle + 1) b.(b_id) b' ∧ slot_ok b' e' ∧ rfm_ok P n sh' ∧
    slot_step b.(b_id) sh sh' e e' ∧ act_spaced P b b' ∧
    bank_reads b' e' ≡ₚ bank_reads b e).
Proof.
  intros HP Hc Hb Hid Hn Hrfm He Hsl. unfold dram_bank_cycle.
  assert (bank_ok P R (cycle + 1) b.(b_id) b) as Hb'.
  { destruct Hb. split; try done. intros Hv Hs. specialize (bk_ready0 Hv Hs). lia. }
  destruct (_ && _) eqn:Hsleep; osimp.
  { apply returns_ret. exists e. split_and!; try done; [split; auto|by left]. }
  set (b0 := b <| b_status := DRAM_BANK_READY |>).
  assert (bank_ok P R cycle b.(b_id) b0) as Hb0.
  { destruct Hb. split; try done. intros Hv _.
    apply andb_false_iff in Hsleep as [Hs|Hs].
    - apply bk_ready0; [done|]. apply bool_decide_eq_false_1 in Hs. by destruct (b_status b).
    - apply Z.leb_gt in Hs. destruct (b_status b); [|by apply bk_ready0].
      specialize (bk_busy0 Hv eq_refl). change (rowbufopen_cycle b0) with (rowbufopen_cycle b). lia. }
  assert (bank_ok P R (cycle + 1) b.(b_id) b0) as Hb0'.
  { destruct Hb0. split; try done. intros Hv Hs. specialize (bk_ready0 Hv Hs). lia. }
  assert (slot_ok b0 e) as Hsl0 by by destruct Hsl.
  destruct (Z.eqb_spec (zlen (bankq b)) 0) as [|Hne].
  { apply returns_ret. exists e. split_and!; try done; [split; auto|by left]. }
  rewrite He. osimp.
  destruct (q_valid e) eqn:Hval.
  { apply returns_ret. exists e. split_and!; try done; [split; auto|by left]. }
  assert (bankq b ≠ []) as Hne' by (intros Hq; by rewrite Hq in Hne).
  eapply returns_bind; [by apply schedule_ok|]. intros k Hk. simpl in Hk.
  destruct (aget_ok b.(bankq) k Hk) as [qe Hqe]. rewrite Hqe. osimp.
  pose proof Hqe as [_ Hqe']%aget_Ret.
  assert (is_wait qe) as Hw by (eapply Forall_lookup_1; [apply (bk_wait _ _ _ _ _ Hb0)|done]).
  unfold is_wait in Hw. rewrite Hw, bool_decide_eq_true_2 by done. osimp.
  eapply returns_bind; [by apply (service_spec P R cycle g b0 sh qe n)|].
  intros [[[g1 b1] sh1] d] (Hb1 & Hq1 & Hrfm1 & Hbq1 & Hbg1 & Hsp & Hd & Hopen).
  change (b_id b0) with (b_id b) in *.
  set (f := λ e : DRAM_BankQ_Entry, e <| e_status := DRAM_BANKQ_ENTRY_INSERVICE |>
            <| e_done_time := u64 (cycle + d) |> <| e_service_delay := d |>
            <| e_wait_delay := u64 (cycle - e.(e_birth_time)) |>
            <| e_status := DRAM_BANKQ_ENTRY_DONE |>).
  assert (aget b1.(bankq) k = Ret qe) as Hqe1 by (by rewrite Hq1).
  destruct (served_queue b1 k qe f Hqe1 eq_refl) as (b2 & Hu & Hb2 & Hg2 & Hrem).
  rewrite Hu. osimp. rewrite Hg2. osimp.
  change (e_reqtype (f qe)) with (e_reqtype qe). change (e_lineaddr (f qe)) with (e_lineaddr qe).
  change (e_done_time (f qe)) with (u64 (cycle + d)). unfold is_cycle in Hc.
  rewrite (u64_id (cycle + d)) by (unfold is_u64; lia).
  assert (zlen (take (Z.to_nat k) (bankq b1) ++ drop (S (Z.to_nat k)) (bankq b1)) <= zlen (bankq b))
    as Hlen.
  { rewrite Hq1. unfold zlen. rewrite length_app, length_take, length_drop.
    change (bankq b0) with (bankq b). unfold zlen in Hk. lia. }
  assert (bankq b ≡ₚ qe :: (take (Z.to_nat k) (bankq b1) ++ drop (S (Z.to_nat k)) (bankq b1)))
    as Hperm.
  { rewrite Hq1. by apply remove_at. }
  assert (∀ b3, b3.(b_id) = b1.(b_id) → b3.(b_num_rows) = b1.(b_num_rows) → b3.(b_status) = b1.(b_status) →
    b3.(row_valid) = b1.(row_valid) → b3.(rowbufopen_cycle) = b1.(rowbufopen_cycle) →
    b3.(rowbufclose_cycle) = b1.(rowbufclose_cycle) → b3.(sleep_cycle) = b1.(sleep_cycle) →
    bankq b3 = take (Z.to_nat k) (bankq b1) ++ drop (S (Z.to_nat k)) (bankq b1) →
    bank_ok P R (cycle + 1) (b_id b) b3) as Hfin.
  { intros b3 H1 H0 H2 H3 H4 H5 H6 H7. destruct Hb1. split; rewrite ?H1, ?H0, ?H2, ?H3, ?H4, ?H5, ?H6, ?H7; try done.
    - etrans; [exact Hlen|apply Hb].
    - rewrite Hq1. pose proof (bk_wait _ _ _ _ _ Hb) as Hw'.
      apply Forall_app; split; [by apply Forall_take|by apply Forall_drop]. }
  destruct (is_rdwr (e_reqtype qe)) eqn:Hrw; osimp.
  - unfold dram_channel_insert_rdwrq.
    assert (b_id b2 = b_id b) as ->. { rewrite Hb2. rsimp. apply (bk_id _ _ _ _ _ Hb1). }
    rewrite Hbq1, He. osimp. rewrite Hval. osimp.
    rewrite aset_ok by (by eapply aget_bound). osimp.
    rewrite Hrem by done. osimp. apply returns_ret.
    exists (mkBusQEntry true (e_reqtype qe) (e_lineaddr qe) (cycle + d)). rewrite Hb2.
    split_and!; rsimp.
    + by apply Hfin.
    + split; cbn; [done|]. intros _. rsimp. intros Hv. by apply Hopen.
    + exact Hrfm1.
    + split; [done|]. right. split_and!; [done|done|done].
    + intros Hv. specialize (Hsp Hv). exact Hsp.
    + unfold bank_reads. rsimp. rewrite (omap_perm _ _ _ Hperm). cbn.
      unfold rd_of_slot. rewrite Hval. cbn. unfold rd_of_entry at 2.
      destruct (e_reqtype qe); cbn; rewrite ?app_nil_r; [|done..].
      by rewrite <- Permutation_cons_append.
  - rewrite Hrem by done. osimp. apply returns_ret. exists e. rewrite Hb2. split_and!; rsimp.
    + by apply Hfin.
    + split; intros Hx; by rewrite Hval in Hx.
    + exact Hrfm1.
    + split; [done|]. left. by rewrite Hbq1.
    + intros Hv. specialize (Hsp Hv). exact Hsp.
    + unfold bank_reads. rsimp. rewrite (omap_perm _ _ _ Hperm). cbn.
      unfold rd_of_entry at 2. by destruct (e_reqtype qe).
Qed.

(** [dram_bank_insert] *)
Lemma bank_insert_spec P R cycle now i b type rowid lineaddr e :
  bank_ok P R now i b → slot_ok b e → rowid < R →
  ∃ b' ok, dram_bank_insert cycle b type rowid lineaddr = Ret (b', ok) ∧
    bank_ok P R now i b' ∧ slot_ok b' e ∧ ok = bool_decide (zlen b.(bankq) < NUM_DRAM_BANK_ENTRIES) ∧
    
    bank_reads b' e ≡ₚ
      (if ok && bool_decide (type = DRAM_REQ_RD) then [lineaddr] else []) ++ bank_reads b e.
Proof.
  intros Hb Hs Hr. unfold dram_bank_insert. rewrite (bk_rows _ _ _ _ _ Hb), (proj2 (Z.ltb_lt _ _) Hr). osimp.
  pose proof (bk_len _ _ _ _ _ Hb) as Hl.
  destruct (Z.eqb_spec (zlen (bankq b)) NUM_DRAM_BANK_ENTRIES) as [Hf|Hf].
  { do 2 eexists. split; [done|]. split_and!; try done.
    rewrite bool_decide_eq_false_2 by lia. done. }
  do 2 eexists. split; [done|].
  assert (∀ b', b' = b ∨ b' = b <| s_REQ := u64 (s_REQ b + 1) |> →
    bank_ok P R now i (b' <| bankq := b'.(bankq) ++
      [mkBankQEntry DRAM_BANKQ_ENTRY_WAIT type rowid lineaddr cycle 0 0 0] |>)) as Hok.
  { intros b' Hb'. assert (zlen (bankq b ++
      [mkBankQEntry DRAM_BANKQ_ENTRY_WAIT type rowid lineaddr cycle 0 0 0]) <= NUM_DRAM_BANK_ENTRIES).
    { unfold zlen in *. rewrite length_app. simpl. lia. }
    destruct Hb. destruct Hb' as [->| ->]; split; rsimp; try done;
      (apply Forall_app; split; [done|by repeat constructor]). }
  split_and!.
  - destruct type; apply Hok; auto.
  - destruct Hs. by destruct type; split; rsimp.
  - rewrite bool_decide_eq_true_2 by lia. done.
  - unfold bank_reads. destruct type; rsimp; cbn [andb]; rewrite omap_app; cbn;
      rewrite <- ?app_assoc; try done.
    cbn [app]. by rewrite <- Permutation_middle.
Qed.

(** a bank held by refresh or RFM until [in_cycle] plus its delay *)
Lemma bank_hold_ok P R now i b s r e :
  bank_ok P R now i b → slot_ok b e →
  let b' := b <| b_status := DRAM_BANK_BUSY |> <| sleep_cycle := s |> <| row_valid := false |> <| RAA := r |> in
  bank_ok P R now i b' ∧ slot_ok b' e ∧ bank_reads b' e = bank_reads b e.
Proof.
  intros [] [] b'. split_and!; [|by split|done]. by split.
Qed.

(** ** Properties *)

(** C19. FR-FCFS: of a non-empty queue the scheduler returns an index in range. With the
    row open and a queued read of it, the pick is the oldest such read; in
    every other case, and under FCFS, it is the head of the queue. *)
Theorem dram_bank_schedule_frfcfs (P : Params) (b : DRAM_Bank) :
  params_ok P → bankq b ≠ [] →
  ∃ k e, dram_bank_schedule P b = Ret k ∧ aget b.(bankq) k = Ret e ∧
    let hits := P.(DRAM_SCHED_POLICY) = DRAM_SCHED_FRFCFS ∧ row_valid b = true ∧
                ∃ e', e' ∈ b.(bankq) ∧ row_hit b.(open_row_id) e' in
    (hits → row_hit b.(open_row_id) e ∧
       ∀ j e', 0 <= j < k → aget b.(bankq) j = Ret e' → ¬ row_hit b.(open_row_id) e') ∧
    (¬ hits → k = 0).
Proof.
  intros HP Hq. pose proof (schedule_ok P b HP Hq) as (k & Hk & Hr).
  destruct (aget_ok _ _ Hr) as [e He]. exists k, e. split; [done|]. split; [done|].
  intros hits. revert Hk. unfold dram_bank_schedule.
  destruct (Z.eqb_spec (zlen (bankq b)) 0); [done|]. osimp.
  destruct (Z.eqb_spec (DRAM_SCHED_POLICY P) DRAM_SCHED_FCFS) as [Hp|Hp].
  { intros [= <-]. split; [|done]. intros (Hp' & _). by rewrite Hp in Hp'. }
  destruct (Z.eqb_spec (DRAM_SCHED_POLICY P) DRAM_SCHED_FRFCFS) as [Hp'|]; [|done].
  destruct (row_valid b) eqn:Hv.
  2:{ intros [= <-]. split; [|done]. by intros (_ & ? & _). }
  pose proof (first_row_hit_spec (open_row_id b) 0 (bankq b)) as Hf.
  destruct (first_row_hit _ _ _) as [j|]; intros [= <-].
  - destruct Hf as (Hj & e0 & He0 & Hh & Hb). rewrite Z.sub_0_r in *.
    apply aget_Ret in He as [_ He]. assert (e0 = e) as -> by congruence.
    split; [|intros Hno; destruct Hno; split_and!; [done|done|]; exists e; split; [|done];
      by eapply list_elem_of_lookup_2].
    intros _. split; [done|]. intros j' e' Hj' [_ He']%aget_Ret. eapply Hb; [|done]. lia.
  - split; [|done]. intros (_ & _ & e' & Hin & Hh). rewrite Forall_forall in Hf. by apply Hf in Hh.
Qed.

Definition demo_entry (t : DRAM_ReqType) (row line : Z) : DRAM_BankQ_Entry :=
  mkBankQEntry DRAM_BANKQ_ENTRY_WAIT t row line 0 0 0 0.
Definition demo_bank : DRAM_Bank :=
  mkBank 0 0 16 DRAM_BANK_READY
    [demo_entry DRAM_REQ_RD 3 1; demo_entry DRAM_REQ_WB 5 2; demo_entry DRAM_REQ_RD 5 3;
     demo_entry DRAM_REQ_RD 5 4] true 5 0 0 19500 0 0 0 0 0.

Lemma default_params_ok : params_ok default_params.
Proof. split; cbn; try lia. by right. Qed.

Lemma dram_bank_schedule_frfcfs_witness :
  dram_bank_schedule default_params demo_bank = Ret 2 ∧
  ∃ k e, dram_bank_schedule default_params demo_bank = Ret k ∧
    aget demo_bank.(bankq) k = Ret e ∧ row_hit 5 e.
Proof.
  split; [reflexivity|].
  destruct (dram_bank_schedule_frfcfs default_params demo_bank default_params_ok ltac:(discriminate))
    as (k & e & Hk & He & Hhit & _).
  exists k, e. split; [exact Hk|]. split; [exact He|].
  apply Hhit. split; [reflexivity|]. split; [reflexivity|].
  exists (demo_entry DRAM_REQ_RD 5 3). split; [|split; reflexivity].
  cbn. right. right. left.
Defined.
