(* ===== verification/DramChannel.v ===== *)
(** * A DRAM channel (src/dramchannel.h, src/dramchannel.cpp)

    A channel cycles its banks, arbitrates the data bus round-robin with a read/write
    token, and performs the refresh-management commands its banks asked for. The
    callback [memsys_callback] into the memory system is a parameter, with the
    world [W] it changes. *)
From S2P Require Import Prelude Params DramBank.

Record DRAM_TFAW_Token := mkTFAW { tfaw_time : Z; tf_prev_time : list Z }.
Record DRAM_RDWR_Token := mkRDWR { rdwr_time : Z; rw_prev_time : Z }.

(** [shared] holds RFMAB, RFMSB, dbusq and banks_in_bankgroup; the name is not modelled. *)
Record DRAM_Channel := mkChannel {
  ch_id : Z;
  shared : ChanShared;
  bank : list DRAM_Bank;
  tfaw_token : DRAM_TFAW_Token;
  rdwr_token : DRAM_RDWR_Token;
  num_banks : Z;
  num_rows : Z;
  s_RFM : Z;
  s_bus_time : Z
}.

Definition tFAW : Z := 48.
(** the array [bank[32]] *)
Definition MAX_BANKS : Z := 32.

Definition busq0 : DRAM_BusQ :=
  mkBusQ (replicate 128 (mkBusQEntry false DRAM_REQ_RD 0 0)) 0.

Definition dram_channel_new (P : Params) (id num_banks num_rows : Z) :
    outcome (DRAM_Channel * Params) :=
  bg ← udiv num_banks P.(DRAM_BANKGROUPS);
  r ← for_ (seqZ 0 num_banks) ([], P) (λ s ii,
        rows ← udiv num_rows num_banks;
        if ii <? MAX_BANKS then
          let (b, P') := dram_bank_new s.2 ii id rows in Ret (s.1 ++ [b], P')
        else Fault OutOfRange);
  Ret (mkChannel id (mkChanShared false 0 busq0 bg) r.1 (mkTFAW tFAW [0; 0; 0; 0])
         (mkRDWR P.(tRDRD) 0) num_banks num_rows 0 0, r.2).

(** ** Refresh management *)

(** the latest [sleep_cycle] of the banks of [l], at least [cycle] *)
Definition max_bank_ready (bs : list DRAM_Bank) (cycle : Z) (l : list Z) : outcome Z :=
  for_ l cycle (λ m ii, b ← aget bs ii; Ret (if m <? b.(sleep_cycle) then b.(sleep_cycle) else m)).

(** [f] applied to the banks of [l] *)
Definition hold_banks (f : DRAM_Bank → DRAM_Bank) (bs : list DRAM_Bank) (l : list Z) :
    outcome (list DRAM_Bank) :=
  for_ l bs (λ bs ii, b ← aget bs ii; aset bs ii (f b)).

Definition dram_channel_rfmab (P : Params) (cycle : Z) (c : DRAM_Channel) : outcome DRAM_Channel :=
  m ← max_bank_ready c.(bank) cycle (seqZ 0 c.(num_banks));
  bs ← hold_banks (λ b, dram_bank_rfmab P b m) c.(bank) (seqZ 0 c.(num_banks));
  Ret (c <| bank := bs |>).

(** [for (ii = 0; ii < 32; ii++) { if (val%2==1) { pos=ii; break; } val/=2; }] *)
Fixpoint first_one (n : nat) (ii val : Z) : Z :=
  match n with
  | O => 0
  | S n => if val mod 2 =? 1 then ii else first_one n (ii + 1) (val / 2)
  end.

Definition dram_channel_rfmsb (P : Params) (cycle : Z) (c : DRAM_Channel) : outcome DRAM_Channel :=
  let pos := first_one 32 0 c.(shared).(RFMSB) in
  let sh := c.(shared) <| RFMSB := u32 (c.(shared).(RFMSB) - Z.shiftl 1 pos) |> in
  let start := u32 (pos * sh.(banks_in_bankgroup)) in
  let end_ := u32 (start + sh.(banks_in_bankgroup)) in
  let l := seqZ start (end_ - start) in
  m ← max_bank_ready c.(bank) cycle l;
  bs ← hold_banks (λ b, dram_bank_rfmsb P b m) c.(bank) l;
  Ret (c <| shared := sh |> <| bank := bs |>).

(** ** Tokens *)

Definition dram_channel_get_tfaw_token (c : DRAM_Channel) (in_cycle : Z) :
    outcome (DRAM_Channel * bool) :=
  p0 ← aget c.(tfaw_token).(tf_prev_time) 0;
  if c.(tfaw_token).(tfaw_time) <=? u64 (in_cycle - p0) then
    p1 ← aget c.(tfaw_token).(tf_prev_time) 1;
    p2 ← aget c.(tfaw_token).(tf_prev_time) 2;
    p3 ← aget c.(tfaw_token).(tf_prev_time) 3;
    Ret (c <| tfaw_token := mkTFAW c.(tfaw_token).(tfaw_time) [p1; p2; p3; in_cycle] |>, true)
  else Ret (c, false).

Definition dram_channel_get_rdwr_token (c : DRAM_Channel) (in_cycle : Z) : DRAM_Channel * bool :=
  if c.(rdwr_token).(rdwr_time) <=? u64 (in_cycle - c.(rdwr_token).(rw_prev_time)) then
    (c <| rdwr_token := mkRDWR c.(rdwr_token).(rdwr_time) in_cycle |>, true)
  else (c, false).

(** ** The bus and the cycle *)

Definition upd_busq (c : DRAM_Channel) (q : DRAM_BusQ) : DRAM_Channel :=
  c <| shared ::= λ sh, sh <| dbusq := q |> |>.

Section Cycle.
Context {W : Type} (memsys_callback : W → Z → outcome W).

(** one entry of the scan; [Some tt] leaves the function *)
Definition sched_entry (P : Params) (cycle offset : Z) (s : W * DRAM_Channel) (ii : Z) :
    outcome ((W * DRAM_Channel) * option unit) :=
  let (w, c) := s in
  index ← umod (u32 (ii + offset)) c.(num_banks);
  e ← aget c.(shared).(dbusq).(entries) index;
  if e.(q_valid) && (e.(q_ready_time) <=? cycle) then
    let (c, token) := dram_channel_get_rdwr_token c cycle in
    if token : bool then
      let rdwr_bus_delay := u64 (P.(tCAS) + P.(tRDRD)) in
      w ← (match e.(q_reqtype) with
           | DRAM_REQ_RD => memsys_callback w e.(q_lineaddr)
           | _ => Ret w end);
      let c := c <| s_bus_time := u64 (c.(s_bus_time) + rdwr_bus_delay) |> in
      es ← aset c.(shared).(dbusq).(entries) index (e <| q_valid := false |>);
      let c := upd_busq c (mkBusQ es (u32 (c.(shared).(dbusq).(q_size) - 1))) in
      b ← aget c.(bank) index;
      bs ← aset c.(bank) index (b <| sleep_cycle := u64 (cycle + P.(tRDRD)) |>);
      Ret ((w, c <| bank := bs |>), Some tt)
    else Ret ((w, c), Some tt)
  else Ret ((w, c), None).

Definition dram_channel_schedule_rdwrq (P : Params) (cycle : Z) (w : W) (c : DRAM_Channel) :
    outcome (W * DRAM_Channel) :=
  offset ← umod cycle c.(num_banks);
  r ← for_ret (seqZ 0 c.(num_banks)) (w, c) (sched_entry P cycle (u32 offset));
  Ret r.1.

(** [dram_bank_cycle(c->bank[ii])] *)
Definition cycle_bank {G} `{RandSource G} (P : Params) (cycle : Z) (s : G * DRAM_Channel) (ii : Z) :
    outcome (G * DRAM_Channel) :=
  let (g, c) := s in
  b ← aget c.(bank) ii;
  r ← dram_bank_cycle P cycle g b c.(shared);
  let '(g, b, sh) := r in
  bs ← aset c.(bank) ii b;
  Ret (g, c <| shared := sh |> <| bank := bs |>).

Definition dram_channel_cycle {G} `{RandSource G} (P : Params) (cycle : Z) (g : G) (w : W)
    (c : DRAM_Channel) : outcome (G * W * DRAM_Channel) :=
  wc ← dram_channel_schedule_rdwrq P cycle w c;
  let (w, c) := wc : W * DRAM_Channel in
  gc ← for_ (seqZ 0 c.(num_banks)) (g, c) (cycle_bank P cycle);
  let (g, c) := gc : G * DRAM_Channel in
  c ← (if c.(shared).(RFMAB) then
         let c := c <| shared ::= λ sh, sh <| RFMAB := false |> |> <| s_RFM := u64 (c.(s_RFM) + 1) |> in
         dram_channel_rfmab P cycle c
       else Ret c);
  c ← (if negb (c.(shared).(RFMSB) =? 0) then
         let c := c <| s_RFM := u64 (c.(s_RFM) + 1) |> in
         dram_channel_rfmsb P cycle c
       else Ret c);
  Ret (g, w, c).
End Cycle.

Definition dram_channel_insert (cycle : Z) (c : DRAM_Channel) (bankid : Z) (type : DRAM_ReqType)
    (rowid lineaddr : Z) : outcome (DRAM_Channel * bool) :=
  _ ← assert_ (bankid <? c.(num_banks));
  b ← aget c.(bank) bankid;
  r ← dram_bank_insert cycle b type rowid lineaddr;
  bs ← aset c.(bank) bankid r.1;
  Ret (c <| bank := bs |>, r.2).

(** ** Invariant *)

Definition valid_count (l : list DRAM_BusQ_Entry) : Z :=
  foldr (λ e n, Z.b2z e.(q_valid) + n) 0 l.

(** Channel whose bank [i] has been cycled up to [now i]; [R] rows per bank. *)
Record chan_inv (P : Params) (R : Z) (now : Z → Z) (c : DRAM_Channel) : Prop := {
  ci_num : 0 < c.(num_banks) <= MAX_BANKS;
  ci_banks : zlen c.(bank) = c.(num_banks);
  ci_entries : zlen c.(shared).(dbusq).(entries) = NUM_DRAM_BUSQ_ENTRIES;
  ci_size : c.(shared).(dbusq).(q_size) = valid_count c.(shared).(dbusq).(entries);
  ci_rfm : rfm_ok P c.(num_banks) c.(shared);
  ci_bank : ∀ i b e, aget c.(bank) i = Ret b → aget c.(shared).(dbusq).(entries) i = Ret e →
    bank_ok P R (now i) i b ∧ slot_ok b e
}.
(** all banks at the same cycle *)
Definition chan_ok (P : Params) (R t : Z) : DRAM_Channel → Prop := chan_inv P R (λ _, t).

(** the reads in flight in the channel *)
Definition chan_reads (c : DRAM_Channel) : list Z :=
  mjoin (zip_with bank_reads c.(bank) c.(shared).(dbusq).(entries)).

Definition same_dims (c c' : DRAM_Channel) : Prop :=
  c'.(num_banks) = c.(num_banks) ∧
  c'.(shared).(banks_in_bankgroup) = c.(shared).(banks_in_bankgroup).

(** ** List lemmas *)

Lemma mjoin_insert (L : list (list Z)) i x x' a b :
  L !! i = Some x → x' ++ a ≡ₚ x ++ b → mjoin (<[i:=x']> L) ++ a ≡ₚ mjoin L ++ b.
Proof.
  intros Hx Hp. rewrite <- (take_drop_middle L i x Hx) at 2.
  rewrite insert_take_drop by by eapply lookup_lt_Some.
  rewrite !join_app. cbn [mjoin list_join]. rewrite <- !app_assoc.
  apply Permutation_app_head. rewrite !(Permutation_app_comm (mjoin _)), !app_assoc.
  by rewrite Hp.
Qed.

Lemma valid_count_insert l i e e' :
  l !! i = Some e →
  valid_count (<[i:=e']> l) = valid_count l + Z.b2z e'.(q_valid) - Z.b2z e.(q_valid).
Proof.
  revert i. induction l as [|x l IH]; intros [|i] H; simpl in *; try done.
  - injection H as ->. lia.
  - rewrite (IH i H). lia.
Qed.

Lemma valid_count_bound l : 0 <= valid_count l <= zlen l.
Proof.
  unfold zlen. induction l as [|x l IH]; simpl; [lia|]. destruct (q_valid x); simpl; lia.
Qed.

(** a list that differs from [l] at [i] only, read at index [j] *)
Lemma aget_insert {A} (l : list A) i j x :
  0 <= i < zlen l → aget (<[Z.to_nat i := x]> l) j = if j =? i then Ret x else aget l j.
Proof. intros. apply (aget_aset l i j x). by apply aset_ok. Qed.

(** ** One bank and its slot are replaced *)
Lemma chan_update P R now now' c c' i b b' e e' :
  chan_inv P R now c → aget c.(bank) i = Ret b → aget c.(shared).(dbusq).(entries) i = Ret e →
  bank_ok P R (now' i) i b' → slot_ok b' e' →
  (∀ j, 0 <= j < c.(num_banks) → j ≠ i → now' j = now j) →
  c'.(bank) = <[Z.to_nat i := b']> c.(bank) →
  c'.(shared).(dbusq).(entries) = <[Z.to_nat i := e']> c.(shared).(dbusq).(entries) →
  c'.(shared).(dbusq).(q_size) =
    c.(shared).(dbusq).(q_size) + Z.b2z e'.(q_valid) - Z.b2z e.(q_valid) →
  c'.(num_banks) = c.(num_banks) → rfm_ok P c.(num_banks) c'.(shared) →
  chan_inv P R now' c' ∧
  ∀ x y, bank_reads b' e' ++ x ≡ₚ bank_reads b e ++ y → chan_reads c' ++ x ≡ₚ chan_reads c ++ y.
Proof.
  intros [] Hb He Hb' He' Hnow Hbank Hent Hsize Hnum Hrfm.
  pose proof (aget_bound _ _ _ Hb) as Hi. pose proof (aget_bound _ _ _ He) as Hi'.
  apply aget_Ret in He as He2. apply aget_Ret in Hb as Hb2. split.
  - split; rewrite ?Hnum; try done.
    + rewrite Hbank. unfold zlen. by rewrite length_insert.
    + rewrite Hent. unfold zlen. by rewrite length_insert.
    + rewrite Hsize, Hent, (valid_count_insert _ _ e) by apply He2. lia.
    + rewrite Hbank, Hent. intros j bj ej. rewrite !aget_insert by done.
      destruct (Z.eqb_spec j i) as [->|Hne].
      * intros [= ->] [= ->]. done.
      * intros Hbj Hej. rewrite Hnow; [by apply ci_bank0| |done].
        apply aget_bound in Hbj. lia.
  - intros x y Hp. unfold chan_reads. rewrite Hbank, Hent.
    destruct He2 as [_ He2], Hb2 as [_ Hb2].
    rewrite <- insert_zip_with. eapply mjoin_insert; [|exact Hp].
    by rewrite lookup_zip_with, Hb2, He2.
Qed.

(** the row buffers are as before *)
Definition keeps_open (b b' : DRAM_Bank) : Prop :=
  row_valid b' = row_valid b ∧ b'.(rowbufopen_cycle) = b.(rowbufopen_cycle).
(** no bank activates a row sooner than the timing allows *)
Definition spaced (P : Params) (c c' : DRAM_Channel) : Prop :=
  ∀ i b b', aget c.(bank) i = Ret b → aget c'.(bank) i = Ret b' → act_spaced P b b'.

Lemma chan_bank_at P R now c i :
  chan_inv P R now c → 0 <= i < c.(num_banks) →
  ∃ b e, aget c.(bank) i = Ret b ∧ aget c.(shared).(dbusq).(entries) i = Ret e ∧
    bank_ok P R (now i) i b ∧ slot_ok b e.
Proof.
  intros [] Hi. unfold MAX_BANKS, NUM_DRAM_BUSQ_ENTRIES in *.
  destruct (aget_ok c.(bank) i) as [b Hb]; [lia|].
  destruct (aget_ok c.(shared).(dbusq).(entries) i) as [e He]; [lia|].
  exists b, e. split_and!; try done; by eapply ci_bank0.
Qed.

(** Nothing but the data bus token and the statistics differ. *)
Lemma chan_inv_same P R now c c' :
  chan_inv P R now c → c'.(bank) = c.(bank) → c'.(shared) = c.(shared) →
  c'.(num_banks) = c.(num_banks) → chan_inv P R now c' ∧ chan_reads c' = chan_reads c.
Proof.
  intros [] Hb Hs Hn. split; [split|]; unfold chan_reads; rewrite ?Hb, ?Hs, ?Hn; done.
Qed.

(** ** The bus *)
Section Callback.
Context {W : Type} (memsys_callback : W → Z → outcome W).
(** what the memory system promises: [pending w l] says that it waits for the reads
    [l]; a callback for one of them succeeds and leaves it waiting for the rest *)
Context (pending : W → list Z → Prop).
Hypothesis pending_perm : ∀ w l l', l ≡ₚ l' → pending w l → pending w l'.
Hypothesis callback_ok : ∀ w a l,
  pending w (a :: l) → returns (memsys_callback w a) (λ w', pending w' l).

Definition sched_post (P : Params) (R t : Z) (r : list Z) (c : DRAM_Channel)
    (s : W * DRAM_Channel) : Prop :=
  chan_ok P R t s.2 ∧ same_dims c s.2 ∧ pending s.1 (chan_reads s.2 ++ r) ∧
  (∀ i b b', aget c.(bank) i = Ret b → aget s.2.(bank) i = Ret b' → keeps_open b b').

Lemma transfer_spec P R t r w c index b e (c' : DRAM_Channel) :
  params_ok P → is_cycle t → chan_ok P R t c → pending w (chan_reads c ++ r) →
  aget c.(bank) index = Ret b → aget c.(shared).(dbusq).(entries) index = Ret e →
  q_valid e = true → q_ready_time e <= t →
  c'.(bank) = <[Z.to_nat index := b <| sleep_cycle := u64 (t + P.(tRDRD)) |>]> c.(bank) →
  c'.(shared) = c.(shared) <| dbusq := mkBusQ
    (<[Z.to_nat index := e <| q_valid := false |>]> c.(shared).(dbusq).(entries))
    (u32 (c.(shared).(dbusq).(q_size) - 1)) |> →
  c'.(num_banks) = c.(num_banks) →
  chan_ok P R t c' ∧ same_dims c c' ∧
  (∀ i b b', aget c.(bank) i = Ret b → aget c'.(bank) i = Ret b' → keeps_open b b') ∧
  chan_reads c ≡ₚ
    (match e.(q_reqtype) with DRAM_REQ_RD => [e.(q_lineaddr)] | _ => [] end) ++ chan_reads c'.
Proof.
  intros HP Ht Hok Hpend Hb He Hval Hrdy Hbank Hsh Hnum. unfold is_cycle in Ht.
  assert (0 <= tRDRD P < 4294967296) by apply HP.
  pose proof (ci_bank _ _ _ _ Hok _ _ _ Hb He) as [Hbk Hsl].
  set (b' := b <| sleep_cycle := u64 (t + tRDRD P) |>) in *.
  set (e' := e <| q_valid := false |>) in *.
  assert (1 <= valid_count c.(shared).(dbusq).(entries) <= 128) as Hcnt.
  { pose proof (valid_count_bound (c.(shared).(dbusq).(entries))) as Hv.
    rewrite (ci_entries _ _ _ _ Hok) in Hv. unfold NUM_DRAM_BUSQ_ENTRIES in Hv.
    apply aget_Ret in He as [_ He]. pose proof (valid_count_insert _ _ _ e' He) as Hi.
    pose proof (valid_count_bound (<[Z.to_nat index := e']> c.(shared).(dbusq).(entries))) as Hv'.
    rewrite Hi, Hval in Hv'. change (q_valid e') with false in Hv'. cbn [Z.b2z] in Hv'. lia. }
  assert (bank_ok P R t index b') as Hbk'.
  { destruct Hbk. split; try done. intros Hv _. subst b'. rsimp.
    pose proof (sl_ready _ _ Hsl Hval Hv). rewrite u64_id by (unfold is_u64; lia). lia. }
  assert (slot_ok b' e') as Hsl' by by split.
  destruct (chan_update P R _ (λ _, t) c c' index b b' e e' Hok Hb He) as [Hok' Hreads];
    try done; rewrite ?Hsh; rsimp; try reflexivity; try apply Hok.
  { cbn [q_size]. pose proof (ci_size _ _ _ _ Hok) as Hsz. rewrite Hsz, Hval. change (q_valid e') with false. cbn [Z.b2z].
    rewrite u32_id by (unfold is_u32; lia). lia. }
  split; [exact Hok'|]. split; [split; [done|by rewrite Hsh]|]. split.
  - intros i bi bi' Hbi. rewrite Hbank, aget_insert by by eapply aget_bound.
    destruct (Z.eqb_spec i index) as [->|_]; [intros [= <-]|intros Hbi'].
    + assert (b = bi) as <- by congruence. by split.
    + split; congruence.
  - symmetry. rewrite Permutation_app_comm, <- (app_nil_r (chan_reads c)).
    apply Hreads. rewrite app_nil_r. unfold bank_reads, rd_of_slot.
    rewrite Hval. subst b' e'. rsimp. rewrite app_nil_r.
    by destruct (q_reqtype e).
Qed.

Lemma sched_entry_spec P R t r c0 offset s ii :
  params_ok P → is_cycle t → sched_post P R t r c0 s →
  returns (sched_entry memsys_callback P t offset s ii)
    (λ r0, match r0.2 with Some _ => sched_post P R t r c0 r0.1 | None => sched_post P R t r c0 r0.1 end).
Proof.
  destruct s as [w c]. intros HP Ht (Hok & Hdims & Hpend & Hkeep). cbn [fst snd] in *.
  pose proof (ci_num _ _ _ _ Hok) as Hn. unfold sched_entry.
  rewrite umod_ok by lia. cbn [mbind outcome_bind].
  destruct (chan_bank_at _ _ _ _ (u32 (ii + offset) mod num_banks c) Hok) as (b & e & Hb & He & Hbk & Hsl).
  { apply Z.mod_pos_bound. lia. }
  set (index := u32 (ii + offset) mod num_banks c) in *. rewrite He. cbn [mbind outcome_bind].
  destruct (q_valid e) eqn:Hval; cbn [andb]; [|by apply returns_ret].
  destruct (Z.leb_spec (q_ready_time e) t) as [Hrdy|]; [|by apply returns_ret].
  destruct (dram_channel_get_rdwr_token c t) as [c1 token] eqn:Htok.
  assert (c1 = c ∨ ∃ tk, c1 = c <| rdwr_token := tk |>) as Hc1.
  { unfold dram_channel_get_rdwr_token in Htok. case_match; injection Htok as <- _; eauto. }
  assert (c1.(bank) = c.(bank) ∧ c1.(shared) = c.(shared) ∧ c1.(num_banks) = c.(num_banks)) as (E1 & E2 & E3).
  { destruct Hc1 as [->|(tk & ->)]; done. }
  destruct (chan_inv_same _ _ _ _ c1 Hok E1 E2 E3) as [Hok1 Hr1].
  assert (sched_post P R t r c0 (w, c1)) as Hpost1.
  { split_and!; simpl; [done| |by rewrite Hr1|by rewrite E1].
    destruct Hdims. split; congruence. }
  destruct token; [|by apply returns_ret].
  assert (returns (match q_reqtype e with DRAM_REQ_RD => memsys_callback w (q_lineaddr e) | _ => Ret w end)
    (λ w', ∀ l, chan_reads c1 ≡ₚ (match e.(q_reqtype) with DRAM_REQ_RD => [e.(q_lineaddr)] | _ => [] end) ++ l →
       pending w' (l ++ r))) as Hcb.
  { destruct (q_reqtype e) eqn:Hty; try (apply returns_ret; intros l Hl; simpl in Hl;
      eapply pending_perm; [|exact Hpend]; by rewrite <- Hl, Hr1).
    (* the read: its line is one of the pending ones *)
    destruct (transfer_spec P R t r w c1 index b e
      (c1 <| bank := <[Z.to_nat index := b <| sleep_cycle := u64 (t + P.(tRDRD)) |>]> c1.(bank) |>
          <| shared ::= λ sh, sh <| dbusq := mkBusQ
             (<[Z.to_nat index := e <| q_valid := false |>]> sh.(dbusq).(entries))
             (u32 (sh.(dbusq).(q_size) - 1)) |> |>)) as (_ & _ & _ & H4);
      [done|done|done|apply Hpost1|by rewrite E1|by rewrite E2|done|done|done|done|done|].
    rewrite Hty in H4.
    eapply returns_mono; [apply callback_ok|].
    - eapply pending_perm; [|apply Hpost1]. rewrite H4. cbn [app]. reflexivity.
    - intros w' Hw' l Hl. eapply pending_perm; [|exact Hw'].
      rewrite H4 in Hl. cbn [app] in Hl. apply Permutation_cons_inv in Hl. by rewrite Hl. }
  eapply returns_bind; [exact Hcb|]. intros w' Hw'. osimp. rewrite E2.
  rewrite aset_ok by by eapply aget_bound. unfold upd_busq. osimp. rewrite E1, Hb. osimp.
  rewrite aset_ok by by eapply aget_bound. osimp. apply returns_ret. simpl.
  match goal with |- sched_post _ _ _ _ _ (_, ?c2) =>
    destruct (transfer_spec P R t r w c1 index b e c2) as (H1 & H2 & H3 & H4);
      [done|done|done|apply Hpost1|by rewrite E1|by rewrite E2|done|done|
       rsimp; by rewrite E1|rsimp; by rewrite E2|done|] end.
  split_and!; simpl; [exact H1| |by apply Hw'|].
  - destruct Hdims, H2. split; rsimp; congruence.
  - intros i bi bi' Hbi Hbi'. pose proof (aget_bound _ _ _ Hbi') as Hi.
    destruct (aget_ok c1.(bank) i) as [bm Hbm].
    { rsimp. rewrite E1. unfold zlen in *. by rewrite length_insert in Hi. }
    pose proof (H3 _ _ _ Hbm Hbi') as [K1 K2]. rewrite E1 in Hbm.
    pose proof (Hkeep _ _ _ Hbi Hbm) as [K3 K4]. split; congruence.
Qed.

Lemma schedule_rdwrq_spec P R t r w c :
  params_ok P → is_cycle t → chan_ok P R t c → pending w (chan_reads c ++ r) →
  returns (dram_channel_schedule_rdwrq memsys_callback P t w c) (sched_post P R t r c).
Proof.
  intros HP Ht Hok Hpend. unfold dram_channel_schedule_rdwrq.
  pose proof (ci_num _ _ _ _ Hok). rewrite umod_ok by lia. osimp.
  eapply returns_bind.
  - apply (for_ret_inv (sched_post P R t r c) (λ _, sched_post P R t r c)).
    + split_and!; simpl; try done. intros i b b' ? ?. split; congruence.
    + intros s x _ Hs. by apply sched_entry_spec.
  - intros [s [v|]] Hs; by apply returns_ret.
Qed.
End Callback.

(** ** Cycling the banks *)

Lemma chan_inv_now P R now now' c :
  chan_inv P R now c → (∀ j, 0 <= j < c.(num_banks) → now' j = now j) → chan_inv P R now' c.
Proof.
  intros [] Hn. split; try done. intros i b e Hb He.
  rewrite Hn; [by apply ci_bank0|]. apply aget_bound in Hb. lia.
Qed.

Definition loop_inv {G} (P : Params) (R t : Z) (c : DRAM_Channel) (i : Z) (s : G * DRAM_Channel) : Prop :=
  chan_inv P R (λ j, if j <? i then t + 1 else t) s.2 ∧ same_dims c s.2 ∧
  chan_reads s.2 ≡ₚ chan_reads c ∧
  ∀ j b b', aget c.(bank) j = Ret b → aget s.2.(bank) j = Ret b' →
    if j <? i then act_spaced P b b' else b' = b.

Lemma cycle_bank_spec {G} `{RandSource G} P R t c (s : G * DRAM_Channel) i :
  params_ok P → is_cycle t → 0 <= i < c.(num_banks) → loop_inv P R t c i s →
  returns (cycle_bank P t s i) (loop_inv P R t c (i + 1)).
Proof.
  destruct s as [g c1]. intros HP Ht Hi (Hinv & [Hnum Hbg] & Hreads & Hsp). cbn [snd] in *.
  destruct (chan_bank_at P R _ c1 i Hinv ltac:(lia)) as (b & e & Hb & He & Hbk & Hsl).
  rewrite Z.ltb_irrefl in Hbk.
  pose proof (bk_id _ _ _ _ _ Hbk) as Hid. pose proof (ci_num _ _ _ _ Hinv) as Hn.
  unfold MAX_BANKS in *. unfold cycle_bank. rewrite Hb. osimp.
  eapply returns_bind.
  { apply (bank_cycle_spec P R t g b c1.(shared) e (num_banks c1)); rewrite ?Hid; try done; try lia.
    apply (ci_rfm _ _ _ _ Hinv). }
  intros [[g' b'] sh'] (e' & Hbk' & Hsl' & Hrfm & [Hbg' Hent] & Hspb & Hrd). rewrite Hid in *.
  assert (aset c1.(bank) i b' = Ret (<[Z.to_nat i := b']> c1.(bank))) as ->.
  { apply aset_ok. by eapply aget_bound. }
  osimp. apply returns_ret. unfold loop_inv. cbn [snd].
  set (c2 := c1 <| shared := sh' |> <| bank := <[Z.to_nat i := b']> c1.(bank) |>).
  pose proof (valid_count_bound c1.(shared).(dbusq).(entries)) as Hcnt.
  rewrite (ci_entries _ _ _ _ Hinv), <- (ci_size _ _ _ _ Hinv) in Hcnt. unfold NUM_DRAM_BUSQ_ENTRIES in Hcnt.
  assert (chan_inv P R (λ j, if j <? i + 1 then t + 1 else t) c2 ∧
    ∀ x y, bank_reads b' e' ++ x ≡ₚ bank_reads b e ++ y → chan_reads c2 ++ x ≡ₚ chan_reads c1 ++ y)
    as [Hinv' Hr'].
  { eapply (chan_update P R _ _ c1 c2 i b b' e e' Hinv Hb He); try done.
    - by rewrite (proj2 (Z.ltb_lt _ _)) by lia.
    - intros j Hj Hne. destruct (Z.ltb_spec j (i + 1)), (Z.ltb_spec j i); lia.
    - subst c2. rsimp. destruct Hent as [[-> ->]|(_ & _ & ->)]; [|done].
      rewrite list_insert_id; [done|]. by apply aget_Ret in He as [_ ?].
    - subst c2. rsimp. destruct Hent as [[-> ->]|(-> & -> & ->)]; cbn [q_size Z.b2z]; [lia|].
      rewrite u32_id by (unfold is_u32; lia). lia.
  }
  split_and!.
  - done.
  - subst c2. split; rsimp; congruence.
  - rewrite <- Hreads, <- (app_nil_r (chan_reads c2)), <- (app_nil_r (chan_reads c1)).
    apply Hr'. by rewrite !app_nil_r.
  - subst c2. rsimp. intros j b0 b0' Hb0. rewrite aget_insert by by eapply aget_bound.
    destruct (Z.eqb_spec j i) as [->|Hne].
    + intros [= <-]. rewrite (proj2 (Z.ltb_lt _ _)) by lia.
      specialize (Hsp i b0 b Hb0 Hb). rewrite Z.ltb_irrefl in Hsp. by subst.
    + intros Hb0'. specialize (Hsp j b0 b0' Hb0 Hb0').
      destruct (Z.ltb_spec j (i + 1)), (Z.ltb_spec j i); [done|lia|lia|done].
Qed.

(** ** Refresh and RFM hold banks without touching their requests *)

Definition hold_rel (b b' : DRAM_Bank) : Prop :=
  b'.(rowbufopen_cycle) = b.(rowbufopen_cycle) ∧
  ∀ P R now i e, bank_ok P R now i b → slot_ok b e →
    bank_ok P R now i b' ∧ slot_ok b' e ∧ bank_reads b' e = bank_reads b e.

#[export] Instance hold_rel_preorder : PreOrder hold_rel.
Proof.
  split.
  - intros b. split; auto.
  - intros b1 b2 b3 [H1 H2] [H3 H4]. split; [congruence|]. intros P R now i e Hb He.
    destruct (H2 _ _ _ _ _ Hb He) as (Hb2 & He2 & Hr2).
    destruct (H4 _ _ _ _ _ Hb2 He2) as (Hb3 & He3 & Hr3). split_and!; [done|done|congruence].
Qed.

Lemma hold_rel_refresh P b m : hold_rel b (dram_bank_refresh P b m).
Proof. split; [done|]. intros. by apply bank_hold_ok. Qed.
Lemma hold_rel_rfmab P b m : hold_rel b (dram_bank_rfmab P b m).
Proof. split; [done|]. intros. by apply bank_hold_ok. Qed.
#[export] Hint Resolve hold_rel_refresh hold_rel_rfmab : mds.

Definition held (bs bs' : list DRAM_Bank) : Prop :=
  zlen bs' = zlen bs ∧
  ∀ i b, aget bs i = Ret b → ∃ b', aget bs' i = Ret b' ∧ hold_rel b b'.

Lemma hold_banks_spec f bs l :
  (∀ b, hold_rel b (f b)) → (∀ i, i ∈ l → 0 <= i < zlen bs) →
  returns (hold_banks f bs l) (held bs).
Proof.
  intros Hf Hl. unfold hold_banks. apply for_inv.
  - split; [done|]. intros i b Hb. by exists b.
  - intros bs1 i Hi [Hlen Hrel]. apply Hl in Hi. destruct (aget_ok bs1 i) as [b1 Hb1]; [lia|].
    rewrite Hb1. osimp. rewrite aset_ok by lia. apply returns_ret. split.
    + unfold zlen in *. by rewrite length_insert.
    + intros j b Hb. destruct (Hrel _ _ Hb) as (b' & Hb' & Hh).
      rewrite aget_insert by lia. destruct (Z.eqb_spec j i) as [->|]; [|by exists b'].
      exists (f b1). split; [done|]. assert (b' = b1) as <- by congruence. by etrans.
Qed.

Lemma max_bank_ready_ok bs t l :
  (∀ i, i ∈ l → 0 <= i < zlen bs) → returns (max_bank_ready bs t l) (λ m, t <= m).
Proof.
  intros Hl. unfold max_bank_ready. apply for_inv; [lia|]. intros m i Hi Hm.
  destruct (aget_ok bs i) as [b ->]; [by apply Hl|]. osimp. apply returns_ret.
  destruct (Z.ltb_spec m (sleep_cycle b)); lia.
Qed.

Lemma chan_held P R t c c' :
  chan_ok P R t c → held c.(bank) c'.(bank) → c'.(shared).(dbusq) = c.(shared).(dbusq) →
  c'.(num_banks) = c.(num_banks) → rfm_ok P c.(num_banks) c'.(shared) →
  chan_ok P R t c' ∧ chan_reads c' = chan_reads c.
Proof.
  intros Hok [Hlen Hrel] Hq Hn Hrfm.
  assert (∀ i b' e, aget c'.(bank) i = Ret b' → aget c.(shared).(dbusq).(entries) i = Ret e →
    ∃ b, aget c.(bank) i = Ret b ∧ bank_ok P R t i b' ∧ slot_ok b' e ∧
      bank_reads b' e = bank_reads b e) as Hall.
  { intros i b' e Hb' He. destruct (aget_ok c.(bank) i) as [b Hb].
    { rewrite <- Hlen. by eapply aget_bound. }
    destruct (Hrel _ _ Hb) as (b'' & Hb'' & Hh). assert (b'' = b') as -> by congruence.
    destruct (ci_bank _ _ _ _ Hok _ _ _ Hb He) as [H1 H2].
    exists b. split; [done|]. by apply Hh. }
  split.
  - destruct Hok. split; rewrite ?Hq, ?Hn; try done; [congruence|].
    intros i b' e Hb' He. destruct (Hall _ _ _ Hb' He) as (b & _ & H1 & H2 & _). done.
  - unfold chan_reads. rewrite Hq. f_equal. apply list_eq. intros i.
    rewrite !lookup_zip_with.
    destruct (c.(bank) !! i) as [b|] eqn:Hb.
    + assert (aget c.(bank) (Z.of_nat i) = Ret b) as Hb1.
      { apply aget_Ret. rewrite Nat2Z.id. split; [lia|done]. }
      destruct (Hrel _ _ Hb1) as (b' & Hb' & _).
      pose proof Hb' as [_ Hb2]%aget_Ret. rewrite Nat2Z.id in Hb2. rewrite Hb2. cbn.
      destruct (entries _ !! i) as [e|] eqn:He; cbn; [|done].
      destruct (Hall (Z.of_nat i) b' e Hb') as (b0 & Hb0 & _ & _ & Heq).
      { apply aget_Ret. rewrite Nat2Z.id. split; [lia|done]. }
      assert (b0 = b) as -> by congruence. by rewrite Heq.
    + apply lookup_ge_None in Hb. rewrite (lookup_ge_None_2 (bank c')); [done|].
      unfold zlen in Hlen. lia.
Qed.

(** The search finds the lowest bit that is set. *)
Lemma first_one_spec n ii v :
  0 < v < 2 ^ Z.of_nat n →
  ii <= first_one n ii v < ii + Z.of_nat n ∧ Z.testbit v (first_one n ii v - ii) = true ∧
  ∀ k, 0 <= k < first_one n ii v - ii → Z.testbit v k = false.
Proof.
  revert ii v. induction n as [|n IH]; intros ii v Hv; [change (2 ^ Z.of_nat 0) with 1 in Hv; lia|].
  cbn [first_one]. rewrite Nat2Z.inj_succ, Z.pow_succ_r in Hv by lia.
  destruct (Z.eqb_spec (v mod 2) 1) as [Hm|Hm].
  - rewrite Z.sub_diag. split_and!; [lia|lia| |intros; lia].
    rewrite Z.bit0_odd. rewrite Zmod_odd in Hm. by destruct (Z.odd v).
  - destruct (IH (ii + 1) (v / 2)) as (H1 & H2 & H3); [dmlia|].
    set (p := first_one n (ii + 1) (v / 2)) in *. split_and!; [lia|lia| |].
    + replace (p - ii) with (Z.succ (p - (ii + 1))) by lia.
      by rewrite <- Z.div2_bits by lia.
    + intros k Hk. destruct (decide (k = 0)) as [->|].
      * rewrite Z.bit0_odd. rewrite Zmod_odd in Hm. by destruct (Z.odd v).
      * replace k with (Z.succ (k - 1)) by lia. rewrite <- Z.div2_bits by lia.
        apply H3. lia.
Qed.

Lemma sub_bit x p : 0 <= p → Z.testbit x p = true → x - Z.shiftl 1 p = Z.clearbit x p.
Proof.
  intros Hp Hb. unfold Z.clearbit. apply Z.sub_nocarry_ldiff.
  apply Z.bits_inj'. intros k Hk. rewrite Z.ldiff_spec, Z.bits_0, Z.shiftl_1_l.
  destruct (Z.eq_dec p k) as [<-|]; [rewrite Hb; apply andb_false_r|].
  by rewrite Z.pow2_bits_false.
Qed.

Lemma rfmab_spec P R t tc c :
  chan_ok P R t c →
  returns (dram_channel_rfmab P tc c) (λ c', chan_ok P R t c' ∧ chan_reads c' = chan_reads c ∧
    same_dims c c' ∧ c'.(shared) = c.(shared) ∧ held c.(bank) c'.(bank)).
Proof.
  intros Hok. unfold dram_channel_rfmab.
  assert (∀ i, i ∈ seqZ 0 c.(num_banks) → 0 <= i < zlen c.(bank)) as Hl.
  { intros i Hi%elem_of_seqZ. rewrite (ci_banks _ _ _ _ Hok). lia. }
  eapply returns_bind; [by apply max_bank_ready_ok|]. intros m _.
  eapply returns_bind; [apply (hold_banks_spec (λ b, dram_bank_rfmab P b m)); [auto with mds|done]|].
  intros bs Hbs. apply returns_ret.
  destruct (chan_held P R t c (c <| bank := bs |>) Hok) as [H1 H2]; [exact Hbs|done|done|apply (ci_rfm _ _ _ _ Hok)|].
  split_and!; try done.
Qed.

Lemma rfmsb_spec P R t tc c :
  chan_ok P R t c → c.(shared).(RFMSB) ≠ 0 →
  returns (dram_channel_rfmsb P tc c) (λ c', chan_ok P R t c' ∧ chan_reads c' = chan_reads c ∧
    same_dims c c' ∧ held c.(bank) c'.(bank)).
Proof.
  intros Hok Hnz. unfold dram_channel_rfmsb.
  destruct (ci_rfm _ _ _ _ Hok) as [Hsb Hoff].
  destruct (decide (DRAM_RFM_POLICY P = DRAM_RFM_SB)) as [Hpol|Hpol]; [|by apply Hoff in Hpol].
  destruct (Hsb Hpol) as (Hg & Hdiv & Hr & Hbits).
  pose proof (first_one_spec 32 0 c.(shared).(RFMSB) ltac:(cbn; lia)) as (Hp & Hbit & _).
  rewrite Z.sub_0_r in Hbit. set (pos := first_one 32 0 _) in *.
  pose proof (Hbits _ Hbit) as Hend. pose proof (ci_num _ _ _ _ Hok) as Hn. unfold MAX_BANKS in Hn.
  assert (u32 (RFMSB (shared c) - Z.shiftl 1 pos) = Z.clearbit (RFMSB (shared c)) pos ∧
    0 <= Z.clearbit (RFMSB (shared c)) pos < 4294967296) as [Hclr Hrange].
  { rewrite sub_bit by (done || lia).
    assert (0 <= Z.clearbit (RFMSB (shared c)) pos <= RFMSB (shared c)).
    { split; [apply Z.ldiff_nonneg; lia|].
      rewrite <- sub_bit, Z.shiftl_1_l by (done || lia). pose proof (Z.pow_nonneg 2 pos). lia. }
    rewrite u32_id by (unfold is_u32; lia). split; [done|lia]. }
  rewrite Hclr.
  match goal with |- context [set_field shared _ _] => idtac | |- _ => idtac end.
  set (sh := c.(shared) <| RFMSB := Z.clearbit c.(shared).(RFMSB) pos |>).
  change (banks_in_bankgroup sh) with (banks_in_bankgroup (shared c)).
  set (G := banks_in_bankgroup (shared c)) in *.
  rewrite (u32_id (pos * G)) by (unfold is_u32; nia).
  rewrite (u32_id (pos * G + G)) by (unfold is_u32; nia).
  replace (pos * G + G - pos * G) with G by lia.
  assert (∀ i, i ∈ seqZ (pos * G) G → 0 <= i < zlen c.(bank)) as Hl.
  { intros i Hi%elem_of_seqZ. rewrite (ci_banks _ _ _ _ Hok). nia. }
  eapply returns_bind; [by apply max_bank_ready_ok|]. intros m _.
  eapply returns_bind; [apply (hold_banks_spec (λ b, dram_bank_rfmsb P b m));
    [unfold dram_bank_rfmsb; auto with mds|done]|].
  intros bs Hbs. apply returns_ret.
  destruct (chan_held P R t c (c <| shared := sh |> <| bank := bs |>) Hok) as [H1 H2]; [exact Hbs|done|done| |].
  { split; [|by intros]. intros _. subst sh. rsimp. split_and!; try done; try lia.
    intros k. unfold Z.clearbit. rewrite Z.ldiff_spec. intros [Hk _]%andb_true_iff. by apply Hbits. }
  split_and!; try done.
Qed.

(** ** Insertion and construction *)

Lemma channel_insert_spec P R t now c i type rowid lineaddr :
  chan_ok P R now c → 0 <= i < c.(num_banks) → rowid < R →
  ∃ c' ok, dram_channel_insert t c i type rowid lineaddr = Ret (c', ok) ∧
    chan_ok P R now c' ∧ same_dims c c' ∧
    chan_reads c' ≡ₚ (if ok && bool_decide (type = DRAM_REQ_RD) then [lineaddr] else []) ++ chan_reads c ∧
    ∀ b, aget c.(bank) i = Ret b → ok = bool_decide (zlen b.(bankq) < NUM_DRAM_BANK_ENTRIES).
Proof.
  intros Hok Hi Hr. destruct (chan_bank_at _ _ _ _ i Hok Hi) as (b & e & Hb & He & Hbk & Hsl).
  unfold dram_channel_insert. rewrite (proj2 (Z.ltb_lt _ _)) by lia. osimp. rewrite Hb. osimp.
  destruct (bank_insert_spec P R t now i b type rowid lineaddr e Hbk Hsl Hr)
    as (b' & ok & -> & Hbk' & Hsl' & Hfull & Hrd). osimp.
  rewrite aset_ok by by eapply aget_bound. osimp.
  exists (c <| bank := <[Z.to_nat i := b']> c.(bank) |>), ok. split; [done|].
  destruct (chan_update P R (λ _, now) (λ _, now) c (c <| bank := <[Z.to_nat i := b']> c.(bank) |>)
    i b b' e e Hok Hb He) as [Hok' Hreads]; try done; rsimp.
  { rewrite list_insert_id; [done|]. by apply aget_Ret in He as [_ ?]. }
  { lia. }
  { apply (ci_rfm _ _ _ _ Hok). }
  split_and!; [done|done| |].
  - set (x := if _ : bool then [lineaddr] else []) in *.
    rewrite <- (app_nil_r (chan_reads _)), Permutation_app_comm. etrans; [|symmetry; apply Permutation_app_comm].
    rewrite (Permutation_app_comm []). apply Hreads. rewrite app_nil_r, Hrd. apply Permutation_app_comm.
  - intros b0 Hb0. assert (b0 = b) as -> by congruence. done.
Qed.

(** the parameters after a bank was built *)
Definition after_new (P : Params) : Params :=
  if negb (P.(MEM_CLOSEPAGE) =? 0) then P <| DRAM_MAX_TOPEN := P.(tRAS) |> else P.

Lemma after_new_ok P : params_ok P → params_ok (after_new P).
Proof. intros []. unfold after_new. case_match; [|done]. split; rsimp; try done. lia. Qed.
Lemma after_new_idem P : after_new (after_new P) = after_new P.
Proof.
  unfold after_new at 2 3. destruct (MEM_CLOSEPAGE P =? 0) eqn:E; cbn [negb]; unfold after_new.
  - by rewrite E.
  - change (MEM_CLOSEPAGE (P <| DRAM_MAX_TOPEN := tRAS P |>)) with (MEM_CLOSEPAGE P).
    rewrite E. reflexivity.
Qed.

Definition bankgroups_ok (P : Params) (n : Z) : Prop :=
  0 < P.(DRAM_BANKGROUPS) ∧
  (P.(DRAM_RFM_POLICY) = DRAM_RFM_SB → (P.(DRAM_BANKGROUPS) | n)).

Lemma valid_count_replicate n e : q_valid e = false → valid_count (replicate n e) = 0.
Proof. intros He. induction n as [|n IH]; simpl; [done|]. by rewrite He, IH. Qed.

Lemma channel_new_spec P id n rows :
  params_ok P → 0 < n <= MAX_BANKS → bankgroups_ok P n →
  returns (dram_channel_new P id n rows) (λ r,
    chan_ok (after_new P) (rows / n) 0 r.1 ∧ chan_reads r.1 = [] ∧ r.1.(num_banks) = n ∧
    r.1.(shared).(banks_in_bankgroup) = n / P.(DRAM_BANKGROUPS) ∧ r.2 = after_new P).
Proof.
  intros HP Hn [Hbg Hdiv]. unfold dram_channel_new. rewrite (udiv_ok n) by lia. osimp.
  set (mk := λ i, mkBank i id (rows / n) DRAM_BANK_READY [] false 0 0 0 0 0 0 0 0 0).
  set (I := λ i (s : list DRAM_Bank * Params), s.1 = mk <$> seqZ 0 i ∧
    s.2 = if i =? 0 then P else after_new P).
  assert (returns (for_ (seqZ 0 n) ([], P) (λ s ii,
        rows0 ← udiv rows n;
        if ii <? MAX_BANKS then
          let (b, P') := dram_bank_new s.2 ii id rows0 in Ret (s.1 ++ [b], P')
        else Fault OutOfRange)) (I (0 + n))) as Hloop.
  { apply for_seqZ; [lia|by split|]. intros [bs P1] i Hi [Hbs HP1]. cbn [fst snd] in *.
    rewrite udiv_ok by lia. osimp. rewrite (proj2 (Z.ltb_lt _ _)) by (unfold MAX_BANKS in *; lia).
    unfold dram_bank_new. apply returns_ret. split; cbn [fst snd].
    - rewrite Hbs, seqZ_app, fmap_app, Z.add_0_l by lia. reflexivity.
    - destruct (Z.eqb_spec (i + 1) 0); [lia|]. rewrite HP1.
      change (after_new (if i =? 0 then P else after_new P) = after_new P).
      destruct (i =? 0); [done|apply after_new_idem]. }
  eapply returns_bind; [exact Hloop|]. intros [bs P1] [Hbs HP1]. cbn [fst snd] in *.
  rewrite Z.add_0_l in *. destruct (Z.eqb_spec n 0); [lia|]. subst bs P1.
  apply returns_ret. cbn [fst snd].
  assert (∀ i b, aget (mk <$> seqZ 0 n) i = Ret b → b = mk i) as Hmk.
  { intros i b [Hi Hb]%aget_Ret. apply list_lookup_fmap_Some in Hb as (j & -> & Hj).
    apply lookup_seqZ in Hj as [-> _]. f_equal. lia. }
  assert (∀ i e, aget (entries busq0) i = Ret e → e = mkBusQEntry false DRAM_REQ_RD 0 0) as Hent.
  { intros i e [_ He]%aget_Ret. cbn [entries busq0] in He. by apply lookup_replicate in He as [-> _]. }
  split_and!; try done.
  - split; cbn [num_banks shared bank dbusq]; try done.
    + unfold zlen. rewrite length_fmap, length_seqZ. lia.
    + split; cbn [RFMSB banks_in_bankgroup].
      * intros Hpol. assert (DRAM_RFM_POLICY P = DRAM_RFM_SB) as Hpol'.
        { unfold after_new in Hpol. by destruct (negb _). }
        destruct (Hdiv Hpol') as [q Hq]. unfold MAX_BANKS in *. rewrite Hq, Z.div_mul by lia.
        assert (0 < q <= 32) by nia.
        split_and!; first [lia | by exists (DRAM_BANKGROUPS P); lia | intros k; by rewrite Z.bits_0].
      * done.
    + intros i b e Hb He. rewrite (Hmk _ _ Hb), (Hent _ _ He). split; split; cbn; try done.
  - unfold chan_reads. cbn [shared bank dbusq].
    assert (∀ l, (∀ b, b ∈ l → b.(bankq) = []) → ∀ m,
      mjoin (zip_with bank_reads l (replicate m (mkBusQEntry false DRAM_REQ_RD 0 0))) = []) as Hz.
    { induction l as [|b l IH]; intros Hl [|m]; cbn; try done.
      rewrite IH; [|intros; apply Hl; by right]. unfold bank_reads. rewrite Hl by left. done. }
    apply Hz. intros b (i & -> & _)%list_elem_of_fmap. done.
Qed.

(** ** One cycle of the channel *)
Section ChannelCycle.
Context {W : Type} (memsys_callback : W → Z → outcome W).
Context (pending : W → list Z → Prop).
Hypothesis pending_perm : ∀ w l l', l ≡ₚ l' → pending w l → pending w l'.
Hypothesis callback_ok : ∀ w a l,
  pending w (a :: l) → returns (memsys_callback w a) (λ w', pending w' l).
Context {G : Type} `{RandSource G}.

(** the state after a channel cycle: invariant, outstanding reads, activation spacing *)
Definition cycle_post (P : Params) (R t : Z) (r : list Z) (c : DRAM_Channel)
    (s : G * W * DRAM_Channel) : Prop :=
  chan_ok P R (t + 1) s.2 ∧ same_dims c s.2 ∧ pending s.1.2 (chan_reads s.2 ++ r) ∧ spaced P c s.2.

Lemma cycle_post_held P R t r c g w c1 c2 :
  cycle_post P R t r c (g, w, c1) → chan_ok P R (t + 1) c2 → chan_reads c2 = chan_reads c1 →
  same_dims c1 c2 → held c1.(bank) c2.(bank) → cycle_post P R t r c (g, w, c2).
Proof.
  intros (_ & [] & Hp & Hsp) Hok Hr [] [Hlen Hh]. split_and!; cbn [fst snd] in *.
  - done.
  - split; congruence.
  - by rewrite Hr.
  - intros i b b' Hb Hb'. destruct (aget_ok c1.(bank) i) as [b1 Hb1].
    { rewrite <- Hlen. by eapply aget_bound. }
    destruct (Hh _ _ Hb1) as (b2 & Hb2 & Ho & _). assert (b2 = b') as -> by congruence.
    intros Hv. specialize (Hsp _ _ _ Hb Hb1 Hv). by rewrite Ho.
Qed.

Lemma channel_cycle_spec P R t g w c r :
  params_ok P → is_cycle t → chan_ok P R t c → pending w (chan_reads c ++ r) →
  returns (dram_channel_cycle memsys_callback P t g w c) (cycle_post P R t r c).
Proof.
  intros HP Ht Hok Hpend. unfold dram_channel_cycle.
  eapply returns_bind; [by apply (schedule_rdwrq_spec memsys_callback pending pending_perm callback_ok P R t r)|].
  intros [w1 c1] (Hok1 & Hd1 & Hp1 & Hk1). cbn [fst snd] in *.
  eapply returns_bind.
  { apply (for_seqZ (loop_inv P R t c1)).
    - pose proof (ci_num _ _ _ _ Hok1). lia.
    - split_and!; cbn [snd]; try done.
      + eapply chan_inv_now; [exact Hok1|]. intros j Hj. destruct (Z.ltb_spec j 0); [lia|done].
      + intros j b b' Hb Hb'. destruct (Z.ltb_spec j 0); [|congruence].
        apply aget_bound in Hb. lia.
    - intros s i Hi Hs. apply cycle_bank_spec; [done|done|lia|done]. }
  intros [g2 c2] (Hok2 & Hd2 & Hr2 & Hs2). cbn [fst snd] in *. rewrite Z.add_0_l in *.
  assert (cycle_post P R t r c (g2, w1, c2)) as Hpost.
  { destruct Hd1 as [Hn1 Hg1], Hd2 as [Hn2 Hg2]. split_and!; cbn [fst snd].
    - eapply chan_inv_now; [exact Hok2|]. intros j Hj. cbn.
      destruct (Z.ltb_spec j (num_banks c1)); [done|lia].
    - split; congruence.
    - eapply pending_perm; [|exact Hp1]. by rewrite Hr2.
    - intros i b b' Hb Hb' Hv. destruct (aget_ok c1.(bank) i) as [b1 Hb1].
      { apply aget_bound in Hb'. rewrite (ci_banks _ _ _ _ Hok2) in Hb'.
        rewrite (ci_banks _ _ _ _ Hok1). lia. }
      destruct (Hk1 _ _ _ Hb Hb1) as [Hv1 Ho1]. specialize (Hs2 _ _ _ Hb1 Hb').
      apply aget_bound in Hb1. rewrite (ci_banks _ _ _ _ Hok1) in Hb1.
      rewrite (proj2 (Z.ltb_lt _ _)) in Hs2 by lia. rewrite <- Ho1. apply Hs2. congruence. }
  assert (∀ c3, cycle_post P R t r c (g2, w1, c3) →
    returns (if negb (RFMSB (shared c3) =? 0) then
        dram_channel_rfmsb P t (c3 <| s_RFM := u64 (s_RFM c3 + 1) |>) else Ret c3)
      (λ c4, cycle_post P R t r c (g2, w1, c4))) as Hsb.
  { intros c3 Hp3. destruct (Z.eqb_spec (RFMSB (shared c3)) 0) as [|Hne]; [by apply returns_ret|].
    set (c3' := c3 <| s_RFM := u64 (s_RFM c3 + 1) |>).
    destruct (chan_inv_same P R _ c3 c3' (proj1 Hp3)) as [Hok3 Hr3]; try done.
    cbn [negb]. eapply returns_mono; [by apply (rfmsb_spec P R (t + 1) t c3')|].
    intros c4 (H1 & H2 & H3 & H4). eapply (cycle_post_held _ _ _ _ _ _ _ c3); done. }
  destruct (RFMAB (shared c2)).
  - set (c2' := c2 <| shared ::= λ sh, sh <| RFMAB := false |> |> <| s_RFM := u64 (s_RFM c2 + 1) |>).
    destruct (chan_held P R (t + 1) c2 c2') as [Hok2' Hr2']; try done.
    { apply Hpost. }
    { split; [done|]. intros i b Hb. exists b. split; [exact Hb|reflexivity]. }
    { apply (ci_rfm _ _ _ _ Hok2). }
    eapply returns_bind; [by apply (rfmab_spec P R (t + 1) t c2')|].
    intros c3 (H1 & H2 & H3 & H4 & H5). eapply returns_bind; [|intros c4 Hc4; apply returns_ret; exact Hc4].
    apply Hsb. eapply (cycle_post_held _ _ _ _ _ _ _ c2); done.
  - cbn [mbind outcome_bind].
    eapply returns_bind; [by apply Hsb|]. intros c4 Hc4. apply returns_ret. exact Hc4.
Qed.
End ChannelCycle.

(** C18. A channel cycle is safe and loses nothing. From the channel invariant (queues
    of at most 16 waiting requests, one bus slot per bank, the slot count, the RFM
    flags within the banks) one cycle always returns: no assertion fails and
    no array is overrun. The invariant holds again; the reads the memory
    system waits for are exactly those still in the channel, those delivered having been
    called back once; and no bank with an open row activates another one sooner
    than [tRAS + tPRE] after its last activation. *)
Theorem dram_channel_cycle_safe {W G : Type} `{RandSource G}
    (memsys_callback : W → Z → outcome W) (pending : W → list Z → Prop)
    (P : Params) (R t : Z) (g : G) (w : W) (c : DRAM_Channel) (r : list Z) :
  (∀ w l l', l ≡ₚ l' → pending w l → pending w l') →
  (∀ w a l, pending w (a :: l) → returns (memsys_callback w a) (λ w', pending w' l)) →
  params_ok P → is_cycle t → chan_ok P R t c → pending w (chan_reads c ++ r) →
  ∃ g' w' c', dram_channel_cycle memsys_callback P t g w c = Ret (g', w', c') ∧
    chan_ok P R (t + 1) c' ∧ pending w' (chan_reads c' ++ r) ∧ spaced P c c'.
Proof.
  intros Hperm Hcb HP Ht Hok Hp.
  destruct (channel_cycle_spec memsys_callback pending Hperm Hcb P R t g w c r HP Ht Hok Hp)
    as ([[g' w'] c'] & Hc & H1 & _ & H2 & H3).
  by exists g', w', c'.
Qed.

(** a memory system that keeps the multiset of outstanding lines *)
Definition demo_callback (w : list Z) (a : Z) : outcome (list Z) :=
  match list_find (eq a) w with
  | Some (i, _) => Ret (take i w ++ drop (S i) w)
  | None => Fault AssertFail
  end.

Lemma demo_callback_ok w a l :
  w ≡ₚ a :: l → returns (demo_callback w a) (λ w', w' ≡ₚ l).
Proof.
  intros Hw. unfold demo_callback. destruct (list_find (eq a) w) as [[i x]|] eqn:E.
  - apply list_find_Some in E as (Hx & <- & _). apply returns_ret.
    apply (Permutation_cons_inv (a := a)). by rewrite <- Hw, <- remove_at.
  - apply list_find_None in E. rewrite Forall_forall in E. destruct (E a); [|done].
    rewrite Hw. left.
Qed.

Definition demo_channel : DRAM_Channel :=
  Eval vm_compute in match dram_channel_new default_params 0 8 4096 with
  | Ret r => r.1 | Fault _ => mkChannel 0 (mkChanShared false 0 busq0 1) [] (mkTFAW 0 []) (mkRDWR 0 0) 0 0 0 0 end.

Lemma demo_channel_ok : chan_ok default_params 512 0 demo_channel ∧ chan_reads demo_channel = [].
Proof.
  destruct (channel_new_spec default_params 0 8 4096 default_params_ok) as (r & Hr & H1 & H2 & _).
  { vm_compute. split; [done|discriminate]. }
  { split; [done|]. intros _. by exists 1. }
  vm_compute in Hr. injection Hr as <-. split; [exact H1|exact H2].
Qed.

(** a channel with one read queued *)
Definition demo_channel1 : DRAM_Channel :=
  Eval vm_compute in match dram_channel_insert 0 demo_channel 3 DRAM_REQ_RD 7 99 with
  | Ret r => r.1 | Fault _ => demo_channel end.

Lemma demo_channel1_ok : chan_ok default_params 512 0 demo_channel1 ∧ chan_reads demo_channel1 ≡ₚ [99].
Proof.
  destruct (channel_insert_spec default_params 512 0 0 demo_channel 3 DRAM_REQ_RD 7 99)
    as (c' & ok & Hi & Hok & _ & Hr & _); [apply demo_channel_ok|vm_compute; split; [discriminate|done]|done|].
  vm_compute in Hi. injection Hi as <- <-. split; [exact Hok|].
  rewrite (proj2 demo_channel_ok) in Hr. exact Hr.
Qed.

Lemma dram_channel_cycle_safe_witness :
  ∃ g' w' c', dram_channel_cycle demo_callback default_params 0 (1:Z) [99] demo_channel1 = Ret (g', w', c') ∧
    chan_ok default_params 512 1 c' ∧ w' ≡ₚ chan_reads c' ++ [] ∧ spaced default_params demo_channel1 c'.
Proof.
  apply (dram_channel_cycle_safe demo_callback (λ w l, w ≡ₚ l) default_params 512 0 (1:Z) [99] demo_channel1 []).
  - intros w l l' Hl Hw. by rewrite <- Hl.
  - exact demo_callback_ok.
  - exact default_params_ok.
  - split; [discriminate|reflexivity].
  - apply demo_channel1_ok.
  - rewrite app_nil_r. symmetry. apply demo_channel1_ok.
Defined.

(** ** The tokens over a sequence of requests *)

(** the cycles at which the token is granted *)
Fixpoint rdwr_grants (c : DRAM_Channel) (ts : list Z) : list Z :=
  match ts with
  | [] => []
  | t :: ts =>
      let (c', ok) := dram_channel_get_rdwr_token c t in
      if ok then t :: rdwr_grants c' ts else rdwr_grants c' ts
  end.
Fixpoint tfaw_grants (c : DRAM_Channel) (ts : list Z) : outcome (list Z) :=
  match ts with
  | [] => Ret []
  | t :: ts =>
      r ← dram_channel_get_tfaw_token c t;
      gs ← tfaw_grants r.1 ts;
      Ret (if r.2 : bool then t :: gs else gs)
  end.

(** request cycles in order, from [m] on *)
Fixpoint cycles_from (m : Z) (ts : list Z) : Prop :=
  match ts with
  | [] => True
  | t :: ts => m <= t ∧ is_cycle t ∧ cycles_from t ts
  end.

Lemma cycles_from_weaken m m' ts : m' <= m → cycles_from m ts → cycles_from m' ts.
Proof. destruct ts; simpl; [done|]. intros ? (? & ? & ?). split_and!; [lia|done..]. Qed.

Lemma rdwr_grants_spaced c ts i a b :
  is_cycle c.(rdwr_token).(rw_prev_time) →
  cycles_from c.(rdwr_token).(rw_prev_time) ts →
  (c.(rdwr_token).(rw_prev_time) :: rdwr_grants c ts) !! i = Some a →
  (c.(rdwr_token).(rw_prev_time) :: rdwr_grants c ts) !! S i = Some b →
  a + c.(rdwr_token).(rdwr_time) <= b.
Proof.
  revert c i. induction ts as [|t ts IH]; intros c i Hp Hts Ha Hb; [by destruct i|].
  destruct Hts as (Hm & Ht & Hts). cbn [rdwr_grants] in *.
  unfold dram_channel_get_rdwr_token in *.
  destruct (Z.leb_spec (rdwr_time (rdwr_token c)) (u64 (t - rw_prev_time (rdwr_token c)))) as [Hle|].
  - unfold is_cycle in *. rewrite u64_id in Hle by (unfold is_u64; lia).
    destruct i as [|i].
    + injection Ha as <-. injection Hb as <-. lia.
    + pose proof (IH (c <| rdwr_token := mkRDWR (rdwr_time (rdwr_token c)) t |>) i) as IH'.
      rsimp. exact (IH' Ht Hts Ha Hb).
  - apply (IH c i); [done| |done..]. by eapply cycles_from_weaken.
Qed.

(** the four activations remembered, then the grants *)
Lemma tfaw_grants_spaced c ts gs i a b p0 p1 p2 p3 :
  c.(tfaw_token).(tf_prev_time) = [p0; p1; p2; p3] →
  is_cycle p0 → is_cycle p1 → is_cycle p2 → is_cycle p3 →
  p0 <= p1 <= p2 → p2 <= p3 → cycles_from p3 ts →
  tfaw_grants c ts = Ret gs →
  ([p0; p1; p2; p3] ++ gs) !! i = Some a → ([p0; p1; p2; p3] ++ gs) !! (i + 4)%nat = Some b →
  a + c.(tfaw_token).(tfaw_time) <= b.
Proof.
  revert c gs i p0 p1 p2 p3. induction ts as [|t ts IH];
    intros c gs i p0 p1 p2 p3 Hc H0 H1 H2 H3 Ho1 Ho2 Hts; cbn [tfaw_grants].
  { intros [= <-] _ Hb. rewrite app_nil_r in Hb. apply lookup_lt_Some in Hb. simpl in Hb. lia. }
  destruct Hts as (Hm & Ht & Hts). unfold dram_channel_get_tfaw_token. rewrite Hc.
  change (aget [p0; p1; p2; p3] 0) with (Ret p0). change (aget [p0; p1; p2; p3] 1) with (Ret p1).
  change (aget [p0; p1; p2; p3] 2) with (Ret p2). change (aget [p0; p1; p2; p3] 3) with (Ret p3).
  cbn [mbind outcome_bind].
  destruct (Z.leb_spec (tfaw_time (tfaw_token c)) (u64 (t - p0))) as [Hle|]; cbn [mbind outcome_bind].
  - unfold is_cycle in *. rewrite u64_id in Hle by (unfold is_u64; lia).
    intros (gs' & Hg & Hr)%bind_Ret. injection Hr as <-. cbn [fst snd] in *.
    destruct i as [|i].
    + intros [= <-] [= <-]. lia.
    + intros Ha Hb.
      pose proof (IH (c <| tfaw_token := mkTFAW (tfaw_time (tfaw_token c)) [p1; p2; p3; t] |>)
        gs' i p1 p2 p3 t eq_refl) as IH'. rsimp. apply IH'; try done; lia.
  - intros (gs' & Hg & Hr)%bind_Ret. injection Hr as <-. cbn [fst snd] in *.
    intros Ha Hb. eapply (IH c gs' i p0 p1 p2 p3); try done. by eapply cycles_from_weaken.
Qed.

(** Token spacing. Over any ordered sequence of requests, consecutive grants of the
    data bus are at least [rdwr_time] cycles apart, and any five consecutive
    grants of the activation token span at least the [tFAW] window. *)
Theorem dram_tokens_spaced (c : DRAM_Channel) (ts gs : list Z) (i : nat) (a b : Z) :
  cycles_from 0 ts →
  c.(rdwr_token).(rw_prev_time) = 0 → c.(tfaw_token).(tf_prev_time) = [0; 0; 0; 0] →
  (rdwr_grants c ts !! i = Some a → rdwr_grants c ts !! S i = Some b →
   a + c.(rdwr_token).(rdwr_time) <= b) ∧
  (tfaw_grants c ts = Ret gs → gs !! i = Some a → gs !! (i + 4)%nat = Some b →
   a + c.(tfaw_token).(tfaw_time) <= b).
Proof.
  intros Hts Hr Hf. assert (is_cycle 0) by (split; [done|reflexivity]). split.
  - intros Ha Hb. apply (rdwr_grants_spaced c ts (S i) a b); by rewrite ?Hr.
  - intros Hg Ha Hb. apply (tfaw_grants_spaced c ts gs (4 + i) a b 0 0 0 0); first [done|lia].
Qed.

Lemma dram_tokens_spaced_witness :
  rdwr_grants demo_channel [3; 12; 20; 24] = [12; 24] ∧
  12 + demo_channel.(rdwr_token).(rdwr_time) <= 24.
Proof.
  split; [reflexivity|].
  apply (proj1 (dram_tokens_spaced demo_channel [3; 12; 20; 24] [] 0 12 24
    ltac:(cbn; unfold is_cycle; lia) eq_refl eq_refl)); reflexivity.
Defined.

(** Refreshing a bank whose data waits for the bus: the transfer sets [sleep_cycle] to a
    few cycles from now and so ends the bank's refresh early. Here the refresh holds
    bank 3 to cycle 1700, and the transfer at cycle 50 frees it after cycle 62. *)
Definition refresh_all (c : DRAM_Channel) (t : Z) : outcome DRAM_Channel :=
  m ← max_bank_ready c.(bank) t (seqZ 0 c.(num_banks));
  bs ← hold_banks (λ b, dram_bank_refresh default_params b m) c.(bank) (seqZ 0 c.(num_banks));
  Ret (c <| bank := bs |>).
Example refresh_cut_short :
  (r ← dram_channel_cycle demo_callback default_params 0 (1:Z) [99] demo_channel1;
   let '(g, w, c) := r in
   c ← refresh_all c 40;
   b ← aget c.(bank) 3;
   r ← dram_channel_cycle demo_callback default_params 50 g w c;
   b' ← aget r.2.(bank) 3;
   Ret (b.(sleep_cycle), b'.(sleep_cycle))) = Ret (1700, 62).
Proof. vm_compute. reflexivity. Qed.
