(* ===== verification/Dram.v ===== *)
(** * The DRAM module (src/dram.h, src/dram.cpp)

    A module splits a line address into channel, bank and row, hands requests to its
    channels, cycles them, and issues the periodic refreshes. *)
From S2P Require Import Prelude Params DramBank DramChannel.

(** [DRAM_RefType] *)
Definition DRAM_REF_NONE : Z := 0.
Definition DRAM_REF_SB : Z := 1.
Definition DRAM_REF_AB : Z := 2.
(** [DRAM_MappingPolicy] *)
Definition DRAM_MAP_COFFEELAKE : Z := 0.
Definition DRAM_MAP_SKYLAKE : Z := 1.
Definition DRAM_MAP_MOP : Z := 2.
Definition DRAM_MAP_ZEN : Z := 3.

Definition MAX_DRAM_CHANNELS : Z := 32.

Record DRAM := mkDRAM {
  d_id : Z;
  channel : list DRAM_Channel;
  refmode : Z;
  memsize : Z;
  d_num_banks : Z;
  rowbuf_size : Z;
  num_channels : Z;
  num_rowbufs : Z;
  lines_in_rowbuf : Z;
  rowbufs_in_mem : Z;
  rowbufs_in_bank : Z;
  lines_in_mem : Z;
  banks_in_channel : Z;
  refsb_ptr : Z;
  d_banks_in_bankgroup : Z;
  last_trefi_cycle : Z;
  last_trefw_cycle : Z;
  num_trefi : Z;
  num_trefw : Z;
  s_tot_ACT : Z;
  s_tot_REQ : Z;
  s_tot_wait_delay : Z;
  s_tot_service_delay : Z;
  s_tot_bus_delay : Z;
  s_tot_RFM : Z
}.

(** The name is not modelled; [DRAM_ID] is the global counter. Same-bank refresh divides
    the global [tREFI]. *)
Definition dram_new (P : Params) (DRAM_ID : Z) : outcome (DRAM * Params) :=
  let memsize := u64 (u64 (P.(MEM_SIZE_MB) * 1024) * 1024) in
  num_rowbufs ← udiv memsize P.(MEM_PAGESIZE);
  lines_in_rowbuf ← udiv P.(MEM_PAGESIZE) P.(LINESIZE);
  rowbufs_in_bank ← udiv num_rowbufs P.(MEM_BANKS);
  lines_in_mem ← udiv memsize P.(LINESIZE);
  rowbufs_in_mem ← udiv memsize P.(MEM_PAGESIZE);
  banks_in_channel ← udiv P.(MEM_BANKS) P.(MEM_CHANNELS);
  cs ← for_ (seqZ 0 P.(MEM_CHANNELS)) ([], P) (λ s ii,
         rows ← udiv rowbufs_in_mem P.(MEM_CHANNELS);
         if ii <? MAX_DRAM_CHANNELS then
           r ← dram_channel_new s.2 ii (u32 banks_in_channel) (u32 rows);
           Ret (s.1 ++ [r.1], r.2)
         else Fault OutOfRange);
  bg ← udiv banks_in_channel P.(DRAM_BANKGROUPS);
  P' ← (if P.(DRAM_REF_POLICY) =? DRAM_REF_SB then
          t ← udiv (cs.2).(tREFI) bg;
          Ret (cs.2 <| tREFI := t |>)
        else Ret cs.2);
  Ret (mkDRAM DRAM_ID cs.1 P.(DRAM_REF_POLICY) memsize P.(MEM_BANKS) P.(MEM_PAGESIZE)
         P.(MEM_CHANNELS) num_rowbufs lines_in_rowbuf rowbufs_in_mem rowbufs_in_bank lines_in_mem
         banks_in_channel 0 bg 0 0 0 0 0 0 0 0 0 0, P').

(** ** Address mapping *)

(** row, bank and channel of a line address *)
Definition dram_parseaddr (P : Params) (d : DRAM) (lineaddr : Z) : outcome (Z * Z * Z) :=
  let policy := P.(DRAM_MAP_POLICY) in
  if policy =? DRAM_MAP_COFFEELAKE then
    global_row_id ← udiv lineaddr d.(lines_in_rowbuf);
    my_channel_id ← umod global_row_id d.(num_channels);
    shifted_addr1 ← udiv global_row_id d.(num_channels);
    my_local_bankid ← umod shifted_addr1 d.(banks_in_channel);
    shifted_addr2 ← udiv shifted_addr1 d.(banks_in_channel);
    Ret (shifted_addr2, my_local_bankid, my_channel_id)
  else if policy =? DRAM_MAP_SKYLAKE then
    let linepair_id := lineaddr / 2 in
    my_channel_id ← umod linepair_id d.(num_channels);
    shifted_addr1 ← udiv linepair_id d.(num_channels);
    shifted_addr2 ← udiv shifted_addr1 (d.(lines_in_rowbuf) / 2);
    my_local_bankid ← umod shifted_addr2 d.(banks_in_channel);
    shifted_addr3 ← udiv shifted_addr2 d.(banks_in_channel);
    Ret (shifted_addr3, my_local_bankid, my_channel_id)
  else if policy =? DRAM_MAP_MOP then
    gang_id ← udiv lineaddr P.(DRAM_MOP_GANGSIZE);
    my_channel_id ← umod gang_id d.(num_channels);
    shifted_addr1 ← udiv gang_id d.(num_channels);
    my_local_bankid ← umod shifted_addr1 d.(banks_in_channel);
    shifted_addr2 ← udiv shifted_addr1 d.(banks_in_channel);
    gangs ← udiv d.(lines_in_rowbuf) P.(DRAM_MOP_GANGSIZE);
    row ← udiv shifted_addr2 gangs;
    Ret (row, my_local_bankid, my_channel_id)
  else if policy =? DRAM_MAP_ZEN then
    my_channel_id ← umod lineaddr d.(num_channels);
    shifted_addr1 ← udiv lineaddr d.(num_channels);
    let shifted_addr2 := shifted_addr1 / 2 in
    my_local_bankid ← umod shifted_addr2 d.(banks_in_channel);
    shifted_addr3 ← udiv shifted_addr2 d.(banks_in_channel);
    row ← udiv shifted_addr3 (d.(lines_in_rowbuf) / 2);
    Ret (row, my_local_bankid, my_channel_id)
  else Fault AssertFail.

Definition dram_insert (P : Params) (cycle : Z) (d : DRAM) (lineaddr : Z) (wb : bool) :
    outcome (DRAM * bool) :=
  let reqtype := if wb then DRAM_REQ_WB else DRAM_REQ_RD in
  _ ← assert_ (lineaddr <? d.(lines_in_mem));
  a ← dram_parseaddr P d lineaddr;
  let '(myrowbufid, mybankid, mychannelid) := a in
  c ← aget d.(channel) mychannelid;
  r ← dram_channel_insert cycle c (u32 mybankid) reqtype myrowbufid lineaddr;
  cs ← aset d.(channel) mychannelid r.1;
  Ret (d <| channel := cs |>, r.2).

(** ** Refresh *)

(** the banks [l] of one channel are held from the time the last of them is ready *)
Definition refresh_banks (P : Params) (cycle : Z) (c : DRAM_Channel) (l : list Z) :
    outcome DRAM_Channel :=
  m ← max_bank_ready c.(bank) cycle l;
  bs ← hold_banks (λ b, dram_bank_refresh P b m) c.(bank) l;
  Ret (c <| bank := bs |>).

Definition refresh_channels (P : Params) (cycle : Z) (d : DRAM) (l : list Z) :
    outcome (list DRAM_Channel) :=
  for_ (seqZ 0 d.(num_channels)) d.(channel) (λ cs ii,
    c ← aget cs ii;
    c ← refresh_banks P cycle c l;
    aset cs ii c).

(** the two refresh modes, on a refresh pulse *)
Definition dram_refresh (P : Params) (cycle : Z) (d : DRAM) : outcome DRAM :=
  d ← (if d.(refmode) =? DRAM_REF_SB then
         let start := u32 (d.(refsb_ptr) * d.(d_banks_in_bankgroup)) in
         let end_ := u32 (start + d.(d_banks_in_bankgroup)) in
         cs ← refresh_channels P cycle d (seqZ start (end_ - start));
         p ← umod (u64 (d.(refsb_ptr) + 1)) d.(d_banks_in_bankgroup);
         Ret (d <| channel := cs |> <| refsb_ptr := p |>)
       else Ret d);
  if d.(refmode) =? DRAM_REF_AB then
    n ← udiv d.(d_num_banks) d.(num_channels);
    cs ← refresh_channels P cycle d (seqZ 0 n);
    Ret (d <| channel := cs |>)
  else Ret d.

Section Cycle.
Context {W : Type} (memsys_callback : W → Z → outcome W).

Definition cycle_channel {G} `{RandSource G} (P : Params) (cycle : Z)
    (s : G * W * list DRAM_Channel) (ii : Z) : outcome (G * W * list DRAM_Channel) :=
  let '(g, w, cs) := s in
  c ← aget cs ii;
  r ← dram_channel_cycle memsys_callback P cycle g w c;
  let '(g, w, c) := r in
  cs ← aset cs ii c;
  Ret (g, w, cs).

Definition dram_cycle {G} `{RandSource G} (P : Params) (cycle : Z) (g : G) (w : W) (d : DRAM) :
    outcome (G * W * DRAM) :=
  r ← for_ (seqZ 0 d.(num_channels)) (g, w, d.(channel)) (cycle_channel P cycle);
  let '(g, w, cs) := r in
  let d := d <| channel := cs |> in
  let d := if P.(tREFW) <? u64 (cycle - d.(last_trefw_cycle)) then
             d <| last_trefw_cycle := cycle |> <| num_trefw := u64 (d.(num_trefw) + 1) |>
           else d in
  d ← (if P.(tREFI) <? u64 (cycle - d.(last_trefi_cycle)) then
         dram_refresh P cycle
           (d <| last_trefi_cycle := cycle |> <| num_trefi := u64 (d.(num_trefi) + 1) |>)
       else Ret d);
  Ret (g, w, d).
End Cycle.

(** the totals that [dram_print_stats] accumulates before printing *)
Definition add_bank_stats (d : DRAM) (b : DRAM_Bank) : DRAM :=
  d <| s_tot_ACT := u64 (d.(s_tot_ACT) + b.(s_ACT)) |>
    <| s_tot_REQ := u64 (d.(s_tot_REQ) + b.(s_REQ)) |>
    <| s_tot_service_delay := u64 (d.(s_tot_service_delay) + b.(s_service_delay)) |>
    <| s_tot_wait_delay := u64 (d.(s_tot_wait_delay) + b.(s_wait_delay)) |>.
Definition dram_tot_stats (d : DRAM) : outcome DRAM :=
  n ← udiv d.(d_num_banks) d.(num_channels);
  for_ (seqZ 0 d.(num_channels)) d (λ d ii,
    c ← aget d.(channel) ii;
    let d := d <| s_tot_RFM := u64 (d.(s_tot_RFM) + c.(s_RFM)) |>
               <| s_tot_bus_delay := u64 (d.(s_tot_bus_delay) + c.(s_bus_time)) |> in
    for_ (seqZ 0 n) d (λ d jj, b ← aget c.(bank) jj; Ret (add_bank_stats d b))).

(** ** Geometry *)

(** [C] channels of [B] banks of [R] rows of [L] lines *)
Record geometry (P : Params) (C B R L : Z) : Prop := {
  gm_C : 0 < C <= MAX_DRAM_CHANNELS;
  gm_B : 0 < B <= MAX_BANKS;
  gm_R : 0 < R;
  gm_L : 0 < L;
  gm_channels : P.(MEM_CHANNELS) = C;
  gm_banks : P.(MEM_BANKS) = C * B;
  gm_line : 0 < P.(LINESIZE);
  gm_page : P.(MEM_PAGESIZE) = L * P.(LINESIZE);
  gm_size : P.(MEM_SIZE_MB) * 1048576 = R * B * C * L * P.(LINESIZE);
  gm_fits : 0 <= P.(MEM_SIZE_MB) < 17592186044416;
  gm_rows : R * B < 4294967296;
  (** the policies that split a row need it to be divisible *)
  gm_even : P.(DRAM_MAP_POLICY) = DRAM_MAP_SKYLAKE ∨ P.(DRAM_MAP_POLICY) = DRAM_MAP_ZEN → (2 | L);
  gm_gang : P.(DRAM_MAP_POLICY) = DRAM_MAP_MOP →
    0 < P.(DRAM_MOP_GANGSIZE) ∧ (P.(DRAM_MOP_GANGSIZE) | L);
  gm_policy : 0 <= P.(DRAM_MAP_POLICY) < 4
}.

(** the fields a module takes from its geometry *)
Record dims (d : DRAM) (C B R L : Z) : Prop := {
  dm_channels : d.(num_channels) = C;
  dm_banks : d.(banks_in_channel) = B;
  dm_all : d.(d_num_banks) = C * B;
  dm_lines : d.(lines_in_rowbuf) = L;
  dm_mem : d.(lines_in_mem) = R * B * C * L
}.

(** ** The inverse of the address mapping *)

(** [line_of ro ba ch co]: line [co] of row [ro] of bank [ba] of channel [ch] *)
Definition line_of (P : Params) (C B L ro ba ch co : Z) : Z :=
  let policy := P.(DRAM_MAP_POLICY) in
  if policy =? DRAM_MAP_COFFEELAKE then ((ro * B + ba) * C + ch) * L + co
  else if policy =? DRAM_MAP_SKYLAKE then
    (((ro * B + ba) * (L / 2) + co / 2) * C + ch) * 2 + co mod 2
  else if policy =? DRAM_MAP_MOP then
    let g := P.(DRAM_MOP_GANGSIZE) in
    (((ro * (L / g) + co / g) * B + ba) * C + ch) * g + co mod g
  else (((ro * (L / 2) + co / 2) * B + ba) * 2 + co mod 2) * C + ch.

(** the line within its row *)
Definition column_of (P : Params) (C B L a : Z) : Z :=
  let policy := P.(DRAM_MAP_POLICY) in
  if policy =? DRAM_MAP_COFFEELAKE then a mod L
  else if policy =? DRAM_MAP_SKYLAKE then (a / 2 / C mod (L / 2)) * 2 + a mod 2
  else if policy =? DRAM_MAP_MOP then
    let g := P.(DRAM_MOP_GANGSIZE) in (a / g / C / B mod (L / g)) * g + a mod g
  else (a / C / 2 / B mod (L / 2)) * 2 + a / C mod 2.

Lemma div_comp q n r : 0 <= r < n → (q * n + r) / n = q.
Proof. intros. rewrite Z.div_add_l, Z.div_small by lia. lia. Qed.
Lemma mod_comp q n r : 0 <= r < n → (q * n + r) mod n = r.
Proof. intros. rewrite Z.add_comm, Z.mod_add, Z.mod_small by lia. done. Qed.
Lemma comp_div a n : 0 < n → a / n * n + a mod n = a.
Proof. intros. pose proof (Z.div_mod a n). lia. Qed.
Lemma div_bound a n m : 0 <= a < m * n → 0 < n → 0 <= a / n < m.
Proof. intros. split; [apply Z.div_pos; lia|apply Z.div_lt_upper_bound; lia]. Qed.
Lemma mod_bound a n : 0 < n → 0 <= a mod n < n.
Proof. apply Z.mod_pos_bound. Qed.
Lemma comp_bound q n r m : 0 <= q < m → 0 <= r < n → 0 <= q * n + r < m * n.
Proof. nia. Qed.

(** divisions by numbers that are not zero are computed *)
Ltac run_div :=
  repeat (first [rewrite udiv_ok by lia | rewrite umod_ok by lia]; cbn [mbind outcome_bind]).

(** the four policies *)
Ltac by_policy H :=
  match type of H with 0 <= ?p < 4 =>
    let Hp := fresh "Hp" in
    assert (p = 0 ∨ p = 1 ∨ p = 2 ∨ p = 3) as [Hp|[Hp|[Hp|Hp]]] by lia;
    rewrite ?Hp in *; clear H
  end.

Lemma parseaddr_line P C B R L d a :
  geometry P C B R L → dims d C B R L → 0 <= a < R * B * C * L →
  ∃ ro ba ch, dram_parseaddr P d a = Ret (ro, ba, ch) ∧
    0 <= ro < R ∧ 0 <= ba < B ∧ 0 <= ch < C ∧
    0 <= column_of P C B L a < L ∧ line_of P C B L ro ba ch (column_of P C B L a) = a.
Proof.
  intros [] [] Ha. unfold dram_parseaddr, column_of, line_of. by_policy gm_policy0;
    cbn [Z.eqb DRAM_MAP_COFFEELAKE DRAM_MAP_SKYLAKE DRAM_MAP_MOP DRAM_MAP_ZEN Pos.eqb];
    rewrite dm_channels0, dm_banks0, ?dm_lines0.
  - run_div. do 3 eexists. split; [done|].
    assert (0 <= a / L < R * B * C) by (apply div_bound; lia).
    assert (0 <= a / L / C < R * B) by (apply div_bound; lia).
    assert (0 <= a / L / C / B < R) by (apply div_bound; lia).
    split_and!; try apply mod_bound; try lia. by rewrite !comp_div by lia.
  - destruct gm_even0 as [h Hh]; [by left|]. rewrite Hh, Z.div_mul by lia.
    run_div. do 3 eexists. split; [done|].
    pose proof (mod_bound a 2 ltac:(lia)). pose proof (mod_bound (a / 2 / C) h ltac:(lia)).
    assert (0 <= a / 2 < R * B * h * C) by (apply div_bound; nia).
    assert (0 <= a / 2 / C < R * B * h) by (apply div_bound; lia).
    assert (0 <= a / 2 / C / h < R * B) by (apply div_bound; lia).
    assert (0 <= a / 2 / C / h / B < R) by (apply div_bound; lia).
    split_and!; try apply mod_bound; try lia. by rewrite div_comp, mod_comp, !comp_div by lia.
  - destruct gm_gang0 as [Hg [h Hh]]; [done|]. set (g := DRAM_MOP_GANGSIZE P) in *.
    rewrite Hh, Z.div_mul by lia.
    assert (0 < h) by nia.
    run_div. rewrite Z.div_mul by lia. run_div. do 3 eexists. split; [done|].
    pose proof (mod_bound a g ltac:(lia)). pose proof (mod_bound (a / g / C / B) h ltac:(lia)).
    assert (0 <= a / g < R * h * B * C) by (apply div_bound; nia).
    assert (0 <= a / g / C < R * h * B) by (apply div_bound; lia).
    assert (0 <= a / g / C / B < R * h) by (apply div_bound; lia).
    assert (0 <= a / g / C / B / h < R) by (apply div_bound; lia).
    split_and!; try apply mod_bound; try lia; try nia. by rewrite div_comp, mod_comp, !comp_div by lia.
  - destruct gm_even0 as [h Hh]; [by right|]. rewrite Hh, Z.div_mul by lia.
    run_div. do 3 eexists. split; [done|].
    pose proof (mod_bound (a / C) 2 ltac:(lia)). pose proof (mod_bound (a / C / 2 / B) h ltac:(lia)).
    assert (0 <= a / C < R * h * B * 2) by (apply div_bound; nia).
    assert (0 <= a / C / 2 < R * h * B) by (apply div_bound; lia).
    assert (0 <= a / C / 2 / B < R * h) by (apply div_bound; lia).
    assert (0 <= a / C / 2 / B / h < R) by (apply div_bound; lia).
    split_and!; try apply mod_bound; try lia. by rewrite div_comp, mod_comp, !comp_div by lia.
Qed.

Lemma line_of_parse P C B R L d ro ba ch co :
  geometry P C B R L → dims d C B R L →
  0 <= ro < R → 0 <= ba < B → 0 <= ch < C → 0 <= co < L →
  dram_parseaddr P d (line_of P C B L ro ba ch co) = Ret (ro, ba, ch) ∧
  column_of P C B L (line_of P C B L ro ba ch co) = co ∧
  0 <= line_of P C B L ro ba ch co < R * B * C * L.
Proof.
  intros [] [] Hro Hba Hch Hco. unfold dram_parseaddr, column_of, line_of. by_policy gm_policy0;
    cbn [Z.eqb DRAM_MAP_COFFEELAKE DRAM_MAP_SKYLAKE DRAM_MAP_MOP DRAM_MAP_ZEN Pos.eqb];
    rewrite dm_channels0, dm_banks0, ?dm_lines0.
  - run_div.
    rewrite !div_comp, !mod_comp by done. split; [done|]. split; [done|]. by repeat apply comp_bound.
  - destruct gm_even0 as [h Hh]; [by left|]. rewrite Hh, Z.div_mul in * by lia.
    pose proof (mod_bound co 2 ltac:(lia)). assert (0 <= co / 2 < h) by (apply div_bound; lia).
    run_div.
    rewrite !div_comp, !mod_comp by done. rewrite comp_div by lia.
    split; [done|]. split; [done|]. replace (R * B * C * (h * 2)) with (R * B * h * C * 2) by lia.
    by repeat apply comp_bound.
  - destruct gm_gang0 as [Hg [h Hh]]; [done|]. set (g := DRAM_MOP_GANGSIZE P) in *.
    rewrite Hh, Z.div_mul in * by lia. assert (0 < h) by nia.
    pose proof (mod_bound co g ltac:(lia)). assert (0 <= co / g < h) by (apply div_bound; lia).
    run_div. rewrite Z.div_mul by lia. run_div.
    rewrite !div_comp, !mod_comp by done. rewrite comp_div by lia.
    split; [done|]. split; [done|]. replace (R * B * C * (h * g)) with (R * h * B * C * g) by lia.
    by repeat apply comp_bound.
  - destruct gm_even0 as [h Hh]; [by right|]. rewrite Hh, Z.div_mul in * by lia.
    pose proof (mod_bound co 2 ltac:(lia)). assert (0 <= co / 2 < h) by (apply div_bound; lia).
    run_div.
    rewrite !div_comp, !mod_comp by (done || lia). rewrite comp_div by lia.
    split; [done|]. split; [done|]. replace (R * B * C * (h * 2)) with (R * h * B * 2 * C) by lia.
    by repeat apply comp_bound.
Qed.

(** ** Invariant *)

Definition channels_inv (P : Params) (R B : Z) (now : Z → Z) (cs : list DRAM_Channel) : Prop :=
  ∀ i c, aget cs i = Ret c → chan_ok P R (now i) c ∧ c.(num_banks) = B.

Definition channels_reads (cs : list DRAM_Channel) : list Z := mjoin (chan_reads <$> cs).
Definition dram_reads (d : DRAM) : list Z := channels_reads d.(channel).

Record dram_ok (P : Params) (C B R L t : Z) (d : DRAM) : Prop := {
  do_geom : geometry P C B R L;
  do_dims : dims d C B R L;
  do_len : zlen d.(channel) = C;
  do_chan : channels_inv P R B (λ _, t) d.(channel);
  (** same-bank refresh: the groups the pointer ranges over are banks of the channel *)
  do_refsb : d.(refmode) = DRAM_REF_SB →
    0 < d.(d_banks_in_bankgroup) ∧ d.(d_banks_in_bankgroup) * d.(d_banks_in_bankgroup) <= B ∧
    0 <= d.(refsb_ptr) < d.(d_banks_in_bankgroup)
}.

Lemma channels_update P R B now now' cs i c c' :
  channels_inv P R B now cs → aget cs i = Ret c →
  chan_ok P R (now' i) c' → c'.(num_banks) = B → (∀ j, j ≠ i → now' j = now j) →
  channels_inv P R B now' (<[Z.to_nat i := c']> cs) ∧
  ∀ x y, chan_reads c' ++ x ≡ₚ chan_reads c ++ y →
    channels_reads (<[Z.to_nat i := c']> cs) ++ x ≡ₚ channels_reads cs ++ y.
Proof.
  intros Hinv Hc Hok Hn Hnow. pose proof (aget_bound _ _ _ Hc) as Hi. split.
  - intros j cj. rewrite aget_insert by done. destruct (Z.eqb_spec j i) as [->|Hne].
    + intros [= <-]. done.
    + rewrite Hnow by done. apply Hinv.
  - intros x y Hp. unfold channels_reads. rewrite list_fmap_insert.
    eapply mjoin_insert; [|exact Hp]. apply aget_Ret in Hc as [_ Hc].
    by rewrite list_lookup_fmap, Hc.
Qed.

(** the reads of one channel against those of the others *)
Lemma channels_split cs i c :
  aget cs i = Ret c → ∃ rest, channels_reads cs ≡ₚ chan_reads c ++ rest ∧
    ∀ c', channels_reads (<[Z.to_nat i := c']> cs) ≡ₚ chan_reads c' ++ rest.
Proof.
  intros [_ Hc]%aget_Ret. exists (channels_reads (take (Z.to_nat i) cs ++ drop (S (Z.to_nat i)) cs)).
  assert (∀ l k (x : DRAM_Channel), l !! k = Some x →
    channels_reads l ≡ₚ chan_reads x ++ channels_reads (take k l ++ drop (S k) l)) as H.
  { intros l k x Hx. unfold channels_reads. rewrite <- (take_drop_middle l k x Hx) at 1.
    rewrite !fmap_app, !join_app. apply Permutation_app_swap_app. }
  split; [by apply H|]. intros c'.
  rewrite (H _ (Z.to_nat i) c') by (apply list_lookup_insert_eq; by eapply lookup_lt_Some).
  by rewrite take_insert_ge, drop_insert_lt by lia.
Qed.

Lemma dram_ok_channels P C B R L t d cs :
  dram_ok P C B R L t d → zlen cs = C → channels_inv P R B (λ _, t) cs →
  dram_ok P C B R L t (d <| channel := cs |>).
Proof. intros [] Hl Hc. split; try done. by destruct do_dims0. Qed.

(** ** Insertion *)
Lemma dram_insert_spec P C B R L t d a wb :
  dram_ok P C B R L t d → 0 <= a < R * B * C * L →
  ∃ d' ok, dram_insert P t d a wb = Ret (d', ok) ∧ dram_ok P C B R L t d' ∧
    d'.(refmode) = d.(refmode) ∧
    dram_reads d' ≡ₚ (if ok && negb wb then [a] else []) ++ dram_reads d ∧
    ∀ ro ba ch c b, dram_parseaddr P d a = Ret (ro, ba, ch) →
      aget d.(channel) ch = Ret c → aget c.(bank) ba = Ret b →
      ok = bool_decide (zlen b.(bankq) < NUM_DRAM_BANK_ENTRIES).
Proof.
  intros Hok Ha. pose proof (do_geom _ _ _ _ _ _ _ Hok) as Hg.
  pose proof (do_dims _ _ _ _ _ _ _ Hok) as Hd.
  destruct (parseaddr_line P C B R L d a Hg Hd Ha) as (ro & ba & ch & Hpa & Hro & Hba & Hch & _).
  unfold dram_insert. rewrite (dm_mem _ _ _ _ _ Hd), (proj2 (Z.ltb_lt _ _)) by lia. osimp.
  rewrite Hpa. osimp. destruct (aget_ok d.(channel) ch) as [c Hc].
  { rewrite (do_len _ _ _ _ _ _ _ Hok). lia. }
  rewrite Hc. osimp. destruct (do_chan _ _ _ _ _ _ _ Hok ch c Hc) as [Hcok Hnb].
  pose proof (gm_B _ _ _ _ _ Hg) as HB. unfold MAX_BANKS in HB.
  rewrite (u32_id ba) by (unfold is_u32; lia).
  destruct (channel_insert_spec P R t t c ba (if wb then DRAM_REQ_WB else DRAM_REQ_RD) ro a)
    as (c' & ok & Hins & Hcok' & [Hnb' _] & Hrd & Hfull); [done|lia|lia|].
  rewrite Hins. osimp. rewrite aset_ok by by eapply aget_bound. osimp.
  destruct (channels_update P R B (λ _, t) (λ _, t) d.(channel) ch c c')
    as [Hinv Hreads]; try done; [apply Hok|congruence|].
  exists (d <| channel := <[Z.to_nat ch := c']> d.(channel) |>), ok. split; [done|].
  split_and!.
  - apply dram_ok_channels; [done| |done]. rewrite <- (do_len _ _ _ _ _ _ _ Hok).
    unfold zlen. by rewrite length_insert.
  - done.
  - unfold dram_reads. rsimp.
    assert ((ok && bool_decide ((if wb then DRAM_REQ_WB else DRAM_REQ_RD) = DRAM_REQ_RD)) = ok && negb wb)
      as Heq by by destruct wb.
    rewrite Heq in Hrd. set (x := if _ : bool then [a] else []) in *.
    rewrite <- (app_nil_r (channels_reads (<[_:=_]> _))), (Permutation_app_comm x).
    apply Hreads. rewrite app_nil_r, Hrd. apply Permutation_app_comm.
  - intros ro1 ba1 ch1 c1 b1 Hpa1 Hc1 Hb1. injection Hpa1 as <- <- <-.
    assert (c1 = c) as -> by congruence. by apply Hfull.
Qed.

(** ** Refresh *)
Lemma refresh_banks_spec P R t tc c l :
  chan_ok P R t c → (∀ i, i ∈ l → 0 <= i < c.(num_banks)) →
  returns (refresh_banks P tc c l) (λ c', chan_ok P R t c' ∧ chan_reads c' = chan_reads c ∧
    same_dims c c').
Proof.
  intros Hok Hl. unfold refresh_banks.
  assert (∀ i, i ∈ l → 0 <= i < zlen c.(bank)) as Hl'.
  { intros i Hi. rewrite (ci_banks _ _ _ _ Hok). by apply Hl. }
  eapply returns_bind; [by apply max_bank_ready_ok|]. intros m _.
  eapply returns_bind; [apply (hold_banks_spec (λ b, dram_bank_refresh P b m)); [auto with mds|done]|].
  intros bs Hbs. apply returns_ret.
  destruct (chan_held P R t c (c <| bank := bs |>) Hok) as [H1 H2];
    [exact Hbs|done|done|apply (ci_rfm _ _ _ _ Hok)|]. by split_and!.
Qed.

Lemma refresh_channels_spec P R B t tc d l :
  channels_inv P R B (λ _, t) d.(channel) → d.(num_channels) = zlen d.(channel) →
  (∀ i, i ∈ l → 0 <= i < B) →
  returns (refresh_channels P tc d l) (λ cs', channels_inv P R B (λ _, t) cs' ∧
    zlen cs' = zlen d.(channel) ∧ channels_reads cs' ≡ₚ dram_reads d).
Proof.
  intros Hinv Hn Hl. unfold refresh_channels. apply for_inv; [by split_and!|].
  intros cs i Hi%elem_of_seqZ (Hcs & Hlen & Hrd).
  destruct (aget_ok cs i) as [c Hc]; [lia|]. rewrite Hc. osimp.
  destruct (Hcs i c Hc) as [Hok Hnb].
  eapply returns_bind; [apply (refresh_banks_spec P R t tc c l Hok); by rewrite Hnb|].
  intros c' (Hok' & Hr & [Hnb' _]). rewrite aset_ok by lia. apply returns_ret.
  destruct (channels_update P R B (λ _, t) (λ _, t) cs i c c' Hcs Hc) as [H1 H2]; try done; [congruence|].
  split_and!; [done|unfold zlen in *; by rewrite length_insert|].
  rewrite <- Hrd, <- (app_nil_r (channels_reads cs)), <- (app_nil_r (channels_reads (<[_:=_]> _))).
  apply H2. by rewrite Hr.
Qed.

Lemma dram_refresh_spec P C B R L t tc d :
  dram_ok P C B R L t d →
  returns (dram_refresh P tc d) (λ d', dram_ok P C B R L t d' ∧ dram_reads d' ≡ₚ dram_reads d).
Proof.
  intros Hok. pose proof (do_dims _ _ _ _ _ _ _ Hok) as Hd.
  pose proof (gm_C _ _ _ _ _ (do_geom _ _ _ _ _ _ _ Hok)) as HC.
  pose proof (gm_B _ _ _ _ _ (do_geom _ _ _ _ _ _ _ Hok)) as HB. unfold MAX_BANKS in HB.
  assert (num_channels d = zlen d.(channel)) as Hlen.
  { by rewrite (do_len _ _ _ _ _ _ _ Hok), (dm_channels _ _ _ _ _ Hd). }
  unfold dram_refresh. destruct (Z.eqb_spec (refmode d) DRAM_REF_SB) as [Hsb|Hsb].
  - destruct (do_refsb _ _ _ _ _ _ _ Hok Hsb) as (Hg & Hgg & Hp).
    rewrite (u32_id (_ * _)), (u32_id (_ + _)) by (unfold is_u32; nia).
    replace (refsb_ptr d * d_banks_in_bankgroup d + d_banks_in_bankgroup d -
      refsb_ptr d * d_banks_in_bankgroup d) with (d_banks_in_bankgroup d) by lia.
    eapply returns_bind.
    { eapply returns_bind; [apply (refresh_channels_spec P R B t tc d)|].
      - apply (do_chan _ _ _ _ _ _ _ Hok).
      - done.
      - intros i Hi%elem_of_seqZ. nia.
      - intros cs (H1 & H2 & H3). rewrite umod_ok by lia. osimp. apply returns_ret.
        set (p := u64 (refsb_ptr d + 1) mod d_banks_in_bankgroup d).
        assert (0 <= p < d_banks_in_bankgroup d) as Hp' by (apply Z.mod_pos_bound; lia).
        instantiate (1 := λ d', dram_ok P C B R L t d' ∧ dram_reads d' ≡ₚ dram_reads d ∧ refmode d' = refmode d).
        cbn beta. split_and!; [|exact H3|done].
        destruct Hok. split; try done; rsimp; [by destruct do_dims0|congruence]. }
    intros d1 (Hok1 & Hr1 & Hm1). rewrite Hm1, Hsb.
    change (DRAM_REF_SB =? DRAM_REF_AB) with false. cbn. by apply returns_ret.
  - cbn [mbind outcome_bind]. destruct (_ =? _); [|by apply returns_ret].
    rewrite (dm_all _ _ _ _ _ Hd), (dm_channels _ _ _ _ _ Hd), udiv_ok by lia. osimp.
    rewrite (Z.mul_comm C), Z.div_mul by lia.
    eapply returns_bind; [apply (refresh_channels_spec P R B t tc d)|].
    + apply (do_chan _ _ _ _ _ _ _ Hok).
    + done.
    + intros i Hi%elem_of_seqZ. lia.
    + intros cs (H1 & H2 & H3). apply returns_ret. split; [|exact H3].
      apply dram_ok_channels; [done| |done]. by rewrite H2, <- Hlen, (dm_channels _ _ _ _ _ Hd).
Qed.

(** ** One cycle of the module *)
Section DramCycle.
Context {W : Type} (memsys_callback : W → Z → outcome W).
Context (pending : W → list Z → Prop).
Hypothesis pending_perm : ∀ w l l', l ≡ₚ l' → pending w l → pending w l'.
Hypothesis callback_ok : ∀ w a l,
  pending w (a :: l) → returns (memsys_callback w a) (λ w', pending w' l).
Context {G : Type} `{RandSource G}.

Definition channels_loop (P : Params) (R B t : Z) (n : Z) (r : list Z) (i : Z)
    (s : G * W * list DRAM_Channel) : Prop :=
  channels_inv P R B (λ j, if j <? i then t + 1 else t) s.2 ∧ zlen s.2 = n ∧
  pending s.1.2 (channels_reads s.2 ++ r).

Lemma cycle_channel_spec P R B t n r i s :
  params_ok P → is_cycle t → 0 <= i < n → channels_loop P R B t n r i s →
  returns (cycle_channel memsys_callback P t s i) (channels_loop P R B t n r (i + 1)).
Proof.
  destruct s as [[g w] cs]. intros HP Ht Hi (Hinv & Hlen & Hp). cbn [fst snd] in *.
  unfold cycle_channel. destruct (aget_ok cs i) as [c Hc]; [lia|]. rewrite Hc. osimp.
  destruct (Hinv i c Hc) as [Hok Hnb]. rewrite Z.ltb_irrefl in Hok.
  destruct (channels_split cs i c Hc) as (rest & Hr & Hr').
  eapply returns_bind.
  { apply (channel_cycle_spec memsys_callback pending pending_perm callback_ok P R t g w c (rest ++ r));
      [done|done|exact Hok|]. eapply pending_perm; [|exact Hp]. by rewrite Hr, app_assoc. }
  intros [[g' w'] c'] (Hok' & [Hnb' _] & Hp' & _). cbn [fst snd] in *.
  rewrite aset_ok by lia. osimp. apply returns_ret.
  destruct (channels_update P R B _ (λ j, if j <? i + 1 then t + 1 else t) cs i c c' Hinv Hc)
    as [Hinv' _].
  { by rewrite (proj2 (Z.ltb_lt _ _)) by lia. }
  { congruence. }
  { intros j Hne. destruct (Z.ltb_spec j (i + 1)), (Z.ltb_spec j i); lia. }
  split_and!; cbn [fst snd]; [done|unfold zlen in *; by rewrite length_insert|].
  eapply pending_perm; [|exact Hp']. by rewrite Hr', app_assoc.
Qed.

Lemma dram_cycle_spec P C B R L t g w d r :
  params_ok P → is_cycle t → dram_ok P C B R L t d → pending w (dram_reads d ++ r) →
  returns (dram_cycle memsys_callback P t g w d) (λ s,
    dram_ok P C B R L (t + 1) s.2 ∧ pending s.1.2 (dram_reads s.2 ++ r)).
Proof.
  intros HP Ht Hok Hp. pose proof (do_dims _ _ _ _ _ _ _ Hok) as Hd.
  pose proof (gm_C _ _ _ _ _ (do_geom _ _ _ _ _ _ _ Hok)) as HC.
  unfold dram_cycle. rewrite (dm_channels _ _ _ _ _ Hd).
  eapply returns_bind.
  { apply (for_seqZ (channels_loop P R B t C r)); [lia| |].
    - split_and!; cbn [fst snd]; [|apply Hok|exact Hp].
      intros i c Hc. destruct (Z.ltb_spec i 0); [apply aget_bound in Hc; lia|].
      exact (do_chan _ _ _ _ _ _ _ Hok i c Hc).
    - intros s i Hi. by apply cycle_channel_spec. }
  intros [[g1 w1] cs] (Hinv & Hlen & Hp1). cbn [fst snd] in *.
  assert (dram_ok P C B R L (t + 1) (d <| channel := cs |>)) as Hok1.
  { destruct Hok. split; try done; [by destruct do_dims0|].
    intros i c Hc. specialize (Hinv i c Hc). cbn beta in Hinv. rewrite (proj2 (Z.ltb_lt _ _)) in Hinv; [done|].
    rsimp. apply aget_bound in Hc. lia. }
  assert (∀ d1, d1.(channel) = cs → d1.(refmode) = d.(refmode) → d1.(refsb_ptr) = d.(refsb_ptr) →
    d1.(d_banks_in_bankgroup) = d.(d_banks_in_bankgroup) → dims d1 C B R L →
    dram_ok P C B R L (t + 1) d1 ∧ dram_reads d1 = channels_reads cs) as Hsame.
  { intros d1 H1 H2 H3 H4 H5. split; [|by unfold dram_reads; rewrite H1].
    destruct Hok1. rsimp. split; rewrite ?H1, ?H2, ?H3, ?H4; done. }
  set (d1 := if tREFW P <? u64 (t - last_trefw_cycle (d <| channel := cs |>)) then _ else _).
  destruct (Hsame d1) as [Hok2 Hr2]; try (subst d1; by destruct (_ <? _)).
  { subst d1. destruct Hd. by destruct (_ <? _). }
  destruct (tREFI P <? _).
  - destruct (Hsame (d1 <| last_trefi_cycle := t |> <| num_trefi := u64 (num_trefi d1 + 1) |>))
      as [Hok3 Hr3]; try (subst d1; rsimp; by destruct (_ <? _)).
    { destruct Hok2 as [_ [] _ _ _]. by split. }
    eapply returns_bind; [by apply dram_refresh_spec|].
    intros d3 [H1 H2]. apply returns_ret. cbn [fst snd]. split; [done|].
    eapply pending_perm; [|exact Hp1]. by rewrite H2, Hr3.
  - apply returns_ret. cbn [fst snd]. split; [done|]. by rewrite Hr2.
Qed.
End DramCycle.

(** ** Construction *)

Record refsb_ok (P : Params) (B : Z) : Prop := {
  rs_groups : bankgroups_ok P B;
  rs_square : P.(DRAM_REF_POLICY) = DRAM_REF_SB →
    let g := B / P.(DRAM_BANKGROUPS) in 0 < g ∧ g * g <= B
}.

Lemma chan_ok_params P P' R t c :
  P'.(DRAM_RFM_POLICY) = P.(DRAM_RFM_POLICY) → P'.(DRAM_MAX_TOPEN) = P.(DRAM_MAX_TOPEN) →
  chan_ok P R t c → chan_ok P' R t c.
Proof.
  intros E1 E2 Hok. split; try apply Hok.
  - pose proof (ci_rfm _ _ _ _ Hok) as Hr. unfold rfm_ok in *. by rewrite E1.
  - intros i b e Hb He. destruct (ci_bank _ _ _ _ Hok i b e Hb He) as [[] ?]. split; [|done].
    split; try done. by rewrite E2.
Qed.

Lemma after_new_policy P : DRAM_RFM_POLICY (after_new P) = DRAM_RFM_POLICY P ∧
  DRAM_BANKGROUPS (after_new P) = DRAM_BANKGROUPS P.
Proof. unfold after_new. by destruct (negb _). Qed.
Lemma geometry_after P P' C B R L :
  geometry P C B R L → P' = after_new P ∨ (∃ t, P' = after_new P <| tREFI := t |>) →
  geometry P' C B R L.
Proof.
  intros Hg [->|(t & ->)]; destruct Hg; unfold after_new; destruct (negb _); by split.
Qed.

Lemma dram_new_spec P C B R L id :
  params_ok P → geometry P C B R L → refsb_ok P B →
  returns (dram_new P id) (λ r, dram_ok r.2 C B R L 0 r.1 ∧ dram_reads r.1 = [] ∧ params_ok r.2).
Proof.
  intros HP Hg [Hbg Hsq]. pose proof Hg as Hg'. destruct Hg.
  unfold MAX_DRAM_CHANNELS, MAX_BANKS in *. unfold dram_new.
  assert (u64 (u64 (MEM_SIZE_MB P * 1024) * 1024) = R * B * C * L * LINESIZE P) as ->.
  { unwrap64. lia. }
  rewrite gm_page0, gm_channels0, gm_banks0. destruct Hbg as [Hbgpos Hbgdiv].
  assert (R * B * C * L * LINESIZE P / (L * LINESIZE P) = R * B * C) as E1.
  { rewrite <- Z.mul_assoc, Z.div_mul; [done|]. nia. }
  assert (L * LINESIZE P / LINESIZE P = L) as E2 by (rewrite Z.div_mul; lia).
  assert (R * B * C * L * LINESIZE P / LINESIZE P = R * B * C * L) as E3 by (rewrite Z.div_mul; lia).
  assert (C * B / C = B) as E4 by (rewrite (Z.mul_comm C), Z.div_mul; lia).
  rewrite (udiv_ok _ (L * LINESIZE P)) by nia. cbn [mbind outcome_bind]. rewrite E1.
  rewrite (udiv_ok (L * LINESIZE P)) by lia. cbn [mbind outcome_bind]. rewrite E2.
  rewrite (udiv_ok (R * B * C) (C * B)) by nia. cbn [mbind outcome_bind].
  rewrite (udiv_ok _ (LINESIZE P)) by lia. cbn [mbind outcome_bind]. rewrite E3.
  rewrite ?E1.
  rewrite (udiv_ok (C * B) C) by lia. cbn [mbind outcome_bind]. rewrite E4.
  rewrite (u32_id B) by (unfold is_u32; lia).
  eapply returns_bind.
  { apply (for_seqZ (λ i (s : list DRAM_Channel * Params),
      zlen s.1 = i ∧ channels_inv (after_new P) R B (λ _, 0) s.1 ∧ channels_reads s.1 = [] ∧
      s.2 = if i =? 0 then P else after_new P)); [lia| |].
    - split_and!; try done. intros i c Hc. apply aget_bound in Hc. unfold zlen in Hc. simpl in Hc. lia.
    - intros [cs P1] i Hi (Hlen & Hinv & Hr & HP1). cbn [fst snd] in *.
      rewrite (udiv_ok _ C) by lia. cbn [mbind outcome_bind]. rewrite Z.div_mul by lia.
      rewrite (u32_id (R * B)) by (unfold is_u32; nia).
      unfold MAX_DRAM_CHANNELS. destruct (Z.ltb_spec i 32); [|lia].
      assert (params_ok P1 ∧ after_new P1 = after_new P ∧ bankgroups_ok P1 B) as (HPok & Hidem & Hb1).
      { subst P1. destruct (i =? 0); [by split_and!|].
        split_and!; [by apply after_new_ok|apply after_new_idem|].
        destruct (after_new_policy P) as [Q1 Q2]. unfold bankgroups_ok. by rewrite Q1, Q2. }
      eapply returns_bind; [apply (channel_new_spec P1 i B (R * B)); done|].
      intros [c P2] (Hc & Hcr & Hcn & _ & ->). cbn [fst snd] in *. apply returns_ret. cbn [fst snd].
      rewrite Hidem, Z.div_mul in * by lia. split_and!.
      + unfold zlen in *. rewrite length_app. cbn. lia.
      + intros j cj [Hj Hcj]%aget_Ret. apply lookup_app_Some in Hcj as [Hcj|[? Hcj]].
        * apply Hinv with j. apply aget_Ret. done.
        * apply list_lookup_singleton_Some in Hcj as [_ <-]. done.
      + unfold channels_reads in *. rewrite fmap_app, join_app, Hr. cbn. by rewrite Hcr.
      + destruct (Z.eqb_spec (i + 1) 0); [lia|done]. }
  intros [cs P1] (Hlen & Hinv & Hr & HP1). cbn [fst snd] in *. rewrite Z.add_0_l in *.
  destruct (Z.eqb_spec C 0); [lia|]. subst P1.
  rewrite (udiv_ok B) by lia. cbn [mbind outcome_bind].
  assert (∀ P', (P' = after_new P ∨ ∃ t, P' = after_new P <| tREFI := t |>) →
    dram_ok P' C B R L 0 (mkDRAM id cs (DRAM_REF_POLICY P) (R * B * C * L * LINESIZE P) (C * B)
         (L * LINESIZE P) C (R * B * C) L (R * B * C) (R * B * C / (C * B)) (R * B * C * L) B 0
         (B / DRAM_BANKGROUPS P) 0 0 0 0 0 0 0 0 0 0) ∧ params_ok P') as Hfin.
  { intros P' HP'. split.
    - split; cbn; try done; [by eapply geometry_after| |].
      + intros i c Hc. destruct (Hinv i c Hc) as [H1 H2]. split; [|done].
        eapply chan_ok_params; [| |exact H1]; destruct HP' as [->|(t & ->)]; done.
      + intros Hsb. destruct (Hsq Hsb) as [H1 H2]. split_and!; done || lia.
    - pose proof (after_new_ok P HP) as Hn. destruct HP' as [->|(t & ->)]; [done|].
      destruct Hn. by split. }
  destruct (Z.eqb_spec (DRAM_REF_POLICY P) DRAM_REF_SB) as [Hsb|].
  - destruct (Hsq Hsb) as [H1 _]. rewrite udiv_ok by lia. osimp. apply returns_ret. cbn [fst snd].
    split_and!; [apply Hfin; eauto|exact Hr|apply Hfin; eauto].
  - osimp. apply returns_ret. cbn [fst snd]. split_and!; [apply Hfin; eauto|exact Hr|apply Hfin; eauto].
Qed.

(** banks outside [l] are not touched by a refresh of [l] *)
Lemma hold_banks_frame f bs l bs' i :
  hold_banks f bs l = Ret bs' → ¬ i ∈ l → aget bs' i = aget bs i.
Proof.
  unfold hold_banks. revert bs. induction l as [|x l IH]; intros bs; cbn [for_].
  { by intros [= <-]. }
  intros (bs1 & Hb & Hk)%bind_Ret Hni. apply bind_Ret in Hb as (b & _ & Hset).
  rewrite (IH _ Hk) by (intros ?; apply Hni; by right).
  rewrite (aget_aset _ _ _ _ _ Hset). destruct (Z.eqb_spec i x) as [->|]; [|done].
  destruct Hni. left.
Qed.

Lemma refresh_channels_frame P tc d l cs' ch c i b :
  refresh_channels P tc d l = Ret cs' → aget d.(channel) ch = Ret c → aget c.(bank) i = Ret b →
  ¬ i ∈ l → ∃ c', aget cs' ch = Ret c' ∧ aget c'.(bank) i = Ret b.
Proof.
  unfold refresh_channels. generalize d.(channel) as cs. generalize (seqZ 0 d.(num_channels)) as chs.
  intros chs. induction chs as [|x chs IH] in c |- *; intros cs; cbn [for_].
  { intros [= <-] Hc Hb _. by exists c. }
  intros (cs1 & Hs & Hk)%bind_Ret Hc Hb Hni.
  apply bind_Ret in Hs as (c1 & Hc1 & Hs). apply bind_Ret in Hs as (c2 & Hc2 & Hs).
  assert (∃ c', aget cs1 ch = Ret c' ∧ aget c'.(bank) i = Ret b) as (c' & Hc' & Hb').
  { rewrite (aget_aset _ _ _ _ _ Hs). destruct (Z.eqb_spec ch x) as [->|]; [|by exists c].
    exists c2. split; [done|]. assert (c1 = c) as -> by congruence.
    unfold refresh_banks in Hc2. apply bind_Ret in Hc2 as (m & _ & Hc2).
    apply bind_Ret in Hc2 as (bs & Hbs & Hc2). injection Hc2 as <-. rsimp.
    by rewrite (hold_banks_frame _ _ _ _ _ Hbs). }
  by eapply IH.
Qed.

(** ** Properties *)

(** C13. Address mapping is a bijection under each of the four policies. Every line of
    the memory is given a row, bank and channel that exist, and is recovered from them and
    its column; every row, bank, channel and column is the image of exactly
    one line. *)
Theorem dram_parseaddr_bijective (P : Params) (C B R L : Z) (d : DRAM) :
  geometry P C B R L → dims d C B R L →
  (∀ a, 0 <= a < R * B * C * L →
     ∃ ro ba ch, dram_parseaddr P d a = Ret (ro, ba, ch) ∧
       0 <= ro < R ∧ 0 <= ba < B ∧ 0 <= ch < C ∧ 0 <= column_of P C B L a < L ∧
       line_of P C B L ro ba ch (column_of P C B L a) = a) ∧
  (∀ ro ba ch co, 0 <= ro < R → 0 <= ba < B → 0 <= ch < C → 0 <= co < L →
     0 <= line_of P C B L ro ba ch co < R * B * C * L ∧
     dram_parseaddr P d (line_of P C B L ro ba ch co) = Ret (ro, ba, ch) ∧
     column_of P C B L (line_of P C B L ro ba ch co) = co).
Proof.
  intros Hg Hd. split; [intros a Ha; by eapply parseaddr_line|].
  intros ro ba ch co H1 H2 H3 H4.
  destruct (line_of_parse P C B R L d ro ba ch co Hg Hd H1 H2 H3 H4) as (E1 & E2 & E3). done.
Qed.

(** the default memory: 2 channels of 32 banks of 65536 rows of 128 lines *)
Lemma default_geometry : geometry default_params 2 32 65536 128.
Proof.
  split; cbn; try lia; try (unfold MAX_DRAM_CHANNELS, MAX_BANKS; lia).
  - by exists 64.
  - intros H. discriminate H.
Qed.
Lemma default_refsb_ok : refsb_ok default_params 32.
Proof.
  split.
  - split; [done|]. intros H. discriminate H.
  - intros H. discriminate H.
Qed.

Lemma dram_parseaddr_bijective_witness :
  ∃ d P', dram_new default_params 0 = Ret (d, P') ∧
    ∃ ro ba ch, dram_parseaddr P' d 123456789 = Ret (ro, ba, ch) ∧ 0 <= ba < 32.
Proof.
  destruct (dram_new_spec default_params 2 32 65536 128 0 default_params_ok default_geometry
    default_refsb_ok) as ([d P'] & Hn & Hok & _).
  exists d, P'. split; [exact Hn|].
  destruct (dram_parseaddr_bijective P' 2 32 65536 128 d (do_geom _ _ _ _ _ _ _ Hok)
    (do_dims _ _ _ _ _ _ _ Hok)) as [Hp _].
  destruct (Hp 123456789 ltac:(lia)) as (ro & ba & ch & Hpa & _ & Hba & _).
  exists ro, ba, ch. split; [exact Hpa|exact Hba].
Defined.

(** Same-bank refresh reaches only the first [g * g] banks of a channel, [g] being
    the number of banks in a group: whatever pulses have come, the refresh
    leaves every later bank as it was. With the default 32 banks in 8 groups
    half of the banks are never refreshed. *)
Theorem dram_refresh_sb_range (P : Params) (C B R L t tc : Z) (d : DRAM) :
  dram_ok P C B R L t d → d.(refmode) = DRAM_REF_SB →
  ∃ d', dram_refresh P tc d = Ret d' ∧ dram_ok P C B R L t d' ∧
    ∀ ch c i b, aget d.(channel) ch = Ret c → aget c.(bank) i = Ret b →
      d.(d_banks_in_bankgroup) * d.(d_banks_in_bankgroup) <= i →
      ∃ c', aget d'.(channel) ch = Ret c' ∧ aget c'.(bank) i = Ret b.
Proof.
  intros Hok Hsb. destruct (dram_refresh_spec P C B R L t tc d Hok) as (d' & Hd' & Hok' & _).
  exists d'. split; [done|]. split; [done|]. intros ch c i b Hc Hb Hi.
  destruct (do_refsb _ _ _ _ _ _ _ Hok Hsb) as (Hg & Hgg & Hp).
  pose proof (gm_B _ _ _ _ _ (do_geom _ _ _ _ _ _ _ Hok)) as HB. unfold MAX_BANKS in HB.
  set (gr := d_banks_in_bankgroup d) in *.
  revert Hd'. unfold dram_refresh. rewrite Hsb. cbn [Z.eqb DRAM_REF_SB Pos.eqb].
  change (d_banks_in_bankgroup d) with gr.
  rewrite (u32_id (_ * _)), (u32_id (_ + _)) by (unfold is_u32; nia).
  intros (d1 & Hd1 & Hk)%bind_Ret. apply bind_Ret in Hd1 as (cs & Hcs & Hd1).
  apply bind_Ret in Hd1 as (p & _ & Hd1). injection Hd1 as <-.
  rsimp. rewrite Hsb in Hk. cbn in Hk. injection Hk as <-. rsimp.
  eapply refresh_channels_frame; [exact Hcs|exact Hc|exact Hb|].
  intros Hin%elem_of_seqZ. nia.
Qed.

Definition params_refsb : Params := default_params <| DRAM_REF_POLICY := DRAM_REF_SB |>.

Lemma dram_refresh_sb_range_witness :
  ∃ d P', dram_new params_refsb 0 = Ret (d, P') ∧
    d.(d_banks_in_bankgroup) * d.(d_banks_in_bankgroup) = 16 ∧
    ∃ d', dram_refresh P' 1 d = Ret d' ∧
      ∀ c b, aget d.(channel) 0 = Ret c → aget c.(bank) 20 = Ret b →
        ∃ c', aget d'.(channel) 0 = Ret c' ∧ aget c'.(bank) 20 = Ret b.
Proof.
  assert (params_ok params_refsb) as HP by (destruct default_params_ok; by split).
  assert (geometry params_refsb 2 32 65536 128) as Hg by (destruct default_geometry; by split).
  assert (refsb_ok params_refsb 32) as Hs
    by (split; [split; [done|]; intros H; discriminate H|intros _; vm_compute; split; [done|intros H; discriminate H]]).
  destruct (dram_new_spec params_refsb 2 32 65536 128 0 HP Hg Hs) as ([d P'] & Hn & Hok & _).
  exists d, P'. split; [exact Hn|].
  assert (refmode d = DRAM_REF_SB ∧ d_banks_in_bankgroup d = 4) as [Hm Hb].
  { assert (((λ r, (refmode r.1, d_banks_in_bankgroup r.1)) <$> dram_new params_refsb 0) =
      Ret (DRAM_REF_SB, 4)) as Hf by (vm_compute; reflexivity).
    rewrite Hn in Hf. cbn [fmap outcome_fmap fst] in Hf. injection Hf as E1 E2. split; [exact E1|exact E2]. }
  split; [by rewrite Hb|].
  destruct (dram_refresh_sb_range P' 2 32 65536 128 0 1 d Hok Hm) as (d' & Hd' & _ & Hf).
  exists d'. split; [exact Hd'|]. intros c b Hc Hbk. apply (Hf 0 c 20 b Hc Hbk). rewrite Hb. lia.
Defined.
