(* ===== verification/MCore.v ===== *)
(** * An out-of-order core driven by a trace (src/mcore.h, src/mcore.cpp)

    A core keeps a reorder buffer (a ring of [ROB_SIZE] entries), reads its trace and
    sends the misses of the shared cache to the memory system. The memory system and
    the compressed trace file are interfaces: [MemAccess] (the function
    [memsys_access], with two implementations in this library) and [GzFile] (zlib). *)
From S2P Require Import Prelude Params Os MCache.

(** ** Interfaces *)

(** [memsys_access m lineaddr coreid robid inst_num wb_lineaddr]: accepted or refused *)
Class MemAccess (M : Type) :=
  memsys_access : M → Z → Z → Z → Z → Z → outcome (M * bool).

(** zlib: [gzread f n] yields at most [n] bytes and advances the file; the name of the
    trace opens a file or fails. [gzclose] only releases the handle. *)
Class GzFile (F : Type) := {
  gzopen : string → option F;
  gzread : F → nat → list Z * F;
  gzeof : F → bool;
  gzread_length : ∀ f n, (length (gzread f n).1 <= n)%nat;
  gzread_bytes : ∀ f n, Forall (λ b, 0 <= b < 256) (gzread f n).1
}.

(** ** State *)

Definition DEFAULT_MEM_DELAY : Z := 5000000.
Definition MAX_ROB_ENTRIES : Z := 1024.

Record ROB_Entry := mkRobEntry { birth_time : Z; ready_time : Z; r_inst_num : Z }.
Record ROB := mkRob { rob_entries : list ROB_Entry; ptr : Z; size : Z }.

(** The pointers to the memory system, the cache and the allocator are the shared state
    that [mcore_cycle] takes and returns; the trace fields the code never reads
    ([trace_iaddr], [trace_dhits], [trace_inst_num_clone]) are left out. *)
Record MCore {F : Type} := mkMCore {
  c_id : Z;
  addr_trace_fname : string;
  addr_trace : F;
  done : bool;
  sleep : bool;
  sleep_lineaddr : Z;
  sleep_robid : Z;
  sleep_inst_num : Z;
  rob : ROB;
  trace_inst_num : Z;
  trace_va : Z;
  trace_wb : Z;
  c_cycle : Z;
  inst_num : Z;
  access_count : Z;
  miss_count : Z;
  num_delay_count : Z;
  sum_delay_count : Z;
  queue_full_count : Z;
  sleep_cycle_count : Z;
  lifetime_inst_count : Z;
  done_inst_count : Z;
  done_cycle_count : Z;
  done_access_count : Z;
  done_miss_count : Z;
  done_num_delay_count : Z;
  done_sum_delay_count : Z;
  done_queue_full_count : Z;
  done_sleep_cycle_count : Z;
  dropped_writes : Z
}.
Arguments MCore F : clear implicits.

Definition rob_entry0 : ROB_Entry := mkRobEntry 0 0 0.

(** ** Reorder buffer *)
Section Rob.
Context {F : Type}.
Implicit Type c : MCore F.

Definition mcore_rob_insert (P : Params) (c : MCore F) (inst cycle ready : Z) :
    outcome (MCore F * Z) :=
  _ ← assert_ (c.(rob).(size) <? P.(ROB_SIZE));
  index ← umod (u32 (c.(rob).(ptr) + c.(rob).(size))) P.(ROB_SIZE);
  es ← aset c.(rob).(rob_entries) index (mkRobEntry cycle ready inst);
  Ret (c <| rob := mkRob es c.(rob).(ptr) (u32 (c.(rob).(size) + 1)) |>, index).

(** one turn of the retire loop; [Some done] leaves the function *)
Definition retire_step (P : Params) (s : MCore F * Z) (ii : Z) :
    outcome ((MCore F * Z) * option Z) :=
  let (c, done) := s in
  e ← aget c.(rob).(rob_entries) c.(rob).(ptr);
  if e.(ready_time) <=? c.(c_cycle) then
    let delta := u64 (e.(ready_time) - e.(birth_time)) in
    _ ← (if DEFAULT_MEM_DELAY <=? delta then
           (* LOST-PACKET: [DIEMSG] fails an assertion *)
           assert_ (c.(sleep) && (e.(r_inst_num) =? c.(sleep_inst_num)))
         else Ret tt);
    p ← umod (u32 (c.(rob).(ptr) + 1)) P.(ROB_SIZE);
    Ret ((c <| rob := mkRob c.(rob).(rob_entries) p (u32 (c.(rob).(size) - 1)) |>, u32 (done + 1)), None)
  else Ret ((c, done), Some done).

Definition mcore_rob_retire (P : Params) (c : MCore F) : outcome (MCore F * Z) :=
  if c.(rob).(size) =? 0 then Ret (c, 0)
  else
    r ← for_ret (seqZ 0 P.(CORE_WIDTH)) (c, 0) (retire_step P);
    Ret (r.1.1, match r.2 with Some d => d | None => r.1.2 end).

Definition mcore_rob_wakeup (c : MCore F) (robid inst : Z) : outcome (MCore F) :=
  e ← aget c.(rob).(rob_entries) robid;
  if e.(r_inst_num) =? inst then
    let delta := u64 (c.(c_cycle) - e.(birth_time)) in
    es ← aset c.(rob).(rob_entries) robid (e <| ready_time := c.(c_cycle) |>);
    Ret (c <| rob := mkRob es c.(rob).(ptr) c.(rob).(size) |>
           <| num_delay_count := u64 (c.(num_delay_count) + 1) |>
           <| sum_delay_count := u64 (c.(sum_delay_count) + delta) |>)
  else Fault AssertFail. (* ZOMBIEWAKEUP *)
End Rob.

(** ** Trace *)
Section Trace.
Context {F : Type} `{GzFile F}.

(** bytes stored at the start of a zeroed little-endian variable *)
Definition le_value (bs : list Z) : Z := foldr (λ b n, b + 256 * n) 0 bs.

Definition mcore_fread_trace (c : MCore F) : MCore F :=
  let (bi, f) := gzread c.(addr_trace) 5 in
  let (bw, f) := gzread f 1 in
  let (bv, f) := gzread f 4 in
  c <| trace_inst_num := le_value bi |> <| trace_wb := le_value bw |>
    <| trace_va := le_value bv |> <| addr_trace := f |>.

(** a second attempt after a pause of [rand()%10] seconds, then [die_message] *)
Definition mcore_init_trace {G} `{RandSource G} (g : G) (fname : string) : outcome (G * F) :=
  match gzopen fname with
  | Some f => Ret (g, f)
  | None =>
      let (_, g) := rand g in
      match gzopen fname with Some f => Ret (g, f) | None => Fault (Exit 1) end
  end.

(** the statistics frozen when the core has run its share *)
Definition mark_done (c : MCore F) : MCore F :=
  c <| done_inst_count := c.(inst_num) |> <| done_cycle_count := c.(c_cycle) |>
    <| done_access_count := c.(access_count) |> <| done_miss_count := c.(miss_count) |>
    <| done_num_delay_count := c.(num_delay_count) |>
    <| done_sum_delay_count := c.(sum_delay_count) |>
    <| done_queue_full_count := c.(queue_full_count) |>
    <| done_sleep_cycle_count := c.(sleep_cycle_count) |> <| done := true |>.

(** [MCORE_STOP_ON_EOF] is 0: at the end the trace restarts. *)
Definition mcore_read_trace {G} `{RandSource G} (P : Params) (g : G) (c : MCore F) :
    outcome (G * MCore F) :=
  let c := mcore_fread_trace c in
  if gzeof c.(addr_trace) || (negb c.(done) && (P.(INST_LIMIT) <=? c.(inst_num))) then
    let c := if negb c.(done) then mark_done c else c in
    r ← mcore_init_trace g c.(addr_trace_fname);
    let (g, f) := r : G * F in
    let c := mcore_fread_trace (c <| addr_trace := f |>) in
    Ret (g, c <| lifetime_inst_count := u64 (c.(lifetime_inst_count) + c.(inst_num)) |>
              <| inst_num := 0 |>)
  else Ret (g, c).

(** [calloc], then the trace is opened and its first record read *)
Definition mcore_new {G} `{RandSource G} (P : Params) (g : G) (fname : string) (id : Z) :
    outcome (G * MCore F) :=
  r ← mcore_init_trace g fname;
  let (g, f) := r : G * F in
  mcore_read_trace P g
    (mkMCore F id fname f false false 0 0 0 (mkRob (replicate 1024 rob_entry0) 0 0)
       0 0 0 0 0 0 0 0 0 0 0 0 0 0 0 0 0 0 0 0 0).
End Trace.

(** ** The cycle *)
Section Cycle.
Context {F M G : Type} `{GzFile F} `{MemAccess M} `{RandSource G}.

(** what a core's cycle reads and writes: the generator, the allocator, the shared
    cache, the memory system, the core *)
Record Env := mkEnv { e_g : G; e_os : OS; e_l3 : MCache; e_mem : M; e_core : MCore F }.

Definition mcore_retry_sleeping_request (e : Env) : outcome (Env * bool) :=
  let c := e.(e_core) <| sleep_cycle_count := u64 (e.(e_core).(sleep_cycle_count) + 1) |> in
  r ← memsys_access e.(e_mem) c.(sleep_lineaddr) c.(c_id) c.(sleep_robid) c.(sleep_inst_num) 0;
  let (m, ok) := r : M * bool in
  if ok then
    es ← aset c.(rob).(rob_entries) c.(sleep_robid)
           (mkRobEntry c.(c_cycle) (u64 (c.(c_cycle) + DEFAULT_MEM_DELAY)) c.(sleep_inst_num));
    Ret (e <| e_mem := m |>
           <| e_core := c <| rob := mkRob es c.(rob).(ptr) c.(rob).(size) |> <| sleep := false |> |>, true)
  else Ret (e <| e_mem := m |> <| e_core := c |>, false).

(** the memory part of an instruction that has reached its trace record: the core's
    cache access. Result: the delay, whether memory is accessed, the line to write back. *)
Definition trace_access (P : Params) (e : Env) (orig_lineaddr : Z) : outcome (Env * Z * bool * Z) :=
  let c := e.(e_core) in
  if negb (c.(trace_wb) =? 0) then
    r ← mcache_mark_dirty e.(e_l3) orig_lineaddr;
    let c := if r.2 : bool then c else c <| dropped_writes := u64 (c.(dropped_writes) + 1) |> in
    Ret (e <| e_l3 := r.1 |> <| e_core := c |>, 0, false, 0)
  else
    let delay := u32 (0 + P.(L3_LATENCY)) in
    let c := c <| access_count := u64 (c.(access_count) + 1) |> in
    r ← mcache_access e.(e_l3) orig_lineaddr;
    let (l3, l3outcome) := r : MCache * bool in
    if (P.(L3_PERFECT) =? 0) && negb l3outcome then
      let delay := u32 (delay + DEFAULT_MEM_DELAY) in
      r ← mcache_install e.(e_g) l3 orig_lineaddr;
      let (g, l3) := r : G * MCache in
      let wb := if l3.(evicted_dirty_line) then l3.(evicted_line_addr) else 0 in
      let c := c <| miss_count := u64 (c.(miss_count) + 1) |> in
      Ret (e <| e_g := g |> <| e_l3 := l3 |> <| e_core := c |>, delay, true, wb)
    else Ret (e <| e_l3 := l3 |> <| e_core := c |>, delay, false, 0).

(** one of the [CORE_WIDTH] slots; [Some tt] leaves the cycle *)
Definition issue_slot (P : Params) (e : Env) (ii : Z) : outcome (Env * option unit) :=
  if e.(e_core).(rob).(size) =? P.(ROB_SIZE) then Ret (e, Some tt)
  else
    let c := e.(e_core) <| inst_num := u64 (e.(e_core).(inst_num) + 1) |> in
    r ← (if negb c.(done) && (P.(INST_LIMIT) <? c.(inst_num)) then mcore_read_trace P e.(e_g) c
         else Ret (e.(e_g), c));
    let (g, c) := r : G * MCore F in
    r ← os_v2p_lineaddr g e.(e_os) c.(trace_va) c.(c_id);
    let '(g, os, orig_lineaddr) := r in
    let e := e <| e_g := g |> <| e_os := os |> <| e_core := c |> in
    r ← (if c.(trace_inst_num) <=? c.(inst_num) then
           t ← trace_access P e orig_lineaddr;
           let '(e, delay, mem_access, wb) := t in
           r ← mcore_read_trace P e.(e_g) e.(e_core);
           Ret (e <| e_g := r.1 |> <| e_core := r.2 |>, delay, mem_access, wb)
         else Ret (e, 0, false, 0));
    let '(e, delay, mem_access, wb_lineaddr) := r in
    let c := e.(e_core) in
    r ← mcore_rob_insert P c c.(inst_num) c.(c_cycle) (u64 (c.(c_cycle) + delay));
    let (c, myrobid) := r : MCore F * Z in
    if mem_access : bool then
      r ← memsys_access e.(e_mem) orig_lineaddr c.(c_id) myrobid c.(inst_num) wb_lineaddr;
      let (m, ok) := r : M * bool in
      if ok then Ret (e <| e_mem := m |> <| e_core := c |>, None)
      else
        let c := c <| queue_full_count := u64 (c.(queue_full_count) + 1) |>
                   <| sleep_lineaddr := orig_lineaddr |> <| sleep_robid := myrobid |>
                   <| sleep_inst_num := c.(inst_num) |> <| sleep := true |> in
        Ret (e <| e_mem := m |> <| e_core := c |>, Some tt)
    else Ret (e <| e_core := c |>, None).

Definition mcore_cycle (P : Params) (e : Env) : outcome Env :=
  let c := e.(e_core) <| c_cycle := u64 (e.(e_core).(c_cycle) + 1) |> in
  r ← mcore_rob_retire P c;
  let e := e <| e_core := r.1 |> in
  r ← (if e.(e_core).(sleep) then mcore_retry_sleeping_request e else Ret (e, true));
  let (e, awake) := r : Env * bool in
  if awake then
    r ← for_ret (seqZ 0 P.(CORE_WIDTH)) e (issue_slot P);
    Ret r.1
  else Ret e.
End Cycle.
Arguments Env F M G : clear implicits.

(** ** The ring as a queue *)

Definition rob_slot (P : Params) (r : ROB) (k : Z) : Z := (r.(ptr) + k) mod P.(ROB_SIZE).
Definition rob_at (P : Params) (r : ROB) (k : Z) : ROB_Entry :=
  default rob_entry0 (r.(rob_entries) !! Z.to_nat (rob_slot P r k)).
(** the entries from the oldest to the youngest *)
Definition rob_list (P : Params) (r : ROB) : list ROB_Entry := rob_at P r <$> seqZ 0 r.(size).

(** a core no wider than its buffer, a buffer that fits the array *)
Record widths_ok (P : Params) : Prop := {
  wo_width : 0 < P.(CORE_WIDTH) <= P.(ROB_SIZE);
  wo_rob : P.(ROB_SIZE) <= MAX_ROB_ENTRIES
}.
Record rob_ok (P : Params) (r : ROB) : Prop := {
  ro_len : zlen r.(rob_entries) = MAX_ROB_ENTRIES;
  ro_ptr : 0 <= r.(ptr) < P.(ROB_SIZE);
  ro_size : 0 <= r.(size) <= P.(ROB_SIZE)
}.

Section RobFacts.
Context (P : Params).
Hypothesis HW : widths_ok P.

Lemma rob_slot_bound r k : 0 <= rob_slot P r k < P.(ROB_SIZE).
Proof. destruct HW. apply Z.mod_pos_bound. lia. Qed.

Lemma rob_slot_inj r j k :
  0 <= j < P.(ROB_SIZE) → 0 <= k < P.(ROB_SIZE) → rob_slot P r j = rob_slot P r k → j = k.
Proof.
  unfold rob_slot. intros Hj Hk E. destruct HW.
  assert ((j - k) mod ROB_SIZE P = 0) as E0.
  { replace (j - k) with ((ptr r + j) - (ptr r + k)) by lia.
    by rewrite Zminus_mod, E, Z.sub_diag, Z.mod_0_l by lia. }
  apply Z.mod_divide in E0; [|lia]. destruct E0 as [q Hq].
  destruct (Z.lt_trichotomy q 0) as [|[->|]]; [|lia|]; exfalso; clear E.
  - assert (q * ROB_SIZE P <= - ROB_SIZE P) by nia. lia.
  - assert (ROB_SIZE P <= q * ROB_SIZE P) by nia. lia.
Qed.

Lemma rob_get r k : rob_ok P r → aget r.(rob_entries) (rob_slot P r k) = Ret (rob_at P r k).
Proof.
  intros []. pose proof (rob_slot_bound r k). destruct HW. unfold MAX_ROB_ENTRIES in *.
  destruct (aget_ok r.(rob_entries) (rob_slot P r k)) as [e He]; [lia|]. rewrite He.
  apply aget_Ret in He as [_ He]. unfold rob_at. by rewrite He.
Qed.

Lemma rob_list_length r : rob_ok P r → zlen (rob_list P r) = r.(size).
Proof. intros []. unfold zlen, rob_list. rewrite length_fmap, length_seqZ. lia. Qed.

(** writing the entry [j] of the queue *)
Lemma rob_at_insert r j k e :
  rob_ok P r → 0 <= j < P.(ROB_SIZE) → 0 <= k < P.(ROB_SIZE) →
  rob_at P (mkRob (<[Z.to_nat (rob_slot P r j) := e]> r.(rob_entries)) r.(ptr) r.(size)) k =
  if k =? j then e else rob_at P r k.
Proof.
  intros [] Hj Hk. unfold rob_at.
  change (rob_slot P (mkRob _ (ptr r) (size r)) k) with (rob_slot P r k). cbn [rob_entries].
  pose proof (rob_slot_bound r j). pose proof (rob_slot_bound r k). destruct HW.
  unfold MAX_ROB_ENTRIES, zlen in *.
  destruct (Z.eqb_spec k j) as [->|Hne].
  - rewrite list_lookup_insert_eq; [done|]. lia.
  - rewrite list_lookup_insert_ne; [done|]. intros E. apply Hne.
    apply (rob_slot_inj r); [done|done|lia].
Qed.

Lemma rob_ok_insert r j e n :
  rob_ok P r → 0 <= n <= P.(ROB_SIZE) →
  rob_ok P (mkRob (<[Z.to_nat (rob_slot P r j) := e]> r.(rob_entries)) r.(ptr) n).
Proof. intros [] Hn. split; cbn; [|done|done]. unfold zlen in *. by rewrite length_insert. Qed.

Lemma rob_insert_spec {F} (c : MCore F) inst cycle ready :
  rob_ok P c.(rob) → c.(rob).(size) < P.(ROB_SIZE) →
  ∃ c' r', mcore_rob_insert P c inst cycle ready =
      Ret (c', rob_slot P c.(rob) c.(rob).(size)) ∧
    c' = c <| rob := r' |> ∧ rob_ok P r' ∧ r'.(size) = c.(rob).(size) + 1 ∧ r'.(ptr) = c.(rob).(ptr) ∧
    rob_list P r' = rob_list P c.(rob) ++ [mkRobEntry cycle ready inst].
Proof.
  intros Hok Hs. pose proof Hok as []. unfold mcore_rob_insert.
  rewrite (proj2 (Z.ltb_lt _ _)) by lia. osimp. pose proof HW as []. unfold MAX_ROB_ENTRIES in *.
  rewrite (u32_id (ptr _ + _)) by (unfold is_u32; lia).
  rewrite umod_ok by lia. osimp. fold (rob_slot P (rob c) (size (rob c))).
  pose proof (rob_slot_bound (rob c) (size (rob c))).
  rewrite aset_ok by lia. osimp. rewrite (u32_id (size _ + 1)) by (unfold is_u32; lia).
  do 2 eexists. split; [done|]. split; [done|].
  split; [apply rob_ok_insert; [done|lia]|]. split; [done|]. split; [done|].
  unfold rob_list. cbn [size]. rewrite seqZ_app, fmap_app by lia. f_equal.
  - apply list_fmap_ext. intros i k [-> Hk]%lookup_seqZ.
    etrans; [apply (rob_at_insert (rob c) (size (rob c)) (0 + Z.of_nat i)); [done|lia|lia]|].
    destruct (Z.eqb_spec (0 + Z.of_nat i) (size (rob c))); [lia|done].
  - replace (seqZ (0 + size (rob c)) 1) with [size (rob c)] by (unfold seqZ; cbn; f_equal; lia).
    cbn [fmap list_fmap]. f_equal.
    etrans; [apply (rob_at_insert (rob c) (size (rob c)) (size (rob c))); [done|lia|lia]|].
    by rewrite Z.eqb_refl.
Qed.

(** dropping the oldest entry *)
Lemma rob_pop r :
  rob_ok P r → 0 < r.(size) →
  let r' := mkRob r.(rob_entries) ((r.(ptr) + 1) mod P.(ROB_SIZE)) (r.(size) - 1) in
  rob_ok P r' ∧ rob_list P r = rob_at P r 0 :: rob_list P r'.
Proof.
  intros [] Hs r'. destruct HW. split.
  - split; cbn; [done| |lia]. apply Z.mod_pos_bound. lia.
  - unfold rob_list. rewrite seqZ_cons by lia. cbn [fmap list_fmap]. f_equal.
    subst r'. cbn [size]. replace (Z.pred (size r)) with (size r - 1) by lia.
    apply list_eq. intros i. rewrite !list_lookup_fmap.
    destruct (decide (Z.of_nat i < size r - 1)).
    + rewrite !lookup_seqZ_lt by lia. cbn. f_equal. unfold rob_at. cbn [rob_entries].
      f_equal. f_equal. f_equal. unfold rob_slot. cbn [ptr].
      rewrite Zplus_mod_idemp_l. f_equal. lia.
    + by rewrite !lookup_seqZ_ge by lia.
Qed.
End RobFacts.

(** ** Retirement *)
Section Retire.
Context (P : Params) {F : Type}.
Hypothesis HW : widths_ok P.
Implicit Type c : MCore F.

(** [k] turns of the loop stay within the queue: it holds [k] entries, or one that is
    not ready *)
Definition retire_safe (k : Z) (c : MCore F) : Prop :=
  k <= c.(rob).(size) ∨
  ∃ j, 0 <= j < c.(rob).(size) ∧ c.(c_cycle) < (rob_at P c.(rob) j).(ready_time).

(** [d] entries have left the front of the queue, all of them ready; the loop of [k]
    turns stopped early only at an entry that is not *)
Record retired (k : Z) (c c' : MCore F) (d : Z) : Prop := {
  rt_rob : ∃ r', c' = c <| rob := r' |>;
  rt_ok : rob_ok P c'.(rob);
  rt_count : 0 <= d <= k;
  rt_size : c'.(rob).(size) = c.(rob).(size) - d;
  rt_ptr : c'.(rob).(ptr) = rob_slot P c.(rob) d;
  rt_list : ∃ l, rob_list P c.(rob) = l ++ rob_list P c'.(rob) ∧ zlen l = d ∧
    Forall (λ e, e.(ready_time) <= c.(c_cycle)) l;
  rt_stop : d < k → ∃ e, rob_list P c'.(rob) !! 0%nat = Some e ∧ c.(c_cycle) < e.(ready_time)
}.

Lemma rob_list_head (r : ROB) :
  rob_ok P r → 0 < r.(size) → rob_list P r !! 0%nat = Some (rob_at P r 0).
Proof. intros Hok Hs. destruct (rob_pop P HW r Hok Hs) as [_ ->]. done. Qed.

Definition rob_rest (r : ROB) : ROB :=
  mkRob r.(rob_entries) ((r.(ptr) + 1) mod P.(ROB_SIZE)) (r.(size) - 1).

Lemma retire_step_eq c d x :
  rob_ok P c.(rob) → 0 < c.(rob).(size) → 0 <= d → d + 1 < 4294967296 →
  ∃ lost : bool, retire_step P (c, d) x =
    if (rob_at P c.(rob) 0).(ready_time) <=? c.(c_cycle) then
      if lost then Fault AssertFail
      else Ret ((c <| rob := rob_rest c.(rob) |>, d + 1), None)
    else Ret ((c, d), Some d).
Proof.
  intros Hok Hs Hd Hd'. unfold retire_step.
  assert (aget c.(rob).(rob_entries) c.(rob).(ptr) = Ret (rob_at P c.(rob) 0)) as ->.
  { rewrite <- (rob_get P HW) by done. f_equal. unfold rob_slot. rewrite Z.add_0_r.
    symmetry. apply Z.mod_small. apply Hok. }
  cbn [mbind outcome_bind].
  pose proof HW as []. pose proof Hok as []. unfold MAX_ROB_ENTRIES in *.
  rewrite (u32_id (ptr _ + 1)), (u32_id (size _ - 1)), (u32_id (d + 1)), umod_ok
    by (unfold is_u32; lia).
  destruct (_ <=? c_cycle c); [|by exists false].
  destruct (DEFAULT_MEM_DELAY <=? _); [|by exists false].
  destruct (sleep c && _); [by exists false|by exists true].
Qed.

Lemma retire_loop (l : list Z) c d :
  rob_ok P c.(rob) → retire_safe (zlen l) c → 0 <= d → d + zlen l < 4294967296 →
  (∃ c' d' r, for_ret l (c, d) (retire_step P) = Ret ((c', d'), r) ∧
     retired (zlen l) c c' (d' - d) ∧ match r with Some v => v = d' | None => True end) ∨
  for_ret l (c, d) (retire_step P) = Fault AssertFail.
Proof.
  revert c d. induction l as [|x l IH]; intros c d Hok Hsafe Hd Hl; cbn [for_ret].
  { left. exists c, d, None. split; [done|]. split; [|done]. rewrite Z.sub_diag. split.
    - exists (rob c). by destruct c.
    - done.
    - done.
    - lia.
    - unfold rob_slot. rewrite Z.add_0_r. symmetry. apply Z.mod_small, Hok.
    - exists []. by split_and!.
    - unfold zlen. simpl. lia. }
  assert (zlen (x :: l) = zlen l + 1) as Hlen by (unfold zlen; simpl; lia). rewrite Hlen in *.
  pose proof (zlen_nonneg l).
  assert (0 < c.(rob).(size)) as Hs by (destruct Hsafe as [|(j & ? & _)]; lia).
  destruct (retire_step_eq c d x Hok Hs ltac:(lia) ltac:(lia)) as [lost Heq]. rewrite Heq.
  destruct (Z.leb_spec (ready_time (rob_at P (rob c) 0)) (c_cycle c)) as [Hr|Hr]; cbn [mbind outcome_bind fst snd].
  2:{ left. exists c, d, (Some d). split; [done|]. split; [|done]. rewrite Z.sub_diag. split.
      - exists (rob c). by destruct c.
      - done.
      - lia.
      - lia.
      - unfold rob_slot. rewrite Z.add_0_r. symmetry. apply Z.mod_small, Hok.
      - exists []. by split_and!.
      - intros _. exists (rob_at P (rob c) 0). split; [by apply rob_list_head|done]. }
  destruct lost; cbn [mbind outcome_bind fst snd]; [by right|].
  destruct (rob_pop P HW (rob c) Hok Hs) as [Hok' Hlist].
  change (mkRob _ _ _) with (rob_rest (rob c)) in Hok', Hlist.
  set (r' := rob_rest (rob c)) in *.
  destruct (IH (c <| rob := r' |>) (d + 1)) as [(c' & d' & r & -> & Hret & Hv)|Hf].
  - exact Hok'.
  - destruct Hsafe as [Hsz|(j & Hj & Hready)]; [left; rsimp; subst r'; unfold rob_rest; cbn; lia|].
    destruct (decide (j = 0)) as [->|]; [lia|]. right. exists (j - 1). rsimp. subst r'. unfold rob_rest.
    split; [cbn; lia|]. unfold rob_at, rob_slot in *. cbn [ptr rob_entries].
    rewrite Zplus_mod_idemp_l. by replace (ptr (rob c) + 1 + (j - 1)) with (ptr (rob c) + j) by lia.
  - lia.
  - lia.
  - left. exists c', d', r. split; [done|]. split; [|done].
    destruct Hret as [[r2 Hr2] Hok2 Hc2 Hsz2 Hptr2 (lp & Hlp & Hlen2 & Hall) Hstop]. split.
    + exists r2. rewrite Hr2. by destruct c.
    + done.
    + lia.
    + rewrite Hsz2. subst r'. unfold rob_rest. rsimp. cbn [size]. lia.
    + rewrite Hptr2. subst r'. rsimp. unfold rob_slot, rob_rest. cbn [ptr].
      rewrite Zplus_mod_idemp_l. f_equal. lia.
    + exists (rob_at P (rob c) 0 :: lp). rewrite Hlist. rsimp. rewrite Hlp.
      split; [done|]. split; [unfold zlen in *; simpl; lia|]. by constructor.
    + intros Hlt. apply Hstop. lia.
  - right. exact Hf.
Qed.

Lemma rob_retire_spec c :
  rob_ok P c.(rob) → c.(rob).(size) = 0 ∨ retire_safe P.(CORE_WIDTH) c →
  (∃ c' d, mcore_rob_retire P c = Ret (c', d) ∧
     retired (if c.(rob).(size) =? 0 then 0 else P.(CORE_WIDTH)) c c' d) ∨
  mcore_rob_retire P c = Fault AssertFail.
Proof.
  intros Hok Hsafe. unfold mcore_rob_retire. destruct (Z.eqb_spec (size (rob c)) 0) as [Hz|Hnz].
  - left. exists c, 0. split; [done|]. split; first
      [done|lia|unfold rob_slot; rewrite Z.add_0_r; symmetry; apply Z.mod_small, Hok|exists (rob c); by destruct c|exists []; by split_and!].
  - destruct Hsafe as [|Hsafe]; [done|]. pose proof HW as []. unfold MAX_ROB_ENTRIES in *.
    assert (zlen (seqZ 0 (CORE_WIDTH P)) = CORE_WIDTH P) as Hl.
    { unfold zlen. rewrite length_seqZ. lia. }
    destruct (retire_loop (seqZ 0 (CORE_WIDTH P)) c 0) as [(c' & d' & r & -> & Hret & Hv)| ->];
      [done|by rewrite Hl|done|rewrite Hl; lia| |by right].
    left. exists c', d'. rewrite Hl, Z.sub_0_r in Hret. split; [|done].
    cbn. destruct r as [v|]; [by rewrite Hv|done].
Qed.
End Retire.

(** ** The invariant of a core *)

Record core_inv {F} (P : Params) (c : MCore F) : Prop := {
  co_rob : rob_ok P c.(rob);
  co_cycle : 0 <= c.(c_cycle) < 4611686018427387904;
  (** awake: enough entries for a whole retire loop, or none *)
  co_awake : sleep c = false → c.(rob).(size) = 0 ∨ P.(CORE_WIDTH) <= c.(rob).(size);
  (** asleep: the youngest entry is the one whose request was refused *)
  co_asleep : sleep c = true → 0 < c.(rob).(size) ∧
    c.(sleep_robid) = rob_slot P c.(rob) (c.(rob).(size) - 1) ∧
    let e := rob_at P c.(rob) (c.(rob).(size) - 1) in
    e.(r_inst_num) = c.(sleep_inst_num) ∧ e.(birth_time) + DEFAULT_MEM_DELAY <= e.(ready_time)
}.

(** a sleeping core has waited less than the default memory delay *)
Definition not_overdue {F} (P : Params) (c : MCore F) : Prop :=
  sleep c = true →
  c.(c_cycle) + 1 < (rob_at P c.(rob) (c.(rob).(size) - 1)).(birth_time) + DEFAULT_MEM_DELAY.

(** the instruction numbers in the buffer, oldest first *)
Definition rob_insts (P : Params) (r : ROB) : list Z := r_inst_num <$> rob_list P r.

(** reading the trace and accessing the cache leave the buffer alone *)
Definition same_core {F} (c c' : MCore F) : Prop :=
  c'.(rob) = c.(rob) ∧ c'.(sleep) = c.(sleep) ∧ c'.(c_cycle) = c.(c_cycle) ∧ c'.(c_id) = c.(c_id).

Section CycleFacts.
Context {F M G : Type} `{HF : GzFile F} `{HM : MemAccess M} `{HG : RandSource G}.
Context (P : Params).
Hypothesis HW : widths_ok P.
Hypothesis HL : 0 <= P.(L3_LATENCY) < 2147483648.
Implicit Type e : Env F M G.

Lemma fread_same (c : MCore F) : same_core c (mcore_fread_trace c).
Proof.
  unfold mcore_fread_trace. destruct (gzread _ _) as [b1 f1]. destruct (gzread _ _) as [b2 f2].
  destruct (gzread _ _) as [b3 f3]. done.
Qed.

Lemma read_trace_same (g g' : G) (c c' : MCore F) :
  mcore_read_trace P g c = Ret (g', c') → same_core c c'.
Proof.
  unfold mcore_read_trace. pose proof (fread_same c) as H1.
  set (c1 := mcore_fread_trace c) in *. destruct (_ || _); [|by intros [= <- <-]].
  set (c2 := if negb (done c1) then mark_done c1 else c1).
  assert (same_core c c2) as H2 by (subst c2; by destruct (negb _)).
  intros ([g1 f] & _ & Hk)%bind_Ret.
  pose proof (fread_same (c2 <| addr_trace := f |>)) as H3.
  set (c3 := mcore_fread_trace _) in *. injection Hk as _ <-.
  destruct H2 as (E1 & E2 & E3 & E4), H3 as (E5 & E6 & E7 & E8). rsimp.
  split_and!; congruence.
Qed.

Lemma trace_access_same e e' a delay mem wb :
  trace_access P e a = Ret (e', delay, mem, wb) →
  same_core e.(e_core) e'.(e_core) ∧ (mem = true → DEFAULT_MEM_DELAY <= delay < 4294967296) ∧
  0 <= delay < 4294967296.
Proof.
  unfold trace_access. destruct (negb _).
  { intros (r & _ & Hk)%bind_Ret. injection Hk as <- <- <- _. destruct r.2; done. }
  intros ([l3 hit] & _ & Hk)%bind_Ret. rewrite (u32_id (0 + _)) in Hk by (unfold is_u32; lia).
  destruct ((L3_PERFECT P =? 0) && negb hit).
  - apply bind_Ret in Hk as ([g l3'] & _ & Hk). unfold DEFAULT_MEM_DELAY in *.
    rewrite u32_id in Hk by (unfold is_u32; lia). injection Hk as <- <- <- _.
    split; [done|]. lia.
  - injection Hk as <- <- <- _. split; [done|]. split; [done|lia].
Qed.

(** What one issue slot does to the buffer. *)
Lemma issue_slot_spec e e' ii r :
  rob_ok P e.(e_core).(rob) → sleep e.(e_core) = false →
  0 <= e.(e_core).(c_cycle) < 4611686018427387904 →
  issue_slot P e ii = Ret (e', r) →
  e'.(e_core).(c_cycle) = e.(e_core).(c_cycle) ∧
  ((r = Some tt ∧ e' = e ∧ e.(e_core).(rob).(size) = P.(ROB_SIZE)) ∨
   (rob_ok P e'.(e_core).(rob) ∧ e'.(e_core).(rob).(size) = e.(e_core).(rob).(size) + 1 ∧
    ∃ en, rob_list P e'.(e_core).(rob) = rob_list P e.(e_core).(rob) ++ [en] ∧
      match r with
      | Some _ => core_inv P e'.(e_core)
      | None => sleep e'.(e_core) = false
      end)).
Proof.
  intros Hok Hsl Hcyc. unfold issue_slot.
  destruct (Z.eqb_spec (size (rob (e_core e))) (ROB_SIZE P)) as [|Hne].
  { intros [= <- <-]. split; [done|]. by left. }
  set (c1 := e_core e <| inst_num := _ |>).
  intros ([g c2] & H2 & Hk)%bind_Ret.
  assert (same_core (e_core e) c2) as Hc2.
  { destruct (_ && _); [by apply read_trace_same in H2|by injection H2 as _ <-]. }
  apply bind_Ret in Hk as ([[g3 os] line] & _ & Hk).
  apply bind_Ret in Hk as ([[[e4 delay] mem] wb] & H4 & Hk).
  assert (same_core (e_core e) e4.(e_core) ∧ (mem = true → DEFAULT_MEM_DELAY <= delay < 4294967296) ∧
    0 <= delay < 4294967296) as (Hc4 & Hmem & Hdl).
  { destruct (_ <=? _).
    - apply bind_Ret in H4 as ([[[e5 d5] m5] w5] & H5 & H4).
      apply bind_Ret in H4 as ([g6 c6] & H6 & H4). injection H4 as <- <- <- _.
      apply trace_access_same in H5 as (H5 & Hm & Hd). apply read_trace_same in H6. rsimp.
      cbn [snd]. destruct Hc2 as (A1 & A2 & A3 & A4), H5 as (B1 & B2 & B3 & B4), H6 as (C1 & C2 & C3 & C4).
      split; [|done]. rsimp. split_and!; congruence.
    - injection H4 as <- <- <- _. split; [exact Hc2|]. split; [done|lia]. }
  destruct Hc4 as (Erob & Esl & Ecy & _). rewrite <- Erob in Hok. rewrite <- Ecy in Hcyc.
  unfold DEFAULT_MEM_DELAY in *.
  destruct (rob_insert_spec P HW e4.(e_core) (inst_num (e_core e4)) (c_cycle (e_core e4))
    (u64 (c_cycle (e_core e4) + delay))) as (c7 & r7 & Hins & -> & Hok7 & Hs7 & Hp7 & Hl7); [done|..].
  { rewrite Erob. pose proof (ro_size _ _ Hok) as Hb. rewrite Erob in Hb. lia. }
  apply bind_Ret in Hk as ([c8 id8] & H8 & Hk). rewrite Hins in H8. injection H8 as <- <-.
  rewrite (u64_id (_ + delay)) in * by (unfold is_u64; lia).
  destruct mem.
  - specialize (Hmem eq_refl). apply bind_Ret in Hk as ([m ok] & _ & Hk).
    destruct ok; injection Hk as <- <-; rsimp.
    + split; [congruence|]. right. rewrite <- Erob. split_and!; try done.
      eexists. split; [exact Hl7|]. congruence.
    + split; [congruence|]. right. rewrite <- Erob. split_and!; try done.
      eexists. split; [exact Hl7|]. split; rsimp; try done.
      intros _. pose proof (ro_size _ _ Hok). split; [lia|].
      assert (rob_at P r7 (size r7 - 1) = mkRobEntry (c_cycle (e_core e4))
        (c_cycle (e_core e4) + delay) (inst_num (e_core e4))) as ->.
      { pose proof (rob_list_length P r7 Hok7) as Hlen. rewrite Hl7 in Hlen.
        assert (rob_list P r7 !! Z.to_nat (size r7 - 1) = Some (rob_at P r7 (size r7 - 1))) as Hx.
        { unfold rob_list. rewrite list_lookup_fmap, lookup_seqZ_lt by lia. cbn. do 2 f_equal. lia. }
        rewrite Hl7 in Hx. rewrite lookup_app_r in Hx.
        - unfold zlen in Hlen. rewrite length_app in Hlen. cbn in Hlen.
          replace (Z.to_nat (size r7 - 1) - length (rob_list P (rob (e_core e4))))%nat with 0%nat in Hx by lia.
          by injection Hx as <-.
        - unfold zlen in Hlen. rewrite length_app in Hlen. cbn in Hlen. lia. }
      cbn [r_inst_num birth_time ready_time]. split; [|split; [done|unfold DEFAULT_MEM_DELAY; lia]].
      unfold rob_slot. rewrite Hp7. f_equal. lia.
  - injection Hk as <- <-. rsimp. split; [congruence|]. right. rewrite <- Erob. split_and!; try done.
    eexists. split; [exact Hl7|]. congruence.
Qed.
End CycleFacts.

Section CycleInv.
Context {F M G : Type} `{HF : GzFile F} `{HM : MemAccess M} `{HG : RandSource G}.
Context (P : Params).
Hypothesis HW : widths_ok P.
Hypothesis HL : 0 <= P.(L3_LATENCY) < 2147483648.
Implicit Type e : Env F M G.

(** the buffer's tail after entries were retired *)
Lemma retired_tail {F'} k (c c' : MCore F') d :
  rob_ok P c.(rob) → retired P k c c' d → 0 < c'.(rob).(size) →
  rob_slot P c'.(rob) (c'.(rob).(size) - 1) = rob_slot P c.(rob) (c.(rob).(size) - 1) ∧
  rob_at P c'.(rob) (c'.(rob).(size) - 1) = rob_at P c.(rob) (c.(rob).(size) - 1).
Proof.
  intros Hok [[r' ->] Hok' Hc Hs Hp Hl _] Hpos. rsimp.
  assert (rob_slot P r' (size r' - 1) = rob_slot P (rob c) (size (rob c) - 1)) as E.
  { unfold rob_slot in *. rewrite Hp, Hs, Zplus_mod_idemp_l. f_equal. lia. }
  split; [done|]. destruct Hl as (l & Hl & Hlen & _).
  assert (∀ r : ROB, 0 < r.(size) →
    rob_list P r !! Z.to_nat (size r - 1) = Some (rob_at P r (size r - 1))) as Hx.
  { intros r Hr. unfold rob_list. rewrite list_lookup_fmap, lookup_seqZ_lt by lia. cbn. do 2 f_equal. lia. }
  pose proof (Hx (rob c) ltac:(lia)) as H1. pose proof (Hx r' Hpos) as H2.
  rewrite Hl, lookup_app_r in H1 by (unfold zlen in Hlen; lia).
  replace (Z.to_nat (size (rob c) - 1) - length l)%nat with (Z.to_nat (size r' - 1)) in H1
    by (unfold zlen in Hlen; lia).
  congruence.
Qed.

(** the issue loop, with the buffer [base] it started from *)
Definition issuing (base : list ROB_Entry) (cyc : Z) (i : Z) e : Prop :=
  rob_ok P e.(e_core).(rob) ∧ sleep e.(e_core) = false ∧ c_cycle e.(e_core) = cyc ∧
  i <= e.(e_core).(rob).(size) ∧
  ∃ l, rob_list P e.(e_core).(rob) = base ++ l ∧ zlen l = i.
Definition issued (base : list ROB_Entry) (cyc : Z) e : Prop :=
  core_inv P e.(e_core) ∧ c_cycle e.(e_core) = cyc ∧
  ∃ l, rob_list P e.(e_core).(rob) = base ++ l ∧ zlen l <= P.(CORE_WIDTH).

Lemma issue_loop e e' r :
  rob_ok P e.(e_core).(rob) → sleep e.(e_core) = false →
  0 <= e.(e_core).(c_cycle) < 4611686018427387904 →
  for_ret (seqZ 0 P.(CORE_WIDTH)) e (issue_slot P) = Ret (e', r) →
  issued (rob_list P e.(e_core).(rob)) (c_cycle e.(e_core)) e'.
Proof.
  intros Hok Hsl Hcyc Hrun. pose proof HW as [].
  set (base := rob_list P (rob (e_core e))). set (cyc := c_cycle (e_core e)).
  apply (for_ret_seqZ (issuing base cyc) (λ _ : unit, issued base cyc)) in Hrun; [|lia| |].
  - destruct r; [done|]. destruct Hrun as (H1 & H2 & H3 & H4 & l & H5 & H6).
    split; [|split; [done|exists l; split; [done|lia]]].
    split; [done|by rewrite H3|intros _; right; lia|congruence].
  - split_and!; try done; [apply Hok|]. exists []. by rewrite app_nil_r.
  - intros s i s' r' Hi (H1 & H2 & H3 & H4 & l & H5 & H6) Hs.
    destruct (issue_slot_spec P HW HL s s' i r' H1 H2) as (Hcy & Hcase); [by rewrite H3|done|].
    destruct Hcase as [(-> & -> & Hfull)|(Hok' & Hsz & en & Hl & Hr)].
    + split; [|split; [done|exists l; split; [done|lia]]].
      split; [done|by rewrite H3|intros _; right; lia|congruence].
    + assert (rob_list P (rob (e_core s')) = base ++ (l ++ [en]) ∧ zlen (l ++ [en]) = i + 1) as [Hl' Hlen'].
      { rewrite Hl, H5, app_assoc. split; [done|]. unfold zlen in *. rewrite length_app. cbn. lia. }
      destruct r' as [u|].
      * split; [done|]. split; [congruence|]. exists (l ++ [en]). split; [done|lia].
      * split_and!; try done; [congruence|lia|]. exists (l ++ [en]). done.
Qed.

(** the retry of a sleeping core rewrites the times of its youngest entry *)
Lemma retry_spec e e' ok :
  core_inv P e.(e_core) → sleep e.(e_core) = true →
  mcore_retry_sleeping_request e = Ret (e', ok) →
  c_cycle e'.(e_core) = c_cycle e.(e_core) ∧
  rob_insts P e'.(e_core).(rob) = rob_insts P e.(e_core).(rob) ∧
  if ok : bool then rob_ok P e'.(e_core).(rob) ∧ sleep e'.(e_core) = false
  else core_inv P e'.(e_core).
Proof.
  intros Hinv Hsl. unfold mcore_retry_sleeping_request.
  intros ([m ok1] & _ & Hk)%bind_Ret. destruct ok1.
  2:{ injection Hk as <- <-. rsimp. split; [done|]. split; [done|]. by destruct Hinv. }
  apply bind_Ret in Hk as (es & Hes & Hk). injection Hk as <- <-. rsimp.
  destruct (co_asleep _ _ Hinv Hsl) as (Hpos & Hid & Hinst & _).
  pose proof (co_rob _ _ Hinv) as Hok. apply aset_Ret in Hes as [_ ->].
  set (r := rob (e_core e)) in *. rewrite Hid.
  pose proof (ro_size _ _ Hok). pose proof HW as [].
  split; [done|]. split; [|split; [|done]].
  - unfold rob_insts, rob_list. cbn [size]. rewrite <- !list_fmap_compose.
    apply list_fmap_ext. intros i k [-> Hk]%lookup_seqZ. unfold compose. cbv beta.
    rewrite (rob_at_insert P HW r (size r - 1)) by (done || lia).
    destruct (Z.eqb_spec (0 + Z.of_nat i) (size r - 1)) as [->|]; [|done]. by rewrite Hinst.
  - apply (rob_ok_insert P); [done|exact (ro_size _ _ Hok)].
Qed.

(** retiring keeps the invariant, apart from the size of an awake core's queue *)
Lemma retired_core (c0 c1 c2 : MCore F) d k :
  core_inv P c0 → not_overdue P c0 → c_cycle c0 + 1 < 4611686018427387904 → k <= P.(CORE_WIDTH) →
  c1.(rob) = c0.(rob) → c_cycle c1 = c_cycle c0 + 1 → sleep c1 = sleep c0 →
  c1.(sleep_robid) = c0.(sleep_robid) → c1.(sleep_inst_num) = c0.(sleep_inst_num) →
  retired P k c1 c2 d →
  rob_ok P (rob c2) ∧ c_cycle c2 = c_cycle c0 + 1 ∧ (sleep c2 = true → core_inv P c2) ∧
  ∃ out, rob_insts P (rob c0) = out ++ rob_insts P (rob c2) ∧ zlen out <= P.(CORE_WIDTH).
Proof.
  intros Hinv Hdue Hcyc Hk E1 E2 E3 E4 E5 Hrt. pose proof (co_cycle _ _ Hinv).
  assert (rob_ok P c1.(rob)) as Hok1 by (rewrite E1; apply (co_rob _ _ Hinv)).
  pose proof (retired_tail k c1 c2 d Hok1 Hrt) as Htail.
  destruct Hrt as [[r' ->] Hok' Hc Hs Hp (l & Hl & Hlen & Hall) _]. rsimp.
  rewrite E1, E2 in *.
  split; [done|]. split; [done|]. split.
  - intros Hsl. rewrite E3 in Hsl.
    destruct (co_asleep _ _ Hinv Hsl) as (Hpos & Hid & Hinst & Hdl).
    assert (0 < size r') as Hpos'.
    { destruct (decide (0 < size r')); [done|]. exfalso.
      specialize (Hdue Hsl). pose proof (ro_size _ _ Hok').
      assert (rob_list P (rob c0) !! Z.to_nat (size (rob c0) - 1) =
        Some (rob_at P (rob c0) (size (rob c0) - 1))) as Hx.
      { unfold rob_list. rewrite list_lookup_fmap, lookup_seqZ_lt by lia. cbn. do 2 f_equal. lia. }
      rewrite Hl, lookup_app_l in Hx by (unfold zlen in Hlen; lia).
      eapply Forall_lookup_1 in Hall; [|exact Hx]. lia. }
    destruct (Htail Hpos') as [T1 T2].
    split; rsimp; [done|lia|congruence|].
    intros _. rewrite T1, T2, E4, E5. done.
  - exists (r_inst_num <$> l). unfold rob_insts. rewrite Hl, fmap_app. split; [done|].
    unfold zlen in *. rewrite length_fmap. lia.
Qed.

Lemma mcore_cycle_spec e e' :
  core_inv P e.(e_core) → not_overdue P e.(e_core) →
  c_cycle e.(e_core) + 1 < 4611686018427387904 →
  mcore_cycle P e = Ret e' →
  core_inv P e'.(e_core) ∧ c_cycle e'.(e_core) = c_cycle e.(e_core) + 1 ∧
  ∃ out new, rob_insts P e.(e_core).(rob) ++ new = out ++ rob_insts P e'.(e_core).(rob) ∧
    zlen out <= P.(CORE_WIDTH) ∧ zlen new <= P.(CORE_WIDTH).
Proof.
  intros Hinv Hdue Hcyc. unfold mcore_cycle. pose proof HW as [].
  pose proof (co_cycle _ _ Hinv). rewrite u64_id by (unfold is_u64; lia).
  set (c1 := e_core e <| c_cycle := c_cycle (e_core e) + 1 |>).
  intros ([c2 d] & Hret & Hk)%bind_Ret. cbn [fst] in Hk.
  assert (rob_ok P c1.(rob)) as Hok1 by apply (co_rob _ _ Hinv).
  destruct (rob_retire_spec P HW c1 Hok1) as [(c2' & d' & Hret' & Hrt)|Hf]; [| |congruence].
  { subst c1. unfold retire_safe. rsimp. destruct (sleep (e_core e)) eqn:Hsl.
    - right. right. destruct (co_asleep _ _ Hinv Hsl) as (Hpos & _ & _ & Hdl).
      exists (size (rob (e_core e)) - 1). split; [lia|]. specialize (Hdue Hsl). lia.
    - destruct (co_awake _ _ Hinv Hsl); [by left|right; by left]. }
  rewrite Hret' in Hret. injection Hret as -> ->.
  set (k := if size (rob c1) =? 0 then 0 else CORE_WIDTH P) in *.
  assert (k <= CORE_WIDTH P) as Hk' by (subst k; destruct (_ =? 0); lia).
  destruct (retired_core (e_core e) c1 c2 d k Hinv Hdue Hcyc Hk' eq_refl eq_refl eq_refl
    eq_refl eq_refl Hrt) as (Hok2 & Hcy2 & Hinv2 & Hout).
  set (e2 := e <| e_core := c2 |>) in *.
  apply bind_Ret in Hk as ([e3 awake] & H3 & Hk).
  assert (c_cycle (e_core e3) = c_cycle (e_core e) + 1 ∧
    rob_insts P (rob (e_core e3)) = rob_insts P (rob c2) ∧
    if awake : bool then rob_ok P (rob (e_core e3)) ∧ sleep (e_core e3) = false
    else core_inv P (e_core e3)) as (Hcy3 & Hin3 & Haw).
  { change (e_core e2) with c2 in H3. destruct (sleep c2) eqn:Hsl2.
    - destruct (retry_spec e2 e3 awake) as (A & B & D); [apply Hinv2; done|done|done|].
      split_and!; [by rewrite A|by rewrite B|done].
    - injection H3 as <- <-. split_and!; [done|done|done|done]. }
  destruct awake.
  - apply bind_Ret in Hk as ([e4 r] & H4 & Hk). injection Hk as <-. destruct Haw as [Hok3 Hsl3].
    apply issue_loop in H4 as (Hinv4 & Hcy4 & l & Hl & Hlen); [|done|done|rewrite Hcy3; lia].
    split; [done|]. split; [congruence|]. destruct Hout as (out & Hout & Hlo).
    exists out, (r_inst_num <$> l). split_and!; [|done|unfold zlen in *; by rewrite length_fmap].
    unfold rob_insts in *. rewrite Hl, fmap_app, Hin3, Hout. by rewrite app_assoc.
  - injection Hk as <-. split; [done|]. split; [done|]. destruct Hout as (out & Hout & Hlo).
    exists out, []. rewrite app_nil_r, Hin3. split_and!; [done|done|unfold zlen; simpl; lia].
Qed.
End CycleInv.

(** ** Construction and wake-up *)

Lemma mcore_new_inv {F G} `{HF : GzFile F} `{HG : RandSource G} P (g g' : G) fname id (c : MCore F) :
  widths_ok P → mcore_new P g fname id = Ret (g', c) → core_inv P c ∧ c_cycle c = 0 ∧ sleep c = false.
Proof.
  intros [] H. unfold mcore_new in H. apply bind_Ret in H as ([g1 f] & _ & H).
  apply read_trace_same in H as (E1 & E2 & E3 & _). cbn [rob sleep c_cycle] in *.
  split; [|done]. split; rewrite ?E1, ?E2, ?E3; try done.
  - split; cbn; [done|lia|lia].
  - by left.
Qed.

(** A wake-up of a matching entry succeeds and changes only its ready time. *)
Lemma rob_wakeup_spec {F} (c : MCore F) robid inst e :
  aget c.(rob).(rob_entries) robid = Ret e → e.(r_inst_num) = inst →
  ∃ c', mcore_rob_wakeup c robid inst = Ret c' ∧
    c'.(rob) = mkRob (<[Z.to_nat robid := e <| ready_time := c.(c_cycle) |>]> c.(rob).(rob_entries))
      c.(rob).(ptr) c.(rob).(size).
Proof.
  intros He Hi. unfold mcore_rob_wakeup. rewrite He. cbn [mbind outcome_bind].
  rewrite (proj2 (Z.eqb_eq _ _) Hi), aset_ok by by eapply aget_bound.
  cbn [mbind outcome_bind]. eexists. split; [done|]. done.
Qed.

Lemma le_value_bound (bs : list Z) :
  Forall (λ b, 0 <= b < 256) bs → 0 <= le_value bs < 256 ^ zlen bs.
Proof.
  induction 1 as [|b bs Hb _ IH]; [done|]. unfold zlen in *. cbn [le_value foldr length].
  rewrite Nat2Z.inj_succ, Z.pow_succ_r by lia. fold (le_value bs). lia.
Qed.

Lemma fread_bounds {F} `{HF : GzFile F} (c : MCore F) :
  let c' := mcore_fread_trace c in
  0 <= c'.(trace_inst_num) < 1099511627776 ∧ 0 <= c'.(trace_wb) < 256 ∧
  0 <= c'.(trace_va) < 4294967296.
Proof.
  assert (∀ f n m, 256 ^ Z.of_nat n = m → 0 <= le_value (gzread f n).1 < m) as Hb.
  { intros f n m <-. pose proof (le_value_bound _ (gzread_bytes f n)) as [Hl Hu].
    split; [done|]. eapply Z.lt_le_trans; [exact Hu|]. apply Z.pow_le_mono_r; [lia|].
    pose proof (gzread_length f n). unfold zlen. lia. }
  unfold mcore_fread_trace.
  destruct (gzread _ 5) as [b1 f1] eqn:E1. destruct (gzread f1 1) as [b2 f2] eqn:E2.
  destruct (gzread f2 4) as [b3 f3] eqn:E3. rsimp.
  pose proof (Hb (addr_trace c) 5%nat 1099511627776 eq_refl) as H1. rewrite E1 in H1.
  pose proof (Hb f1 1%nat 256 eq_refl) as H2. rewrite E2 in H2.
  pose proof (Hb f2 4%nat 4294967296 eq_refl) as H3. rewrite E3 in H3. done.
Qed.

(** ** Properties *)

(** C4. The reorder buffer is a queue. From the invariant (the ring indices in range; an
    awake core holds no entry or at least a full retire width; a sleeping core's
    youngest entry is the refused request) a cycle that returns keeps the
    invariant, so the retire loop, which does not check the size, never
    counts below zero; and the instructions leave in the order they entered: the old
    contents followed by the new instructions are the retired ones followed by
    the new contents, at most [CORE_WIDTH] of each. *)
Theorem mcore_cycle_in_order {F M G : Type} `{HF : GzFile F} `{HM : MemAccess M} `{HG : RandSource G}
    (P : Params) (e e' : Env F M G) :
  widths_ok P → 0 <= P.(L3_LATENCY) < 2147483648 →
  core_inv P e.(e_core) → not_overdue P e.(e_core) →
  c_cycle e.(e_core) + 1 < 4611686018427387904 →
  mcore_cycle P e = Ret e' →
  core_inv P e'.(e_core) ∧ c_cycle e'.(e_core) = c_cycle e.(e_core) + 1 ∧
  ∃ out new, rob_insts P e.(e_core).(rob) ++ new = out ++ rob_insts P e'.(e_core).(rob) ∧
    zlen out <= P.(CORE_WIDTH) ∧ zlen new <= P.(CORE_WIDTH).
Proof. intros HW HL. by apply mcore_cycle_spec. Qed.

(** a trace file as a list of bytes, and a memory that accepts every request *)
Definition bytes_read (f : list Z) (n : nat) : list Z * list Z :=
  ((λ b, b mod 256) <$> take n f, drop n f).
Lemma bytes_read_length f n : (length (bytes_read f n).1 <= n)%nat.
Proof. cbn. rewrite length_fmap, length_take. lia. Qed.
Lemma bytes_read_bytes f n : Forall (λ b, 0 <= b < 256) (bytes_read f n).1.
Proof. cbn. apply Forall_fmap, Forall_forall. intros b _. cbn. apply Z.mod_pos_bound. lia. Qed.
Definition demo_trace : list Z :=
  [2; 0; 0; 0; 0;  0;  64; 1; 0; 0;  9; 0; 0; 0; 0;  0;  0; 2; 0; 0;  12; 0; 0; 0; 0;  1;  64; 1; 0; 0].
#[export] Instance bytes_file : GzFile (list Z) | 10 := {|
  gzopen _ := Some demo_trace;
  gzread := bytes_read;
  gzeof f := bool_decide (f = []);
  gzread_length := bytes_read_length;
  gzread_bytes := bytes_read_bytes
|}.
#[export] Instance open_memory : MemAccess unit | 10 := λ m _ _ _ _ _, Ret (m, true).

Definition demo_core : MCore (list Z) := Eval vm_compute in
  match mcore_new default_params (1:Z) "trace" 0 with
  | Ret r => r.2
  | Fault _ => mkMCore (list Z) 0 "" [] false false 0 0 0 (mkRob [] 0 0) 0 0 0 0 0 0 0 0 0 0 0 0 0 0 0 0 0 0 0 0 0
  end.
Definition demo_env : Env (list Z) unit Z :=
  mkEnv 1 demo_os (mcache_new 4 2 0) tt demo_core.

Lemma default_widths : widths_ok default_params.
Proof. split; [split; reflexivity || discriminate|discriminate]. Qed.

Lemma demo_core_inv : core_inv default_params demo_core ∧ sleep demo_core = false.
Proof.
  destruct (mcore_new_inv default_params (1:Z) 1 "trace" 0 demo_core default_widths) as (H & _ & Hs).
  - vm_compute. reflexivity.
  - done.
Qed.

Lemma mcore_cycle_in_order_witness :
  ∃ e', mcore_cycle default_params demo_env = Ret e' ∧ core_inv default_params (e_core e') ∧
    rob_insts default_params (rob (e_core e')) = [1; 2; 3; 4].
Proof.
  eexists. split; [vm_compute; reflexivity|]. split; [|vm_compute; reflexivity].
  refine (proj1 (mcore_cycle_in_order default_params demo_env _ default_widths _ (proj1 demo_core_inv) _ _ _)).
  - split; [discriminate|reflexivity].
  - intros Hs. vm_compute in Hs. discriminate Hs.
  - reflexivity.
  - vm_compute. reflexivity.
Defined.

(** Retirement, exactly: from a queue with enough entries, or one that is not
    ready, the loop returns, having taken from the front ready entries only, at
    most [CORE_WIDTH], and fewer only because the next one is not ready; or it
    stops at the lost-packet assertion. *)
Theorem mcore_rob_retire_front {F : Type} (P : Params) (c : MCore F) :
  widths_ok P → rob_ok P c.(rob) → c.(rob).(size) = 0 ∨ retire_safe P P.(CORE_WIDTH) c →
  (∃ c' d, mcore_rob_retire P c = Ret (c', d) ∧
     retired P (if c.(rob).(size) =? 0 then 0 else P.(CORE_WIDTH)) c c' d) ∨
  mcore_rob_retire P c = Fault AssertFail.
Proof. intros HW. by apply rob_retire_spec. Qed.

Lemma mcore_rob_retire_front_witness :
  (∃ c' d, mcore_rob_retire default_params demo_core = Ret (c', d) ∧
     retired default_params 0 demo_core c' d) ∨
  mcore_rob_retire default_params demo_core = Fault AssertFail.
Proof.
  apply (mcore_rob_retire_front default_params demo_core default_widths).
  - apply demo_core_inv.
  - left. reflexivity.
Defined.

(** Without enough entries the loop runs past the queue: one entry, three stale ready
    slots behind it, and the size ends at 2^32 - 3. *)
Definition short_rob : MCore (list Z) :=
  mkMCore (list Z) 0 "" [] false false 0 0 0 (mkRob (replicate 1024 rob_entry0) 0 1)
    0 0 0 5 0 0 0 0 0 0 0 0 0 0 0 0 0 0 0 0 0.
Example retire_underflow :
  (r ← mcore_rob_retire default_params short_rob; Ret (r.1.(rob).(size), r.2)) = Ret (4294967293, 4).
Proof. vm_compute. reflexivity. Qed.

(** The trace record bounds the address: 5 bytes of instruction number, 1 of write
    flag, 4 of address. So the page number of a traced access always passes
    the allocator's 36-bit assertion. *)
Theorem mcore_trace_fields {F G : Type} `{HF : GzFile F} `{HG : RandSource G}
    (P : Params) (g g' : G) (c c' : MCore F) (lines_in_page : Z) :
  mcore_read_trace P g c = Ret (g', c') → 0 < lines_in_page →
  0 <= c'.(trace_inst_num) < 2 ^ 40 ∧ 0 <= c'.(trace_wb) < 2 ^ 8 ∧ 0 <= c'.(trace_va) < 2 ^ 32 ∧
  Z.shiftr (c'.(trace_va) / lines_in_page) 36 = 0.
Proof.
  intros Hr Hl.
  assert (0 <= c'.(trace_inst_num) < 1099511627776 ∧ 0 <= c'.(trace_wb) < 256 ∧
    0 <= c'.(trace_va) < 4294967296) as (H1 & H2 & H3).
  { unfold mcore_read_trace in Hr. pose proof (fread_bounds c) as Hb. cbn in Hb.
    set (c1 := mcore_fread_trace c) in *. destruct (_ || _); [|by injection Hr as _ <-].
    apply bind_Ret in Hr as ([g1 f] & _ & Hr). injection Hr as _ <-. rsimp.
    apply fread_bounds. }
  split; [done|]. split; [done|]. split; [done|].
  rewrite Z.shiftr_div_pow2 by lia. apply Z.div_small.
  split; [apply Z.div_pos; lia|]. apply Z.div_lt_upper_bound; [lia|].
  change (2 ^ 36) with 68719476736. nia.
Qed.

Lemma mcore_trace_fields_witness :
  ∃ c', mcore_read_trace default_params (1:Z) demo_core = Ret (1, c') ∧ trace_inst_num c' = 9 ∧
    Z.shiftr (trace_va c' / 64) 36 = 0.
Proof.
  eexists. split; [vm_compute; reflexivity|]. split; [vm_compute; reflexivity|].
  refine (proj2 (proj2 (proj2 (mcore_trace_fields default_params (1:Z) 1 demo_core _ 64 _ _)))).
  - vm_compute. reflexivity.
  - reflexivity.
Defined.
