(* ===== verification/MemSys.v ===== *)
(** * The built-in memory system (src/memsys.h, src/memsys.cpp)

    The miss-status table maps the line of every outstanding read to the core and the
    reorder-buffer entry that wait for it. [memsys_callback], which the DRAM channels
    call when a read leaves the bus, wakes that entry. *)
From S2P Require Import Prelude Params DramBank DramChannel Dram Os MCache MCore.

Record MSHR_Entry := mkMshr { coreid : Z; robid : Z; m_inst_num : Z }.

Record MemSys := mkMemSys {
  mainmem : DRAM;
  lines_in_mainmem_rbuf : Z;
  mshr : gmap Z MSHR_Entry
}.

(** [dram_new] may change the global parameters. *)
Definition memsys_new (P : Params) : outcome (MemSys * Params) :=
  r ← dram_new P 0;
  n ← udiv P.(MEM_PAGESIZE) P.(LINESIZE);
  Ret (mkMemSys r.1 n ∅, r.2).

Definition memsys_mshr_insert (t : gmap Z MSHR_Entry) (lineaddr coreid robid inst_num : Z) :
    outcome (gmap Z MSHR_Entry) :=
  _ ← assert_ (bool_decide (t !! lineaddr = None));
  Ret (<[lineaddr := mkMshr coreid robid inst_num]> t).

(** The result of the writeback's insertion is dropped. *)
Definition memsys_access_ (P : Params) (cycle : Z) (m : MemSys)
    (lineaddr coreid robid inst_num wb_lineaddr : Z) : outcome (MemSys * bool) :=
  r ← dram_insert P cycle m.(mainmem) lineaddr false;
  let (d, retval) := r : DRAM * bool in
  t ← (if retval then memsys_mshr_insert m.(mshr) lineaddr coreid robid inst_num
       else Ret m.(mshr));
  d ← (if negb (wb_lineaddr =? 0) then
         w ← dram_insert P cycle d wb_lineaddr true; Ret w.1
       else Ret d);
  Ret (m <| mainmem := d |> <| mshr := t |>, retval).
Definition memsys_mem (P : Params) (cycle : Z) : MemAccess MemSys := memsys_access_ P cycle.

Section Callback.
Context {F : Type}.

(** the table and the cores, which the callback changes *)
Definition World : Type := gmap Z MSHR_Entry * list (MCore F).

Definition memsys_callback (w : World) (lineaddr : Z) : outcome World :=
  let (t, cores) := w in
  match t !! lineaddr with
  | None => Fault AssertFail
  | Some entry =>
      c ← aget cores entry.(coreid);
      c ← mcore_rob_wakeup c entry.(robid) entry.(m_inst_num);
      cores ← aset cores entry.(coreid) c;
      Ret (delete lineaddr t, cores)
  end.

Definition memsys_cycle {G} `{RandSource G} (P : Params) (cycle : Z) (g : G) (m : MemSys)
    (cores : list (MCore F)) : outcome (G * MemSys * list (MCore F)) :=
  r ← dram_cycle memsys_callback P cycle g (m.(mshr), cores) m.(mainmem);
  let '(g, (t, cores), d) := r in
  Ret (g, m <| mainmem := d |> <| mshr := t |>, cores).
End Callback.
Arguments World F : clear implicits.

(** ** Invariant *)

(** the reorder-buffer entry a table entry points at holds the same instruction *)
Definition rob_ref {F} (cores : list (MCore F)) (e : MSHR_Entry) : Prop :=
  ∃ c re, aget cores e.(coreid) = Ret c ∧ aget c.(rob).(rob_entries) e.(robid) = Ret re ∧
    re.(r_inst_num) = e.(m_inst_num).
(** ... and is ready at the core's current cycle *)
Definition rob_woken {F} (cores : list (MCore F)) (e : MSHR_Entry) : Prop :=
  ∃ c re, aget cores e.(coreid) = Ret c ∧ aget c.(rob).(rob_entries) e.(robid) = Ret re ∧
    re.(r_inst_num) = e.(m_inst_num) ∧ re.(ready_time) = c.(c_cycle).

Definition keys (t : gmap Z MSHR_Entry) : list Z := (map_to_list t).*1.

Lemma elem_of_keys t a : a ∈ keys t ↔ ∃ e, t !! a = Some e.
Proof.
  unfold keys. rewrite list_elem_of_fmap. split.
  - intros ([k e] & -> & He%elem_of_map_to_list). by exists e.
  - intros [e He]. exists (a, e). split; [done|]. by apply elem_of_map_to_list.
Qed.

Record memsys_ok {F} (P : Params) (C B R L t : Z) (m : MemSys) (cores : list (MCore F)) : Prop := {
  mo_dram : dram_ok P C B R L t m.(mainmem);
  (** the table has an entry for each read in flight, and no other *)
  mo_reads : dram_reads m.(mainmem) ≡ₚ keys m.(mshr);
  mo_refs : ∀ a e, m.(mshr) !! a = Some e → rob_ref cores e
}.

(** ** The callback against the table *)
Section Pending.
Context {F : Type} (t0 : gmap Z MSHR_Entry).

(** [l] are the reads waited for; those of [t0] that are gone have been woken *)
Record pending (w : World F) (l : list Z) : Prop := {
  pe_reads : l ≡ₚ keys w.1;
  pe_refs : ∀ a e, w.1 !! a = Some e → rob_ref w.2 e;
  pe_sub : w.1 ⊆ t0;
  pe_woken : ∀ a e, t0 !! a = Some e → w.1 !! a = None → rob_woken w.2 e
}.

Lemma pending_perm w l l' : l ≡ₚ l' → pending w l → pending w l'.
Proof. intros Hl []. split; try done. by rewrite <- Hl. Qed.

(** waking one entry keeps every reference, and every entry woken before *)
Lemma wakeup_refs (cores : list (MCore F)) i c (c' : MCore F) j re :
  aget cores i = Ret c → aget c.(rob).(rob_entries) j = Ret re →
  c'.(rob) = mkRob (<[Z.to_nat j := re <| ready_time := c.(c_cycle) |>]> c.(rob).(rob_entries))
    c.(rob).(ptr) c.(rob).(size) → c'.(c_cycle) = c.(c_cycle) →
  (∀ e, rob_ref cores e → rob_ref (<[Z.to_nat i := c']> cores) e) ∧
  (∀ e, rob_woken cores e → rob_woken (<[Z.to_nat i := c']> cores) e) ∧
  rob_woken (<[Z.to_nat i := c']> cores) (mkMshr i j re.(r_inst_num)).
Proof.
  intros Hc Hre Hrob Hcyc. pose proof (aget_bound _ _ _ Hc) as Hi.
  pose proof (aget_bound _ _ _ Hre) as Hj.
  assert (∀ k x, aget c.(rob).(rob_entries) k = Ret x → ∃ x',
    aget c'.(rob).(rob_entries) k = Ret x' ∧ r_inst_num x' = r_inst_num x ∧
    (x'.(ready_time) = x.(ready_time) ∨ x'.(ready_time) = c.(c_cycle))) as Hent.
  { intros k x Hx. rewrite Hrob. cbn [rob_entries]. rewrite aget_insert by done.
    destruct (Z.eqb_spec k j) as [->|]; [|by exists x; auto].
    assert (x = re) as -> by congruence.
    exists (re <| ready_time := c_cycle c |>). split; [done|]. split; [done|by right]. }
  split_and!.
  - intros e (ce & ree & H1 & H2 & H3). unfold rob_ref. rewrite aget_insert by done.
    destruct (Z.eqb_spec (coreid e) i) as [Heq|]; [|by exists ce, ree].
    rewrite Heq in H1. assert (ce = c) as -> by congruence.
    destruct (Hent _ _ H2) as (x' & Hx & Hin & _). exists c', x'. split_and!; [done|done|congruence].
  - intros e (ce & ree & H1 & H2 & H3 & H4). unfold rob_woken. rewrite aget_insert by done.
    destruct (Z.eqb_spec (coreid e) i) as [Heq|]; [|by exists ce, ree].
    rewrite Heq in H1. assert (ce = c) as -> by congruence.
    destruct (Hent _ _ H2) as (x' & Hx & Hin & [Hr|Hr]); exists c', x'; split_and!; done || congruence.
  - unfold rob_woken. cbn [coreid robid m_inst_num]. rewrite aget_insert, Z.eqb_refl by done.
    exists c', (re <| ready_time := c_cycle c |>). rewrite Hrob. cbn [rob_entries].
    rewrite aget_insert, Z.eqb_refl by done. by split_and!.
Qed.

Lemma callback_ok w a l :
  pending w (a :: l) → returns (memsys_callback w a) (λ w', pending w' l).
Proof.
  destruct w as [t cores]. intros [Hreads Hrefs Hsub Hwoken]. cbn [fst snd] in *.
  assert (a ∈ keys t) as [e He]%elem_of_keys by (rewrite <- Hreads; left).
  unfold memsys_callback. rewrite He. destruct (Hrefs a e He) as (c & re & Hc & Hre & Hinst).
  rewrite Hc. cbn [mbind outcome_bind].
  destruct (rob_wakeup_spec c e.(robid) e.(m_inst_num) re Hre Hinst) as (c' & Hw & Hrob).
  assert (c_cycle c' = c_cycle c) as Hcyc.
  { unfold mcore_rob_wakeup in Hw. rewrite Hre in Hw. cbn [mbind outcome_bind] in Hw.
    rewrite (proj2 (Z.eqb_eq _ _) Hinst) in Hw. apply bind_Ret in Hw as (es & _ & Hw).
    by injection Hw as <-. }
  rewrite Hw. cbn [mbind outcome_bind]. rewrite aset_ok by by eapply aget_bound.
  apply returns_ret.
  destruct (wakeup_refs cores e.(coreid) c c' e.(robid) re Hc Hre Hrob Hcyc) as (H1 & H2 & H3).
  rewrite Hinst in H3. destruct e as [ci ri mi]. cbn [coreid robid m_inst_num] in *.
  split; cbn [fst snd].
  - apply (Permutation_cons_inv (a := a)). rewrite Hreads. unfold keys.
    by rewrite <- (map_to_list_delete t a _ He).
  - intros b eb Hb%lookup_delete_Some. apply H1, (Hrefs b). apply Hb.
  - etrans; [apply delete_subseteq|done].
  - intros b eb Hb Hdel. apply lookup_delete_None in Hdel as [<-|Hnone].
    + assert (t0 !! a = Some (mkMshr ci ri mi)) by by eapply lookup_weaken. simplify_eq. done.
    + apply H2. by eapply Hwoken.
Qed.
End Pending.

(** ** The operations *)

Lemma keys_insert t a e : t !! a = None → keys (<[a := e]> t) ≡ₚ a :: keys t.
Proof. intros Ha. unfold keys. by rewrite map_to_list_insert. Qed.

Lemma memsys_new_spec {F} P C B R L :
  params_ok P → geometry P C B R L → refsb_ok P B →
  returns (memsys_new P) (λ r, memsys_ok (F := F) r.2 C B R L 0 r.1 [] ∧ params_ok r.2 ∧ r.1.(mshr) = ∅).
Proof.
  intros HP Hg Hs. unfold memsys_new.
  eapply returns_bind; [by apply (dram_new_spec P C B R L 0)|]. intros [d P'] (H1 & H2 & H3).
  rewrite udiv_ok by (destruct Hg; lia). apply returns_ret. cbn [fst snd] in *.
  split; [|done]. split; cbn [mainmem mshr]; [done|by rewrite H2|]. done.
Qed.

Lemma memsys_access_spec {F} P C B R L t m (cores : list (MCore F)) a ci ri ii wb :
  memsys_ok P C B R L t m cores → 0 <= a < R * B * C * L → 0 <= wb < R * B * C * L →
  m.(mshr) !! a = None → rob_ref cores (mkMshr ci ri ii) →
  ∃ m' ok, memsys_access_ P t m a ci ri ii wb = Ret (m', ok) ∧
    memsys_ok P C B R L t m' cores ∧
    m'.(mshr) = if ok : bool then <[a := mkMshr ci ri ii]> m.(mshr) else m.(mshr).
Proof.
  intros [Hd Hr Href] Ha Hwb Hnone Hrob. unfold memsys_access_.
  destruct (dram_insert_spec P C B R L t m.(mainmem) a false Hd Ha) as (d1 & ok & -> & Hd1 & _ & Hr1 & _).
  cbn [mbind outcome_bind].
  set (t1 := if ok then <[a := mkMshr ci ri ii]> m.(mshr) else m.(mshr)).
  assert ((if ok then memsys_mshr_insert m.(mshr) a ci ri ii else Ret m.(mshr)) = Ret t1) as ->.
  { unfold memsys_mshr_insert, t1. destruct ok; [|done]. by rewrite bool_decide_eq_true_2. }
  cbn [mbind outcome_bind].
  assert (dram_reads d1 ≡ₚ keys t1) as Hr1'.
  { rewrite Hr1, Hr. unfold t1. destruct ok; cbn [andb negb app]; [|done]. by rewrite keys_insert. }
  assert (∀ b e, t1 !! b = Some e → rob_ref cores e) as Href1.
  { unfold t1. destruct ok; [|exact Href]. intros b e [[-> <-]|[_ Hb]]%lookup_insert_Some; [done|by eapply Href]. }
  destruct (Z.eqb_spec wb 0) as [|Hnz]; cbn [negb mbind outcome_bind].
  - do 2 eexists. split; [done|]. split; [|done]. by split.
  - destruct (dram_insert_spec P C B R L t d1 wb true Hd1 Hwb) as (d2 & ok2 & -> & Hd2 & _ & Hr2 & _).
    cbn [mbind outcome_bind fst]. do 2 eexists. split; [done|]. split; [|done].
    rewrite andb_false_r in Hr2. split; [done| |exact Href1]. rsimp. by rewrite Hr2.
Qed.

Lemma memsys_cycle_spec {F G} `{RandSource G} P C B R L t (g : G) m (cores : list (MCore F)) :
  params_ok P → is_cycle t → memsys_ok P C B R L t m cores →
  returns (memsys_cycle P t g m cores) (λ r, let '(g', m', cores') := r in
    memsys_ok P C B R L (t + 1) m' cores' ∧ m'.(mshr) ⊆ m.(mshr) ∧
    ∀ a e, m.(mshr) !! a = Some e → m'.(mshr) !! a = None → rob_woken cores' e).
Proof.
  intros HP Ht [Hd Hr Href]. unfold memsys_cycle.
  eapply returns_bind.
  { apply (dram_cycle_spec memsys_callback (pending m.(mshr)) (pending_perm _) (callback_ok _)
      P C B R L t g (m.(mshr), cores) m.(mainmem) []); [done|done|done|].
    rewrite app_nil_r. split; cbn [fst snd]; try done. intros a e H1 H2. congruence. }
  intros [[g' [t' cores']] d'] [Hd' [H1 H2 H3 H4]]. cbn [fst snd] in *. rewrite app_nil_r in H1.
  apply returns_ret. split; [|done]. by split.
Qed.

(** ** Properties *)

(** C12. Accepting a request. In a consistent memory system, a read that is not
    outstanding, for a reorder-buffer entry that holds its instruction, never fails; it
    is either entered in the table, and then its line is in flight in the DRAM,
    or refused with the table unchanged. *)
Theorem memsys_access_consistent {F : Type} (P : Params) (C B R L t : Z) (m : MemSys)
    (cores : list (MCore F)) (a ci ri ii wb : Z) :
  memsys_ok P C B R L t m cores → 0 <= a < R * B * C * L → 0 <= wb < R * B * C * L →
  m.(mshr) !! a = None → rob_ref cores (mkMshr ci ri ii) →
  ∃ m' ok, memsys_access_ P t m a ci ri ii wb = Ret (m', ok) ∧
    memsys_ok P C B R L t m' cores ∧
    m'.(mshr) = if ok : bool then <[a := mkMshr ci ri ii]> m.(mshr) else m.(mshr).
Proof. apply memsys_access_spec. Qed.

(** C5. A memory cycle delivers reads exactly once. In a consistent memory system a
    cycle returns (no callback finds its line missing, no wake-up meets another
    instruction, no assertion fails); the table then still lists exactly the reads in
    flight, and every read that left it has made the waiting entry ready at its
    core's current cycle. *)
Theorem memsys_cycle_delivers {F G : Type} `{RandSource G} (P : Params) (C B R L t : Z) (g : G)
    (m : MemSys) (cores : list (MCore F)) :
  params_ok P → is_cycle t → memsys_ok P C B R L t m cores →
  ∃ g' m' cores', memsys_cycle P t g m cores = Ret (g', m', cores') ∧
    memsys_ok P C B R L (t + 1) m' cores' ∧ m'.(mshr) ⊆ m.(mshr) ∧
    ∀ a e, m.(mshr) !! a = Some e → m'.(mshr) !! a = None → rob_woken cores' e.
Proof.
  intros HP Ht Hok. destruct (memsys_cycle_spec P C B R L t g m cores HP Ht Hok)
    as ([[g' m'] cores'] & Hr & Hp). by exists g', m', cores'.
Qed.

(** the default memory and one core; entry 0 of its buffer waits for line 77 *)
Lemma demo_memsys :
  ∃ m P', memsys_new default_params = Ret (m, P') ∧ params_ok P' ∧
    memsys_ok P' 2 32 65536 128 0 m [demo_core] ∧ m.(mshr) = ∅.
Proof.
  destruct (memsys_new_spec (F := list Z) default_params 2 32 65536 128 default_params_ok
    default_geometry default_refsb_ok) as ([m P'] & Hn & [H1 H2 H3] & HP & Hm).
  exists m, P'. split; [exact Hn|]. split; [exact HP|]. split; [|exact Hm].
  split; [exact H1|exact H2|]. cbn [fst] in *. rewrite Hm. intros a e He. by rewrite lookup_empty in He.
Qed.
Lemma demo_rob_ref : rob_ref [demo_core] (mkMshr 0 0 0).
Proof. exists demo_core, rob_entry0. split_and!; vm_compute; reflexivity. Qed.

Lemma memsys_access_consistent_witness :
  ∃ m P', memsys_new default_params = Ret (m, P') ∧
    ∃ m' ok, memsys_access_ P' 0 m 77 0 0 0 0 = Ret (m', ok) ∧
      memsys_ok P' 2 32 65536 128 0 m' [demo_core].
Proof.
  destruct demo_memsys as (m & P' & Hn & _ & Hok & Hm). exists m, P'. split; [exact Hn|].
  destruct (memsys_access_consistent P' 2 32 65536 128 0 m [demo_core] 77 0 0 0 0 Hok)
    as (m' & ok & Ha & Hok' & _).
  - lia.
  - lia.
  - rewrite Hm. apply lookup_empty.
  - exact demo_rob_ref.
  - exists m', ok. split; [exact Ha|exact Hok'].
Defined.

Lemma memsys_cycle_delivers_witness :
  ∃ m P', memsys_new default_params = Ret (m, P') ∧
    ∃ g' m' cores', memsys_cycle P' 0 (1:Z) m [demo_core] = Ret (g', m', cores') ∧
      memsys_ok P' 2 32 65536 128 1 m' cores'.
Proof.
  destruct demo_memsys as (m & P' & Hn & HP & Hok & Hm). exists m, P'. split; [exact Hn|].
  destruct (memsys_cycle_delivers P' 2 32 65536 128 0 (1:Z) m [demo_core] HP)
    as (g' & m' & cores' & Hc & Hok' & _).
  - split; [discriminate|reflexivity].
  - exact Hok.
  - exists g', m', cores'. split; [exact Hc|exact Hok'].
Defined.
