(* ===== verification/MemSysDramsim3.v ===== *)
(** * The DRAMsim3 memory system (src/memsys_dramsim3.h, src/memsys_dramsim3.cpp)

    The same interface as [MemSys], over DRAMsim3's [MemorySystem], which works with byte
    addresses: requests are scaled by the line size and the addresses handed to
    the callback are scaled back. *)
From S2P Require Import Prelude Params MCache MCore MemSys.

(** ** DRAMsim3 as its header (dramsim3.h) declares it

    [ClockTick] is given the two callbacks that were bound at construction. *)
Class MemorySystem (D : Type) := {
  WillAcceptTransaction : D → Z → bool → outcome bool;
  AddTransaction : D → Z → bool → outcome (D * bool);
  ClockTick : ∀ {W : Type}, (W → Z → outcome W) → (W → Z → outcome W) → D → W → outcome (D * W)
}.

(** What the wrapper relies on: [inflight d] are the byte addresses of the reads the
    simulator holds and [sound d] its invariant. A transaction of a 64-bit address is accepted or
    refused; an accepted one is added. When the simulator is [ready] for a cycle, the
    tick hands the reads it completes to the read callback, once each, and nothing else leaves. *)
Class MemorySystemLaws (D : Type) `{MemorySystem D} := {
  inflight : D → list Z;
  sound : D → Prop;
  ready : D → Prop;
  WillAccept_answers : ∀ d a w, sound d → is_u64 a → ∃ b, WillAcceptTransaction d a w = Ret b;
  AddTransaction_read : ∀ d a, sound d → is_u64 a → WillAcceptTransaction d a false = Ret true →
    ∃ d' b, AddTransaction d a false = Ret (d', b) ∧ sound d' ∧ inflight d' ≡ₚ a :: inflight d;
  AddTransaction_write : ∀ d a, sound d → is_u64 a → WillAcceptTransaction d a true = Ret true →
    ∃ d' b, AddTransaction d a true = Ret (d', b) ∧ sound d' ∧ inflight d' ≡ₚ inflight d;
  ClockTick_callbacks : ∀ (W : Type) (rd wr : W → Z → outcome W) (pend : W → list Z → Prop) d w,
    sound d → ready d →
    (∀ w l l', l ≡ₚ l' → pend w l → pend w l') →
    (∀ w a l, pend w (a :: l) → returns (rd w a) (λ w', pend w' l)) →
    (∀ w a l, pend w l → returns (wr w a) (λ w', pend w' l)) →
    pend w (inflight d) →
    returns (ClockTick rd wr d w) (λ r, sound r.1 ∧ pend r.2 (inflight r.1))
}.

Record MemSys3 (D : Type) := mkMemSys3 {
  mainmem3 : D;
  lines_in_mainmem_rbuf3 : Z;
  mshr3 : gmap Z MSHR_Entry
}.
Arguments mkMemSys3 {D}.
Arguments mainmem3 {D}.
Arguments lines_in_mainmem_rbuf3 {D}.
Arguments mshr3 {D}.

Section Ops.
Context {D : Type} `{HD : MemorySystem D} {F : Type}.

Definition memsys3_new (P : Params) (mem : D) : outcome (MemSys3 D) :=
  n ← udiv P.(MEM_PAGESIZE) P.(LINESIZE);
  Ret (mkMemSys3 mem n ∅).

Definition memsys3_access (P : Params) (m : MemSys3 D)
    (lineaddr coreid robid inst_num wb_lineaddr : Z) : outcome (MemSys3 D * bool) :=
  let byteaddress := u64 (lineaddr * P.(LINESIZE)) in
  will ← WillAcceptTransaction m.(mainmem3) byteaddress false;
  r ← (if will : bool then
         a ← AddTransaction m.(mainmem3) byteaddress false;
         t ← memsys_mshr_insert m.(mshr3) lineaddr coreid robid inst_num;
         Ret (m <| mainmem3 := a.1 |> <| mshr3 := t |>, true)
       else Ret (m, false));
  let (m, retval) := r : MemSys3 D * bool in
  m ← (if negb (wb_lineaddr =? 0) then
         let wb_byteaddress := u64 (wb_lineaddr * P.(LINESIZE)) in
         will ← WillAcceptTransaction m.(mainmem3) wb_byteaddress true;
         if will : bool then
           a ← AddTransaction m.(mainmem3) wb_byteaddress true;
           Ret (m <| mainmem3 := a.1 |>)
         else Ret m
       else Ret m);
  Ret (m, retval).
Definition memsys3_mem (P : Params) : MemAccess (MemSys3 D) := memsys3_access P.

Definition memsys3_callback (P : Params) (w : World F) (byteaddress : Z) : outcome (World F) :=
  lineaddr ← udiv byteaddress P.(LINESIZE);
  memsys_callback w lineaddr.
Definition memsys3_callback_write (w : World F) (byteaddress : Z) : outcome (World F) := Ret w.

Definition memsys3_cycle (P : Params) (m : MemSys3 D) (cores : list (MCore F)) :
    outcome (MemSys3 D * list (MCore F)) :=
  r ← ClockTick (memsys3_callback P) memsys3_callback_write m.(mainmem3) (m.(mshr3), cores);
  let '(d, (t, cores)) := r : D * World F in
  Ret (m <| mainmem3 := d |> <| mshr3 := t |>, cores).
End Ops.

(** ** Invariant *)
Record memsys3_ok {D F} `{MemorySystemLaws D} (P : Params) (m : MemSys3 D)
    (cores : list (MCore F)) : Prop := {
  m3_line : 0 < P.(LINESIZE);
  m3_sound : sound m.(mainmem3);
  m3_reads : inflight m.(mainmem3) ≡ₚ (λ a, a * P.(LINESIZE)) <$> keys m.(mshr3);
  m3_refs : ∀ a e, m.(mshr3) !! a = Some e → rob_ref cores e
}.

(** the callback's view of the table, in byte addresses *)
Definition pending3 {F} (P : Params) (t0 : gmap Z MSHR_Entry) (w : World F) (l : list Z) : Prop :=
  ∃ ls, l ≡ₚ (λ a, a * P.(LINESIZE)) <$> ls ∧ pending t0 w ls.

Lemma pending3_perm {F} P t0 (w : World F) l l' : l ≡ₚ l' → pending3 P t0 w l → pending3 P t0 w l'.
Proof. intros Hl (ls & H1 & H2). exists ls. split; [by rewrite <- Hl|done]. Qed.

Lemma callback3_ok {F} P t0 (w : World F) a l :
  0 < P.(LINESIZE) → pending3 P t0 w (a :: l) →
  returns (memsys3_callback P w a) (λ w', pending3 P t0 w' l).
Proof.
  intros HL (ls & H1 & H2). unfold memsys3_callback. rewrite udiv_ok by lia.
  cbn [mbind outcome_bind].
  assert (a ∈ (λ x, x * LINESIZE P) <$> ls) as (b & -> & Hb)%list_elem_of_fmap by (rewrite <- H1; left).
  rewrite Z.div_mul by lia. apply list_elem_of_lookup_1 in Hb as [i Hb].
  pose proof (take_drop_middle ls i b Hb) as Hsplit.
  eapply returns_mono; [apply (callback_ok t0 w b (take i ls ++ drop (S i) ls))|].
  - eapply pending_perm; [|exact H2]. rewrite <- Hsplit at 1. by rewrite Permutation_middle.
  - intros w' Hw'. eexists. split; [|exact Hw'].
    apply (Permutation_cons_inv (a := b * LINESIZE P)). rewrite H1, <- Hsplit at 1.
    rewrite !fmap_app, fmap_cons. by rewrite Permutation_middle.
Qed.

Section Contract.
Context {D F : Type} `{HD : MemorySystem D} `{HL : !MemorySystemLaws D} (P : Params).
Implicit Types (m : MemSys3 D) (cores : list (MCore F)).

Lemma memsys3_access_ok m cores a ci ri ii wb : memsys3_ok P m cores → 0 <= a → a * P.(LINESIZE) < 18446744073709551616 →
  m.(mshr3) !! a = None → rob_ref cores (mkMshr ci ri ii) →
  ∃ m' ok, memsys3_access P m a ci ri ii wb = Ret (m', ok) ∧ memsys3_ok P m' cores ∧
    m'.(mshr3) = if ok : bool then <[a := mkMshr ci ri ii]> m.(mshr3) else m.(mshr3).
Proof.
  intros [Hline Hsound Hreads Hrefs].
  intros Ha Hfit Hnone Hrob. unfold memsys3_access.
  rewrite (u64_id (a * _)) by (unfold is_u64; lia).
  assert (is_u64 (a * LINESIZE P)) as Hu by (unfold is_u64; lia).
  destruct (WillAccept_answers (mainmem3 m) (a * LINESIZE P) false Hsound Hu) as [acc Eacc]. rewrite Eacc.
  cbn [mbind outcome_bind].
  assert (∃ m1, (if acc then
         a0 ← AddTransaction m.(mainmem3) (a * LINESIZE P) false;
         t ← memsys_mshr_insert m.(mshr3) a ci ri ii;
         Ret (m <| mainmem3 := a0.1 |> <| mshr3 := t |>, true)
       else Ret (m, false)) = Ret (m1, acc) ∧ memsys3_ok P m1 cores ∧
       m1.(mshr3) = if acc then <[a := mkMshr ci ri ii]> m.(mshr3) else m.(mshr3)) as (m1 & -> & Hok1 & Ht1).
  { destruct acc; [|by exists m].
    destruct (AddTransaction_read _ _ Hsound Hu Eacc) as (d' & b & -> & Hs' & Hin). cbn [mbind outcome_bind fst].
    unfold memsys_mshr_insert. rewrite bool_decide_eq_true_2 by done. cbn [mbind outcome_bind assert_].
    eexists. split; [done|]. split; [|done]. split; rsimp; [done|done| |].
    - by rewrite Hin, Hreads, keys_insert.
    - intros b' e [[-> <-]|[_ Hb]]%lookup_insert_Some; [done|by eapply Hrefs]. }
  cbn [mbind outcome_bind]. destruct (negb _); [|by exists m1, acc].
  destruct (WillAccept_answers (mainmem3 m1) (u64 (wb * LINESIZE P)) true (m3_sound _ _ _ Hok1) (u64_is _))
    as [[] Hw]; rewrite Hw; cbn [mbind outcome_bind]; [|by exists m1, acc].
  destruct (AddTransaction_write _ _ (m3_sound _ _ _ Hok1) (u64_is _) Hw) as (d' & b & -> & Hs' & Hin). cbn [mbind outcome_bind fst].
  do 2 eexists. split; [done|]. split; [|done]. destruct Hok1. split; rsimp; try done.
  by rewrite Hin.
Qed.

Lemma memsys3_cycle_ok m cores : memsys3_ok P m cores → ready m.(mainmem3) →
  ∃ m' cores', memsys3_cycle P m cores = Ret (m', cores') ∧ memsys3_ok P m' cores' ∧ m'.(mshr3) ⊆ m.(mshr3) ∧
    ∀ a e, m.(mshr3) !! a = Some e → m'.(mshr3) !! a = None → rob_woken cores' e.
Proof.
  intros [Hline Hsound Hreads Hrefs].
  intros Hready. unfold memsys3_cycle.
  destruct (ClockTick_callbacks (World F) (memsys3_callback P) memsys3_callback_write
    (pending3 P m.(mshr3)) m.(mainmem3) (m.(mshr3), cores)) as ([d' [t' cores']] & -> & Hs' & ls & Hl & Hp).
  + done.
  + done.
  + intros w l l'. apply pending3_perm.
  + intros w a l. by apply callback3_ok.
  + intros w a l Hp. by apply returns_ret.
  + exists (keys m.(mshr3)). split; [done|]. split; cbn [fst snd]; try done.
    intros b e H1 H2. congruence.
  + cbn [mbind outcome_bind fst snd] in *. destruct Hp as [H1 H2 H3 H4]. cbn [fst snd] in *.
    do 2 eexists. split; [done|]. split; [|done].
    split; rsimp; [done|done| |done]. by rewrite Hl, H1.
Qed.
End Contract.

(** C22. The DRAMsim3 wrapper keeps the same contract as the built-in memory: a request is
    accepted and entered in the table exactly when DRAMsim3 takes it, the address
    scaled by the line size names the same line when it comes back, and a
    cycle for which DRAMsim3 is ready wakes the entry of every read that leaves the table. *)
Theorem memsys3_contract {D F : Type} `{HD : MemorySystem D} `{HL : !MemorySystemLaws D}
    (P : Params) (m : MemSys3 D) (cores : list (MCore F)) :
  memsys3_ok P m cores →
  (∀ a ci ri ii wb, 0 <= a → a * P.(LINESIZE) < 18446744073709551616 →
     m.(mshr3) !! a = None → rob_ref cores (mkMshr ci ri ii) →
     ∃ m' ok, memsys3_access P m a ci ri ii wb = Ret (m', ok) ∧ memsys3_ok P m' cores ∧
       m'.(mshr3) = if ok : bool then <[a := mkMshr ci ri ii]> m.(mshr3) else m.(mshr3)) ∧
  (ready m.(mainmem3) → ∃ m' cores', memsys3_cycle P m cores = Ret (m', cores') ∧ memsys3_ok P m' cores' ∧
     m'.(mshr3) ⊆ m.(mshr3) ∧
     ∀ a e, m.(mshr3) !! a = Some e → m'.(mshr3) !! a = None → rob_woken cores' e).
Proof.
  intros Hok. split.
  - intros a ci ri ii wb. by apply memsys3_access_ok.
  - by apply memsys3_cycle_ok.
Qed.

(** ** A concrete instance: every request accepted, the oldest completed each tick *)
#[export] Instance list_memory : MemorySystem (list Z) := {|
  WillAcceptTransaction _ _ _ := Ret true;
  AddTransaction d a w := Ret (if w : bool then d else d ++ [a], true);
  ClockTick W rd wr d w :=
    match d with [] => Ret ([], w) | a :: d => w ← rd w a; Ret (d, w) end
|}.
#[export] Instance list_memory_laws : MemorySystemLaws (list Z).
Proof.
  refine {| inflight := λ d : list Z, d; sound := λ _, True; ready := λ _, True |}.
  - intros d a w _ _. by exists true.
  - intros d a _ _ _. exists (d ++ [a]), true. split; [done|]. split; [done|]. by rewrite Permutation_app_comm.
  - intros d a _ _ _. by exists d, true.
  - intros W rd wr pend d w _ _ Hperm Hrd Hwr Hp. cbn. destruct d as [|a d]; [by apply returns_ret|].
    eapply returns_bind; [by apply Hrd|]. intros w' Hw'. by apply returns_ret.
Defined.

Lemma memsys3_contract_witness :
  ∃ m', memsys3_access default_params (mkMemSys3 (D := list Z) [] 128 ∅) 77 0 0 0 0 = Ret (m', true) ∧
    memsys3_ok default_params m' [demo_core].
Proof.
  assert (memsys3_ok default_params (mkMemSys3 (D := list Z) [] 128 ∅) [demo_core]) as Hok.
  { split; [reflexivity|done|reflexivity|]. intros a e He. cbn in He. by rewrite lookup_empty in He. }
  destruct (memsys3_contract default_params (mkMemSys3 (D := list Z) [] 128 ∅) [demo_core] Hok) as [Ha _].
  destruct (Ha 77 0 0 0 0) as (m' & ok & H1 & H2 & _).
  - discriminate.
  - reflexivity.
  - apply lookup_empty.
  - exact demo_rob_ref.
  - assert (ok = true) as -> by (vm_compute in H1; congruence).
    exists m'. split; [exact H1|exact H2].
Defined.
