(* ===== verification/Sim.v ===== *)
(** * The simulator's main loop (src/sim.cpp)

    Set-up from the parameters, then the loop that cycles every core in rotating order
    and the memory system, until all cores are done. The loop is written over any memory
    system ([access], [mem_cycle]); [builtin_sim] and [dramsim3_sim] are the two builds. *)
From S2P Require Import Prelude Params DramBank DramChannel Dram Os MCache MCore MemSys MemSysDramsim3.

Definition DOT_INTERVAL : Z := 1000000.

(** ** State of the loop *)
Record SimState {F M G : Type} := mkSim {
  s_g : G;
  s_os : OS;
  LLC : MCache;
  memsys : M;
  mcore : list (MCore F);
  cycle : Z;
  last_printdot_cycle : Z;
  leap_operation : double
}.
Arguments SimState F M G : clear implicits.

(** [if (cycle & 2047 == 0)]: [==] binds tighter than [&] *)
Definition epoch_due (cycle : Z) : bool := negb (Z.land cycle (if 2047 =? 0 then 1 else 0) =? 0).

(** the index of the [ii]th core to run: [offset = cycle % num_threads] *)
Definition core_index (cycle nthreads ii : Z) : outcome Z :=
  offset ← umod cycle (u64 nthreads);
  umod (u32 (u32 offset + u32 ii)) (u32 nthreads).

Section Loop.
Context {F M G : Type} `{HF : GzFile F} `{HG : RandSource G}.
Context (access : Params → Z → MemAccess M).
Context (mem_cycle : Params → Z → G → M → list (MCore F) → outcome (G * M * list (MCore F))).

(** [mcore_cycle(mcore[index]); all_cores_done &= mcore[index]->done] *)
Definition run_core (P : Params) (nthreads : Z) (s : SimState F M G * bool) (ii : Z) :
    outcome (SimState F M G * bool) :=
  let (s, all_done) := s in
  index ← core_index s.(cycle) nthreads ii;
  c ← aget s.(mcore) index;
  e ← @mcore_cycle F M G HF (access P s.(cycle)) HG P (mkEnv s.(s_g) s.(s_os) s.(LLC) s.(memsys) c);
  cs ← aset s.(mcore) index e.(e_core);
  Ret (s <| s_g := e.(e_g) |> <| s_os := e.(e_os) |> <| LLC := e.(e_l3) |>
         <| memsys := e.(e_mem) |> <| mcore := cs |>, all_done && done e.(e_core)).

(** one turn of [while (!all_cores_done)], the memory cycled when [mem_on] says so *)
Definition sim_step (P : Params) (nthreads : Z) (mem_on : double → bool * double)
    (s : SimState F M G) : outcome (SimState F M G * bool) :=
  let s := if epoch_due s.(cycle) then s <| LLC ::= λ c, c <| wb_in_2k_epoch := 0 |> |> else s in
  r ← for_ (seqZ 0 nthreads) (s, true) (run_core P nthreads);
  let (s, all_done) := r : SimState F M G * bool in
  let (on, leap) := mem_on s.(leap_operation) in
  s ← (if on then
         m ← mem_cycle P s.(cycle) s.(s_g) s.(memsys) s.(mcore);
         let '(g, m, cs) := m in
         Ret (s <| s_g := g |> <| memsys := m |> <| mcore := cs |>)
       else Ret s);
  let s := s <| leap_operation := leap |> in
  let s := if DOT_INTERVAL <=? u64 (s.(cycle) - s.(last_printdot_cycle)) then
             s <| last_printdot_cycle := s.(cycle) |> else s in
  Ret (s <| cycle := u64 (s.(cycle) + 1) |>, all_done).

Fixpoint sim_loop (fuel : nat) (P : Params) (nthreads : Z) (mem_on : double → bool * double)
    (s : SimState F M G) : outcome (SimState F M G) :=
  match fuel with
  | O => Fault Diverge
  | S fuel =>
      r ← sim_step P nthreads mem_on s;
      if r.2 : bool then Ret r.1 else sim_loop fuel P nthreads mem_on r.1
  end.
End Loop.

(** ** Clock ratio

    The built-in memory runs every cycle; DRAMsim3 runs at 2.4 GHz under 4 GHz cores. *)
Definition mem_always (leap : double) : bool * double := (true, leap).
(** [4.0/2.4] and [CLOCK_SCALE = (4.0/2.4) - 1] *)
Definition d2_4 : double := S754_finite false 5404319552844595 (-51).
Definition CLOCK_SCALE : double := Eval vm_compute in dsub (ddiv (double_of_Z 4) d2_4) (double_of_Z 1).
Definition mem_leap (leap : double) : bool * double :=
  if dleb (double_of_Z 1) leap then (false, dsub leap (double_of_Z 1))
  else (true, dadd leap CLOCK_SCALE).

(** ** Set-up ([main]) *)

Definition num_os_pages (P : Params) : outcome Z :=
  d ← udiv P.(OS_PAGESIZE) 1024;
  n ← udiv (u64 (1024 * u64 (P.(MEM_SIZE_MB) - P.(MEM_RSRV_MB)))) d;
  Ret (u32 n).
Definition l3_sets (P : Params) : outcome Z :=
  n ← udiv (u64 (P.(L3_SIZE_KB) * 1024)) (u64 (P.(L3_ASSOC) * P.(LINESIZE)));
  Ret (u32 n).

Section Setup.
Context {F M G : Type} `{HF : GzFile F} `{HG : RandSource G}.

(** [mcore[64]]: one core per thread, built in order *)
Definition new_cores (P : Params) (g : G) (c : Cmdline) : outcome (G * list (MCore F)) :=
  for_ (seqZ 0 c.(Params.num_threads)) (g, []) (λ s ii,
    fname ← aget c.(addr_trace_filename) ii;
    if ii <? MAX_THREADS then
      r ← mcore_new P s.1 fname ii;
      Ret (r.1, s.2 ++ [r.2])
    else Fault OutOfRange).

(** [srand(RAND_SEED)] comes after the cores are built, so [g0] is the unseeded generator. *)
Definition sim_setup (srand : Z → G) (g0 : G) (newmem : Params → outcome (M * Params)) (c : Cmdline) :
    outcome (SimState F M G * Params) :=
  let P := c.(params) in
  pages ← num_os_pages P;
  os ← os_new P.(OS_PAGESIZE) P.(LINESIZE) pages (u32 c.(Params.num_threads));
  l3sets ← l3_sets P;
  m ← newmem P;
  let (m, P) := m : M * Params in
  cs ← new_cores P g0 c;
  Ret (mkSim F M G (srand P.(RAND_SEED)) os (mcache_new l3sets (u32 P.(L3_ASSOC)) (u32 P.(L3_REPL)))
         m cs.2 0 0 (double_of_Z 0), P).
End Setup.

(** the average of the cores' completion cycles, printed at the end *)
Definition avg_done_cycles {F} (cores : list (MCore F)) (nthreads : Z) : outcome Z :=
  udiv (foldl (λ s c, u64 (s + c.(done_cycle_count))) 0 cores) (u64 nthreads).

(** ** The two builds *)
Section Builds.
Context {F G : Type} `{HF : GzFile F} `{HG : RandSource G}.

Definition builtin_sim (fuel : nat) (srand : Z → G) (g0 : G) (c : Cmdline) :
    outcome (SimState F MemSys G) :=
  s ← sim_setup srand g0 memsys_new c;
  sim_loop memsys_mem memsys_cycle fuel s.2 c.(Params.num_threads) mem_always s.1.

Definition dramsim3_sim {D} `{MemorySystem D} (fuel : nat) (srand : Z → G) (g0 : G) (mem : D)
    (c : Cmdline) : outcome (SimState F (MemSys3 D) G) :=
  s ← sim_setup srand g0 (λ P, m ← memsys3_new P mem; Ret (m, P)) c;
  sim_loop (λ P _, memsys3_mem P)
    (λ P _ g m cores, r ← memsys3_cycle P m cores; Ret (g, r.1, r.2))
    fuel s.2 c.(Params.num_threads) mem_leap s.1.
End Builds.

(** ** Properties *)

Lemma core_index_eq t n ii :
  0 <= t < 18446744073709551616 → 0 < n < 2147483648 → 0 <= ii < n →
  core_index t n ii = Ret ((t mod n + ii) mod n).
Proof.
  intros Ht Hn Hii. unfold core_index. rewrite (u64_id n) by (unfold is_u64; lia).
  rewrite umod_ok by lia. cbn [mbind outcome_bind].
  pose proof (Z.mod_pos_bound t n ltac:(lia)).
  rewrite (u32_id (t mod n)), (u32_id ii), (u32_id (_ + _)), (u32_id n) by (unfold is_u32; lia).
  apply umod_ok. lia.
Qed.

(** *** A turn of the loop *)

(** the order of the cores in a turn: from [cycle mod n] to the last, then the others *)
Definition rotation (cycle n : Z) : list Z := seqZ (cycle mod n) (n - cycle mod n) ++ seqZ 0 (cycle mod n).

Lemma seqZ_split a m n : 0 <= m <= n → seqZ a n = seqZ a m ++ seqZ (a + m) (n - m).
Proof. intros Hm. rewrite <- seqZ_app by lia. f_equal. lia. Qed.
Lemma rotation_perm t n : 0 < n → rotation t n ≡ₚ seqZ 0 n.
Proof.
  intros Hn. pose proof (Z.mod_pos_bound t n ltac:(lia)). unfold rotation.
  by rewrite Permutation_app_comm, (seqZ_split 0 (t mod n) n), Z.add_0_l by lia.
Qed.
Lemma rotation_indices t n : 0 <= t < 18446744073709551616 → 0 < n < 2147483648 →
  Forall2 (λ ii index, core_index t n ii = Ret index) (seqZ 0 n) (rotation t n).
Proof.
  intros Ht Hn. pose proof (Z.mod_pos_bound t n ltac:(lia)) as Hm. unfold rotation.
  rewrite (seqZ_split 0 (n - t mod n) n) by lia. replace (n - (n - t mod n)) with (t mod n) by lia.
  assert (Hseq : ∀ a b k, (∀ i, 0 <= i < k → core_index t n (a + i) = Ret (b + i)) →
    Forall2 (λ ii index, core_index t n ii = Ret index) (seqZ a k) (seqZ b k)).
  { intros a b k Hk. apply Forall2_same_length_lookup_2; [by rewrite !length_seqZ|].
    intros j x y [-> Hj]%lookup_seqZ [-> _]%lookup_seqZ. apply Hk. lia. }
  apply Forall2_app; apply Hseq; intros i Hi; rewrite core_index_eq by lia; f_equal.
  - rewrite Z.mod_small by lia. lia.
  - replace (t mod n + (0 + (n - t mod n) + i)) with (i + 1 * n) by lia. rewrite Z.mod_add by lia. apply Z.mod_small. lia.
Qed.

Section Turn.
Context {F M G : Type} `{HF : GzFile F} `{HG : RandSource G}.
Context (access : Params → Z → MemAccess M).
Context (mem_cycle : Params → Z → G → M → list (MCore F) → outcome (G * M * list (MCore F))).
Context (P : Params).
Implicit Types (s : SimState F M G).

(** one cycle of core [index], with what it shares *)
Definition cycle_core s (index : Z) : outcome (SimState F M G) :=
  c ← aget s.(mcore) index;
  e ← @mcore_cycle F M G HF (access P s.(cycle)) HG P (mkEnv s.(s_g) s.(s_os) s.(LLC) s.(memsys) c);
  cs ← aset s.(mcore) index e.(e_core);
  Ret (s <| s_g := e.(e_g) |> <| s_os := e.(e_os) |> <| LLC := e.(e_l3) |>
         <| memsys := e.(e_mem) |> <| mcore := cs |>).
(** the cycle of the memory, and the end of the turn *)
Definition cycle_memory (mem_on : double → bool * double) s : outcome (SimState F M G) :=
  let (on, leap) := mem_on s.(leap_operation) in
  s ← (if on then m ← mem_cycle P s.(cycle) s.(s_g) s.(memsys) s.(mcore);
                  Ret (s <| s_g := m.1.1 |> <| memsys := m.1.2 |> <| mcore := m.2 |>)
       else Ret s);
  Ret (s <| leap_operation := leap |>
         <| last_printdot_cycle := if DOT_INTERVAL <=? u64 (s.(cycle) - s.(last_printdot_cycle))
                                   then s.(cycle) else s.(last_printdot_cycle) |>
         <| cycle := u64 (s.(cycle) + 1) |>).

Lemma run_core_eq n s d ii index : core_index s.(cycle) n ii = Ret index →
  run_core access P n (s, d) ii =
  (s' ← cycle_core s index; c ← aget s'.(mcore) index; Ret (s', d && done c)).
Proof.
  intros Hi. unfold run_core, cycle_core. rewrite Hi. cbn [mbind outcome_bind].
  destruct (aget s.(mcore) index) as [c|]; [|done]. cbn [mbind outcome_bind].
  destruct (mcore_cycle _ _) as [e|]; [|done]. cbn [mbind outcome_bind].
  destruct (aset s.(mcore) index e.(e_core)) as [cs|] eqn:Hcs; [|done]. cbn [mbind outcome_bind]. rsimp.
  by rewrite (aget_aset _ _ _ _ _ Hcs), Z.eqb_refl.
Qed.
Lemma cycle_core_frame s index s' : cycle_core s index = Ret s' →
  s'.(cycle) = s.(cycle) ∧ zlen s'.(mcore) = zlen s.(mcore) ∧
  ∀ i, i ≠ index → aget s'.(mcore) i = aget s.(mcore) i.
Proof.
  intros (c & _ & Hk)%bind_Ret. apply bind_Ret in Hk as (e & _ & Hk). apply bind_Ret in Hk as (cs & Hcs & Hk).
  injection Hk as <-. rsimp. split; [done|]. split; [by rewrite (aset_length _ _ _ _ Hcs)|].
  intros i Hi. by rewrite (aget_aset _ _ _ _ _ Hcs), (proj2 (Z.eqb_neq _ _) Hi).
Qed.

(** the flag of [for] is the conjunction over the cores that have run *)
Lemma run_cores_eq n iis order s d : Forall2 (λ ii index, core_index s.(cycle) n ii = Ret index) iis order →
  NoDup order →
  for_ iis (s, d) (run_core access P n) =
  (s' ← for_ order s cycle_core; cs ← mapM (aget s'.(mcore)) order; Ret (s', d && forallb done cs)).
Proof.
  intros Hi Hnd. revert s d Hi. revert iis. induction Hnd as [|index order Hnin Hnd IH]; intros iis s d Hi.
  { inversion Hi. cbn. by rewrite andb_true_r. }
  inversion Hi as [|ii ? iis' ? Hix Hi']; subst. cbn [for_]. rewrite (run_core_eq _ _ _ _ _ Hix).
  destruct (cycle_core s index) as [s1|] eqn:E1; [|done]. cbn [mbind outcome_bind].
  destruct (cycle_core_frame _ _ _ E1) as (Hcy & Hlen & Hoth).
  destruct (aget s1.(mcore) index) as [c|f] eqn:Ec.
  2: { exfalso. apply bind_Ret in E1 as (c0 & Hc0 & Hk). apply bind_Ret in Hk as (e & _ & Hk).
    apply bind_Ret in Hk as (cs & Hcs & Hk). injection Hk as <-. rsimp. rewrite (aget_aset _ _ _ _ _ Hcs), Z.eqb_refl in Ec. done. }
  cbn [mbind outcome_bind]. rewrite IH by (by rewrite Hcy).
  assert (Hlast : ∀ s2, for_ order s1 cycle_core = Ret s2 → aget s2.(mcore) index = Ret c).
  { clear - Ec Hnin. revert s1 Ec. induction order as [|i order IH]; intros s1 Ec s2; cbn [for_].
    - by intros [= <-].
    - apply not_elem_of_cons in Hnin as [Hne Hnin]. intros (s3 & E3 & Hk)%bind_Ret.
      apply (IH Hnin s3); [|done]. destruct (cycle_core_frame _ _ _ E3) as (_ & _ & Hoth). by rewrite Hoth. }
  destruct (for_ order s1 cycle_core) as [s2|] eqn:E2; [|done]. cbn [mbind outcome_bind mapM].
  rewrite (Hlast s2 eq_refl). cbn [mbind outcome_bind].
  destruct (mapM (aget s2.(mcore)) order) as [cs|]; [|done]. cbn [mbind outcome_bind mret outcome_ret forallb]. by rewrite andb_assoc.
Qed.
Lemma for_cores_length order s s' : for_ order s cycle_core = Ret s' → zlen s'.(mcore) = zlen s.(mcore).
Proof.
  revert s. induction order as [|i order IH]; intros s; cbn [for_]; [by intros [= <-]|].
  intros (s1 & E1 & Hk)%bind_Ret. rewrite (IH _ Hk). by apply (cycle_core_frame _ _ _ E1).
Qed.
End Turn.

Lemma mapM_aget_all {A} (l : list A) order : order ≡ₚ seqZ 0 (zlen l) →
  ∃ cs, mapM (aget l) order = Ret cs ∧ cs ≡ₚ l.
Proof.
  intros Hp. assert (Hin : ∀ i, i ∈ order → 0 <= i < zlen l).
  { intros i Hi. rewrite Hp in Hi. apply elem_of_seqZ in Hi. lia. }
  assert (Hm : ∀ o, (∀ i, i ∈ o → 0 <= i < zlen l) → mapM (aget l) o = Ret (omap (λ i, l !! Z.to_nat i) o)).
  { induction o as [|i o IH]; intros Ho; [done|]. cbn [mapM omap list_omap].
    destruct (aget_ok l i) as [x Hx]; [apply Ho; left|]. rewrite Hx. apply aget_Ret in Hx as [_ ->].
    cbn [mbind outcome_bind]. rewrite IH by (intros; apply Ho; by right). done. }
  eexists. split; [by apply Hm|]. rewrite (omap_Permutation _ _ _ Hp).
  clear. unfold zlen. induction l as [|x l IH] using rev_ind; [done|].
  rewrite length_app. cbn [length]. rewrite Nat2Z.inj_add, (seqZ_app 0) by lia.
  rewrite omap_app. apply Permutation_app.
  - rewrite <- IH at 2. apply Permutation_refl'. clear IH. 
    assert (∀ o : list Z, (∀ i, i ∈ o → 0 <= i < Z.of_nat (length l)) →
      omap (λ i, (l ++ [x]) !! Z.to_nat i) o = omap (λ i, l !! Z.to_nat i) o) as He.
    { induction o as [|i o IH]; intros Ho; [done|]. cbn [omap list_omap]. rewrite IH by (intros; apply Ho; by right).
      rewrite lookup_app_l; [done|]. specialize (Ho i ltac:(left)). lia. }
    apply He. intros i Hi%elem_of_seqZ. lia.
  - rewrite (seqZ_cons _ 1), (seqZ_nil _ (Z.pred 1)) by lia. cbn [omap list_omap].
    rewrite lookup_app_r by lia. replace (Z.to_nat _ - length l)%nat with 0%nat by lia. done.
Qed.
Lemma forallb_perm {A} (p : A → bool) l k : l ≡ₚ k → forallb p l = forallb p k.
Proof. induction 1; cbn [forallb]; [done|congruence|by destruct (p x), (p y)|congruence]. Qed.

(** C23. A turn of the loop is fair and complete. For any memory and any state with one core for each of the [n]
    threads, [sim_step] does the following and nothing else: it cycles every core exactly once, in the order that
    starts at core [cycle mod n] and wraps around, each core in the state that the cores before it left behind; then
    it cycles the memory, if it is on; then it advances the clock. The loop is told to stop exactly when all [n] cores
    are done after the cores have run. An error of a core or of the memory is the error of the turn. *)
Theorem sim_round_robin {F M G : Type} `{HF : GzFile F} `{HG : RandSource G}
    (access : Params → Z → MemAccess M)
    (mem_cycle : Params → Z → G → M → list (MCore F) → outcome (G * M * list (MCore F)))
    (P : Params) (n : Z) (mem_on : double → bool * double) (s : SimState F M G) :
  0 <= s.(cycle) < 18446744073709551616 → 0 < n < 2147483648 → zlen s.(mcore) = n →
  rotation s.(cycle) n ≡ₚ seqZ 0 n ∧
  sim_step access mem_cycle P n mem_on s =
    (s1 ← for_ (rotation s.(cycle) n) s (cycle_core access P);
     s2 ← cycle_memory mem_cycle P mem_on s1;
     Ret (s2, forallb done s1.(mcore))).
Proof.
  intros Ht Hn Hlen. pose proof (rotation_perm s.(cycle) n ltac:(lia)) as Hp. split; [done|].
  unfold sim_step. assert (epoch_due s.(cycle) = false) as -> by (unfold epoch_due; cbn; by rewrite Z.land_0_r).
  rewrite (run_cores_eq access P n (seqZ 0 n) (rotation s.(cycle) n)); [|by apply rotation_indices|].
  2: { rewrite Hp. apply NoDup_seqZ. }
  destruct (for_ _ s _) as [s1|] eqn:E1; [|done]. cbn [mbind outcome_bind].
  destruct (mapM_aget_all s1.(mcore) (rotation s.(cycle) n)) as (cs & -> & Hcs).
  { by rewrite (for_cores_length access P _ _ _ E1), Hlen. }
  cbn [mbind outcome_bind andb]. rewrite (forallb_perm _ _ _ Hcs). unfold cycle_memory.
  destruct (mem_on s1.(leap_operation)) as [[|] leap]; cbn [mbind outcome_bind].
  - destruct (mem_cycle _ _ _ _ _) as [[[g m] cs']|]; [|done]. cbn [mbind outcome_bind fst snd]. rsimp.
    by destruct (DOT_INTERVAL <=? _).
  - rsimp. destruct s1. cbn. by destruct (DOT_INTERVAL <=? _).
Qed.

(** The write-back epoch of the shared cache is never reset: the condition is
    [cycle & (2047 == 0)], which no cycle satisfies, although [cycle & 2047] is
    zero every 2048 cycles. *)
Lemma sim_epoch_never_reset (k : Z) :
  (∀ t, epoch_due t = false) ∧ Z.land (2048 * k) 2047 = 0.
Proof.
  split; [intros t; unfold epoch_due; cbn; by rewrite Z.land_0_r|].
  change 2047 with (Z.ones 11). rewrite Z.land_ones by lia. rewrite Z.mul_comm. apply Z.mod_mul. lia.
Qed.

(** the memory cycles of [k] turns *)
Fixpoint mem_cycles (k : nat) (leap : double) : Z * double :=
  match k with
  | O => (0, leap)
  | S k =>
      let (on, leap') := mem_leap leap in
      let (c, l) := mem_cycles k leap' in (Z.b2z on + c, l)
  end.

(** 3000 core cycles give 1800 DRAM cycles: the 5 to 3 ratio of 4 GHz and 2.4 GHz. *)
Example mem_leap_ratio : (mem_cycles 3000 (double_of_Z 0)).1 = 1800.
Proof. vm_compute. reflexivity. Qed.

(** What the loop returns: it stops in the first turn after which every core is
    done, and not before; with [k] turns of fuel that turn is reached
    within [k]. *)
Theorem sim_loop_stops {F M G : Type} `{HF : GzFile F} `{HG : RandSource G}
    (access : Params → Z → MemAccess M)
    (mem_cycle : Params → Z → G → M → list (MCore F) → outcome (G * M * list (MCore F)))
    (P : Params) (n : Z) (mem_on : double → bool * double) (fuel : nat) (s s' : SimState F M G) :
  sim_loop access mem_cycle fuel P n mem_on s = Ret s' ↔
  ∃ k (tr : nat → SimState F M G), (k < fuel)%nat ∧ tr 0%nat = s ∧
    (∀ i, (i < k)%nat → sim_step access mem_cycle P n mem_on (tr i) = Ret (tr (S i), false)) ∧
    sim_step access mem_cycle P n mem_on (tr k) = Ret (s', true).
Proof.
  revert s. induction fuel as [|fuel IH]; intros s; cbn [sim_loop].
  { split; [done|]. intros (k & _ & Hk & _). lia. }
  split.
  - intros ([s1 [|]] & H1 & H2)%bind_Ret; cbn [fst snd] in H2.
    + injection H2 as <-. exists 0%nat, (λ _, s). split_and!; [lia|done| |done]. intros i Hi. lia.
    + apply IH in H2 as (k & tr & Hk & H0 & Hstep & Hlast).
      exists (S k), (λ i, match i with O => s | S i => tr i end). split_and!; [lia|done| |done].
      intros [|i] Hi; [by rewrite H1, H0|]. apply Hstep. lia.
  - intros ([|k] & tr & Hk & <- & Hstep & Hlast).
    + by rewrite Hlast.
    + rewrite (Hstep 0%nat) by lia. cbn [mbind outcome_bind fst snd].
      apply IH. exists k, (λ i, tr (S i)). split_and!; [lia|done| |done].
      intros i Hi. apply Hstep. lia.
Qed.

(** a machine whose only core is done after one turn *)
Definition demo_sim : SimState (list Z) unit Z :=
  mkSim (list Z) unit Z 1 demo_os (mcache_new 4 2 0) tt [demo_core <| done := true |>] 0 0 (double_of_Z 0).
Definition demo_mem_cycle (P : Params) (t : Z) (g : Z) (m : unit) (cs : list (MCore (list Z))) :
    outcome (Z * unit * list (MCore (list Z))) := Ret (g, m, cs).
Definition demo_sim1 : SimState (list Z) unit Z := Eval vm_compute in
  match sim_step (λ _ _, open_memory) demo_mem_cycle default_params 1 mem_always demo_sim with
  | Ret r => r.1 | Fault _ => demo_sim end.

(** two cores in a turn at cycle 1: the second runs first *)
Definition demo_pair : SimState (list Z) unit Z :=
  demo_sim <| mcore := [demo_core; demo_core <| done := true |>] |> <| cycle := 1 |>.
Lemma sim_round_robin_witness : rotation 1 2 = [1; 0] ∧
  sim_step (λ _ _, open_memory) demo_mem_cycle default_params 2 mem_always demo_pair =
    (s1 ← for_ [1; 0] demo_pair (cycle_core (λ _ _, open_memory) default_params);
     s2 ← cycle_memory demo_mem_cycle default_params mem_always s1;
     Ret (s2, forallb done s1.(mcore))) ∧
  ∃ s2, sim_step (λ _ _, open_memory) demo_mem_cycle default_params 2 mem_always demo_pair = Ret (s2, false).
Proof.
  assert (rotation 1 2 = [1; 0]) as Hr by (vm_compute; reflexivity).
  assert (0 <= demo_pair.(cycle) < 18446744073709551616) as Hc by (split; [discriminate|reflexivity]).
  assert (0 < 2 < 2147483648) as Hn by (split; reflexivity).
  destruct (sim_round_robin (λ _ _, open_memory) demo_mem_cycle default_params 2 mem_always demo_pair Hc Hn eq_refl)
    as [_ Hs].
  split; [exact Hr|]. split; [rewrite <- Hr; exact Hs|]. eexists. vm_compute. reflexivity.
Defined.

Lemma sim_loop_stops_witness :
  sim_loop (λ _ _, open_memory) demo_mem_cycle 5 default_params 1 mem_always demo_sim = Ret demo_sim1.
Proof.
  apply (proj2 (sim_loop_stops (λ _ _, open_memory) demo_mem_cycle default_params 1 mem_always 5
    demo_sim demo_sim1)).
  exists 0%nat, (λ _, demo_sim). split; [lia|]. split; [reflexivity|]. split.
  - intros i Hi. lia.
  - vm_compute. reflexivity.
Defined.
