(* ===== verification/Common.v ===== *)
(** * DRAMsim3: commands, addresses and bit utilities
    (DRAMsim3/src/common.h, common.cc)

    [CommandType] and its predicates, [Address], [Command], [Transaction], [LogBase2],
    [ModuloWidth] and the name table of [CommandTypeToString]. *)
From S2P Require Import Prelude.

(** [std::exit(-1)] after a message *)
Definition AbruptExit {A} : outcome A := Fault (Exit (-1)).

(** ** Addresses and commands *)

Record Address := mkAddress {
  channel : Z; rank : Z; bankgroup : Z; bank : Z; row : Z; column : Z
}.
Definition Address0 : Address := mkAddress (-1) (-1) (-1) (-1) (-1) (-1).

Inductive CommandType : Set :=
  | READ | READ_PRECHARGE | WRITE | WRITE_PRECHARGE | ACTIVATE | PRECHARGE
  | READ_PRECHARGE2 | WRITE_PRECHARGE2 | PRECHARGE2
  | REFRESH_BANK | REFsb | REFab | SREF_ENTER | SREF_EXIT | RFMsb | RFMab
  | SIZE.
#[export] Instance CommandType_dec : EqDecision CommandType.
Proof. solve_decision. Defined.

(** [static_cast<int>(cmd_type)] *)
Definition ct_int (t : CommandType) : Z :=
  match t with
  | READ => 0 | READ_PRECHARGE => 1 | WRITE => 2 | WRITE_PRECHARGE => 3
  | ACTIVATE => 4 | PRECHARGE => 5 | READ_PRECHARGE2 => 6 | WRITE_PRECHARGE2 => 7
  | PRECHARGE2 => 8 | REFRESH_BANK => 9 | REFsb => 10 | REFab => 11
  | SREF_ENTER => 12 | SREF_EXIT => 13 | RFMsb => 14 | RFMab => 15 | SIZE => 16
  end.

(** the commands, in the order of their numbers *)
Definition commands : list CommandType :=
  [READ; READ_PRECHARGE; WRITE; WRITE_PRECHARGE; ACTIVATE; PRECHARGE;
   READ_PRECHARGE2; WRITE_PRECHARGE2; PRECHARGE2; REFRESH_BANK; REFsb; REFab;
   SREF_ENTER; SREF_EXIT; RFMsb; RFMab].

Record Command := mkCommand { cmd_type : CommandType; addr : Address; hex_addr : Z }.
Definition Command0 : Command := mkCommand SIZE Address0 0.

Definition ct_eqb (a b : CommandType) : bool := ct_int a =? ct_int b.
Definition IsValid (c : Command) : bool := negb (ct_eqb c.(cmd_type) SIZE).
Definition IsRefresh (c : Command) : bool :=
  ct_eqb c.(cmd_type) REFab || ct_eqb c.(cmd_type) REFsb || ct_eqb c.(cmd_type) REFRESH_BANK.
Definition IsRFM (c : Command) : bool := ct_eqb c.(cmd_type) RFMab || ct_eqb c.(cmd_type) RFMsb.
Definition IsRead (c : Command) : bool :=
  ct_eqb c.(cmd_type) READ || ct_eqb c.(cmd_type) READ_PRECHARGE ||
  ct_eqb c.(cmd_type) READ_PRECHARGE2.
Definition IsWrite (c : Command) : bool :=
  ct_eqb c.(cmd_type) WRITE || ct_eqb c.(cmd_type) WRITE_PRECHARGE ||
  ct_eqb c.(cmd_type) WRITE_PRECHARGE2.
Definition IsReadWrite (c : Command) : bool := IsRead c || IsWrite c.
Definition IsSbCMD (c : Command) : bool := ct_eqb c.(cmd_type) RFMsb || ct_eqb c.(cmd_type) REFsb.
Definition IsRankCMD (c : Command) : bool :=
  ct_eqb c.(cmd_type) REFab || ct_eqb c.(cmd_type) SREF_ENTER ||
  ct_eqb c.(cmd_type) SREF_EXIT || ct_eqb c.(cmd_type) RFMab.
Definition Rank (c : Command) : Z := c.(addr).(rank).
Definition Bankgroup (c : Command) : Z := c.(addr).(bankgroup).
Definition Bank (c : Command) : Z := c.(addr).(bank).
Definition Row (c : Command) : Z := c.(addr).(row).
Definition Column (c : Command) : Z := c.(addr).(column).

Record Transaction := mkTransaction {
  t_addr : Z; added_cycle : Z; complete_cycle : Z; is_write : bool
}.
(** [Transaction(addr, is_write)] *)
Definition Transaction_new (a : Z) (w : bool) : Transaction := mkTransaction a 0 0 w.

(** ** Utilities *)

(** [x >> n] on a 64-bit unsigned; a shift by 64 or more is undefined *)
Definition shr64 (x n : Z) : outcome Z :=
  if (0 <=? n) && (n <? 64) then Ret (Z.shiftr x n) else Fault Undefined.
Definition shl64 (x n : Z) : outcome Z :=
  if (0 <=? n) && (n <? 64) then Ret (u64 (Z.shiftl x n)) else Fault Undefined.
(** [x << n] on [int] *)
Definition shl32 (x n : Z) : outcome Z :=
  if (0 <=? n) && (n <? 32) then Ret (i32 (Z.shiftl x n)) else Fault Undefined.

Definition ModuloWidth (addr bit_width pos : Z) : outcome Z :=
  addr ← shr64 addr pos;
  let store := addr in
  addr ← shr64 addr bit_width;
  addr ← shl64 addr bit_width;
  Ret (u32 (Z.lxor store addr)).

Definition GetBitInPos (bits pos : Z) : outcome Z :=
  b ← shr64 bits pos;
  Ret (Z.land b 1).

(** [while (power_of_two > 1) { power_of_two /= 2; i++; }]: an [int] is halved at
    most 30 times *)
Fixpoint log_loop (fuel : nat) (p i : Z) : outcome Z :=
  if p >? 1 then
    match fuel with O => Fault Diverge | S fuel => log_loop fuel (Z.quot p 2) (i + 1) end
  else Ret i.
Definition LogBase2 (power_of_two : Z) : outcome Z := log_loop 31 power_of_two 0.

Definition command_string : list string :=
  ["read"; "read_p"; "write"; "write_p"; "activate"; "precharge"; "refresh_bank"; "ref_sb";
   "ref_ab"; "self_refresh_enter"; "self_refresh_exit"; "rfm_sb"; "rfm_ab"; "WRONG"]%string.
Definition CommandTypeToString (t : CommandType) : outcome string :=
  aget command_string (ct_int t).

(** ** Lemmas *)

Lemma ct_int_inj a b : ct_int a = ct_int b → a = b.
Proof. destruct a, b; done. Qed.
Lemma ct_eqb_eq a b : ct_eqb a b = true ↔ a = b.
Proof. unfold ct_eqb. rewrite Z.eqb_eq. split; [apply ct_int_inj|by intros ->]. Qed.
Lemma ct_eqb_refl a : ct_eqb a a = true.
Proof. by apply ct_eqb_eq. Qed.
Lemma ct_eqb_neq a b : ct_eqb a b = false ↔ a ≠ b.
Proof. rewrite <- ct_eqb_eq. by destruct (ct_eqb a b). Qed.
Lemma ct_int_range t : 0 <= ct_int t <= 16.
Proof. destruct t; simpl; lia. Qed.
Lemma ct_int_lt t : t ≠ SIZE → 0 <= ct_int t < 16.
Proof. destruct t; simpl; done || lia. Qed.
#[export] Hint Resolve ct_int_range ct_eqb_refl : mds.

Lemma elem_of_commands t : t ∈ commands ↔ t ≠ SIZE.
Proof. unfold commands. destruct t; set_solver. Qed.

Lemma log2_half p : 1 < p → Z.log2 (p / 2) = Z.log2 p - 1.
Proof.
  intros Hp. change (p / 2) with (p / 2 ^ 1). rewrite <- Z.shiftr_div_pow2 by lia.
  rewrite Z.log2_shiftr by lia. pose proof (Z.log2_pos p Hp). lia.
Qed.

Lemma log_loop_spec fuel p i :
  p < 2 ^ Z.of_nat (S fuel) → log_loop fuel p i = Ret (i + Z.log2 p).
Proof.
  revert p i. induction fuel as [|fuel IH]; intros p i Hp; cbn [log_loop]; rewrite Z.gtb_ltb.
  - destruct (Z.ltb_spec 1 p); [cbn in Hp; lia|].
    assert (p <= 0 ∨ p = 1) as [?| ->] by lia; [rewrite Z.log2_nonpos by done|]; f_equal; simpl; lia.
  - destruct (Z.ltb_spec 1 p).
    + rewrite Z.quot_div_nonneg by lia. rewrite IH.
      * rewrite log2_half by lia. f_equal. lia.
      * replace (Z.of_nat (S (S fuel))) with (Z.of_nat (S fuel) + 1) in Hp by lia.
        rewrite Z.pow_add_r in Hp by lia. apply Z.div_lt_upper_bound; lia.
    + assert (p <= 0 ∨ p = 1) as [?| ->] by lia; [rewrite Z.log2_nonpos by done|]; f_equal; simpl; lia.
Qed.

(** the loop ends on every [int] *)
Lemma LogBase2_eq p : is_i32 p → LogBase2 p = Ret (Z.log2 p).
Proof. unfold is_i32, LogBase2. intros. rewrite log_loop_spec; [done|simpl; lia]. Qed.

Lemma shr64_ok x n : 0 <= n < 64 → shr64 x n = Ret (Z.shiftr x n).
Proof.
  unfold shr64. intros. rewrite (proj2 (Z.leb_le _ _)), (proj2 (Z.ltb_lt _ _)) by lia. done.
Qed.
Lemma shl64_ok x n : 0 <= n < 64 → shl64 x n = Ret (u64 (Z.shiftl x n)).
Proof.
  unfold shl64. intros. rewrite (proj2 (Z.leb_le _ _)), (proj2 (Z.ltb_lt _ _)) by lia. done.
Qed.
Lemma shl32_ok x n : 0 <= n < 32 → shl32 x n = Ret (i32 (Z.shiftl x n)).
Proof.
  unfold shl32. intros. rewrite (proj2 (Z.leb_le _ _)), (proj2 (Z.ltb_lt _ _)) by lia. done.
Qed.
