(* ===== verification/Config.v ===== *)
(** * DRAMsim3: configuration (DRAMsim3/src/configuration.h, configuration.cc)

    The INI reader's lookups, the initialisation of every parameter group in the order
    of the constructor, the address layout computed by [SetAddressMapping] and the
    decoding of addresses by [AddressMapping]. The members of [Config] are grouped in
    one record per [Init...] method; coercions let [c.(tRP)] read as in the source. *)
From S2P Require Import Prelude Common.

(** ** INI reader: the parsed file is a map from ["section=name"] in lower case *)
Record INIReader := mkINI { _error : Z; _values : gmap string string }.

Definition MakeKey (section name : string) : string := lower (section ++ "=" ++ name).
Definition Get (r : INIReader) (section name dflt : string) : string :=
  default dflt (r.(_values) !! MakeKey section name).
Definition GetLong (r : INIReader) (section name : string) (dflt : Z) : Z :=
  default dflt (strtol (Get r section name "")).
Definition one_of (s : string) (l : list string) : bool := existsb (String.eqb s) l.
Definition GetBoolean (r : INIReader) (section name : string) (dflt : bool) : bool :=
  let v := lower (Get r section name "") in
  if one_of v ["true"; "yes"; "on"; "1"]%string then true
  else if one_of v ["false"; "no"; "off"; "0"]%string then false
  else dflt.
(** [strtod] is the C library's; [None] when no number could be read *)
Class Strtod := strtod : string → option double.
Definition GetReal `{Strtod} (r : INIReader) (section name : string) (dflt : double) : double :=
  default dflt (strtod (Get r section name "")).
(** [Config::GetInteger]; the direct calls of the reader assign the [long] to an [int]
    as well *)
Definition GetInteger (r : INIReader) (section name : string) (dflt : Z) : Z :=
  i32 (GetLong r section name dflt).

(** ** Parameter groups *)

Inductive DRAMProtocol : Set :=
  | DDR3 | DDR4 | DDR5 | GDDR5 | GDDR5X | GDDR6 | LPDDR | LPDDR3 | LPDDR4 | HBM | HBM2 | HMC.
#[export] Instance DRAMProtocol_dec : EqDecision DRAMProtocol.
Proof. solve_decision. Defined.
Inductive RefreshPolicy : Set :=
  | RANK_LEVEL_SIMULTANEOUS | RANK_LEVEL_STAGGERED | BANKSET_LEVEL_STAGGERED
  | BANK_LEVEL_STAGGERED | NO_REFRESH.
Inductive RowBufPolicy : Set := OPEN_PAGE | CLOSE_PAGE | SOFT_CLOSE_PAGE.

Record SystemParams := mkSystem {
  channel_size0 : Z; channels : Z; bus_width : Z; address_mapping : string; mop_size : Z;
  queue_structure : string; row_buf_policy : RowBufPolicy;
  cmd_queue_size : Z; trans_queue_size : Z; unified_queue : bool; write_buf_size : Z;
  refresh_policy : RefreshPolicy; enable_self_refresh : bool; sref_threshold : Z;
  aggressive_precharging_enabled : bool;
  moat_ath : Z; pac_prob : Z; mopac_buf_size : Z; mopac_abo_updates : Z;
  mopac_ref_updates : Z; mopac_drain_freq : Z; mopac_queue_th : Z
}.
Record DRAMParams := mkDRAMParams {
  protocol : DRAMProtocol; bankgroups : Z; banks_per_group : Z; banks : Z;
  rows : Z; columns : Z; device_width : Z; BL : Z; num_dies : Z; enable_hbm_dual_cmd : bool;
  num_links : Z; link_width : Z; link_speed : Z; block_size : Z; xbar_queue_depth : Z;
  burst_cycle : Z
}.
Record SizeParams := mkSize { devices_per_rank : Z; ranks : Z; channel_size : Z }.
Record MappingParams := mkMapping {
  request_size_bytes : Z; shift_bits : Z; mop_enabled : bool;
  ch_pos : Z; ra_pos : Z; bg_pos : Z; ba_pos : Z; ro_pos : Z; co_pos : Z; hi_pos : Z; lo_pos : Z;
  ch_mask : Z; ra_mask : Z; bg_mask : Z; ba_mask : Z; ro_mask : Z; co_mask : Z; hi_mask : Z; lo_mask : Z
}.
Record TimingParams := mkTimingParams {
  tCK : double; AL : Z; CL : Z; CWL : Z; RL : Z; WL : Z;
  tCCD_L : Z; tCCD_S : Z; tRTRS : Z; tRTP : Z; tWTR_L : Z; tWTR_S : Z; tWR : Z; tRP : Z;
  tRRD_L : Z; tRRD_S : Z; tRAS : Z; tRCD : Z; tRC : Z; tCKE : Z; tCKESR : Z; tXS : Z; tXP : Z;
  tREFSBRD : Z; tRFC : Z; tRFCsb : Z; tRFCb : Z; tREFI : Z; tREFIsb : Z; tREFIb : Z; tFAW : Z;
  tRPRE : Z; tWPRE : Z; read_delay : Z; write_delay : Z; tPPD : Z; t32AW : Z;
  tRCDRD : Z; tRCDWR : Z; ideal_memory_latency : Z; tRP2 : Z; tRAS2 : Z; tON : Z
}.
Record PowerParams := mkPower {
  act_energy_inc : double; read_energy_inc : double; write_energy_inc : double;
  ref_energy_inc : double; refb_energy_inc : double; act_stb_energy_inc : double;
  pre_stb_energy_inc : double; pre_pd_energy_inc : double; sref_energy_inc : double
}.
Record OtherParams := mkOther {
  epoch_period : Z; output_level : Z; output_dir : string; output_prefix : string;
  json_stats_name : string; json_epoch_name : string; txt_stats_name : string
}.
Record RFMParams := mkRFM {
  rfm_mode : Z; raaimt : Z; raammt : Z; rfm_raa_decrement : Z; ref_raa_decrement : Z;
  tRFM : Z; tRFMsb : Z
}.
Record ALERTParams := mkALERT { alert_mode : Z; rows_refreshed : Z; tABO : Z; ABO_delay_acts : Z }.
Record MOATParams := mkMOAT { moat_mode : Z; moatth : Z }.
Record MIRZAParams := mkMIRZA {
  mirza_mode : Z; mirza_groups : Z; mirza_groupth : Z; mirza_qsize : Z; mirza_qth : Z;
  mirza_mintw : Z
}.

Record Config := mkConfig {
  system_ :> SystemParams; dram_ :> DRAMParams; size_ :> SizeParams; mapping_ :> MappingParams;
  timing_ :> TimingParams; power_ :> PowerParams; other_ :> OtherParams; rfm_ :> RFMParams;
  alert_ :> ALERTParams; moat_ :> MOATParams; mirza_ :> MIRZAParams
}.

Definition is_GDDR (p : DRAMProtocol) : bool :=
  match p with GDDR5 | GDDR5X | GDDR6 => true | _ => false end.
Definition is_HBM (p : DRAMProtocol) : bool := match p with HBM | HBM2 => true | _ => false end.
Definition is_HMC (p : DRAMProtocol) : bool := match p with HMC => true | _ => false end.
Definition IsGDDR (c : DRAMParams) : bool := is_GDDR c.(protocol).
Definition IsHBM (c : DRAMParams) : bool := is_HBM c.(protocol).
Definition IsHMC (c : DRAMParams) : bool := is_HMC c.(protocol).
Definition IsDDR4 (c : DRAMParams) : bool := bool_decide (c.(protocol) = DDR4).
Definition IsDDR5 (c : DRAMParams) : bool := bool_decide (c.(protocol) = DDR5).

(** ** Initialisation *)

Definition protocol_pairs : list (string * DRAMProtocol) :=
  [("DDR3", DDR3); ("DDR4", DDR4); ("DDR5", DDR5); ("GDDR5", GDDR5); ("GDDR5X", GDDR5X);
   ("GDDR6", GDDR6); ("LPDDR", LPDDR); ("LPDDR3", LPDDR3); ("LPDDR4", LPDDR4); ("HBM", HBM);
   ("HBM2", HBM2); ("HMC", HMC)]%string.
Definition GetDRAMProtocol (s : string) : outcome DRAMProtocol :=
  match (list_to_map protocol_pairs : gmap string DRAMProtocol) !! s with
  | Some p => Ret p
  | None => AbruptExit
  end.

Definition InitSystemParams (r : INIReader) : outcome SystemParams :=
  let int := GetInteger r "system" in
  let row_buf_policy_str := Get r "system" "row_buf_policy" "OPEN_PAGE" in
  rbp ← (if String.eqb row_buf_policy_str "OPEN_PAGE" then Ret OPEN_PAGE
         else if String.eqb row_buf_policy_str "CLOSE_PAGE" then Ret CLOSE_PAGE
         else if String.eqb row_buf_policy_str "SOFT_CLOSE_PAGE" then Ret SOFT_CLOSE_PAGE
         else AbruptExit);
  let ref_policy := Get r "system" "refresh_policy" "RANK_LEVEL_STAGGERED" in
  rp ← (if String.eqb ref_policy "RANK_LEVEL_SIMULTANEOUS" then Ret RANK_LEVEL_SIMULTANEOUS
        else if String.eqb ref_policy "RANK_LEVEL_STAGGERED" then Ret RANK_LEVEL_STAGGERED
        else if String.eqb ref_policy "BANKSET_LEVEL_STAGGERED" then Ret BANKSET_LEVEL_STAGGERED
        else if String.eqb ref_policy "BANK_LEVEL_STAGGERED" then Ret BANK_LEVEL_STAGGERED
        else if String.eqb ref_policy "NO_REFRESH" then Ret NO_REFRESH
        else AbruptExit);
  Ret {|
    channel_size0 := int "channel_size"%string 1024; channels := int "channels"%string 1;
    bus_width := int "bus_width"%string 64;
    address_mapping := Get r "system" "address_mapping" "chrobabgraco";
    mop_size := int "mop_size"%string 0;
    queue_structure := Get r "system" "queue_structure" "PER_BANK";
    row_buf_policy := rbp;
    cmd_queue_size := int "cmd_queue_size"%string 16;
    trans_queue_size := int "trans_queue_size"%string 32;
    unified_queue := GetBoolean r "system" "unified_queue" false;
    write_buf_size := int "write_buf_size"%string 16;
    refresh_policy := rp;
    enable_self_refresh := GetBoolean r "system" "enable_self_refresh" false;
    sref_threshold := int "sref_threshold"%string 1000;
    aggressive_precharging_enabled :=
      GetBoolean r "system" "aggressive_precharging_enabled" false;
    moat_ath := int "MoatATH"%string 256; pac_prob := int "PacProb"%string 8;
    mopac_buf_size := int "MopacBufSize"%string 5;
    mopac_abo_updates := int "MopacABOUpdates"%string 5;
    mopac_ref_updates := int "MopacREFUpdates"%string 2;
    mopac_drain_freq := int "MopacDrainFrequency"%string 1;
    mopac_queue_th := int "MopacQueueThreshold"%string 4 |}.

(** [BL] and [burst_cycle] of a protocol *)
Definition burst (p : DRAMProtocol) (BL : Z) : Z * Z :=
  let cycles n := if BL =? 0 then 0 else Z.quot BL n in
  match p with
  | GDDR5 => (cycles 4, if BL =? 0 then 8 else BL)
  | GDDR5X => (cycles 8, if BL =? 0 then 8 else BL)
  | GDDR6 => (cycles 16, if BL =? 0 then 8 else BL)
  | _ => (cycles 2, if BL =? 0 then (if is_HBM p then 4 else 8) else BL)
  end.

Definition InitDRAMParams (r : INIReader) : outcome DRAMParams :=
  let int := GetInteger r "dram_structure" in
  let hmc := GetInteger r "hmc" in
  p ← GetDRAMProtocol (Get r "dram_structure" "protocol" "DDR3");
  let bankgroups := int "bankgroups"%string 2 in
  let banks_per_group := int "banks_per_group"%string 2 in
  let enable := GetBoolean r "dram_structure" "bankgroup_enable" true in
  let '(bankgroups, banks_per_group) :=
    if negb enable then (1, i32 (banks_per_group * bankgroups)) else (bankgroups, banks_per_group) in
  let device_width := int "device_width"%string 8 in
  let block_size := hmc "block_size"%string 64 in
  BL ← (if is_HMC p then iquot (i32 (block_size * 8)) device_width else Ret (int "BL"%string 8));
  let '(burst_cycle, BL) := burst p BL in
  let columns := int "columns"%string 1024 in
  Ret {|
    protocol := p; bankgroups := bankgroups; banks_per_group := banks_per_group;
    banks := i32 (bankgroups * banks_per_group);
    rows := int "rows"%string 65536;
    columns := if is_GDDR p then i32 (columns * BL) else if is_HBM p then i32 (columns * 2) else columns;
    device_width := device_width; BL := BL; num_dies := int "num_dies"%string 1;
    enable_hbm_dual_cmd := GetBoolean r "dram_structure" "hbm_dual_cmd" true && is_HBM p;
    num_links := hmc "num_links"%string 4; link_width := hmc "link_width"%string 16;
    link_speed := hmc "link_speed"%string 15000; block_size := block_size;
    xbar_queue_depth := hmc "xbar_queue_depth"%string 16; burst_cycle := burst_cycle |}.

Definition CalculateSize (s : SystemParams) (d : DRAMParams) : outcome SizeParams :=
  devices_per_rank ← iquot s.(bus_width) d.(device_width);
  let page_size := Z.quot (i32 (d.(columns) * d.(device_width))) 8 in
  let megs_per_bank := Z.quot (i32 (page_size * Z.quot d.(rows) 1024)) 1024 in
  let megs_per_rank := i32 (i32 (megs_per_bank * d.(banks)) * devices_per_rank) in
  if s.(channel_size0) <? megs_per_rank then
    Ret (mkSize devices_per_rank 1 megs_per_rank)
  else
    ranks ← iquot s.(channel_size0) megs_per_rank;
    Ret (mkSize devices_per_rank ranks (i32 (ranks * megs_per_rank))).

Definition InitTimingParams `{Strtod} (r : INIReader) (burst_cycle : Z) : TimingParams :=
  let int := GetInteger r "timing" in
  let AL := int "AL"%string 0 in
  let CL := int "CL"%string 12 in
  let CWL := int "CWL"%string 12 in
  let tRP := int "tRP"%string 10 in
  let tRAS := int "tRAS"%string 24 in
  let RL := i32 (AL + CL) in
  let WL := i32 (AL + CWL) in
  {| tCK := GetReal r "timing" "tCK" (double_of_Z 1); AL := AL; CL := CL; CWL := CWL;
     RL := RL; WL := WL;
     tCCD_L := int "tCCD_L"%string 6; tCCD_S := int "tCCD_S"%string 4;
     tRTRS := int "tRTRS"%string 2; tRTP := int "tRTP"%string 5;
     tWTR_L := int "tWTR_L"%string 5; tWTR_S := int "tWTR_S"%string 5;
     tWR := int "tWR"%string 10; tRP := tRP;
     tRRD_L := int "tRRD_L"%string 4; tRRD_S := int "tRRD_S"%string 4; tRAS := tRAS;
     tRCD := int "tRCD"%string 10; tRC := i32 (tRAS + tRP);
     tCKE := int "tCKE"%string 6; tCKESR := int "tCKESR"%string 12; tXS := int "tXS"%string 432;
     tXP := int "tXP"%string 8; tREFSBRD := int "tREFSBRD"%string 72;
     tRFC := int "tRFC"%string 74; tRFCsb := int "tRFCsb"%string 74; tRFCb := int "tRFCb"%string 20;
     tREFI := int "tREFI"%string 7800; tREFIsb := int "tREFIsb"%string 1950;
     tREFIb := int "tREFIb"%string 1950; tFAW := int "tFAW"%string 50;
     tRPRE := int "tRPRE"%string 1; tWPRE := int "tWPRE"%string 1;
     read_delay := i32 (RL + burst_cycle); write_delay := i32 (WL + burst_cycle);
     tPPD := int "tPPD"%string 0; t32AW := int "t32AW"%string 330;
     tRCDRD := int "tRCDRD"%string 24; tRCDWR := int "tRCDWR"%string 20;
     ideal_memory_latency := int "ideal_memory_latency"%string 10;
     tRP2 := int "tRP2"%string 86; tRAS2 := int "tRAS2"%string 38; tON := int "tON"%string 433 |}.

(** The energy increments are IEEE operations in source order (the build allows the
    compiler to reassociate them). [1.2] is the binary64 nearest to 1.2. *)
Definition d1_2 : double := S754_finite false 5404319552844595 (-52).
Definition InitPowerParams `{Strtod} (r : INIReader) (d : DRAMParams) (s : SizeParams)
    (t : TimingParams) : PowerParams :=
  let real := λ n v, GetReal r "power" n (double_of_Z v) in
  let VDD := GetReal r "power" "VDD" d1_2 in
  let IDD0 := real "IDD0"%string 48 in
  let IDD2P := real "IDD2P"%string 25 in
  let IDD2N := real "IDD2N"%string 34 in
  let IDD3N := real "IDD3N"%string 43 in
  let IDD4W := real "IDD4W"%string 123 in
  let IDD4R := real "IDD4R"%string 135 in
  let IDD5AB := real "IDD5AB"%string 250 in
  let IDD5PB := real "IDD5PB"%string 5 in
  let IDD6x := real "IDD6x"%string 31 in
  let devices := double_of_Z s.(devices_per_rank) in
  let per_cycles i c := dmul (dmul (dmul VDD i) (double_of_Z c)) devices in
  let per_cycle i := dmul (dmul VDD i) devices in
  {| act_energy_inc :=
       dmul (dmul VDD (dsub (dmul IDD0 (double_of_Z t.(tRC)))
                            (dadd (dmul IDD3N (double_of_Z t.(tRAS)))
                                  (dmul IDD2N (double_of_Z t.(tRP)))))) devices;
     read_energy_inc := per_cycles (dsub IDD4R IDD3N) d.(burst_cycle);
     write_energy_inc := per_cycles (dsub IDD4W IDD3N) d.(burst_cycle);
     ref_energy_inc := per_cycles (dsub IDD5AB IDD3N) t.(tRFC);
     refb_energy_inc := per_cycles (dsub IDD5PB IDD3N) t.(tRFCb);
     act_stb_energy_inc := per_cycle IDD3N;
     pre_stb_energy_inc := per_cycle IDD2N;
     pre_pd_energy_inc := per_cycle IDD2P;
     sref_energy_inc := per_cycle IDD6x |}.

(** [DirExist] asks the file system *)
Definition InitOtherParams (DirExist : string → bool) (out_dir : string) (r : INIReader) : OtherParams :=
  let dir := if negb (DirExist out_dir) then "./"%string else (out_dir ++ "/")%string in
  let prefix := (dir ++ Get r "other" "output_prefix" "dramsim3")%string in
  {| epoch_period := GetInteger r "other" "epoch_period" 100000;
     output_level := GetInteger r "other" "output_level" 1;
     output_dir := dir; output_prefix := prefix;
     json_stats_name := (prefix ++ ".json")%string;
     json_epoch_name := (prefix ++ "epoch.json")%string;
     txt_stats_name := (prefix ++ ".txt")%string |}.

(** [raaimt * 0.5] and [0.5 * tRFC] are exact in [double] and truncated to [long] *)
Definition InitRFMParams (r : INIReader) (t : TimingParams) : RFMParams :=
  let int := GetInteger r "rfm" in
  let raaimt := int "raaimt"%string 32 in
  {| rfm_mode := int "rfm_mode"%string 0; raaimt := raaimt;
     raammt := int "raammt"%string (i32 (raaimt * 3));
     rfm_raa_decrement := int "rfm_raa_decrement"%string raaimt;
     ref_raa_decrement := int "ref_raa_decrement"%string (Z.quot raaimt 2);
     tRFM := int "tRFM"%string t.(tRFC);
     tRFMsb := int "tRFMsb"%string (Z.quot t.(tRFC) 2) |}.

(** [rows / refchunks] is a [long] division *)
Definition InitALERTParams (r : INIReader) (d : DRAMParams) : outcome ALERTParams :=
  n ← iquot d.(rows) (GetLong r "alert" "refchunks" 8192);
  Ret {| alert_mode := GetInteger r "alert" "alert_mode" 0; rows_refreshed := i32 n;
         tABO := GetInteger r "alert" "tABO" 432;
         ABO_delay_acts := GetInteger r "alert" "ABO_delay_acts" 1 |}.

Definition InitMOATParams (r : INIReader) : MOATParams :=
  {| moat_mode := GetInteger r "moat" "moat_mode" 0; moatth := GetInteger r "moat" "moatth" 64 |}.

Definition InitMIRZAParams (r : INIReader) : MIRZAParams :=
  let int := GetInteger r "mirza" in
  {| mirza_mode := int "mirza_mode"%string 0; mirza_groups := int "mirza_groups"%string 256;
     mirza_groupth := int "mirza_groupth"%string 1200; mirza_qsize := int "mirza_qsize"%string 4;
     mirza_qth := int "mirza_qth"%string 40; mirza_mintw := int "mirza_mintw"%string 8 |}.

(** ** Address layout *)

(** [address_mapping.substr(i, 2)] for [i = 0, 2, 4, ...] *)
Fixpoint split2 (s : string) : list string :=
  match s with
  | String a (String b s) => String a (String b EmptyString) :: split2 s
  | EmptyString => []
  | s => [s]
  end.

(** one turn of [while (!fields.empty())]: [fs] holds the fields from the last one *)
Fixpoint place_fields (widths : gmap string Z) (fs : list string) (field_pos : gmap string Z) (pos : Z) :
    outcome (gmap string Z) :=
  match fs with
  | [] => Ret field_pos
  | token :: fs =>
      match widths !! token with
      | None => AbruptExit
      | Some w => place_fields widths fs (<[token := pos]> field_pos) (i32 (pos + w))
      end
  end.

(** [m.at(key)] throws when there is no such key *)
Definition map_at (m : gmap string Z) (key : string) : outcome Z :=
  match m !! key with Some v => Ret v | None => Fault Throw end.

(** [(1 << field_widths.at(key)) - 1], converted to 64 bits *)
Definition field_mask (widths : gmap string Z) (key : string) : outcome Z :=
  w ← map_at widths key;
  m ← shl32 1 w;
  Ret (u64 (i32 (m - 1))).

Definition field_widths (s : SystemParams) (d : DRAMParams) (ranks : Z) : outcome (gmap string Z) :=
  col_low_bits ← LogBase2 d.(BL);
  col_bits ← LogBase2 d.(columns);
  let actual_col_bits := i32 (col_bits - col_low_bits) in
  ch ← LogBase2 s.(channels); ra ← LogBase2 ranks;
  bg ← LogBase2 d.(bankgroups); ba ← LogBase2 d.(banks_per_group);
  ro ← LogBase2 d.(rows); lo ← LogBase2 s.(mop_size);
  Ret (list_to_map [("ch", ch); ("ra", ra); ("bg", bg); ("ba", ba); ("ro", ro);
    ("co", actual_col_bits); ("hi", i32 (actual_col_bits - lo)); ("lo", lo)]%string).

Definition SetAddressMapping (s : SystemParams) (d : DRAMParams) (ranks : Z) : outcome MappingParams :=
  let request_size_bytes := i32 (Z.quot s.(bus_width) 8 * d.(BL)) in
  shift_bits ← LogBase2 request_size_bytes;
  widths ← field_widths s d ranks;
  let size := Z.of_nat (String.length s.(address_mapping)) in
  if negb (size =? 12) && negb (size =? 14) then AbruptExit
  else
    let mop := size =? 14 in
    field_pos ← place_fields widths (reverse (split2 s.(address_mapping))) ∅ 0;
    ch_pos ← map_at field_pos "ch"; ra_pos ← map_at field_pos "ra";
    bg_pos ← map_at field_pos "bg"; ba_pos ← map_at field_pos "ba";
    ro_pos ← map_at field_pos "ro";
    (* the column members of the other mode are never assigned nor read *)
    hi_pos ← (if mop then map_at field_pos "hi" else Ret 0);
    lo_pos ← (if mop then map_at field_pos "lo" else Ret 0);
    co_pos ← (if mop then Ret 0 else map_at field_pos "co");
    ch_mask ← field_mask widths "ch"; ra_mask ← field_mask widths "ra";
    bg_mask ← field_mask widths "bg"; ba_mask ← field_mask widths "ba";
    ro_mask ← field_mask widths "ro";
    hi_mask ← (if mop then field_mask widths "hi" else Ret 0);
    lo_mask ← (if mop then field_mask widths "lo" else Ret 0);
    co_mask ← (if mop then Ret 0 else field_mask widths "co");
    Ret (mkMapping request_size_bytes shift_bits mop
      ch_pos ra_pos bg_pos ba_pos ro_pos co_pos hi_pos lo_pos
      ch_mask ra_mask bg_mask ba_mask ro_mask co_mask hi_mask lo_mask).

(** [(hex_addr >> pos) & mask], converted to [int] *)
Definition field (hex_addr pos mask : Z) : outcome Z :=
  x ← shr64 hex_addr pos;
  Ret (i32 (Z.land x mask)).

Definition AddressMapping (m : MappingParams) (mop_size hex_addr : Z) : outcome Address :=
  hex_addr ← shr64 hex_addr m.(shift_bits);
  channel ← field hex_addr m.(ch_pos) m.(ch_mask);
  rank ← field hex_addr m.(ra_pos) m.(ra_mask);
  bg ← field hex_addr m.(bg_pos) m.(bg_mask);
  ba ← field hex_addr m.(ba_pos) m.(ba_mask);
  ro ← field hex_addr m.(ro_pos) m.(ro_mask);
  co ← (if m.(mop_enabled) then
          hi ← field hex_addr m.(hi_pos) m.(hi_mask);
          lo ← field hex_addr m.(lo_pos) m.(lo_mask);
          k ← LogBase2 mop_size;
          h ← shl32 hi k;
          Ret (Z.lor h lo)
        else field hex_addr m.(co_pos) m.(co_mask));
  Ret (mkAddress channel rank bg ba ro co).

(** ** The constructor *)
Definition Config_new `{Strtod} (DirExist : string → bool) (r : INIReader) (out_dir : string) :
    outcome Config :=
  if r.(_error) <? 0 then AbruptExit
  else
    s ← InitSystemParams r;
    d ← InitDRAMParams r;
    z ← CalculateSize s d;
    m ← SetAddressMapping s d z.(ranks);
    let t := InitTimingParams r d.(burst_cycle) in
    let p := InitPowerParams r d z t in
    let o := InitOtherParams DirExist out_dir r in
    let rfm := InitRFMParams r t in
    a ← InitALERTParams r d;
    Ret (mkConfig s d z m t p o rfm a (InitMOATParams r) (InitMIRZAParams r)).

(** ** Packing fields of given widths

    [pack] puts the fields of [fs], lowest first, into one number; [digit x p w] is the
    [w]-bit field at position [p]. *)
Definition digit_at (x p w : Z) : Z := x / 2 ^ p mod 2 ^ w.
Fixpoint pack (wd v : string → Z) (fs : list string) : Z :=
  match fs with [] => 0 | f :: fs => v f + 2 ^ wd f * pack wd v fs end.
Fixpoint width (wd : string → Z) (fs : list string) : Z :=
  match fs with [] => 0 | f :: fs => wd f + width wd fs end.
(** position of [f] in [fs] *)
Fixpoint position (wd : string → Z) (fs : list string) (f : string) : Z :=
  match fs with
  | [] => 0
  | g :: fs => if bool_decide (f = g) then 0 else wd g + position wd fs f
  end.

Section Pack.
Context (wd : string → Z) (wd_nonneg : ∀ f, 0 <= wd f).

Lemma width_nonneg fs : 0 <= width wd fs.
Proof. induction fs as [|f fs IH]; simpl; [lia|]. specialize (wd_nonneg f). lia. Qed.
Lemma position_nonneg fs f : 0 <= position wd fs f.
Proof.
  induction fs as [|g fs IH]; simpl; [lia|]. case_bool_decide; [lia|]. specialize (wd_nonneg g). lia.
Qed.
Lemma position_width fs f : f ∈ fs → position wd fs f + wd f <= width wd fs.
Proof.
  induction fs as [|g fs IH]; [by intros ?%elem_of_nil|]. simpl. pose proof (width_nonneg fs).
  intros Hf. case_bool_decide; [subst; lia|]. apply elem_of_cons in Hf as [->|Hf]; [done|].
  specialize (IH Hf). lia.
Qed.

Lemma pack_range v fs : (∀ f, f ∈ fs → 0 <= v f < 2 ^ wd f) → 0 <= pack wd v fs < 2 ^ width wd fs.
Proof.
  induction fs as [|f fs IH]; intros Hv; simpl; [lia|].
  assert (0 <= pack wd v fs < 2 ^ width wd fs) as IH' by (apply IH; intros; apply Hv; by right).
  specialize (Hv f ltac:(left)). clear IH. pose proof (width_nonneg fs).
  rewrite Z.pow_add_r by auto. nia.
Qed.

Lemma pack_ext v v' fs : (∀ f, f ∈ fs → v f = v' f) → pack wd v fs = pack wd v' fs.
Proof.
  induction fs as [|f fs IH]; intros Hv; simpl; [done|].
  rewrite (Hv f), IH; [done| |left]. intros. apply Hv. by right.
Qed.

(** packing the fields of a number gives the number back *)
Lemma pack_digits x fs :
  NoDup fs → pack wd (λ f, digit_at x (position wd fs f) (wd f)) fs = x mod 2 ^ width wd fs.
Proof.
  revert x. induction fs as [|f fs IH]; intros x; simpl; [intros _; by rewrite Z.mod_1_r|].
  intros [Hf Hnd]%NoDup_cons. rewrite bool_decide_true by done.
  pose proof (wd_nonneg f). pose proof (width_nonneg fs).
  rewrite (pack_ext _ (λ g, digit_at (x / 2 ^ wd f) (position wd fs g) (wd g))).
  - rewrite IH by done. unfold digit_at. rewrite Z.pow_0_r, Z.div_1_r, Z.pow_add_r by done.
    rewrite Z.rem_mul_r by lia. done.
  - intros g Hg. rewrite bool_decide_false by (by intros ->). unfold digit_at.
    pose proof (position_nonneg fs g). by rewrite Z.pow_add_r, Z.div_div by lia.
Qed.

(** the fields of a packed number are the fields *)
Lemma digit_pack v fs f :
  (∀ g, g ∈ fs → 0 <= v g < 2 ^ wd g) → f ∈ fs → NoDup fs →
  digit_at (pack wd v fs) (position wd fs f) (wd f) = v f.
Proof.
  induction fs as [|g fs IH]; intros Hv Hf Hnd; [by apply elem_of_nil in Hf|].
  apply NoDup_cons in Hnd as [Hg Hnd]. simpl.
  pose proof (Hv g ltac:(left)) as Hvg. pose proof (wd_nonneg g).
  case_bool_decide as Hfg.
  - subst g. unfold digit_at. rewrite Z.pow_0_r, Z.div_1_r, (Z.mul_comm (2 ^ _)), Z.mod_add by lia.
    by apply Z.mod_small.
  - apply elem_of_cons in Hf as [->|Hf]; [done|].
    rewrite <- IH; [|intros; apply Hv; by right|done|done].
    unfold digit_at. pose proof (position_nonneg fs f). rewrite Z.pow_add_r by done.
    rewrite <- Z.div_div by lia. f_equal. f_equal.
    rewrite (Z.mul_comm (2 ^ _)), Z.div_add by lia. rewrite (Z.div_small (v g)) by lia. lia.
Qed.
End Pack.

(** ** The layout of a configuration *)

(** the field names a layout must have *)
Definition layout_fields (mop : bool) : list string :=
  ["ch"; "ra"; "bg"; "ba"; "ro"]%string ++ (if mop then ["hi"; "lo"]%string else ["co"]%string).
Definition layout (s : SystemParams) : list string := reverse (split2 s.(address_mapping)).
Definition is_mop (s : SystemParams) : bool := Z.of_nat (String.length s.(address_mapping)) =? 14.

(** the widths of the fields, for sizes that are [int]s *)
Definition widths_map (s : SystemParams) (d : DRAMParams) (ranks : Z) : gmap string Z :=
  let col := Z.log2 d.(columns) - Z.log2 d.(BL) in
  list_to_map [("ch", Z.log2 s.(channels)); ("ra", Z.log2 ranks); ("bg", Z.log2 d.(bankgroups));
    ("ba", Z.log2 d.(banks_per_group)); ("ro", Z.log2 d.(rows));
    ("co", col); ("hi", col - Z.log2 s.(mop_size)); ("lo", Z.log2 s.(mop_size))]%string.
Definition field_width (s : SystemParams) (d : DRAMParams) (ranks : Z) (f : string) : Z :=
  default 0 (widths_map s d ranks !! f).

Record layout_ok (s : SystemParams) (d : DRAMParams) (ranks : Z) : Prop := {
  ly_fields : layout s ≡ₚ layout_fields (is_mop s);
  ly_length : is_mop s = true ∨ Z.of_nat (String.length s.(address_mapping)) = 12;
  ly_ints : Forall is_i32 [d.(BL); d.(columns); s.(channels); ranks; d.(bankgroups);
    d.(banks_per_group); d.(rows); s.(mop_size)];
  ly_columns : Z.log2 d.(BL) + Z.log2 s.(mop_size) <= Z.log2 d.(columns);
  ly_total : width (field_width s d ranks) (layout s) < 64;
  ly_request : is_u64 (2 ^ Z.log2 (i32 (Z.quot s.(bus_width) 8 * d.(BL))) *
                       2 ^ width (field_width s d ranks) (layout s))
}.

(** the field [f] of an address; a column of a split layout has [k] low bits *)
Definition addr_field (k : Z) (a : Address) (f : string) : Z :=
  if String.eqb f "ch" then a.(channel) else if String.eqb f "ra" then a.(rank)
  else if String.eqb f "bg" then a.(bankgroup) else if String.eqb f "ba" then a.(bank)
  else if String.eqb f "ro" then a.(row) else if String.eqb f "co" then a.(column)
  else if String.eqb f "hi" then a.(column) / 2 ^ k
  else if String.eqb f "lo" then a.(column) mod 2 ^ k else 0.
Definition addr_in (s : SystemParams) (d : DRAMParams) (ranks : Z) (a : Address) : Prop :=
  ∀ f, f ∈ layout s →
    0 <= addr_field (Z.log2 s.(mop_size)) a f < 2 ^ field_width s d ranks f.
(** the number of the request at an address *)
Definition request_of (s : SystemParams) (d : DRAMParams) (ranks : Z) (a : Address) : Z :=
  pack (field_width s d ranks) (addr_field (Z.log2 s.(mop_size)) a) (layout s).

Lemma place_fields_spec wd widths fs fp pos :
  (∀ f, f ∈ fs → widths !! f = Some (wd f)) → (∀ f, 0 <= wd f) → NoDup fs →
  0 <= pos → pos + width wd fs <= 64 →
  ∃ m, place_fields widths fs fp pos = Ret m ∧
    ∀ f, m !! f = if decide (f ∈ fs) then Some (pos + position wd fs f) else fp !! f.
Proof.
  intros Hw Hnn. revert fp pos. induction fs as [|g fs IH]; intros fp pos Hnd Hpos Htot; cbn [place_fields].
  { exists fp. split; [done|]. intros f. rewrite decide_False; [done|]. by intros ?%elem_of_nil. }
  apply NoDup_cons in Hnd as [Hg Hnd]. simpl in Htot. pose proof (width_nonneg wd Hnn fs).
  pose proof (Hnn g). rewrite (Hw g) by left. rewrite i32_id by (unfold is_i32; lia).
  destruct (IH ltac:(intros; apply Hw; by right) (<[g:=pos]> fp) (pos + wd g)) as (m & -> & Hm);
    [done|lia|lia|].
  exists m. split; [done|]. intros f. rewrite Hm. simpl. destruct (decide (f ∈ fs)) as [Hf|Hf].
  - rewrite decide_True by (by right). rewrite bool_decide_false by (by intros ->).
    f_equal. lia.
  - rewrite lookup_insert. destruct (decide (g = f)) as [->|Hne].
    + rewrite decide_True by left. rewrite bool_decide_true by done. f_equal. lia.
    + rewrite decide_False; [done|]. by intros [->|?]%elem_of_cons.
Qed.

Lemma field_mask_eq widths key w :
  widths !! key = Some w → 0 <= w < 31 → field_mask widths key = Ret (Z.ones w).
Proof.
  intros Hk Hw. unfold field_mask, map_at. rewrite Hk. cbn [mbind outcome_bind].
  rewrite shl32_ok by lia. cbn [mbind outcome_bind]. rewrite Z.shiftl_1_l, Z.ones_equiv.
  pose proof (Z.pow_lt_mono_r 2 w 31 ltac:(lia) ltac:(lia) ltac:(lia)).
  change (2 ^ 31) with 2147483648 in *. pose proof (Z.pow_pos_nonneg 2 w ltac:(lia) ltac:(lia)).
  rewrite (i32_id (2 ^ w)), (i32_id (2 ^ w - 1)) by (unfold is_i32; lia). f_equal.
  rewrite u64_id by (unfold is_u64; lia). lia.
Qed.

Lemma field_eq x p w :
  0 <= x → 0 <= p < 64 → 0 <= w < 31 → field x p (Z.ones w) = Ret (digit_at x p w).
Proof.
  intros Hx Hp Hw. unfold field, digit_at. rewrite shr64_ok by done. cbn [mbind outcome_bind].
  rewrite Z.land_ones, Z.shiftr_div_pow2 by lia.
  pose proof (Z.mod_pos_bound (x / 2 ^ p) (2 ^ w) ltac:(lia)).
  pose proof (Z.pow_lt_mono_r 2 w 31 ltac:(lia) ltac:(lia) ltac:(lia)).
  change (2 ^ 31) with 2147483648 in *. rewrite i32_id by (unfold is_i32; lia). done.
Qed.

Lemma log2_i32 x : is_i32 x → 0 <= Z.log2 x < 31.
Proof.
  unfold is_i32. intros. split; [apply Z.log2_nonneg|].
  destruct (Z.le_gt_cases x 0); [rewrite Z.log2_nonpos by done; lia|].
  apply Z.log2_lt_pow2; lia.
Qed.

Section Layout.
Context (s : SystemParams) (d : DRAMParams) (ranks : Z) (Hok : layout_ok s d ranks).
Notation wd := (field_width s d ranks).
Notation fs := (layout s).

Lemma widths_bound f w : widths_map s d ranks !! f = Some w → 0 <= w < 31.
Proof.
  destruct Hok as [_ _ Hi Hc _ _]. rewrite !Forall_cons in Hi.
  destruct Hi as (H1 & H2 & H3 & H4 & H5 & H6 & H7 & H8 & _).
  apply log2_i32 in H1, H2, H3, H4, H5, H6, H7, H8.
  unfold widths_map. cbn [list_to_map foldr uncurry fst snd].
  rewrite !lookup_insert, lookup_empty. repeat case_decide; intros; simplify_eq; lia.
Qed.
Lemma field_width_range f : 0 <= wd f < 31.
Proof.
  unfold field_width. destruct (widths_map _ _ _ !! f) eqn:E; simpl; [by eapply widths_bound|lia].
Qed.
Lemma layout_nodup : NoDup fs.
Proof.
  rewrite (ly_fields _ _ _ Hok). unfold layout_fields. destruct (is_mop s);
    apply (bool_decide_unpack _); vm_compute; done.
Qed.
Lemma widths_layout f : f ∈ fs → widths_map s d ranks !! f = Some (wd f).
Proof.
  rewrite (ly_fields _ _ _ Hok). intros Hf. unfold field_width.
  assert (is_Some (widths_map s d ranks !! f)) as [w ->]; [|done].
  unfold widths_map, layout_fields in *. cbn [list_to_map foldr uncurry fst snd].
  destruct (is_mop s); simpl in Hf; repeat (apply elem_of_cons in Hf as [->|Hf]; [by eexists|]);
    by apply elem_of_nil in Hf.
Qed.
Lemma field_widths_eq : field_widths s d ranks = Ret (widths_map s d ranks).
Proof.
  destruct Hok as [_ _ Hi Hc _ _]. rewrite !Forall_cons in Hi.
  destruct Hi as (H1 & H2 & H3 & H4 & H5 & H6 & H7 & H8 & _).
  unfold field_widths. rewrite !LogBase2_eq by done. cbn [mbind outcome_bind].
  apply log2_i32 in H1, H2, H3, H4, H5, H6, H7, H8.
  rewrite (i32_id (Z.log2 (columns d) - _)) by (unfold is_i32; lia).
  rewrite i32_id by (unfold is_i32; lia). done.
Qed.

Notation shift := (Z.log2 (i32 (Z.quot s.(bus_width) 8 * d.(BL)))).

(** what [SetAddressMapping] computes *)
Lemma SetAddressMapping_spec : ∃ m, SetAddressMapping s d ranks = Ret m ∧
  m.(shift_bits) = shift ∧ m.(mop_enabled) = is_mop s ∧
  m.(ch_pos) = position wd fs "ch" ∧ m.(ch_mask) = Z.ones (wd "ch") ∧
  m.(ra_pos) = position wd fs "ra" ∧ m.(ra_mask) = Z.ones (wd "ra") ∧
  m.(bg_pos) = position wd fs "bg" ∧ m.(bg_mask) = Z.ones (wd "bg") ∧
  m.(ba_pos) = position wd fs "ba" ∧ m.(ba_mask) = Z.ones (wd "ba") ∧
  m.(ro_pos) = position wd fs "ro" ∧ m.(ro_mask) = Z.ones (wd "ro") ∧
  if is_mop s then
    m.(hi_pos) = position wd fs "hi" ∧ m.(hi_mask) = Z.ones (wd "hi") ∧
    m.(lo_pos) = position wd fs "lo" ∧ m.(lo_mask) = Z.ones (wd "lo")
  else m.(co_pos) = position wd fs "co" ∧ m.(co_mask) = Z.ones (wd "co").
Proof.
  unfold SetAddressMapping. rewrite LogBase2_eq by apply i32_is. cbn [mbind outcome_bind].
  rewrite field_widths_eq. cbn [mbind outcome_bind].
  change (Z.of_nat (String.length s.(address_mapping)) =? 14) with (is_mop s).
  assert (negb (Z.of_nat (String.length s.(address_mapping)) =? 12) && negb (is_mop s) = false) as ->.
  { destruct (ly_length _ _ _ Hok) as [-> | ->]; [by rewrite andb_false_r|done]. }
  change (reverse (split2 s.(address_mapping))) with fs.
  pose proof (ly_total _ _ _ Hok).
  destruct (place_fields_spec wd (widths_map s d ranks) fs ∅ 0) as (fp & -> & Hfp);
    [apply widths_layout|intros; apply field_width_range|apply layout_nodup|lia|lia|].
  cbn [mbind outcome_bind].
  assert (∀ f, f ∈ layout_fields (is_mop s) → map_at fp f = Ret (position wd fs f)) as Hp.
  { intros f Hf. unfold map_at. rewrite Hfp, decide_True; [done|]. by rewrite (ly_fields _ _ _ Hok). }
  assert (∀ f, f ∈ layout_fields (is_mop s) →
    field_mask (widths_map s d ranks) f = Ret (Z.ones (wd f))) as Hm.
  { intros f Hf. apply field_mask_eq; [|apply field_width_range].
    apply widths_layout. by rewrite (ly_fields _ _ _ Hok). }
  unfold layout_fields in *. destruct (is_mop s);
    rewrite !Hp, !Hm by (simpl; set_solver); cbn [mbind outcome_bind];
    eexists; split; try reflexivity; done.
Qed.

Lemma digit_range x p f : 0 <= digit_at x p (wd f) < 2 ^ wd f.
Proof. pose proof (field_width_range f). apply Z.mod_pos_bound. lia. Qed.
Lemma position_range f : f ∈ fs → 0 <= position wd fs f < 64.
Proof.
  intros Hf. pose proof (ly_total _ _ _ Hok). pose proof (field_width_range f).
  pose proof (position_width wd (λ g, proj1 (field_width_range g)) fs f Hf).
  pose proof (position_nonneg wd (λ g, proj1 (field_width_range g)) fs f). lia.
Qed.

(** the high and low parts of a split column, put together *)
Lemma join_column hi lo :
  is_mop s = true → 0 <= hi < 2 ^ wd "hi" → 0 <= lo < 2 ^ wd "lo" →
  ∃ co, (k ← LogBase2 s.(mop_size); h ← shl32 hi k; Ret (Z.lor h lo)) = Ret co ∧
    co / 2 ^ Z.log2 s.(mop_size) = hi ∧ co mod 2 ^ Z.log2 s.(mop_size) = lo.
Proof.
  intros Hm Hhi Hlo. pose proof Hok as [_ _ Hi Hc _ _]. rewrite !Forall_cons in Hi.
  destruct Hi as (H1 & H2 & _ & _ & _ & _ & _ & H8 & _).
  rewrite LogBase2_eq by done. cbn [mbind outcome_bind].
  apply log2_i32 in H1, H2, H8. set (k := Z.log2 (mop_size s)) in *.
  assert (wd "lo" = k) as El by done.
  assert (wd "hi" = Z.log2 (columns d) - Z.log2 (BL d) - k) as Eh by done.
  rewrite El, Eh in *. rewrite shl32_ok by lia. cbn [mbind outcome_bind].
  assert (hi * 2 ^ k < 2 ^ 31).
  { apply Z.lt_le_trans with (2 ^ (Z.log2 (columns d) - Z.log2 (BL d) - k) * 2 ^ k);
      [apply Z.mul_lt_mono_pos_r; lia|].
    rewrite <- Z.pow_add_r by lia. apply Z.pow_le_mono_r; lia. }
  change (2 ^ 31) with 2147483648 in *. rewrite Z.shiftl_mul_pow2 by lia.
  rewrite i32_id by (unfold is_i32; nia). exists (hi * 2 ^ k + lo). split.
  - f_equal. pose proof (Z.add_lor_land (hi * 2 ^ k) lo) as Ha.
    assert (Z.land (hi * 2 ^ k) lo = 0) as Hl; [|lia].
    rewrite <- (Z.mod_small lo (2 ^ k)), <- Z.land_ones, (Z.land_comm lo), Z.land_assoc, Z.land_ones by lia.
    by rewrite Z.mod_mul by lia.
  - rewrite Z.div_add_l, Z.div_small, (Z.add_comm _ lo), Z.mod_add, Z.mod_small by lia. lia.
Qed.

(** the decoded address holds the digits of the request number *)
Lemma AddressMapping_spec m hex :
  SetAddressMapping s d ranks = Ret m → 0 <= hex →
  ∃ a, AddressMapping m s.(mop_size) hex = Ret a ∧ m.(shift_bits) = shift ∧
    ∀ f, f ∈ fs → addr_field (Z.log2 s.(mop_size)) a f =
      digit_at (hex / 2 ^ shift) (position wd fs f) (wd f).
Proof.
  intros Hm Hhex. destruct SetAddressMapping_spec as (m' & Hm' & Hs & Hmop & E1 & F1 & E2 & F2 &
    E3 & F3 & E4 & F4 & E5 & F5 & Eco). rewrite Hm in Hm'. injection Hm' as <-.
  pose proof (log2_i32 _ (i32_is (Z.quot (bus_width s) 8 * BL d))) as Hsh.
  unfold AddressMapping. rewrite Hs, shr64_ok by lia. cbn [mbind outcome_bind].
  rewrite Z.shiftr_div_pow2 by lia. set (x := hex / 2 ^ shift).
  assert (0 <= x) by (apply Z.div_pos; lia).
  assert (∀ f, f ∈ layout_fields (is_mop s) →
    field x (position wd fs f) (Z.ones (wd f)) = Ret (digit_at x (position wd fs f) (wd f))) as Hf.
  { intros f Hf. rewrite <- (ly_fields _ _ _ Hok) in Hf.
    apply field_eq; [done|by apply position_range|apply field_width_range]. }
  rewrite E1, F1, E2, F2, E3, F3, E4, F4, E5, F5, Hmop.
  unfold layout_fields in *. destruct (is_mop s) eqn:Em.
  - destruct Eco as (E6 & F6 & E7 & F7). rewrite E6, F6, E7, F7.
    rewrite !Hf by (simpl; set_solver). cbn [mbind outcome_bind].
    destruct (join_column (digit_at x (position wd fs "hi") (wd "hi"))
      (digit_at x (position wd fs "lo") (wd "lo")) Em) as (co & -> & Hhi & Hlo);
      [apply digit_range..|]. cbn [mbind outcome_bind].
    eexists. split; [done|]. split; [done|]. intros f Hff. rewrite (ly_fields _ _ _ Hok), Em in Hff.
    simpl in Hff. repeat (apply elem_of_cons in Hff as [->|Hff]; [first [done|exact Hhi|exact Hlo]|]).
    by apply elem_of_nil in Hff.
  - destruct Eco as (E6 & F6). rewrite E6, F6.
    rewrite !Hf by (simpl; set_solver). cbn [mbind outcome_bind].
    eexists. split; [done|]. split; [done|]. intros f Hff. rewrite (ly_fields _ _ _ Hok), Em in Hff.
    simpl in Hff. repeat (apply elem_of_cons in Hff as [->|Hff]; [done|]). by apply elem_of_nil in Hff.
Qed.

(** an address is determined by its fields *)
Lemma address_ext a b :
  (∀ f, f ∈ fs → addr_field (Z.log2 s.(mop_size)) a f = addr_field (Z.log2 s.(mop_size)) b f) → a = b.
Proof.
  intros H. assert (∀ f, f ∈ layout_fields (is_mop s) →
    addr_field (Z.log2 s.(mop_size)) a f = addr_field (Z.log2 s.(mop_size)) b f) as H'.
  { intros f Hf. apply H. by rewrite (ly_fields _ _ _ Hok). }
  clear H. unfold layout_fields in H'.
  pose proof (H' "ch"%string ltac:(simpl; set_solver)) as H1.
  pose proof (H' "ra"%string ltac:(simpl; set_solver)) as H2.
  pose proof (H' "bg"%string ltac:(simpl; set_solver)) as H3.
  pose proof (H' "ba"%string ltac:(simpl; set_solver)) as H4.
  pose proof (H' "ro"%string ltac:(simpl; set_solver)) as H5.
  cbv [addr_field String.eqb Ascii.eqb Bool.eqb] in H1, H2, H3, H4, H5.
  assert (column a = column b) as H6.
  { destruct (is_mop s).
    - pose proof (H' "hi"%string ltac:(simpl; set_solver)) as H6.
      pose proof (H' "lo"%string ltac:(simpl; set_solver)) as H7.
      cbv [addr_field String.eqb Ascii.eqb Bool.eqb] in H6, H7.
      pose proof (Z.pow_pos_nonneg 2 (Z.log2 (mop_size s)) ltac:(lia) (Z.log2_nonneg _)).
      rewrite (Z.div_mod (column a) (2 ^ Z.log2 (mop_size s))) by lia. rewrite H6, H7.
      symmetry. apply Z.div_mod. lia.
    - exact (H' "co"%string ltac:(simpl; set_solver)). }
  destruct a, b. cbn in *. congruence.
Qed.
End Layout.

(** C11. Decoding is a bijection: for every order of the fields in the layout string, every
    64-bit address decodes to an address whose fields are in range and pack back to its
    request number, and every address in range is decoded from exactly that number. *)
Theorem address_mapping_bijective (s : SystemParams) (d : DRAMParams) (ranks : Z) :
  layout_ok s d ranks →
  ∃ m, SetAddressMapping s d ranks = Ret m ∧
    (∀ hex, is_u64 hex → ∃ a, AddressMapping m s.(mop_size) hex = Ret a ∧ addr_in s d ranks a ∧
       request_of s d ranks a =
         hex / 2 ^ m.(shift_bits) mod 2 ^ width (field_width s d ranks) (layout s)) ∧
    (∀ a, addr_in s d ranks a →
       is_u64 (request_of s d ranks a * 2 ^ m.(shift_bits)) ∧
       AddressMapping m s.(mop_size) (request_of s d ranks a * 2 ^ m.(shift_bits)) = Ret a).
Proof.
  intros Hok. destruct (SetAddressMapping_spec s d ranks Hok) as (m & Hm & Hs & _).
  exists m. split; [done|]. pose proof (λ f, proj1 (field_width_range s d ranks Hok f)) as Hnn.
  split.
  - intros hex Hhex. destruct (AddressMapping_spec s d ranks Hok m hex Hm ltac:(apply Hhex)) as (a & Ha & _ & Hf).
    exists a. split; [done|]. split.
    + intros f Hff. rewrite Hf by done. by apply digit_range.
    + unfold request_of. rewrite (pack_ext _ _ _ _ Hf), Hs. apply pack_digits; [done|].
      by eapply layout_nodup.
  - intros a Ha. pose proof (pack_range _ Hnn _ _ Ha) as Hr. fold (request_of s d ranks a) in Hr.
    pose proof (log2_i32 _ (i32_is (Z.quot (bus_width s) 8 * BL d))) as Hsh. rewrite <- Hs in Hsh.
    pose proof (ly_request _ _ _ Hok) as Hq. rewrite <- Hs in Hq. unfold is_u64 in *.
    pose proof (Z.pow_pos_nonneg 2 (shift_bits m) ltac:(lia) ltac:(lia)).
    split; [nia|].
    destruct (AddressMapping_spec s d ranks Hok m (request_of s d ranks a * 2 ^ shift_bits m) Hm
      ltac:(nia)) as (b & -> & _ & Hf).
    f_equal. apply (address_ext s d ranks Hok). intros f Hff. rewrite Hf by done.
    rewrite <- Hs, Z.div_mul by lia. apply digit_pack; try done. by eapply layout_nodup.
Qed.

(** ** The configuration of config_dramsim3/prac/baseline.ini *)
Definition baseline_ini : INIReader := mkINI 0 (list_to_map [
  ("dram_structure=protocol", "DDR5"); ("dram_structure=bankgroups", "8");
  ("dram_structure=banks_per_group", "4"); ("dram_structure=rows", "65536");
  ("dram_structure=columns", "2048"); ("dram_structure=device_width", "4");
  ("dram_structure=bl", "16"); ("system=channel_size", "16384"); ("system=channels", "2");
  ("system=bus_width", "32"); ("system=address_mapping", "rohirababgchlo");
  ("system=mop_size", "4"); ("system=cmd_queue_size", "32"); ("system=trans_queue_size", "128");
  ("system=moatath", "128"); ("system=pacprob", "8"); ("system=mopacrefupdates", "1");
  ("system=mopacqueuethreshold", "32");
  ("timing=cl", "28"); ("timing=cwl", "26"); ("timing=trcd", "33"); ("timing=trfc", "984");
  ("timing=trfcsb", "456"); ("timing=trfcb", "528"); ("timing=trefi", "9390");
  ("timing=trefisb", "1170"); ("timing=trefib", "4680"); ("timing=trrd_s", "8");
  ("timing=trrd_l", "12"); ("timing=twtr_s", "6"); ("timing=twtr_l", "24"); ("timing=tfaw", "32");
  ("timing=twr", "24"); ("timing=trtp", "12"); ("timing=tccd_s", "8"); ("timing=tccd_l", "12");
  ("timing=tcke", "8"); ("timing=tckesr", "13"); ("timing=txs", "984"); ("timing=txp", "18");
  ("timing=trtrs", "2"); ("timing=trp", "33"); ("timing=tras", "76"); ("timing=trp2", "86");
  ("timing=tras2", "38"); ("rfm=raaimt", "16"); ("rfm=raammt", "48");
  ("rfm=rfm_raa_decrement", "16"); ("rfm=ref_raa_decrement", "16"); ("rfm=trfm", "840");
  ("alert=alert_mode", "1"); ("alert=refchunks", "8192"); ("alert=tabo", "0");
  ("other=epoch_period", "100000000"); ("other=output_prefix", "DDR5_baseline")]%string).
#[export] Instance no_reals : Strtod | 10 := λ _, None.
Definition baseline_result : outcome Config :=
  Eval vm_compute in Config_new (λ _, true) baseline_ini "out".
Definition baseline : Config :=
  Eval cbv in match baseline_result with
    | Ret c => c
    | Fault _ => mkConfig (mkSystem 0 0 0 "" 0 "" OPEN_PAGE 0 0 false 0 NO_REFRESH false 0 false 0 0 0 0 0 0 0)
        (mkDRAMParams DDR3 0 0 0 0 0 0 0 0 false 0 0 0 0 0 0) (mkSize 0 0 0)
        (mkMapping 0 0 false 0 0 0 0 0 0 0 0 0 0 0 0 0 0 0 0)
        (InitTimingParams baseline_ini 0)
        (mkPower (double_of_Z 0) (double_of_Z 0) (double_of_Z 0) (double_of_Z 0) (double_of_Z 0)
           (double_of_Z 0) (double_of_Z 0) (double_of_Z 0) (double_of_Z 0))
        (mkOther 0 0 "" "" "" "" "") (mkRFM 0 0 0 0 0 0 0) (mkALERT 0 0 0 0) (mkMOAT 0 0)
        (mkMIRZA 0 0 0 0 0 0)
    end.

Lemma baseline_new : Config_new (λ _, true) baseline_ini "out" = Ret baseline.
Proof. vm_compute. reflexivity. Qed.

Lemma baseline_layout : layout_ok baseline baseline baseline.(ranks).
Proof.
  split.
  - apply NoDup_Permutation; [apply (bool_decide_unpack _); vm_compute; done..|].
    intros f. vm_compute. set_solver.
  - left. done.
  - repeat constructor; vm_compute; done.
  - vm_compute. done.
  - vm_compute. done.
  - vm_compute. done.
Qed.

Lemma address_mapping_bijective_witness :
  layout baseline = ["lo"; "ch"; "bg"; "ba"; "ra"; "hi"; "ro"]%string ∧
  ∃ m a, SetAddressMapping baseline baseline baseline.(ranks) = Ret m ∧
    AddressMapping m 4 4886718336 = Ret a ∧
    request_of baseline baseline baseline.(ranks) a = 4886718336 / 2 ^ m.(shift_bits) mod 2 ^ 29.
Proof.
  split; [reflexivity|].
  destruct (address_mapping_bijective baseline baseline baseline.(ranks) baseline_layout)
    as (m & Hm & Hdec & _).
  destruct (Hdec 4886718336 ltac:(vm_compute; done)) as (a & Ha & _ & Hr).
  exists m, a. split; [exact Hm|]. split; [exact Ha|exact Hr].
Defined.
