(* ===== verification/Timing.v ===== *)
(** * DRAMsim3: timing tables (DRAMsim3/src/timing.h, timing.cc)

    For every command, which later commands it delays and by how many cycles: seven
    tables, one per scope, each a vector of rows indexed by the first command. The
    constructor fills them command by command, then copies the precharge rows and
    entries to their PRAC variants and overrides the PRAC delays. *)
From S2P Require Import Prelude Common Config.

(** [std::vector<std::vector<std::pair<CommandType, int>>>] *)
Definition TVEC : Type := list (list (CommandType * Z)).

Record Timing := mkTiming {
  same_bank : TVEC;
  other_banks_same_bankgroup : TVEC;
  other_bankgroups_same_rank : TVEC;
  other_ranks : TVEC;
  same_rank : TVEC;
  same_bankset : TVEC;
  other_banksets : TVEC
}.

(** [timing[static_cast<int>(c)] = l] and its lookup, for the commands before [SIZE] *)
Definition set_row (c : CommandType) (l : list (CommandType * Z)) (t : TVEC) : TVEC :=
  <[Z.to_nat (ct_int c) := l]> t.
Definition row_of (t : TVEC) (c : CommandType) : list (CommandType * Z) :=
  default [] (t !! Z.to_nat (ct_int c)).
Definition tvec0 : TVEC := replicate 16 [].
Definition Timing0 : Timing := mkTiming tvec0 tvec0 tvec0 tvec0 tvec0 tvec0 tvec0.

(** ** The local variables of the constructor; [int] arithmetic wraps *)
Record Delays := mkDelays {
  read_to_read_l : Z; read_to_read_s : Z; read_to_read_o : Z;
  read_to_write : Z; read_to_write_o : Z; read_to_precharge : Z; readp_to_act : Z;
  write_to_read_l : Z; write_to_read_s : Z; write_to_read_o : Z;
  write_to_write_l : Z; write_to_write_s : Z; write_to_write_o : Z; write_to_precharge : Z;
  precharge_to_activate : Z; precharge_to_precharge : Z;
  read_to_activate : Z; write_to_activate : Z;
  activate_to_activate : Z; activate_to_activate_l : Z; activate_to_activate_s : Z;
  activate_to_precharge : Z; activate_to_read : Z; activate_to_write : Z;
  activate_to_refresh : Z; activate_to_refsb : Z;
  refresh_to_refresh_bank : Z; refresh_to_activate : Z; refsb_to_activate : Z;
  refresh_to_activate_bank : Z; refsb_to_activate_other : Z;
  self_refresh_entry_to_exit : Z; self_refresh_exit : Z;
  rfmab_to_activate : Z; rfmsb_to_activate : Z;
  readp_to_act_2 : Z; activate_to_precharge_2 : Z; precharge_to_activate_2 : Z;
  read_to_activate_2 : Z; write_to_activate_2 : Z
}.

Definition delays (c : Config) : Delays :=
  let burst := c.(burst_cycle) in
  let one := c.(bankgroups) =? 1 in
  let read_to_read_s := Z.max burst c.(tCCD_S) in
  let read_to_precharge := i32 (c.(AL) + c.(tRTP)) in
  let write_to_precharge := i32 (c.(WL) + burst + c.(tWR)) in
  let act_to_rw rcd := if IsGDDR c || IsHBM c then rcd else i32 (c.(tRCD) - c.(AL)) in
  {| read_to_read_l := if one then read_to_read_s else Z.max burst c.(tCCD_L);
     read_to_read_s := read_to_read_s;
     read_to_read_o := i32 (burst + c.(tRTRS));
     read_to_write := i32 (c.(RL) + burst - c.(WL) + c.(tRTRS));
     read_to_write_o := i32 (c.(read_delay) + burst + c.(tRTRS) - c.(write_delay));
     read_to_precharge := read_to_precharge;
     readp_to_act := i32 (c.(AL) + burst + c.(tRTP) + c.(tRP));
     write_to_read_l := i32 (c.(write_delay) + (if one then c.(tWTR_S) else c.(tWTR_L)));
     write_to_read_s := i32 (c.(write_delay) + c.(tWTR_S));
     write_to_read_o := i32 (c.(write_delay) + burst + c.(tRTRS) - c.(read_delay));
     write_to_write_l := Z.max burst (if one then c.(tCCD_S) else c.(tCCD_L));
     write_to_write_s := Z.max burst c.(tCCD_S);
     write_to_write_o := burst;
     write_to_precharge := write_to_precharge;
     precharge_to_activate := c.(tRP);
     precharge_to_precharge := c.(tPPD);
     read_to_activate := i32 (read_to_precharge + c.(tRP));
     write_to_activate := i32 (write_to_precharge + c.(tRP));
     activate_to_activate := c.(tRC);
     activate_to_activate_l := if one then c.(tRRD_S) else c.(tRRD_L);
     activate_to_activate_s := c.(tRRD_S);
     activate_to_precharge := c.(tRAS);
     activate_to_read := act_to_rw c.(tRCDRD);
     activate_to_write := act_to_rw c.(tRCDWR);
     activate_to_refresh := c.(tRC);
     activate_to_refsb := c.(tRRD_L);
     refresh_to_refresh_bank := c.(tREFIb);
     refresh_to_activate := c.(tRFC);
     refsb_to_activate := c.(tRFCsb);
     refresh_to_activate_bank := c.(tRFCb);
     refsb_to_activate_other := c.(tREFSBRD);
     self_refresh_entry_to_exit := c.(tCKESR);
     self_refresh_exit := c.(tXS);
     rfmab_to_activate := c.(tRFM);
     rfmsb_to_activate := c.(tRFMsb);
     readp_to_act_2 := i32 (c.(AL) + burst + c.(tRTP) + c.(tRP2));
     activate_to_precharge_2 := c.(tRAS2);
     precharge_to_activate_2 := c.(tRP2);
     read_to_activate_2 := i32 (read_to_precharge + c.(tRP2));
     write_to_activate_2 := i32 (write_to_precharge + c.(tRP2)) |}.

(** ** The rows of each command *)

(** the four read and write entries with their delays *)
Definition rw_row (r w : Z) : list (CommandType * Z) :=
  [(READ, r); (WRITE, w); (READ_PRECHARGE, r); (WRITE_PRECHARGE, w)].

Definition read_rows (L : Delays) (T : Timing) : Timing :=
  T <| same_bank ::= set_row READ
         (rw_row L.(read_to_read_l) L.(read_to_write) ++ [(PRECHARGE, L.(read_to_precharge))]) |>
    <| other_banks_same_bankgroup ::= set_row READ (rw_row L.(read_to_read_l) L.(read_to_write)) |>
    <| other_bankgroups_same_rank ::= set_row READ (rw_row L.(read_to_read_s) L.(read_to_write)) |>
    <| other_ranks ::= set_row READ (rw_row L.(read_to_read_o) L.(read_to_write_o)) |>.

Definition write_rows (L : Delays) (T : Timing) : Timing :=
  T <| same_bank ::= set_row WRITE
         (rw_row L.(write_to_read_l) L.(write_to_write_l) ++ [(PRECHARGE, L.(write_to_precharge))]) |>
    <| other_banks_same_bankgroup ::= set_row WRITE (rw_row L.(write_to_read_l) L.(write_to_write_l)) |>
    <| other_bankgroups_same_rank ::= set_row WRITE (rw_row L.(write_to_read_s) L.(write_to_write_s)) |>
    <| other_ranks ::= set_row WRITE (rw_row L.(write_to_read_o) L.(write_to_write_o)) |>.

Definition readp_rows (L : Delays) (T : Timing) : Timing :=
  T <| same_bank ::= set_row READ_PRECHARGE
         [(ACTIVATE, L.(readp_to_act)); (REFsb, L.(read_to_activate)); (REFab, L.(read_to_activate));
          (REFRESH_BANK, L.(read_to_activate)); (SREF_ENTER, L.(read_to_activate));
          (RFMsb, L.(read_to_activate)); (RFMab, L.(read_to_activate))] |>
    <| other_banks_same_bankgroup ::= set_row READ_PRECHARGE (rw_row L.(read_to_read_l) L.(read_to_write)) |>
    <| other_bankgroups_same_rank ::= set_row READ_PRECHARGE (rw_row L.(read_to_read_s) L.(read_to_write)) |>
    <| other_ranks ::= set_row READ_PRECHARGE (rw_row L.(read_to_read_o) L.(read_to_write_o)) |>.

Definition writep_rows (L : Delays) (T : Timing) : Timing :=
  T <| same_bank ::= set_row WRITE_PRECHARGE
         [(ACTIVATE, L.(write_to_activate)); (REFsb, L.(write_to_activate));
          (REFab, L.(write_to_activate)); (REFRESH_BANK, L.(write_to_activate));
          (SREF_ENTER, L.(write_to_activate)); (RFMab, L.(write_to_activate));
          (RFMsb, L.(write_to_activate))] |>
    <| other_banks_same_bankgroup ::= set_row WRITE_PRECHARGE (rw_row L.(write_to_read_l) L.(write_to_write_l)) |>
    <| other_bankgroups_same_rank ::= set_row WRITE_PRECHARGE (rw_row L.(write_to_read_s) L.(write_to_write_s)) |>
    <| other_ranks ::= set_row WRITE_PRECHARGE (rw_row L.(write_to_read_o) L.(write_to_write_o)) |>.

Definition activate_rows (L : Delays) (T : Timing) : Timing :=
  T <| same_bank ::= set_row ACTIVATE
         [(ACTIVATE, L.(activate_to_activate)); (READ, L.(activate_to_read));
          (WRITE, L.(activate_to_write)); (READ_PRECHARGE, L.(activate_to_read));
          (WRITE_PRECHARGE, L.(activate_to_write)); (PRECHARGE, L.(activate_to_precharge))] |>
    <| other_banks_same_bankgroup ::= set_row ACTIVATE
         [(ACTIVATE, L.(activate_to_activate_l)); (REFRESH_BANK, L.(activate_to_refresh));
          (REFsb, L.(activate_to_refsb))] |>
    <| other_bankgroups_same_rank ::= set_row ACTIVATE
         [(ACTIVATE, L.(activate_to_activate_s)); (REFRESH_BANK, L.(activate_to_refresh));
          (REFsb, L.(activate_to_refsb))] |>.

(** [ppd]: the protocol needs tPPD ([IsGDDR()] or LPDDR4) *)
Definition precharge_rows (L : Delays) (ppd : bool) (T : Timing) : Timing :=
  let T := T <| same_bank ::= set_row PRECHARGE
         [(ACTIVATE, L.(precharge_to_activate)); (REFab, L.(precharge_to_activate));
          (REFsb, L.(precharge_to_activate)); (REFRESH_BANK, L.(precharge_to_activate));
          (SREF_ENTER, L.(precharge_to_activate)); (RFMab, L.(precharge_to_activate));
          (RFMsb, L.(precharge_to_activate))] |> in
  if ppd then
    T <| other_banks_same_bankgroup ::= set_row PRECHARGE [(PRECHARGE, L.(precharge_to_precharge))] |>
      <| other_bankgroups_same_rank ::= set_row PRECHARGE [(PRECHARGE, L.(precharge_to_precharge))] |>
  else T.

Definition refresh_bank_rows (L : Delays) (T : Timing) : Timing :=
  T <| same_rank ::= set_row REFRESH_BANK
         [(ACTIVATE, L.(refresh_to_activate_bank)); (REFsb, L.(refresh_to_activate_bank));
          (REFab, L.(refresh_to_activate_bank)); (REFRESH_BANK, L.(refresh_to_activate_bank));
          (SREF_ENTER, L.(refresh_to_activate_bank))] |>
    <| other_banks_same_bankgroup ::= set_row REFRESH_BANK
         [(ACTIVATE, L.(refresh_to_activate)); (REFRESH_BANK, L.(refresh_to_refresh_bank))] |>
    <| other_bankgroups_same_rank ::= set_row REFRESH_BANK
         [(ACTIVATE, L.(refresh_to_activate)); (REFRESH_BANK, L.(refresh_to_refresh_bank))] |>.

Definition rank_rows (L : Delays) (T : Timing) : Timing :=
  T <| same_rank ::= λ t,
    set_row RFMab
      [(ACTIVATE, L.(rfmab_to_activate)); (REFsb, L.(rfmab_to_activate));
       (REFab, L.(rfmab_to_activate)); (REFRESH_BANK, L.(rfmab_to_activate));
       (SREF_ENTER, L.(rfmab_to_activate)); (RFMab, L.(rfmab_to_activate))]
    (set_row SREF_EXIT
      [(ACTIVATE, L.(self_refresh_exit)); (REFsb, L.(self_refresh_exit));
       (REFab, L.(self_refresh_exit)); (REFRESH_BANK, L.(self_refresh_exit));
       (SREF_ENTER, L.(self_refresh_exit))]
    (set_row SREF_ENTER [(SREF_EXIT, L.(self_refresh_entry_to_exit))]
    (set_row REFab
      [(ACTIVATE, L.(refresh_to_activate)); (REFab, L.(refresh_to_activate));
       (REFsb, L.(refresh_to_activate)); (SREF_ENTER, L.(refresh_to_activate));
       (RFMab, L.(refresh_to_activate)); (RFMsb, L.(refresh_to_activate))] t))) |>.

Definition bankset_rows (L : Delays) (T : Timing) : Timing :=
  T <| same_bankset ::= λ t,
    set_row REFsb
      [(ACTIVATE, L.(refsb_to_activate)); (REFsb, L.(refsb_to_activate));
       (REFab, L.(refsb_to_activate)); (SREF_ENTER, L.(refsb_to_activate));
       (RFMab, L.(refsb_to_activate)); (RFMsb, L.(refsb_to_activate))]
    (set_row RFMsb
      [(ACTIVATE, L.(rfmsb_to_activate)); (REFsb, L.(rfmsb_to_activate));
       (REFab, L.(rfmsb_to_activate)); (REFRESH_BANK, L.(rfmsb_to_activate));
       (SREF_ENTER, L.(rfmsb_to_activate)); (RFMsb, L.(rfmsb_to_activate))] t) |>
    <| other_banksets ::= set_row REFsb [(ACTIVATE, L.(refsb_to_activate_other))] |>.

(** ** PRAC variants *)

Definition copy_timing_data_internal (t : TVEC) : TVEC :=
  (λ l, l ++ omap (λ e : CommandType * Z,
    match e.1 with
    | READ_PRECHARGE => Some (READ_PRECHARGE2, e.2)
    | WRITE_PRECHARGE => Some (WRITE_PRECHARGE2, e.2)
    | PRECHARGE => Some (PRECHARGE2, e.2)
    | _ => None
    end) l) <$> t.
Definition copy_timing_data_external (t : TVEC) (from to : CommandType) : TVEC :=
  set_row to (row_of t from) t.
Definition copy_all (t : TVEC) : TVEC :=
  let t := copy_timing_data_internal t in
  let t := copy_timing_data_external t READ_PRECHARGE READ_PRECHARGE2 in
  let t := copy_timing_data_external t WRITE_PRECHARGE WRITE_PRECHARGE2 in
  copy_timing_data_external t PRECHARGE PRECHARGE2.

(** the first entry for [c] in a row *)
Fixpoint set_entry (c : CommandType) (v : Z) (l : list (CommandType * Z)) : list (CommandType * Z) :=
  match l with
  | [] => []
  | e :: l => if ct_eqb e.1 c then (e.1, v) :: l else e :: set_entry c v l
  end.
Definition find_and_set (t : TVEC) (key c : CommandType) (v : Z) : TVEC :=
  set_row key (set_entry c v (row_of t key)) t.

(** the loop over the six refresh commands *)
Definition prac_refresh (L : Delays) (t : TVEC) : TVEC :=
  foldl (λ t c,
    let t := find_and_set t READ_PRECHARGE2 c L.(read_to_activate_2) in
    let t := find_and_set t WRITE_PRECHARGE2 c L.(write_to_activate_2) in
    find_and_set t PRECHARGE2 c L.(precharge_to_activate_2))
    t [REFsb; REFab; REFRESH_BANK; SREF_ENTER; RFMsb; RFMab].

Definition prac_rows (L : Delays) (T : Timing) : Timing :=
  let T := mkTiming (copy_all T.(same_bank)) (copy_all T.(other_banks_same_bankgroup))
    (copy_all T.(other_bankgroups_same_rank)) (copy_all T.(other_ranks)) (copy_all T.(same_rank))
    (copy_all T.(same_bankset)) (copy_all T.(other_banksets)) in
  T <| same_bank ::= λ t,
    let t := find_and_set t ACTIVATE PRECHARGE2 L.(activate_to_precharge_2) in
    let t := find_and_set t READ_PRECHARGE2 ACTIVATE L.(readp_to_act_2) in
    let t := find_and_set t WRITE_PRECHARGE2 ACTIVATE L.(write_to_activate_2) in
    let t := find_and_set t PRECHARGE2 ACTIVATE L.(precharge_to_activate_2) in
    prac_refresh L t |>.

(** ** The constructor *)
Definition build (L : Delays) (ppd : bool) : Timing :=
  let T := read_rows L Timing0 in
  let T := write_rows L T in
  let T := readp_rows L T in
  let T := writep_rows L T in
  let T := activate_rows L T in
  let T := precharge_rows L ppd T in
  let T := refresh_bank_rows L T in
  let T := rank_rows L T in
  let T := bankset_rows L T in
  prac_rows L T.
Definition needs_ppd (c : DRAMParams) : bool := IsGDDR c || bool_decide (c.(protocol) = LPDDR4).
Definition Timing_new (c : Config) : Timing := build (delays c) (needs_ppd c).

(** ** Reference: the constraints by kind of command *)

Inductive scope : Set :=
  | SameBank | OtherBanksSameBankgroup | OtherBankgroupsSameRank | OtherRanks
  | SameRank | SameBankset | OtherBanksets.
Definition table (T : Timing) (s : scope) : TVEC :=
  match s with
  | SameBank => T.(same_bank)
  | OtherBanksSameBankgroup => T.(other_banks_same_bankgroup)
  | OtherBankgroupsSameRank => T.(other_bankgroups_same_rank)
  | OtherRanks => T.(other_ranks)
  | SameRank => T.(same_rank)
  | SameBankset => T.(same_bankset)
  | OtherBanksets => T.(other_banksets)
  end.
(** the delay from [from] to [to] in a scope *)
Definition delay_of (T : Timing) (s : scope) (from to : CommandType) : option Z :=
  snd <$> List.find (λ e, ct_eqb e.1 to) (row_of (table T s) from).

Definition reads (t : CommandType) : bool :=
  match t with READ | READ_PRECHARGE | READ_PRECHARGE2 => true | _ => false end.
Definition writes (t : CommandType) : bool :=
  match t with WRITE | WRITE_PRECHARGE | WRITE_PRECHARGE2 => true | _ => false end.
Definition precharges (t : CommandType) : bool :=
  match t with PRECHARGE | PRECHARGE2 => true | _ => false end.
(** the PRAC variants, which update the row's counter and take longer *)
Definition prac (t : CommandType) : bool :=
  match t with READ_PRECHARGE2 | WRITE_PRECHARGE2 | PRECHARGE2 => true | _ => false end.
(** the commands that need a closed bank, besides [ACTIVATE] *)
Definition needs_closed (t : CommandType) : bool :=
  match t with REFsb | REFab | REFRESH_BANK | SREF_ENTER | RFMsb | RFMab => true | _ => false end.

Definition to_rw (to : CommandType) (r w : Z) : option Z :=
  if reads to then Some r else if writes to then Some w else None.
Definition to_one_of (to : CommandType) (l : list CommandType) (v : Z) : option Z :=
  if existsb (ct_eqb to) l then Some v else None.

(** same bank: a column access, a column access that closes the row, an activation, a
    precharge *)
Definition same_bank_delay (D : Delays) (from to : CommandType) : option Z :=
  match from with
  | READ => if precharges to then Some D.(read_to_precharge)
            else to_rw to D.(read_to_read_l) D.(read_to_write)
  | WRITE => if precharges to then Some D.(write_to_precharge)
             else to_rw to D.(write_to_read_l) D.(write_to_write_l)
  | READ_PRECHARGE | READ_PRECHARGE2 =>
      if ct_eqb to ACTIVATE then Some (if prac from then D.(readp_to_act_2) else D.(readp_to_act))
      else if needs_closed to then
        Some (if prac from then D.(read_to_activate_2) else D.(read_to_activate))
      else None
  | WRITE_PRECHARGE | WRITE_PRECHARGE2 =>
      if ct_eqb to ACTIVATE || needs_closed to then
        Some (if prac from then D.(write_to_activate_2) else D.(write_to_activate))
      else None
  | ACTIVATE =>
      if ct_eqb to ACTIVATE then Some D.(activate_to_activate)
      else if precharges to then
        Some (if prac to then D.(activate_to_precharge_2) else D.(activate_to_precharge))
      else to_rw to D.(activate_to_read) D.(activate_to_write)
  | PRECHARGE | PRECHARGE2 =>
      if ct_eqb to ACTIVATE || needs_closed to then
        Some (if prac from then D.(precharge_to_activate_2) else D.(precharge_to_activate))
      else None
  | _ => None
  end.

(** other banks of the rank: [rr], [wr], [ww], [aa] are the values for the same or for
    another bank group *)
Definition other_bank_delay (D : Delays) (ppd : bool) (rr wr ww aa : Z) (from to : CommandType) : option Z :=
  if reads from then to_rw to rr D.(read_to_write)
  else if writes from then to_rw to wr ww
  else match from with
  | ACTIVATE =>
      match to with
      | ACTIVATE => Some aa
      | REFRESH_BANK => Some D.(activate_to_refresh)
      | REFsb => Some D.(activate_to_refsb)
      | _ => None
      end
  | PRECHARGE | PRECHARGE2 => if ppd && precharges to then Some D.(precharge_to_precharge) else None
  | REFRESH_BANK =>
      match to with
      | ACTIVATE => Some D.(refresh_to_activate)
      | REFRESH_BANK => Some D.(refresh_to_refresh_bank)
      | _ => None
      end
  | _ => None
  end.

Definition reference (D : Delays) (ppd : bool) (s : scope) (from to : CommandType) : option Z :=
  match s with
  | SameBank => same_bank_delay D from to
  | OtherBanksSameBankgroup =>
      other_bank_delay D ppd D.(read_to_read_l) D.(write_to_read_l) D.(write_to_write_l)
        D.(activate_to_activate_l) from to
  | OtherBankgroupsSameRank =>
      other_bank_delay D ppd D.(read_to_read_s) D.(write_to_read_s) D.(write_to_write_s)
        D.(activate_to_activate_s) from to
  | OtherRanks =>
      if reads from then to_rw to D.(read_to_read_o) D.(read_to_write_o)
      else if writes from then to_rw to D.(write_to_read_o) D.(write_to_write_o)
      else None
  | SameRank =>
      match from with
      | REFRESH_BANK =>
          to_one_of to [ACTIVATE; REFsb; REFab; REFRESH_BANK; SREF_ENTER] D.(refresh_to_activate_bank)
      | REFab =>
          to_one_of to [ACTIVATE; REFab; REFsb; SREF_ENTER; RFMab; RFMsb] D.(refresh_to_activate)
      | SREF_ENTER => to_one_of to [SREF_EXIT] D.(self_refresh_entry_to_exit)
      | SREF_EXIT =>
          to_one_of to [ACTIVATE; REFsb; REFab; REFRESH_BANK; SREF_ENTER] D.(self_refresh_exit)
      | RFMab =>
          to_one_of to [ACTIVATE; REFsb; REFab; REFRESH_BANK; SREF_ENTER; RFMab] D.(rfmab_to_activate)
      | _ => None
      end
  | SameBankset =>
      match from with
      | RFMsb =>
          to_one_of to [ACTIVATE; REFsb; REFab; REFRESH_BANK; SREF_ENTER; RFMsb] D.(rfmsb_to_activate)
      | REFsb =>
          to_one_of to [ACTIVATE; REFsb; REFab; SREF_ENTER; RFMab; RFMsb] D.(refsb_to_activate)
      | _ => None
      end
  | OtherBanksets =>
      match from with REFsb => to_one_of to [ACTIVATE] D.(refsb_to_activate_other) | _ => None end
  end.

Lemma build_reference D ppd s from to :
  delay_of (build D ppd) s from to = reference D ppd s from to.
Proof. destruct D, ppd, s, from, to; vm_compute; reflexivity. Qed.

(** ** The delays in terms of the parameters *)

Definition small (x : Z) : Prop := 0 <= x <= 1048576.
Record timing_ok (c : Config) : Prop := {
  to_small : Forall small [c.(burst_cycle); c.(AL); c.(CL); c.(CWL); c.(tCCD_L); c.(tCCD_S);
    c.(tRTRS); c.(tRTP); c.(tWTR_L); c.(tWTR_S); c.(tWR); c.(tRP); c.(tRRD_L); c.(tRRD_S);
    c.(tRAS); c.(tRCD); c.(tCKESR); c.(tXS); c.(tREFSBRD); c.(tRFC); c.(tRFCsb); c.(tRFCb);
    c.(tREFIb); c.(tPPD); c.(tRCDRD); c.(tRCDWR); c.(tRP2); c.(tRAS2); c.(tRFM); c.(tRFMsb)];
  to_RL : c.(RL) = c.(AL) + c.(CL);
  to_WL : c.(WL) = c.(AL) + c.(CWL);
  to_read : c.(read_delay) = c.(RL) + c.(burst_cycle);
  to_write : c.(write_delay) = c.(WL) + c.(burst_cycle);
  to_RC : c.(tRC) = c.(tRAS) + c.(tRP);
  (* an access follows its activation, a write does not overtake a read *)
  to_RCD : c.(AL) <= c.(tRCD);
  to_turn : c.(CWL) <= c.(CL) + c.(burst_cycle) + c.(tRTRS);
  to_turn' : c.(CL) <= c.(CWL) + c.(burst_cycle) + c.(tRTRS)
}.

(** tXXX_L is for banks of one group; with one group the device runs at tXXX_S *)
Definition long {A} (c : Config) (l s : A) : A := if c.(bankgroups) =? 1 then s else l.

Definition gaps (c : Config) : Delays :=
  let burst := c.(burst_cycle) in
  let rd_pre := c.(AL) + c.(tRTP) in
  let wr_pre := c.(AL) + c.(CWL) + burst + c.(tWR) in
  let rcd n := if IsGDDR c || IsHBM c then n else c.(tRCD) - c.(AL) in
  {| read_to_read_l := Z.max burst (long c c.(tCCD_L) c.(tCCD_S));
     read_to_read_s := Z.max burst c.(tCCD_S);
     read_to_read_o := burst + c.(tRTRS);
     read_to_write := c.(CL) + burst - c.(CWL) + c.(tRTRS);
     read_to_write_o := c.(CL) + burst - c.(CWL) + c.(tRTRS);
     read_to_precharge := rd_pre;
     readp_to_act := rd_pre + burst + c.(tRP);
     write_to_read_l := c.(AL) + c.(CWL) + burst + long c c.(tWTR_L) c.(tWTR_S);
     write_to_read_s := c.(AL) + c.(CWL) + burst + c.(tWTR_S);
     write_to_read_o := c.(CWL) - c.(CL) + burst + c.(tRTRS);
     write_to_write_l := Z.max burst (long c c.(tCCD_L) c.(tCCD_S));
     write_to_write_s := Z.max burst c.(tCCD_S);
     write_to_write_o := burst;
     write_to_precharge := wr_pre;
     precharge_to_activate := c.(tRP);
     precharge_to_precharge := c.(tPPD);
     read_to_activate := rd_pre + c.(tRP);
     write_to_activate := wr_pre + c.(tRP);
     activate_to_activate := c.(tRAS) + c.(tRP);
     activate_to_activate_l := long c c.(tRRD_L) c.(tRRD_S);
     activate_to_activate_s := c.(tRRD_S);
     activate_to_precharge := c.(tRAS);
     activate_to_read := rcd c.(tRCDRD);
     activate_to_write := rcd c.(tRCDWR);
     activate_to_refresh := c.(tRAS) + c.(tRP);
     activate_to_refsb := c.(tRRD_L);
     refresh_to_refresh_bank := c.(tREFIb);
     refresh_to_activate := c.(tRFC);
     refsb_to_activate := c.(tRFCsb);
     refresh_to_activate_bank := c.(tRFCb);
     refsb_to_activate_other := c.(tREFSBRD);
     self_refresh_entry_to_exit := c.(tCKESR);
     self_refresh_exit := c.(tXS);
     rfmab_to_activate := c.(tRFM);
     rfmsb_to_activate := c.(tRFMsb);
     readp_to_act_2 := rd_pre + burst + c.(tRP2);
     activate_to_precharge_2 := c.(tRAS2);
     precharge_to_activate_2 := c.(tRP2);
     read_to_activate_2 := rd_pre + c.(tRP2);
     write_to_activate_2 := wr_pre + c.(tRP2) |}.

Ltac small_params H :=
  let Hs := fresh in
  pose proof (to_small _ H) as Hs; rewrite !Forall_cons in Hs; unfold small in Hs;
  destruct_and? Hs.

Lemma delays_gaps c : timing_ok c → delays c = gaps c.
Proof.
  intros H. small_params H. destruct H as [_ E1 E2 E3 E4 E5 ? ? ?].
  unfold delays, gaps, long. rewrite E3, E4, E5, E1, E2.
  destruct (bankgroups c =? 1), (IsGDDR c || IsHBM c);
    f_equal; try reflexivity; unwrapi; lia.
Qed.

Lemma reference_range D ppd s from to d lo hi :
  lo <= hi →
  Forall (λ x, lo <= x <= hi) [D.(read_to_read_l); D.(read_to_read_s); D.(read_to_read_o);
    D.(read_to_write); D.(read_to_write_o); D.(read_to_precharge); D.(readp_to_act);
    D.(write_to_read_l); D.(write_to_read_s); D.(write_to_read_o); D.(write_to_write_l);
    D.(write_to_write_s); D.(write_to_write_o); D.(write_to_precharge);
    D.(precharge_to_activate); D.(precharge_to_precharge); D.(read_to_activate);
    D.(write_to_activate); D.(activate_to_activate); D.(activate_to_activate_l);
    D.(activate_to_activate_s); D.(activate_to_precharge); D.(activate_to_read);
    D.(activate_to_write); D.(activate_to_refresh); D.(activate_to_refsb);
    D.(refresh_to_refresh_bank); D.(refresh_to_activate); D.(refsb_to_activate);
    D.(refresh_to_activate_bank); D.(refsb_to_activate_other);
    D.(self_refresh_entry_to_exit); D.(self_refresh_exit); D.(rfmab_to_activate);
    D.(rfmsb_to_activate); D.(readp_to_act_2); D.(activate_to_precharge_2);
    D.(precharge_to_activate_2); D.(read_to_activate_2); D.(write_to_activate_2)] →
  reference D ppd s from to = Some d → lo <= d <= hi.
Proof.
  intros Hlh Hall. rewrite !Forall_cons in Hall. destruct_and? Hall.
  destruct s, from; cbn; try done; destruct to; cbn; try done;
    try (intros [= <-]; done); destruct ppd; cbn; try done; intros [= <-]; done.
Qed.

(** C14. The seven tables hold exactly the constraints of the reference matrix, computed
    from the parameters of the configuration, PRAC variants included, and every delay is
    a non-negative number of cycles. *)
Theorem timing_tables_reference (c : Config) :
  timing_ok c →
  ∀ s from to,
    delay_of (Timing_new c) s from to = reference (gaps c) (needs_ppd c) s from to ∧
    ∀ d, delay_of (Timing_new c) s from to = Some d → 0 <= d <= 8388608.
Proof.
  intros Hok s from to. unfold Timing_new. rewrite build_reference, delays_gaps by done.
  split; [done|]. intros d. apply reference_range; [lia|].
  small_params Hok. destruct Hok as [_ _ _ _ _ _ ? ? ?].
  repeat (apply Forall_cons; split); try apply Forall_nil; try done; cbn; unfold long;
    repeat case_match; lia.
Qed.

Lemma baseline_timing_ok : timing_ok baseline.
Proof. split; [repeat constructor; vm_compute; done|try reflexivity; vm_compute; discriminate..]. Qed.

Lemma timing_tables_reference_witness :
  delay_of (Timing_new baseline) SameBank ACTIVATE PRECHARGE2 = Some 38 ∧
  delay_of (Timing_new baseline) SameBank PRECHARGE2 REFab = Some 86 ∧
  delay_of (Timing_new baseline) OtherBanksSameBankgroup READ WRITE_PRECHARGE2 = Some 12.
Proof.
  pose proof (timing_tables_reference baseline baseline_timing_ok) as H.
  split; [|split].
  - rewrite (proj1 (H SameBank ACTIVATE PRECHARGE2)). reflexivity.
  - rewrite (proj1 (H SameBank PRECHARGE2 REFab)). reflexivity.
  - rewrite (proj1 (H OtherBanksSameBankgroup READ WRITE_PRECHARGE2)). reflexivity.
Defined.
