(* ===== verification/Stats.v ===== *)
(** * DRAMsim3: statistics (DRAMsim3/src/simple_stats.h, simple_stats.cc)

    Counters, vectors of counters and histograms, each kept for the epoch and in total;
    the end of an epoch and the final summary with the energy and latency figures.
    Header strings and the JSON and text output are left out. *)
From S2P Require Import Prelude Config.

Record SimpleStats := mkStats {
  counters_ : gmap string Z; epoch_counters_ : gmap string Z;
  vec_counters_ : gmap string (list Z); epoch_vec_counters_ : gmap string (list Z);
  doubles_ : gmap string double; vec_doubles_ : gmap string (list double);
  calculated_ : gmap string double;
  histo_bounds_ : gmap string (Z * Z); bin_widths_ : gmap string Z;
  histo_counts_ : gmap string (gmap Z Z); epoch_histo_counts_ : gmap string (gmap Z Z);
  histo_bins_ : gmap string (list Z); epoch_histo_bins_ : gmap string (list Z)
}.
Definition stats0 : SimpleStats := mkStats ∅ ∅ ∅ ∅ ∅ ∅ ∅ ∅ ∅ ∅ ∅ ∅ ∅.

Definition d0 : double := double_of_Z 0.

(** [m.emplace(k, v)] keeps an existing entry; [m[k]] reads a missing entry as empty;
    [m.at(k)] throws *)
Definition emplace {A} (k : string) (v : A) (m : gmap string A) : gmap string A :=
  match m !! k with Some _ => m | None => <[k := v]> m end.
Definition ctr (m : gmap string Z) (k : string) : Z := default 0 (m !! k).
Definition vec {A} (m : gmap string (list A)) (k : string) : list A := default [] (m !! k).
Definition at_ {A} (m : gmap string A) (k : string) : outcome A :=
  match m !! k with Some v => Ret v | None => Fault Throw end.

(** ** Events *)

Definition Increment (name : string) (st : SimpleStats) : SimpleStats :=
  st <| epoch_counters_ ::= λ m, <[name := u64 (ctr m name + 1)]> m |>.
Definition GetCtr (st : SimpleStats) (name : string) : Z := ctr st.(counters_) name.
Definition GetECtr (st : SimpleStats) (name : string) : Z := ctr st.(epoch_counters_) name.

Definition IncrementVecBy (name : string) (pos num : Z) (st : SimpleStats) : outcome SimpleStats :=
  let v := vec st.(epoch_vec_counters_) name in
  x ← aget v pos;
  v ← aset v pos (u64 (x + num));
  Ret (st <| epoch_vec_counters_ ::= <[name := v]> |>).
Definition IncrementVec (name : string) (pos : Z) (st : SimpleStats) : outcome SimpleStats :=
  IncrementVecBy name pos 1 st.

(** one more sample of [value] *)
Definition bump (value n : Z) (m : gmap Z Z) : gmap Z Z :=
  <[value := match m !! value with None => n | Some c => u64 (c + n) end]> m.
(** [value] is an [int] parameter *)
Definition AddValue (name : string) (value : Z) (st : SimpleStats) : SimpleStats :=
  st <| epoch_histo_counts_ ::= λ m, <[name := bump (i32 value) 1 (default ∅ (m !! name))]> m |>.

(** ** Registration *)

Inductive stat_kind : Set := Counter | Double | Calculated.
Definition InitStat (name : string) (k : stat_kind) (st : SimpleStats) : SimpleStats :=
  match k with
  | Counter => st <| counters_ ::= emplace name 0 |> <| epoch_counters_ ::= emplace name 0 |>
  | Double => st <| doubles_ ::= emplace name d0 |>
  | Calculated => st <| calculated_ ::= emplace name d0 |>
  end.
(** [vec_counter] or [vec_double]; a negative length throws *)
Definition InitVecStat (name : string) (counter : bool) (vec_len : Z) (st : SimpleStats) :
    outcome SimpleStats :=
  if vec_len <? 0 then Fault Throw
  else
    let n := Z.to_nat vec_len in
    Ret (if counter then
           st <| vec_counters_ ::= emplace name (replicate n 0) |>
              <| epoch_vec_counters_ ::= emplace name (replicate n 0) |>
         else st <| vec_doubles_ ::= emplace name (replicate n d0) |>).
Definition InitHistoStat (name : string) (start_val end_val num_bins : Z) (st : SimpleStats) :
    outcome SimpleStats :=
  bin_width ← iquot (i32 (end_val - start_val)) num_bins;
  if num_bins + 2 <? 0 then Fault Throw
  else
    let bins := replicate (Z.to_nat (num_bins + 2)) 0 in
    Ret (st <| bin_widths_ ::= emplace name bin_width |>
            <| histo_bounds_ ::= emplace name (start_val, end_val) |>
            <| histo_counts_ ::= emplace name ∅ |> <| epoch_histo_counts_ ::= emplace name ∅ |>
            <| histo_bins_ ::= emplace name bins |> <| epoch_histo_bins_ ::= emplace name bins |>).

Definition counter_names : list string :=
  ["num_cycles"; "epoch_num"; "num_reads_done"; "num_writes_done"; "num_write_buf_hits";
   "num_read_row_hits"; "num_write_row_hits"; "num_read_cmds"; "num_write_cmds"; "num_act_cmds";
   "num_pre_cmds"; "num_pre2_cmds"; "num_ondemand_pres"; "num_refab_cmds"; "num_refsb_cmds";
   "num_refb_cmds"; "num_srefe_cmds"; "num_srefx_cmds"; "hbm_dual_cmds"; "num_rfmab_cmds";
   "num_rfmsb_cmds"; "num_alerts"; "num_write_drains"; "num_opp_write_drains";
   "num_opp_write_drains_post_10M"; "num_moat_mitigations"; "num_mopac_alerts_buf_full";
   "num_mopac_buf_ins"; "num_mopac_alerts_qth"; "rows_ge_32_acts"; "rows_ge_64_acts";
   "rows_ge_128_acts"; "rows_ge_200_acts"; "rows_ge_256_acts"]%string.
Definition double_names : list string :=
  ["act_energy"; "read_energy"; "write_energy"; "ref_energy"; "refb_energy"]%string.
Definition calculated_names : list string :=
  ["mean_t_btwn_write_drains"; "mean_t_btwn_opp_write_drains"; "average_row_open_time";
   "average_bandwidth"; "total_energy"; "average_power"; "average_read_latency";
   "average_interarrival"]%string.
(** name, counter or double, length ([None]: one per rank) *)
Definition vec_stats : list (string * bool * option Z) :=
  [("prac_per_tREFI"%string, true, Some 13); ("acts_per_tREFI"%string, true, Some 13);
   ("all_bank_idle_cycles"%string, true, None); ("rank_active_cycles"%string, true, None);
   ("sref_cycles"%string, true, None); ("act_stb_energy"%string, false, None);
   ("pre_stb_energy"%string, false, None); ("sref_energy"%string, false, None)].
Definition histo_stats : list (string * Z * Z) :=
  [("read_latency"%string, 200, 10); ("write_latency"%string, 200, 10);
   ("interarrival_latency"%string, 100, 10); ("t_btwn_write_drains"%string, 10000, 10);
   ("t_btwn_opp_write_drains"%string, 10000, 10); ("row_open_time"%string, 32, 8)].

(** The registrations touch different maps, so that they may be grouped by kind. *)
Definition SimpleStats_new (ranks : Z) : outcome SimpleStats :=
  let st := foldl (λ st n, InitStat n Counter st) stats0 counter_names in
  let st := foldl (λ st n, InitStat n Double st) st double_names in
  let st := foldl (λ st n, InitStat n Calculated st) st calculated_names in
  st ← foldl (λ st e, st ← st; InitVecStat e.1.1 e.1.2 (default ranks e.2) st) (Ret st) vec_stats;
  foldl (λ st e, st ← st; InitHistoStat e.1.1 0 e.1.2 e.2 st) (Ret st) histo_stats.

(** ** Totals *)

(** [it.second = 0] and [std::fill(vec.begin(), vec.end(), 0)] over a map *)
Definition zeros {A} (z : A) (m : gmap string A) : gmap string A := (λ _, z) <$> m.
Definition zero_vecs {A} (z : A) (m : gmap string (list A)) : gmap string (list A) :=
  (λ l : list A, (λ _ : A, z) <$> l) <$> m.
Definition clear_histos (m : gmap string (gmap Z Z)) : gmap string (gmap Z Z) := (λ _, ∅) <$> m.
Definition Reset (st : SimpleStats) : SimpleStats :=
  st <| counters_ ::= zeros 0 |> <| epoch_counters_ ::= zeros 0 |>
     <| vec_counters_ ::= zero_vecs 0 |> <| epoch_vec_counters_ ::= zero_vecs 0 |>
     <| doubles_ ::= zeros d0 |> <| vec_doubles_ ::= zero_vecs d0 |>
     <| calculated_ ::= zeros d0 |>
     <| histo_counts_ ::= clear_histos |> <| epoch_histo_counts_ ::= clear_histos |>.

(** [v1[i] += v2[i]] for the indices of [v2] *)
Definition add_vec (v1 v2 : list Z) : outcome (list Z) :=
  if zlen v1 <? zlen v2 then Fault OutOfRange
  else Ret (zip_with (λ x y, u64 (x + y)) (take (length v2) v1) v2 ++ drop (length v2) v1).
(** adds a map of vectors to another, name by name *)
Definition add_vecs (m1 m2 : gmap string (list Z)) : outcome (gmap string (list Z)) :=
  foldl (λ m e, m ← m; v ← add_vec (vec m e.1) e.2; Ret (<[e.1 := v]> m)) (Ret m1) (map_to_list m2).

Definition UpdateCounters (st : SimpleStats) : outcome SimpleStats :=
  vs ← add_vecs st.(vec_counters_) st.(epoch_vec_counters_);
  Ret (st <| counters_ ::= λ m, merge (λ c e,
               match e with Some v => Some (u64 (default 0 c + v)) | None => c end)
               m st.(epoch_counters_) |>
          <| vec_counters_ := vs |>).

(** the bin of a value *)
Definition bin_of (bounds : Z * Z) (bin_width size value : Z) : outcome Z :=
  if value <? bounds.1 then Ret 0
  else if bounds.2 <? value then Ret (size - 1)
  else q ← iquot (i32 (value - bounds.1)) bin_width; Ret (i32 (q + 1)).
Definition fill_bins (bounds : Z * Z) (bin_width : Z) (bins : list Z) (counts : list (Z * Z)) :
    outcome (list Z) :=
  foldl (λ bins e,
    bins ← bins;
    i ← bin_of bounds bin_width (zlen bins) e.1;
    x ← aget bins i;
    aset bins i (u64 (x + e.2))) (Ret ((λ _, 0) <$> bins)) counts.
(** the epoch's bins, recomputed from its samples *)
Definition epoch_bins (st : SimpleStats) : outcome (gmap string (list Z)) :=
  foldl (λ m e,
    m ← m;
    bins ← fill_bins (default (0, 0) (st.(histo_bounds_) !! e.1)) (ctr st.(bin_widths_) e.1) e.2
             (map_to_list (default ∅ (st.(epoch_histo_counts_) !! e.1)));
    Ret (<[e.1 := bins]> m)) (Ret st.(epoch_histo_bins_)) (map_to_list st.(epoch_histo_bins_)).
(** the total samples of a name, with the epoch's added *)
Definition add_counts (total epoch : gmap Z Z) : gmap Z Z :=
  merge (λ t e, match e with
                | Some n => Some (match t with None => n | Some c => u64 (c + n) end)
                | None => t
                end) total epoch.
(** [final_bins[i] += epoch_histo_bins_[name][i]] for the indices of [final_bins] *)
Definition add_bins (final epoch : list Z) : outcome (list Z) :=
  if zlen epoch <? zlen final then Fault OutOfRange
  else Ret (zip_with (λ x y, u64 (x + y)) final epoch).
Definition UpdateHistoBins (st : SimpleStats) : outcome SimpleStats :=
  eb ← epoch_bins st;
  let st := st <| epoch_histo_bins_ := eb |> in
  foldl (λ st e,
    st ← st;
    bins ← add_bins (vec st.(histo_bins_) e.1) (vec st.(epoch_histo_bins_) e.1);
    Ret (st <| histo_counts_ ::= λ m, <[e.1 := add_counts (default ∅ (m !! e.1)) e.2]> m |>
            <| histo_bins_ ::= <[e.1 := bins]> |>))
    (Ret st) (map_to_list st.(epoch_histo_counts_)).

(** [accu_sum += value * count], in 64 bits; the mean as a [double] *)
Definition GetHistoAvg (counts : gmap Z Z) : double :=
  let l := map_to_list counts in
  let accu_sum := foldl (λ a e, u64 (a + u64 (e.1 * e.2))) 0 l in
  let count := foldl (λ a e, u64 (a + e.2)) 0 l in
  if count =? 0 then d0 else ddiv (double_of_Z accu_sum) (double_of_Z count).

(** ** The figures of an epoch and of the whole run

    The two functions compute the same figures, from the epoch's or from the total
    counters. *)
Definition rank_energy (c : Config) (vecs : gmap string (list Z)) (s : SimpleStats * double) (i : Z) :
    outcome (SimpleStats * double) :=
  let (st, background) := s in
  act ← aget (vec vecs "rank_active_cycles") i;
  pre ← aget (vec vecs "all_bank_idle_cycles") i;
  sref ← aget (vec vecs "sref_cycles") i;
  let act_stb := dmul (double_of_Z act) c.(act_stb_energy_inc) in
  let pre_stb := dmul (double_of_Z pre) c.(pre_stb_energy_inc) in
  let sref_energy := dmul (double_of_Z sref) c.(sref_energy_inc) in
  a ← aset (vec st.(vec_doubles_) "act_stb_energy") i act_stb;
  p ← aset (vec st.(vec_doubles_) "pre_stb_energy") i pre_stb;
  r ← aset (vec st.(vec_doubles_) "sref_energy") i sref_energy;
  Ret (st <| vec_doubles_ ::= λ m, <["sref_energy"%string := r]>
             (<["pre_stb_energy"%string := p]> (<["act_stb_energy"%string := a]> m)) |>,
       dadd background (dadd (dadd act_stb pre_stb) sref_energy)).

(** the energies of the commands and of the ranks *)
Definition energies (c : Config) (ctrs : gmap string Z) (vecs : gmap string (list Z)) (st : SimpleStats) :
    outcome (SimpleStats * double) :=
  let e n inc := dmul (double_of_Z (ctr ctrs n)) inc in
  let st := st <| doubles_ ::= λ m,
    <["refb_energy"%string := e "num_refb_cmds"%string c.(refb_energy_inc)]>
    (<["refab_energy"%string := e "num_refab_cmds"%string c.(ref_energy_inc)]>
    (<["write_energy"%string := e "num_write_cmds"%string c.(write_energy_inc)]>
    (<["read_energy"%string := e "num_read_cmds"%string c.(read_energy_inc)]>
    (<["act_energy"%string := e "num_act_cmds"%string c.(act_energy_inc)]> m)))) |> in
  for_ (seqZ 0 c.(ranks)) (st, d0) (rank_energy c vecs).

Definition dbl (st : SimpleStats) (k : string) : double := default d0 (st.(doubles_) !! k).
Definition total_energy (st : SimpleStats) (background : double) : double :=
  dadd (dadd (dadd (dadd (dadd (dbl st "act_energy") (dbl st "read_energy")) (dbl st "write_energy"))
    (dbl st "ref_energy")) (dbl st "refb_energy")) background.

(** bandwidth, energy, power and latencies: [lat] are the samples the first two latencies
    are averaged over *)
Definition figures (c : Config) (ctrs : gmap string Z) (lat : gmap string (gmap Z Z)) (background : double)
    (st : SimpleStats) : outcome SimpleStats :=
  let total_reqs := u64 (ctr ctrs "num_reads_done" + ctr ctrs "num_writes_done") in
  let total_time := dmul (double_of_Z (ctr ctrs "num_cycles")) c.(tCK) in
  let avg_bw := ddiv (double_of_Z (u64 (total_reqs * c.(request_size_bytes)))) total_time in
  let energy := total_energy st background in
  rl ← at_ lat "read_latency";
  ia ← at_ lat "interarrival_latency";
  wd ← at_ st.(epoch_histo_counts_) "t_btwn_write_drains";
  od ← at_ st.(epoch_histo_counts_) "t_btwn_opp_write_drains";
  ro ← at_ st.(epoch_histo_counts_) "row_open_time";
  Ret (st <| calculated_ ::= λ m,
    <["average_row_open_time"%string := GetHistoAvg ro]>
    (<["mean_t_btwn_opp_write_drains"%string := GetHistoAvg od]>
    (<["mean_t_btwn_write_drains"%string := GetHistoAvg wd]>
    (<["average_interarrival"%string := GetHistoAvg ia]>
    (<["average_read_latency"%string := GetHistoAvg rl]>
    (<["average_power"%string := ddiv energy (double_of_Z (ctr ctrs "num_cycles"))]>
    (<["total_energy"%string := energy]>
    (<["average_bandwidth"%string := avg_bw]> m))))))) |>).

Definition UpdateEpochStats (c : Config) (st : SimpleStats) : outcome SimpleStats :=
  st ← UpdateCounters st;
  r ← energies c st.(epoch_counters_) st.(epoch_vec_counters_) st;
  let (st, background) := r : SimpleStats * double in
  st ← UpdateHistoBins st;
  st ← figures c st.(epoch_counters_) st.(epoch_histo_counts_) background st;
  Ret (st <| epoch_counters_ ::= zeros 0 |>
          <| epoch_vec_counters_ ::= zero_vecs 0 |>
          <| epoch_histo_counts_ ::= clear_histos |>).

Definition UpdateFinalStats (c : Config) (st : SimpleStats) : outcome SimpleStats :=
  st ← UpdateCounters st;
  r ← energies c st.(counters_) st.(vec_counters_) st;
  let (st, background) := r : SimpleStats * double in
  st ← UpdateHistoBins st;
  figures c st.(counters_) st.(histo_counts_) background st.

Definition RankBackgroundEnergy (st : SimpleStats) (r : Z) : outcome double :=
  a ← at_ st.(vec_doubles_) "act_stb_energy"; x ← aget a r;
  p ← at_ st.(vec_doubles_) "pre_stb_energy"; y ← aget p r;
  s ← at_ st.(vec_doubles_) "sref_energy"; z ← aget s r;
  Ret (dadd (dadd x y) z).

(** ** Lemmas *)

(** a fold that may fail, with an invariant on the part already done *)
Lemma foldl_returns {S X} (I : list X → S → Prop) (f : S → X → outcome S) l s :
  I [] s →
  (∀ done x rest s, l = done ++ x :: rest → I done s → returns (f s x) (I (done ++ [x]))) →
  returns (foldl (λ s x, s ← s; f s x) (Ret s) l) (I l).
Proof.
  revert l. apply (rev_ind (λ l, I [] s →
    (∀ done x rest s, l = done ++ x :: rest → I done s → returns (f s x) (I (done ++ [x]))) →
    returns (foldl (λ s x, s ← s; f s x) (Ret s) l) (I l))).
  { intros. by apply returns_ret. }
  intros x l IH H0 Hf. rewrite foldl_app. cbn [foldl].
  eapply returns_bind; [apply IH; [done|]|].
  - intros done' y rest s' -> Hs. apply (Hf done' y (rest ++ [x])); [by rewrite <- app_assoc|done].
  - intros s' Hs. by apply (Hf l x []).
Qed.

Definition sumZ (l : list Z) : Z := foldr Z.add 0 l.
Definition eq64 (x y : Z) : Prop := x mod 18446744073709551616 = y mod 18446744073709551616.
#[export] Instance eq64_equiv : Equivalence eq64.
Proof. unfold eq64. split; [done|by intros ? ? ->|by intros ? ? ? -> ->]. Qed.
#[export] Instance eq64_add : Proper (eq64 ==> eq64 ==> eq64) Z.add.
Proof.
  unfold eq64. intros x x' Hx y y' Hy. rewrite (Z.add_mod x), (Z.add_mod x'), Hx, Hy by lia. done.
Qed.
Lemma eq64_u64 x : eq64 (u64 x) x.
Proof. unfold eq64, u64. by rewrite Z.mod_mod. Qed.

Lemma sumZ_app l1 l2 : sumZ (l1 ++ l2) = sumZ l1 + sumZ l2.
Proof. unfold sumZ. rewrite foldr_app. induction l1; simpl; lia. Qed.
Lemma sumZ_insert l i x y : l !! i = Some x → sumZ (<[i:=y]> l) = sumZ l - x + y.
Proof.
  intros Hi. rewrite <- (take_drop_middle _ _ _ Hi) at 2.
  rewrite insert_take_drop by (by eapply lookup_lt_Some). rewrite !sumZ_app. simpl. lia.
Qed.
Lemma sumZ_zero (l : list Z) : sumZ ((λ _, 0) <$> l) = 0.
Proof. induction l; simpl; done. Qed.

(** *** Histograms *)

(** the bins of a histogram: under, [k] bins of width [w], over *)
Record bins_ok (bounds : Z * Z) (w size : Z) : Prop := {
  bo_width : 0 < w;
  bo_span : bounds.2 - bounds.1 = w * (size - 2);
  bo_small : 0 <= bounds.2 - bounds.1 < 2147483647
}.

Lemma bin_of_range bounds w size value :
  bins_ok bounds w size → returns (bin_of bounds w size value) (λ i, 0 <= i < size).
Proof.
  intros [Hw Hspan Hsmall]. assert (2 <= size) by nia. unfold bin_of.
  destruct (Z.ltb_spec value bounds.1); [apply returns_ret; lia|].
  destruct (Z.ltb_spec bounds.2 value); [apply returns_ret; lia|].
  rewrite i32_id by (unfold is_i32; lia). rewrite iquot_ok by lia. cbn [mbind outcome_bind].
  rewrite Z.quot_div_nonneg by lia. apply returns_ret.
  assert ((value - bounds.1) / w <= size - 2) by (apply Z.div_le_upper_bound; lia).
  assert (0 <= (value - bounds.1) / w) by (apply Z.div_pos; lia).
  assert (size - 2 <= bounds.2 - bounds.1) by nia.
  rewrite i32_id by (unfold is_i32; lia). lia.
Qed.

Lemma fill_bins_spec bounds w bins counts :
  bins_ok bounds w (zlen bins) →
  returns (fill_bins bounds w bins counts)
    (λ b, zlen b = zlen bins ∧ eq64 (sumZ b) (sumZ counts.*2)).
Proof.
  intros Hok. unfold fill_bins.
  apply (foldl_returns (λ done b, zlen b = zlen bins ∧ eq64 (sumZ b) (sumZ done.*2))
    (λ bins e, i ← bin_of bounds w (zlen bins) e.1; x ← aget bins i; aset bins i (u64 (x + e.2)))).
  { unfold zlen. rewrite length_fmap. split; [done|]. by rewrite sumZ_zero. }
  intros done e rest b _ [Hlen Hsum].
  eapply returns_bind; [apply bin_of_range; by rewrite Hlen|]. intros i Hi. cbn in Hi.
  destruct (aget_ok b i ltac:(lia)) as [x Hx]. rewrite Hx. cbn [mbind outcome_bind].
  rewrite aset_ok by lia. apply returns_ret. split; [unfold zlen in *; by rewrite length_insert|].
  apply aget_Ret in Hx as [_ Hx]. rewrite (sumZ_insert _ _ _ _ Hx), fmap_app, sumZ_app. simpl.
  rewrite <- Hsum. replace (sumZ b - x + u64 (x + e.2)) with ((sumZ b - x) + u64 (x + e.2)) by lia.
  rewrite eq64_u64. replace (sumZ b - x + (x + e.2)) with (sumZ b + (e.2 + 0)) by lia. done.
Qed.

(** a fold that rewrites each key of a map once *)
Lemma fold_keys {A B} (m0 : gmap string B) (m1 : gmap string A) (P : string → option B → A → B → Prop)
    (f : gmap string B → string * A → outcome B) :
  (∀ m k x, m1 !! k = Some x → m !! k = m0 !! k → returns (f m (k, x)) (P k (m0 !! k) x)) →
  returns (foldl (λ m e, m ← m; v ← f m e; Ret (<[e.1 := v]> m)) (Ret m0) (map_to_list m1))
    (λ m, ∀ k, match m1 !! k with
               | Some x => ∃ v, m !! k = Some v ∧ P k (m0 !! k) x v
               | None => m !! k = m0 !! k
               end).
Proof.
  intros Hf. pose proof (NoDup_fst_map_to_list m1) as Hnd.
  eapply returns_mono;
    [apply (foldl_returns (λ (seen : list (string * A)) m, ∀ k,
       match m1 !! k with
       | Some x => if decide (k ∈ seen.*1) then ∃ v, m !! k = Some v ∧ P k (m0 !! k) x v
                   else m !! k = m0 !! k
       | None => m !! k = m0 !! k
       end) (λ m e, v ← f m e; Ret (<[e.1 := v]> m)))|].
  - intros k. destruct (m1 !! k); [|done]. rewrite decide_False; [done|]. by intros ?%elem_of_nil.
  - intros seen [k x] rest m Hl HI.
    assert (m1 !! k = Some x) as Hk.
    { apply elem_of_map_to_list. rewrite Hl. set_solver. }
    assert (k ∉ seen.*1) as Hni.
    { rewrite Hl, fmap_app in Hnd. apply NoDup_app in Hnd as (_ & Hd & _).
      intros Hin. apply (Hd k Hin). simpl. left. }
    pose proof (HI k) as HIk. rewrite Hk, decide_False in HIk by done.
    eapply returns_bind; [by apply Hf|]. intros v Hv. apply returns_ret. intros k'.
    cbn [fst]. rewrite fmap_app, lookup_insert. simpl. destruct (decide (k = k')) as [<-|Hne].
    + rewrite Hk, decide_True by set_solver. eauto.
    + specialize (HI k'). destruct (m1 !! k'); [|done]. destruct (decide (k' ∈ seen.*1)).
      * by rewrite decide_True by set_solver.
      * rewrite decide_False by set_solver. done.
  - intros m HI k. specialize (HI k). destruct (m1 !! k) as [x|] eqn:Hk; [|done].
    rewrite decide_True in HI; [done|]. apply list_elem_of_fmap. exists (k, x). split; [done|].
    by apply elem_of_map_to_list.
Qed.

(** *** Sums over samples *)
Definition sum_values (m : gmap Z Z) : Z := sumZ (map_to_list m).*2.
#[export] Instance sumZ_perm : Proper ((≡ₚ) ==> (=)) sumZ.
Proof. intros l1 l2 H. induction H; unfold sumZ in *; cbn [foldr]; lia. Qed.
Lemma sum_values_insert m k v : sum_values (<[k := v]> m) = sum_values m - default 0 (m !! k) + v.
Proof.
  unfold sum_values. destruct (m !! k) as [w|] eqn:Hk; cbn [default].
  - assert (map_to_list (<[k := v]> m) ≡ₚ (k, v) :: map_to_list (delete k m)) as ->.
    { rewrite <- insert_delete_eq. apply map_to_list_insert, lookup_delete_eq. }
    assert (map_to_list m ≡ₚ (k, w) :: map_to_list (delete k m)) as ->.
    { rewrite <- (insert_delete_id m k w Hk) at 1. apply map_to_list_insert, lookup_delete_eq. }
    rewrite !fmap_cons. cbn [fst snd]. unfold sumZ, id; cbn [foldr]. lia.
  - rewrite map_to_list_insert by done. rewrite fmap_cons. cbn [snd]. unfold sumZ, id; cbn [foldr]. lia.
Qed.
Lemma sum_values_bump value n m : eq64 (sum_values (bump value n m)) (sum_values m + n).
Proof.
  unfold bump. rewrite sum_values_insert. destruct (m !! value) as [w|]; simpl.
  - rewrite eq64_u64. by replace (sum_values m - w + (w + n)) with (sum_values m + n) by lia.
  - by replace (sum_values m - 0 + n) with (sum_values m + n) by lia.
Qed.

Definition at0 (l : list Z) (i : nat) : Z := default 0 (l !! i).
Lemma zip_sum l1 l2 : length l1 = length l2 →
  eq64 (sumZ (zip_with (λ x y, u64 (x + y)) l1 l2)) (sumZ l1 + sumZ l2).
Proof.
  revert l2. induction l1 as [|x l1 IH]; intros [|y l2] Hl; simpl in *; try done.
  rewrite IH, eq64_u64 by congruence. by replace (x + sumZ l1 + (y + sumZ l2)) with
    (x + y + (sumZ l1 + sumZ l2)) by lia.
Qed.
Lemma add_vec_spec v1 v2 : length v1 = length v2 →
  returns (add_vec v1 v2) (λ v, length v = length v1 ∧
    ∀ i, eq64 (at0 v i) (at0 v1 i + at0 v2 i)).
Proof.
  intros Hl. unfold add_vec, zlen. rewrite Hl, Z.ltb_irrefl. apply returns_ret.
  rewrite <- Hl, firstn_all, drop_ge, app_nil_r by lia. split; [rewrite length_zip_with; lia|].
  intros i. unfold at0. rewrite lookup_zip_with.
  destruct (v1 !! i) eqn:E1; destruct (v2 !! i) eqn:E2; simpl; try apply eq64_u64; try done;
    [apply lookup_lt_Some in E1; apply lookup_ge_None in E2; lia|
     apply lookup_lt_Some in E2; apply lookup_ge_None in E1; lia].
Qed.
Lemma add_bins_spec final epoch : length final = length epoch →
  returns (add_bins final epoch) (λ b, length b = length final ∧ eq64 (sumZ b) (sumZ final + sumZ epoch)).
Proof.
  intros Hl. unfold add_bins, zlen. rewrite Hl, Z.ltb_irrefl. apply returns_ret.
  split; [rewrite length_zip_with; lia|by apply zip_sum].
Qed.

(** ** Well-formed statistics *)

Definition rank_vecs : list string := ["rank_active_cycles"; "all_bank_idle_cycles"; "sref_cycles"]%string.
Definition rank_dbls : list string := ["act_stb_energy"; "pre_stb_energy"; "sref_energy"]%string.
Definition used_histos : list string :=
  ["read_latency"; "interarrival_latency"; "t_btwn_write_drains"; "t_btwn_opp_write_drains";
   "row_open_time"]%string.

Record stats_ok (c : Config) (st : SimpleStats) : Prop := {
  so_ranks : 0 <= c.(ranks);
  so_bins : ∀ n bins, st.(epoch_histo_bins_) !! n = Some bins →
    bins_ok (default (0, 0) (st.(histo_bounds_) !! n)) (ctr st.(bin_widths_) n) (zlen bins);
  so_total : ∀ n, length (vec st.(histo_bins_) n) = length (vec st.(epoch_histo_bins_) n);
  so_vec : ∀ n, length (vec st.(vec_counters_) n) = length (vec st.(epoch_vec_counters_) n);
  so_rank : ∀ n, n ∈ rank_vecs → zlen (vec st.(epoch_vec_counters_) n) = c.(ranks);
  so_dbl : ∀ n, n ∈ rank_dbls → zlen (vec st.(vec_doubles_) n) = c.(ranks);
  so_used : ∀ n, n ∈ used_histos →
    is_Some (st.(epoch_histo_counts_) !! n) ∧ is_Some (st.(histo_counts_) !! n)
}.

(** events seen so far, in the totals and in the epoch *)
Definition tot_c (st : SimpleStats) (n : string) : Z := ctr st.(counters_) n + ctr st.(epoch_counters_) n.
Definition tot_v (st : SimpleStats) (n : string) (i : nat) : Z :=
  at0 (vec st.(vec_counters_) n) i + at0 (vec st.(epoch_vec_counters_) n) i.
Definition epoch_samples (st : SimpleStats) (n : string) : Z :=
  sum_values (default ∅ (st.(epoch_histo_counts_) !! n)).
Definition tot_h (st : SimpleStats) (n : string) : Z :=
  if decide (is_Some (st.(epoch_histo_bins_) !! n)) then
    sumZ (vec st.(histo_bins_) n) + epoch_samples st n else 0.
(** the two states have seen the same events *)
Definition same_totals (st st' : SimpleStats) : Prop :=
  (∀ n, eq64 (tot_c st' n) (tot_c st n)) ∧ (∀ n i, eq64 (tot_v st' n i) (tot_v st n i)) ∧
  (∀ n, eq64 (tot_h st' n) (tot_h st n)).

(** adding the epoch's counters to the totals *)
Lemma UpdateCounters_spec c st : stats_ok c st →
  returns (UpdateCounters st) (λ st', stats_ok c st' ∧
    st' = st <| counters_ := st'.(counters_) |> <| vec_counters_ := st'.(vec_counters_) |> ∧
    (∀ n, eq64 (ctr st'.(counters_) n) (tot_c st n)) ∧
    (∀ n i, eq64 (at0 (vec st'.(vec_counters_) n) i) (tot_v st n i))).
Proof.
  intros Hok. unfold UpdateCounters, add_vecs.
  eapply returns_bind.
  { apply (fold_keys st.(vec_counters_) st.(epoch_vec_counters_) (λ n v1 v2 v,
      length v = length v2 ∧ ∀ i, eq64 (at0 v i) (at0 (default [] v1) i + at0 v2 i))
      (λ m e, add_vec (vec m e.1) e.2)).
    intros m k x Hk Hm. pose proof (so_vec _ _ Hok k) as Hl. unfold vec in *. cbn [fst snd].
    rewrite Hk in Hl. rewrite Hm. simpl in Hl.
    eapply returns_mono; [by apply add_vec_spec|]. intros v [H1 H2].
    split; [by rewrite H1|exact H2]. }
  intros vs Hvs. apply returns_ret. cbn beta in *.
  assert (∀ n, length (vec vs n) = length (vec st.(epoch_vec_counters_) n) ∧
    ∀ i, eq64 (at0 (vec vs n) i) (tot_v st n i)) as Hv.
  { intros n. specialize (Hvs n). pose proof (so_vec _ _ Hok n) as Hl. unfold tot_v, vec in *.
    destruct (st.(epoch_vec_counters_) !! n) as [x|].
    - destruct Hvs as (v & -> & H1 & H2). split; [exact H1|exact H2].
    - rewrite Hvs. split; [done|]. intros i. replace (at0 (default [] None) i) with 0 by done. by rewrite Z.add_0_r. }
  split_and!.
  - destruct Hok. split; try done. intros n. apply Hv.
  - done.
  - intros n. rsimp. unfold tot_c, ctr. rewrite lookup_merge.
    destruct (counters_ st !! n), (epoch_counters_ st !! n); simpl; rewrite ?eq64_u64, ?Z.add_0_r; done.
  - intros n. apply Hv.
Qed.

(** *** Histograms of the epoch and of the run *)
Lemma epoch_bins_spec c st : stats_ok c st →
  returns (epoch_bins st) (λ eb, ∀ n, match st.(epoch_histo_bins_) !! n with
    | Some bins => ∃ b, eb !! n = Some b ∧ zlen b = zlen bins ∧ eq64 (sumZ b) (epoch_samples st n)
    | None => eb !! n = None
    end).
Proof.
  intros Hok. unfold epoch_bins. eapply returns_mono.
  { apply (fold_keys st.(epoch_histo_bins_) st.(epoch_histo_bins_) (λ n _ bins b,
      zlen b = zlen bins ∧ eq64 (sumZ b) (epoch_samples st n))
      (λ m e, fill_bins (default (0, 0) (st.(histo_bounds_) !! e.1)) (ctr st.(bin_widths_) e.1) e.2
        (map_to_list (default ∅ (st.(epoch_histo_counts_) !! e.1))))).
    intros m n bins Hn _. by apply fill_bins_spec, (so_bins _ _ Hok). }
  intros eb Heb n. specialize (Heb n). cbn beta in Heb. by destruct (epoch_histo_bins_ st !! n) eqn:E.
Qed.

(** the loop over the epoch's samples *)
Lemma histo_loop_spec st :
  (∀ n, length (vec st.(histo_bins_) n) = length (vec st.(epoch_histo_bins_) n)) →
  returns (foldl (λ st e,
      st ← st;
      bins ← add_bins (vec st.(histo_bins_) e.1) (vec st.(epoch_histo_bins_) e.1);
      Ret (st <| histo_counts_ ::= λ m, <[e.1 := add_counts (default ∅ (m !! e.1)) e.2]> m |>
              <| histo_bins_ ::= <[e.1 := bins]> |>))
      (Ret st) (map_to_list st.(epoch_histo_counts_)))
    (λ st', st' = st <| histo_counts_ := st'.(histo_counts_) |> <| histo_bins_ := st'.(histo_bins_) |> ∧
      (∀ n, is_Some (st.(histo_counts_) !! n) → is_Some (st'.(histo_counts_) !! n)) ∧
      ∀ n, length (vec st'.(histo_bins_) n) = length (vec st.(histo_bins_) n) ∧
        eq64 (sumZ (vec st'.(histo_bins_) n)) (sumZ (vec st.(histo_bins_) n) +
          if st.(epoch_histo_counts_) !! n then sumZ (vec st.(epoch_histo_bins_) n) else 0)).
Proof.
  intros Hlen. pose proof (NoDup_fst_map_to_list st.(epoch_histo_counts_)) as Hnd.
  eapply returns_mono;
    [apply (foldl_returns (λ (seen : list (string * gmap Z Z)) st',
      st' = st <| histo_counts_ := st'.(histo_counts_) |> <| histo_bins_ := st'.(histo_bins_) |> ∧
      (∀ n, is_Some (st.(histo_counts_) !! n) → is_Some (st'.(histo_counts_) !! n)) ∧
      ∀ n, length (vec st'.(histo_bins_) n) = length (vec st.(histo_bins_) n) ∧
        eq64 (sumZ (vec st'.(histo_bins_) n)) (sumZ (vec st.(histo_bins_) n) +
          if decide (n ∈ seen.*1) then sumZ (vec st.(epoch_histo_bins_) n) else 0))
      (λ st e, bins ← add_bins (vec st.(histo_bins_) e.1) (vec st.(epoch_histo_bins_) e.1);
        Ret (st <| histo_counts_ ::= λ m, <[e.1 := add_counts (default ∅ (m !! e.1)) e.2]> m |>
                <| histo_bins_ ::= <[e.1 := bins]> |>)))|].
  - split; [by destruct st|]. split; [done|]. intros n. split; [done|].
    rewrite decide_False by (by intros ?%elem_of_nil). by rewrite Z.add_0_r.
  - intros seen [k x] rest s' Hl (Es & Hc & HI).
    assert (k ∉ seen.*1) as Hni.
    { rewrite Hl, fmap_app in Hnd. apply NoDup_app in Hnd as (_ & Hd & _).
      intros Hin. apply (Hd k Hin). simpl. left. }
    cbn [fst snd]. destruct (HI k) as [Hlk Hsk]. rewrite decide_False, Z.add_0_r in Hsk by done.
    assert (epoch_histo_bins_ s' = epoch_histo_bins_ st) as Eb by (rewrite Es; by rsimp).
    eapply returns_bind; [apply add_bins_spec; rewrite Eb, Hlk; apply Hlen|].
    intros b [Hb1 Hb2]. apply returns_ret. split_and!.
    + rewrite Es. by rsimp.
    + intros n Hn. rsimp. rewrite lookup_insert. case_decide; [by eexists|by apply Hc].
    + intros n. rsimp. unfold vec. rewrite lookup_insert, fmap_app. simpl.
      destruct (decide (k = n)) as [<-|Hne].
      * rewrite decide_True by set_solver. simpl. fold (vec (histo_bins_ st) k).
        split; [by rewrite Hb1|]. by rewrite Hb2, Hsk, Eb.
      * specialize (HI n). destruct (decide (n ∈ seen.*1)).
        -- by rewrite decide_True by set_solver.
        -- by rewrite decide_False by set_solver.
  - intros s' (H1 & H2 & H3). split_and!; [done|done|]. intros n. destruct (H3 n) as [H4 H5].
    split; [done|]. rewrite H5. destruct (epoch_histo_counts_ st !! n) as [x|] eqn:E.
    + rewrite decide_True; [done|]. apply list_elem_of_fmap. exists (n, x). split; [done|].
      by apply elem_of_map_to_list.
    + rewrite decide_False; [done|]. intros ([n' x] & -> & Hx%elem_of_map_to_list)%list_elem_of_fmap.
      simpl in E. congruence.
Qed.

Lemma UpdateHistoBins_spec c st : stats_ok c st →
  returns (UpdateHistoBins st) (λ st', stats_ok c st' ∧
    st' = st <| histo_counts_ := st'.(histo_counts_) |> <| histo_bins_ := st'.(histo_bins_) |>
             <| epoch_histo_bins_ := st'.(epoch_histo_bins_) |> ∧
    ∀ n, eq64 (if decide (is_Some (st.(epoch_histo_bins_) !! n)) then sumZ (vec st'.(histo_bins_) n) else 0)
              (tot_h st n) ∧
         (is_Some (st'.(epoch_histo_bins_) !! n) ↔ is_Some (st.(epoch_histo_bins_) !! n))).
Proof.
  intros Hok. unfold UpdateHistoBins. eapply returns_bind; [by eapply epoch_bins_spec|].
  intros eb Heb. cbn beta in Heb.
  assert (∀ n, length (vec eb n) = length (vec (epoch_histo_bins_ st) n)) as Hl.
  { intros n. specialize (Heb n). unfold vec, zlen in *. destruct (epoch_histo_bins_ st !! n).
    - destruct Heb as (b & -> & Hb & _). simpl. lia.
    - by rewrite Heb. }
  eapply returns_mono; [apply (histo_loop_spec (st <| epoch_histo_bins_ := eb |>))|].
  { intros n. rsimp. by rewrite Hl, (so_total _ _ Hok). }
  intros st' (E & Hc & HI). rsimp.
  assert (epoch_histo_bins_ st' = eb) as Eeb by (rewrite E; by rsimp).
  split; [|split].
  - pose proof Hok as [H1 H2 H3 H4 H5 H6 H7]. rewrite E. split; rsimp; try done.
    + intros n bins Hn. specialize (Heb n). destruct (epoch_histo_bins_ st !! n) as [b|] eqn:Eb; [|congruence].
      destruct Heb as (b' & Hb' & Hz & _). rewrite Hn in Hb'. injection Hb' as <-. rewrite Hz. by apply H2.
    + intros n. destruct (HI n) as [Hn _]. pose proof Hn as Hn'. rsimp. rewrite Hn'. by rewrite Hl.
    + intros n Hn. destruct (H7 n Hn) as [Ha Hb]. split; [done|]. apply Hc. by rsimp.
  - rewrite Eeb. etransitivity; [exact E|reflexivity].
  - intros n. destruct (HI n) as [_ Hs]. specialize (Heb n). rsimp. rewrite Eeb.
    unfold tot_h, epoch_samples. destruct (epoch_histo_bins_ st !! n) as [b|] eqn:Eb.
    + destruct Heb as (b' & Hb' & _ & Hsum). rewrite !decide_True by (by eexists).
      split; [|by rewrite Hb']. rewrite Hs. unfold epoch_samples in Hsum. unfold vec at 2. rewrite Hb'.
      destruct (epoch_histo_counts_ st !! n); simpl; [by rewrite Hsum|done].
    + rewrite !decide_False by (by intros [? ?]). split; [done|by rewrite Heb].
Qed.

(** *** The figures do not touch the counts *)
Lemma rank_energy_spec (c : Config) vecs st bg i :
  0 <= i < c.(ranks) → (∀ n, n ∈ rank_vecs → zlen (vec vecs n) = c.(ranks)) →
  (∀ n, n ∈ rank_dbls → zlen (vec st.(vec_doubles_) n) = c.(ranks)) →
  returns (rank_energy c vecs (st, bg) i) (λ r,
    r.1 = st <| vec_doubles_ := r.1.(vec_doubles_) |> ∧
    ∀ n, n ∈ rank_dbls → zlen (vec r.1.(vec_doubles_) n) = c.(ranks)).
Proof.
  intros Hi Hv Hd. unfold rank_energy. unfold rank_vecs, rank_dbls in *.
  destruct (aget_ok (vec vecs "rank_active_cycles") i) as [a ->]; [rewrite Hv; [lia|set_solver]|].
  destruct (aget_ok (vec vecs "all_bank_idle_cycles") i) as [b ->]; [rewrite Hv; [lia|set_solver]|].
  destruct (aget_ok (vec vecs "sref_cycles") i) as [r ->]; [rewrite Hv; [lia|set_solver]|].
  cbn [mbind outcome_bind].
  rewrite !aset_ok by (rewrite Hd; [lia|set_solver]). cbn [mbind outcome_bind]. apply returns_ret.
  cbn [fst]. split; [done|]. intros n Hn. rsimp. unfold vec at 1. rewrite !lookup_insert.
  unfold zlen in *. repeat case_decide; simpl; rewrite ?length_insert; apply Hd; subst; set_solver.
Qed.
Lemma energies_spec (c : Config) ctrs vecs st :
  0 <= c.(ranks) → (∀ n, n ∈ rank_vecs → zlen (vec vecs n) = c.(ranks)) →
  (∀ n, n ∈ rank_dbls → zlen (vec st.(vec_doubles_) n) = c.(ranks)) →
  returns (energies c ctrs vecs st) (λ r,
    r.1 = st <| doubles_ := r.1.(doubles_) |> <| vec_doubles_ := r.1.(vec_doubles_) |> ∧
    ∀ n, n ∈ rank_dbls → zlen (vec r.1.(vec_doubles_) n) = c.(ranks)).
Proof.
  intros Hr Hv Hd. unfold energies. apply for_inv.
  - cbn [fst]. split; [by destruct st|done].
  - intros [s bg] i Hi%elem_of_seqZ [Es Hs]. cbn [fst] in *.
    eapply returns_mono; [apply rank_energy_spec; [lia|done|done]|].
    intros [s' bg'] [E' H']. cbn [fst] in *. split; [|done]. rewrite E', Es. by rsimp.
Qed.
Lemma figures_spec c ctrs lat bg st :
  is_Some (lat !! "read_latency"%string) → is_Some (lat !! "interarrival_latency"%string) →
  (∀ n, n ∈ used_histos → is_Some (st.(epoch_histo_counts_) !! n)) →
  returns (figures c ctrs lat bg st) (λ st', st' = st <| calculated_ := st'.(calculated_) |>).
Proof.
  intros [x1 H1] [x2 H2] Hu. unfold figures, at_. rewrite H1, H2. cbn [mbind outcome_bind].
  unfold used_histos in Hu.
  destruct (Hu "t_btwn_write_drains"%string ltac:(set_solver)) as [x3 ->].
  destruct (Hu "t_btwn_opp_write_drains"%string ltac:(set_solver)) as [x4 ->].
  destruct (Hu "row_open_time"%string ltac:(set_solver)) as [x5 ->]. cbn [mbind outcome_bind].
  apply returns_ret. by rsimp.
Qed.

(** the figures of the epoch, or of the run when [final] *)
Lemma summary_spec (c : Config) (final : bool) st : stats_ok c st →
  returns (st ← UpdateCounters st;
    r ← energies c (if final then st.(counters_) else st.(epoch_counters_))
          (if final then st.(vec_counters_) else st.(epoch_vec_counters_)) st;
    let (st, background) := r : SimpleStats * double in
    st ← UpdateHistoBins st;
    figures c (if final then st.(counters_) else st.(epoch_counters_))
      (if final then st.(histo_counts_) else st.(epoch_histo_counts_)) background st)
  (λ st', stats_ok c st' ∧
    st'.(epoch_counters_) = st.(epoch_counters_) ∧
    st'.(epoch_vec_counters_) = st.(epoch_vec_counters_) ∧
    st'.(epoch_histo_counts_) = st.(epoch_histo_counts_) ∧
    (∀ n, eq64 (ctr st'.(counters_) n) (tot_c st n)) ∧
    (∀ n i, eq64 (at0 (vec st'.(vec_counters_) n) i) (tot_v st n i)) ∧
    ∀ n, eq64 (if decide (is_Some (st.(epoch_histo_bins_) !! n)) then sumZ (vec st'.(histo_bins_) n) else 0)
              (tot_h st n) ∧
         (is_Some (st'.(epoch_histo_bins_) !! n) ↔ is_Some (st.(epoch_histo_bins_) !! n))).
Proof.
  intros Hok. eapply returns_bind; [by apply UpdateCounters_spec|].
  intros s1 (Hok1 & E1 & Hc & Hv).
  eapply returns_bind.
  { apply energies_spec; [apply Hok1| |apply Hok1]. intros n Hn. rewrite <- (so_rank _ _ Hok1 n Hn).
    unfold zlen. destruct final; [by rewrite (so_vec _ _ Hok1)|done]. }
  intros [s2 bg] [E2 Hd]. cbn [fst] in *.
  assert (stats_ok c s2) as Hok2.
  { rewrite E2. pose proof Hok1 as [H1 H2 H3 H4 H5 H6 H7]. by split; rsimp. }
  eapply returns_bind; [by apply UpdateHistoBins_spec|]. intros s3 (Hok3 & E3 & Hh). cbn beta in *.
  eapply returns_mono.
  { apply figures_spec; [destruct final; apply (so_used _ _ Hok3); set_solver..|].
    intros n Hn. by apply (so_used _ _ Hok3). }
  intros s4 E4. cbn beta in *.
  assert (epoch_counters_ s4 = epoch_counters_ st) as F1 by (rewrite E4, E3, E2, E1; by rsimp).
  assert (epoch_vec_counters_ s4 = epoch_vec_counters_ st) as F2 by (rewrite E4, E3, E2, E1; by rsimp).
  assert (epoch_histo_counts_ s4 = epoch_histo_counts_ st) as F3 by (rewrite E4, E3, E2, E1; by rsimp).
  assert (counters_ s4 = counters_ s1) as F4 by (rewrite E4, E3, E2; by rsimp).
  assert (vec_counters_ s4 = vec_counters_ s1) as F5 by (rewrite E4, E3, E2; by rsimp).
  assert (histo_bins_ s4 = histo_bins_ s3) as F6 by (rewrite E4; by rsimp).
  assert (epoch_histo_bins_ s4 = epoch_histo_bins_ s3) as F7 by (rewrite E4; by rsimp).
  assert (epoch_histo_bins_ s2 = epoch_histo_bins_ st) as F8 by (rewrite E2, E1; by rsimp).
  assert (∀ n, tot_h s2 n = tot_h st n) as F9.
  { intros n. unfold tot_h, epoch_samples. rewrite E2, E1. by rsimp. }
  split_and!; try done.
  - rewrite E4. pose proof Hok3 as [H1 H2 H3 H4 H5 H6 H7]. by split; rsimp.
  - intros n. by rewrite F4.
  - intros n i. by rewrite F5.
  - intros n. specialize (Hh n). by rewrite F6, F7, <- F8, <- F9.
Qed.

Lemma ctr_zeros m n : ctr (zeros 0 m) n = 0.
Proof. unfold ctr, zeros. rewrite lookup_fmap. by destruct (m !! n). Qed.
Lemma vec_zeros m n : vec (zero_vecs 0 m) n = (λ _, 0) <$> vec m n.
Proof. unfold vec, zero_vecs. rewrite lookup_fmap. by destruct (m !! n). Qed.
Lemma at0_zeros (l : list Z) i : at0 ((λ _, 0) <$> l) i = 0.
Proof. unfold at0. rewrite list_lookup_fmap. by destruct (l !! i). Qed.

(** the end of an epoch moves its counts into the totals *)
Lemma UpdateEpochStats_spec (c : Config) st : stats_ok c st →
  returns (UpdateEpochStats c st) (λ st', stats_ok c st' ∧ same_totals st st' ∧
    (∀ n, is_Some (st'.(epoch_histo_bins_) !! n) ↔ is_Some (st.(epoch_histo_bins_) !! n)) ∧
    ∀ n, length (vec st'.(epoch_vec_counters_) n) = length (vec st.(epoch_vec_counters_) n)).
Proof.
  intros Hok. destruct (summary_spec c false st Hok) as (s & Hs & Hok' & F1 & F2 & F3 & Hc & Hv & Hh).
  unfold UpdateEpochStats. apply bind_Ret in Hs as (s1 & -> & Hs). cbn [mbind outcome_bind].
  apply bind_Ret in Hs as ([s2 bg] & -> & Hs). cbn [mbind outcome_bind].
  apply bind_Ret in Hs as (s3 & -> & Hs). cbn [mbind outcome_bind].
  rewrite Hs. cbn [mbind outcome_bind]. clear Hs. apply returns_ret.
  assert (∀ n, clear_histos (epoch_histo_counts_ s) !! n = (λ _, ∅) <$> epoch_histo_counts_ s !! n) as Hcl.
  { intros n. unfold clear_histos. by rewrite lookup_fmap. }
  split_and!.
  - pose proof Hok' as [H1 H2 H3 H4 H5 H6 H7]. split; rsimp; try done.
    + intros n. by rewrite vec_zeros, length_fmap.
    + intros n Hn. rewrite vec_zeros. unfold zlen. rewrite length_fmap. by apply H5.
    + intros n Hn. destruct (H7 n Hn) as [[x Hx] Hy]. split; [|done]. rewrite Hcl, Hx. by eexists.
  - split_and!.
    + intros n. unfold tot_c at 1. rsimp. by rewrite ctr_zeros, Z.add_0_r.
    + intros n i. unfold tot_v at 1. rsimp. by rewrite vec_zeros, at0_zeros, Z.add_0_r.
    + intros n. destruct (Hh n) as [Hs Hb]. unfold tot_h at 1. rsimp.
      unfold epoch_samples. rsimp. rewrite Hcl.
      assert (sum_values (default ∅ ((λ _, ∅) <$> epoch_histo_counts_ s !! n)) = 0) as ->
        by (by destruct (epoch_histo_counts_ s !! n)).
      rewrite Z.add_0_r, <- Hs. by rewrite (decide_ext _ _ _ _ Hb).
  - intros n. rsimp. apply Hh.
  - intros n. rsimp. by rewrite vec_zeros, length_fmap, F2.
Qed.

Lemma UpdateFinalStats_spec (c : Config) st : stats_ok c st →
  returns (UpdateFinalStats c st) (λ st',
    (∀ n, eq64 (GetCtr st' n) (tot_c st n)) ∧
    (∀ n i, eq64 (at0 (vec st'.(vec_counters_) n) i) (tot_v st n i)) ∧
    ∀ n, is_Some (st.(epoch_histo_bins_) !! n) → eq64 (sumZ (vec st'.(histo_bins_) n)) (tot_h st n)).
Proof.
  intros Hok. eapply returns_mono; [apply (summary_spec c true st Hok)|].
  intros s (_ & _ & _ & _ & Hc & Hv & Hh). split_and!; [exact Hc|exact Hv|].
  intros n Hn. destruct (Hh n) as [Hs _]. by rewrite decide_True in Hs.
Qed.

(** ** Runs *)

Inductive stat_event : Type :=
  | EvCount (name : string)
  | EvVec (name : string) (pos : Z)
  | EvSample (name : string) (value : Z)
  | EvEpoch.
Definition stat_step (c : Config) (st : SimpleStats) (e : stat_event) : outcome SimpleStats :=
  match e with
  | EvCount n => Ret (Increment n st)
  | EvVec n pos => IncrementVec n pos st
  | EvSample n v => Ret (AddValue n v st)
  | EvEpoch => UpdateEpochStats c st
  end.
Definition stat_run (c : Config) (st : SimpleStats) (evs : list stat_event) : outcome SimpleStats :=
  foldl (λ st e, st ← st; stat_step c st e) (Ret st) evs.

(** how often the counter, the vector's element and the histogram are used *)
Definition is_count (n : string) (e : stat_event) : bool :=
  match e with EvCount m => String.eqb m n | _ => false end.
Definition is_vec (n : string) (i : nat) (e : stat_event) : bool :=
  match e with EvVec m j => String.eqb m n && (j =? Z.of_nat i) | _ => false end.
Definition is_sample (n : string) (e : stat_event) : bool :=
  match e with EvSample m _ => String.eqb m n | _ => false end.
Definition occurs (f : stat_event → bool) (evs : list stat_event) : Z := zlen (List.filter f evs).
Definition b2z (b : bool) : Z := if b then 1 else 0.
Lemma occurs_snoc f evs e : occurs f (evs ++ [e]) = occurs f evs + b2z (f e).
Proof.
  unfold occurs, zlen. rewrite List.filter_app, length_app. simpl. destruct (f e); simpl; lia.
Qed.

(** an element of a vector that exists *)
Definition event_ok (c : Config) (e : stat_event) : Prop :=
  match e with
  | EvVec n pos =>
      (n ∈ ["prac_per_tREFI"; "acts_per_tREFI"]%string ∧ 0 <= pos < 13) ∨
      (n ∈ rank_vecs ∧ 0 <= pos < c.(ranks))
  | _ => True
  end.
Definition geostat_vecs : list string := ["prac_per_tREFI"; "acts_per_tREFI"]%string.

(** what a run keeps: the state is well formed and its totals are the events seen *)
Record run_inv (c : Config) (hs : gset string) (seen : list stat_event) (st : SimpleStats) : Prop := {
  ri_ok : stats_ok c st;
  ri_geo : ∀ n, n ∈ geostat_vecs → zlen (vec st.(epoch_vec_counters_) n) = 13;
  ri_hs : ∀ n, is_Some (st.(epoch_histo_bins_) !! n) ↔ n ∈ hs;
  ri_c : ∀ n, eq64 (tot_c st n) (occurs (is_count n) seen);
  ri_v : ∀ n i, eq64 (tot_v st n i) (occurs (is_vec n i) seen);
  ri_h : ∀ n, n ∈ hs → eq64 (tot_h st n) (occurs (is_sample n) seen)
}.

Lemma Increment_inv c hs seen st n :
  run_inv c hs seen st → run_inv c hs (seen ++ [EvCount n]) (Increment n st).
Proof.
  intros [[H1 H2 H3 H4 H5 H6 H7] Hg Hs Hc Hv Hh]. split; try done.
  - intros m. rewrite occurs_snoc, <- Hc. unfold tot_c, Increment. rsimp. unfold ctr at 2.
    rewrite lookup_insert. cbn [is_count]. destruct (decide (n = m)) as [->|Hne].
    + rewrite String.eqb_refl. cbn [default b2z]. unfold id. rewrite eq64_u64, Z.add_assoc. done.
    + rewrite (proj2 (String.eqb_neq n m)) by done. cbn [b2z]. by rewrite Z.add_0_r.
  - intros m i. rewrite occurs_snoc. cbn [is_vec b2z]. rewrite Z.add_0_r. apply Hv.
  - intros m Hm. rewrite occurs_snoc. cbn [is_sample b2z]. rewrite Z.add_0_r. by apply Hh.
Qed.

Lemma AddValue_inv c hs seen st n v :
  run_inv c hs seen st → run_inv c hs (seen ++ [EvSample n v]) (AddValue n v st).
Proof.
  intros [[H1 H2 H3 H4 H5 H6 H7] Hg Hs Hc Hv Hh]. split; try done.
  - split; try done. intros m Hm. destruct (H7 m Hm) as [Ha Hb]. split; [|done].
    unfold AddValue. rsimp. rewrite lookup_insert. case_decide; [by eexists|done].
  - intros m. rewrite occurs_snoc. cbn [is_count b2z]. rewrite Z.add_0_r. apply Hc.
  - intros m i. rewrite occurs_snoc. cbn [is_vec b2z]. rewrite Z.add_0_r. apply Hv.
  - intros m Hm. rewrite occurs_snoc, <- Hh by done. unfold tot_h, epoch_samples, AddValue. rsimp.
    rewrite !decide_True by (by apply Hs). rewrite lookup_insert. cbn [is_sample].
    destruct (decide (n = m)) as [->|Hne].
    + rewrite String.eqb_refl. cbn [default b2z]. unfold id at 1. rewrite sum_values_bump, Z.add_assoc. done.
    + rewrite (proj2 (String.eqb_neq n m)) by done. cbn [b2z]. by rewrite Z.add_0_r.
Qed.

Lemma vec_insert {A} (m : gmap string (list A)) k v n :
  vec (<[k := v]> m) n = if decide (k = n) then v else vec m n.
Proof. unfold vec. rewrite lookup_insert. by case_decide. Qed.

Lemma IncrementVec_inv c hs seen st n pos :
  event_ok c (EvVec n pos) → run_inv c hs seen st →
  returns (IncrementVec n pos st) (run_inv c hs (seen ++ [EvVec n pos])).
Proof.
  intros He [[H1 H2 H3 H4 H5 H6 H7] Hg Hs Hc Hv Hh].
  assert (0 <= pos < zlen (vec (epoch_vec_counters_ st) n)) as Hp.
  { destruct He as [[Hn Hp]|[Hn Hp]]; [rewrite Hg by done|rewrite H5 by done]; done. }
  unfold IncrementVec, IncrementVecBy. destruct (aget_ok _ _ Hp) as [x Hx]. rewrite Hx.
  cbn [mbind outcome_bind]. rewrite aset_ok by done. cbn [mbind outcome_bind]. apply returns_ret.
  apply aget_Ret in Hx as [_ Hx].
  assert (∀ m, length (vec (<[n := <[Z.to_nat pos := u64 (x + 1)]> (vec (epoch_vec_counters_ st) n)]>
    (epoch_vec_counters_ st)) m) = length (vec (epoch_vec_counters_ st) m)) as Hl.
  { intros m. rewrite vec_insert. case_decide; [subst; by rewrite length_insert|done]. }
  split; rsimp; try done.
  - split; rsimp; try done.
    + intros m. by rewrite Hl.
    + intros m Hm. unfold zlen. rewrite Hl. by apply H5.
  - intros m Hm. unfold zlen. rewrite Hl. by apply Hg.
  - intros m. rewrite occurs_snoc. cbn [is_count b2z]. rewrite Z.add_0_r. apply Hc.
  - intros m i. rewrite occurs_snoc, <- Hv. unfold tot_v. rsimp. rewrite vec_insert. cbn [is_vec].
    destruct (decide (n = m)) as [->|Hne].
    + rewrite String.eqb_refl. cbn [andb]. unfold at0 at 2. rewrite list_lookup_insert.
      case_decide as Hd.
      * destruct Hd as [Hd _]. subst i. rewrite Z2Nat.id, Z.eqb_refl by lia. simpl.
        unfold id. rewrite eq64_u64. unfold at0 at 3. rewrite Hx. simpl. unfold id.
        by rewrite Z.add_assoc.
      * rewrite (proj2 (Z.eqb_neq _ _)). { simpl. by rewrite Z.add_0_r. }
        intros ->. apply Hd. rewrite Nat2Z.id. split; [done|]. unfold zlen in Hp. lia.
    + rewrite (proj2 (String.eqb_neq n m)) by done. cbn [andb b2z]. by rewrite Z.add_0_r.
  - intros m Hm. rewrite occurs_snoc. cbn [is_sample b2z]. rewrite Z.add_0_r. by apply Hh.
Qed.

Lemma stat_run_inv (c : Config) hs st evs :
  run_inv c hs [] st → Forall (event_ok c) evs →
  returns (stat_run c st evs) (run_inv c hs evs).
Proof.
  intros H0 Hevs. unfold stat_run. apply (foldl_returns (run_inv c hs) (stat_step c)); [done|].
  intros seen e rest s -> Hs. apply Forall_app in Hevs as [_ [He _]%Forall_cons].
  destruct e as [n|n pos|n v|]; cbn [stat_step].
  - apply returns_ret. by apply Increment_inv.
  - by apply IncrementVec_inv.
  - apply returns_ret. by apply AddValue_inv.
  - destruct Hs as [Hok Hg Hb Hc Hv Hh].
    eapply returns_mono; [by apply UpdateEpochStats_spec|]. intros s' (Hok' & (T1 & T2 & T3) & Hb' & Hl).
    split; try done.
    + intros n Hn. unfold zlen. rewrite Hl. by apply Hg.
    + intros n. by rewrite Hb'.
    + intros n. rewrite occurs_snoc. cbn [is_count b2z]. by rewrite Z.add_0_r, T1.
    + intros n i. rewrite occurs_snoc. cbn [is_vec b2z]. by rewrite Z.add_0_r, T2.
    + intros n Hn. rewrite occurs_snoc. cbn [is_sample b2z]. rewrite Z.add_0_r, T3. by apply Hh.
Qed.

(** *** A new object *)

Definition zero_entries {A} (v : A) (l : list string) : gmap string A :=
  list_to_map ((λ n, (n, v)) <$> l).
Definition new_vecs (n : nat) : gmap string (list Z) :=
  list_to_map [("prac_per_tREFI", replicate 13 0); ("acts_per_tREFI", replicate 13 0);
    ("all_bank_idle_cycles", replicate n 0); ("rank_active_cycles", replicate n 0);
    ("sref_cycles", replicate n 0)]%string.
Definition histo_names : list string := (λ e : string * Z * Z, e.1.1) <$> histo_stats.
Definition new_bins : gmap string (list Z) :=
  list_to_map ((λ e : string * Z * Z, (e.1.1, replicate (Z.to_nat (e.2 + 2)) 0)) <$> histo_stats).
Definition stats_init (n : nat) : SimpleStats := {|
  counters_ := zero_entries 0 counter_names; epoch_counters_ := zero_entries 0 counter_names;
  vec_counters_ := new_vecs n; epoch_vec_counters_ := new_vecs n;
  doubles_ := zero_entries d0 double_names;
  vec_doubles_ := zero_entries (replicate n d0) ["act_stb_energy"; "pre_stb_energy"; "sref_energy"]%string;
  calculated_ := zero_entries d0 calculated_names;
  histo_bounds_ := list_to_map ((λ e : string * Z * Z, (e.1.1, (0, e.1.2))) <$> histo_stats);
  bin_widths_ := list_to_map ((λ e : string * Z * Z, (e.1.1, Z.quot e.1.2 e.2)) <$> histo_stats);
  histo_counts_ := zero_entries ∅ histo_names; epoch_histo_counts_ := zero_entries ∅ histo_names;
  histo_bins_ := new_bins; epoch_histo_bins_ := new_bins
|}.

Lemma SimpleStats_new_eq ranks :
  0 <= ranks → SimpleStats_new ranks = Ret (stats_init (Z.to_nat ranks)).
Proof.
  intros Hr. unfold SimpleStats_new. unfold vec_stats. cbn [foldl]. unfold InitVecStat.
  cbn [fst snd default]. unfold id. rewrite (proj2 (Z.ltb_ge ranks 0)) by done.
  generalize (Z.to_nat ranks). intros n.
  match goal with |- ?a = ?b => exact (eq_refl b <: a = b) end.
Qed.

Lemma vec_list_to_map {A} (l : list (string * list A)) n :
  (∃ v, (n, v) ∈ l ∧ vec (list_to_map l) n = v) ∨ vec (list_to_map l) n = [].
Proof.
  unfold vec. destruct ((list_to_map l : gmap string (list A)) !! n) as [v|] eqn:E; [|by right].
  left. exists v. split; [by apply elem_of_list_to_map_2|done].
Qed.
Lemma ctr_zero_entries l n : ctr (zero_entries 0 l) n = 0.
Proof.
  unfold ctr, zero_entries. destruct (_ !! n) as [v|] eqn:E; [|done].
  apply elem_of_list_to_map_2, list_elem_of_fmap in E as (m & E & _). by injection E as -> ->.
Qed.
Lemma at0_replicate n i : at0 (replicate n 0) i = 0.
Proof.
  unfold at0. destruct (replicate n 0 !! i) eqn:E; [|done]. by apply lookup_replicate in E as [-> _].
Qed.

Lemma sumZ_replicate n : sumZ (replicate n 0) = 0.
Proof. unfold sumZ. induction n; simpl; done. Qed.

Lemma stats_init_inv (c : Config) :
  0 <= c.(ranks) → run_inv c (list_to_set histo_names) [] (stats_init (Z.to_nat c.(ranks))).
Proof.
  intros Hr. set (n := Z.to_nat c.(ranks)).
  assert (∀ m i, at0 (vec (new_vecs n) m) i = 0) as Hz.
  { intros m i. destruct (vec_list_to_map [("prac_per_tREFI", replicate 13 0);
      ("acts_per_tREFI", replicate 13 0); ("all_bank_idle_cycles", replicate n 0);
      ("rank_active_cycles", replicate n 0); ("sref_cycles", replicate n 0)]%string m) as [(v & Hv & E)|E];
      unfold new_vecs; rewrite E; [|done].
    repeat (apply elem_of_cons in Hv as [Hv|Hv]; [apply pair_eq in Hv as [_ ->]; apply at0_replicate|]).
    by apply elem_of_nil in Hv. }
  assert (∀ m, sumZ (vec new_bins m) = 0) as Hb.
  { intros m. unfold new_bins. destruct (vec_list_to_map
      ((λ e : string * Z * Z, (e.1.1, replicate (Z.to_nat (e.2 + 2)) 0)) <$> histo_stats) m)
      as [(v & Hv & E)|E]; rewrite E; [|done].
    apply list_elem_of_fmap in Hv as (e & Hv & _). apply pair_eq in Hv as [_ ->].
    apply sumZ_replicate. }
  split.
  - split; try done.
    + intros m bins Hm. change (new_bins !! m = Some bins) in Hm. unfold new_bins in Hm.
      apply elem_of_list_to_map_2 in Hm. unfold histo_stats in Hm. rewrite !fmap_cons, fmap_nil in Hm.
      repeat (apply elem_of_cons in Hm as [Hm|Hm]; [apply pair_eq in Hm as [-> ->]; split; vm_compute; done|]).
      by apply elem_of_nil in Hm.
    + intros m Hm. unfold rank_vecs in Hm.
      assert (zlen (replicate n 0) = c.(ranks)) as Hl by (unfold zlen, n; rewrite length_replicate; lia).
      repeat (apply elem_of_cons in Hm as [->|Hm]; [exact Hl|]). by apply elem_of_nil in Hm.
    + intros m Hm. unfold rank_dbls in Hm.
      assert (zlen (replicate n d0) = c.(ranks)) as Hl by (unfold zlen, n; rewrite length_replicate; lia).
      repeat (apply elem_of_cons in Hm as [->|Hm]; [exact Hl|]). by apply elem_of_nil in Hm.
    + intros m Hm. unfold used_histos in Hm.
      repeat (apply elem_of_cons in Hm as [->|Hm]; [split; eexists; reflexivity|]). by apply elem_of_nil in Hm.
  - intros m Hm. unfold geostat_vecs in Hm.
    repeat (apply elem_of_cons in Hm as [->|Hm]; [reflexivity|]). by apply elem_of_nil in Hm.
  - intros m. cbn [stats_init epoch_histo_bins_]. rewrite elem_of_list_to_set. split.
    + intros [v Hv]. unfold new_bins in Hv. apply elem_of_list_to_map_2 in Hv.
      apply list_elem_of_fmap in Hv as (e & E & He). injection E as -> _.
      apply list_elem_of_fmap. by exists e.
    + intros Hm. unfold histo_names, histo_stats in Hm. cbn in Hm.
      repeat (apply elem_of_cons in Hm as [->|Hm]; [eexists; reflexivity|]). by apply elem_of_nil in Hm.
  - intros m. unfold tot_c. cbn [stats_init counters_ epoch_counters_]. by rewrite !ctr_zero_entries.
  - intros m i. unfold tot_v. cbn [stats_init vec_counters_ epoch_vec_counters_]. by rewrite !Hz.
  - intros m Hm. unfold tot_h, epoch_samples. cbn [stats_init histo_bins_ epoch_histo_bins_ epoch_histo_counts_].
    destruct (decide _); [|done]. rewrite Hb.
    destruct (zero_entries ∅ histo_names !! m) as [v|] eqn:E; [|done].
    unfold zero_entries in E. apply elem_of_list_to_map_2, list_elem_of_fmap in E as (x & E & _).
    by injection E as -> ->.
Qed.

(** ** Properties *)

(** C28. The final report counts every event exactly once (modulo [2^64]), however the run
    is cut into epochs: each counter holds the number of its increments, each element of
    a vector the number of its increments, and the bins of each histogram the number of
    its samples. The run and the report never fail. *)
Theorem stats_conservation (c : Config) (evs : list stat_event) :
  0 <= c.(ranks) → Forall (event_ok c) evs →
  ∃ st0 st st', SimpleStats_new c.(ranks) = Ret st0 ∧ stat_run c st0 evs = Ret st ∧
    UpdateFinalStats c st = Ret st' ∧
    (∀ n, eq64 (GetCtr st' n) (occurs (is_count n) evs)) ∧
    (∀ n i, eq64 (at0 (vec st'.(vec_counters_) n) i) (occurs (is_vec n i) evs)) ∧
    ∀ n, n ∈ histo_names → eq64 (sumZ (vec st'.(histo_bins_) n)) (occurs (is_sample n) evs).
Proof.
  intros Hr Hevs. exists (stats_init (Z.to_nat c.(ranks))).
  destruct (stat_run_inv c _ _ evs (stats_init_inv c Hr) Hevs) as (st & Hrun & [Hok _ Hb Hc Hv Hh]).
  destruct (UpdateFinalStats_spec c st Hok) as (st' & Hfin & Fc & Fv & Fh).
  exists st, st'. split; [by apply SimpleStats_new_eq|]. split; [done|]. split; [done|].
  split; [intros n; by rewrite Fc|]. split; [intros n i; by rewrite Fv|].
  intros n Hn. assert (n ∈ (list_to_set histo_names : gset string)) as Hn' by by apply elem_of_list_to_set.
  rewrite Fh by by apply Hb. by apply Hh.
Qed.

Definition demo_events : list stat_event :=
  [EvCount "num_act_cmds"; EvSample "read_latency" 57; EvVec "prac_per_tREFI" 3; EvEpoch;
   EvCount "num_act_cmds"; EvSample "read_latency" 250; EvEpoch; EvEpoch]%string.

Lemma stats_conservation_witness :
  0 <= baseline.(ranks) ∧ ∃ st0 st st', SimpleStats_new baseline.(ranks) = Ret st0 ∧
    stat_run baseline st0 demo_events = Ret st ∧ UpdateFinalStats baseline st = Ret st' ∧
    eq64 (GetCtr st' "num_act_cmds") 2 ∧ eq64 (sumZ (vec st'.(histo_bins_) "read_latency")) 2.
Proof.
  assert (0 <= baseline.(ranks)) as Hr by (vm_compute; discriminate). split; [exact Hr|].
  assert (Forall (event_ok baseline) demo_events) as He.
  { repeat apply Forall_cons_2; try apply Forall_nil_2; try exact I. left. split; [left|lia]. }
  destruct (stats_conservation baseline demo_events Hr He) as (st0 & st & st' & H0 & H1 & H2 & Hc & _ & Hh).
  exists st0, st, st'. split; [exact H0|]. split; [exact H1|]. split; [exact H2|].
  split; [apply Hc|apply Hh; left].
Defined.

Lemma rank_energy_doubles (c : Config) vecs d st b i :
  rank_energy c vecs (st <| doubles_ := d |>, b) i =
  (λ r : SimpleStats * double, (r.1 <| doubles_ := d |>, r.2)) <$> rank_energy c vecs (st, b) i.
Proof.
  unfold rank_energy. rsimp.
  repeat (match goal with |- context [@aget ?A ?v i] => destruct (@aget A v i); [|done] end;
          cbn [mbind outcome_bind]).
  repeat (match goal with |- context [@aset ?A ?v i ?x] => destruct (@aset A v i x); [|done] end;
          cbn [mbind outcome_bind]).
  done.
Qed.
Lemma rank_energies_doubles (c : Config) vecs d l st b :
  for_ l (st <| doubles_ := d |>, b) (rank_energy c vecs) =
  (λ r : SimpleStats * double, (r.1 <| doubles_ := d |>, r.2)) <$> for_ l (st, b) (rank_energy c vecs).
Proof.
  revert st b. induction l as [|i l IH]; intros st b; [done|]. cbn [for_].
  rewrite rank_energy_doubles. destruct (rank_energy c vecs (st, b) i) as [[s b']|]; [|done].
  cbn [fmap outcome_fmap mbind outcome_bind fst snd]. apply IH.
Qed.

(** The total energy leaves the all-bank refreshes out: their energy is stored as
    ["refab_energy"] while the sum reads ["ref_energy"], which nothing sets. Any number
    of refreshes gives the same total. *)
Theorem total_energy_ignores_refab (c : Config) ctrs vecs st n :
  (λ r : SimpleStats * double, total_energy r.1 r.2) <$>
    energies c (<["num_refab_cmds"%string := n]> ctrs) vecs st =
  (λ r : SimpleStats * double, total_energy r.1 r.2) <$> energies c ctrs vecs st.
Proof.
  assert (∀ k, k ≠ "num_refab_cmds"%string → ctr (<["num_refab_cmds"%string := n]> ctrs) k = ctr ctrs k) as Hk.
  { intros k Hk. unfold ctr. by rewrite lookup_insert_ne. }
  unfold energies. cbn zeta.
  match goal with |- context [for_ _ (?s1, _) _ ] => set (A := s1) end.
  match goal with |- _ = (_ <$> for_ _ (?s2, _) _) => set (B := s2) end.
  change A with (B <| doubles_ := A.(doubles_) |>).
  rewrite rank_energies_doubles. pose proof (rank_energies_doubles c vecs B.(doubles_)
    (seqZ 0 (ranks c)) B d0) as HB.
  change (B <| doubles_ := B.(doubles_) |>) with B in HB.
  destruct (for_ _ (B, d0) _) as [[s b]|]; [|done]. cbn [fmap outcome_fmap fst snd] in *.
  injection HB as HB. f_equal. unfold total_energy, dbl. rewrite HB. rsimp.
  assert (∀ k, k ≠ "refab_energy"%string → doubles_ A !! k = doubles_ B !! k) as Hd.
  { intros k Hne. subst A B. rsimp. rewrite !lookup_insert.
    rewrite (Hk "num_refb_cmds"%string), (Hk "num_write_cmds"%string), (Hk "num_read_cmds"%string),
      (Hk "num_act_cmds"%string) by discriminate. repeat (case_decide; [done || congruence|]). done. }
  by rewrite !Hd by discriminate.
Qed.
