(* ===== verification/BankState.v ===== *)
(** * DRAMsim3: one bank (DRAMsim3/src/bankstate.h, bankstate.cc)

    The state of a bank, the command it needs next for a request ([GetReadyCommand]),
    the effect of a command ([UpdateState]), and the row-hammer counters: PRAC with MOAT,
    and the buffered updates of MOPAC. The preprocessor macros [USE_PRAC] and [ROWPRESS]
    are the fields of [Build]. *)
From S2P Require Import Prelude Common Config Stats.
From stdpp Require Import pretty.
Open Scope Z_scope.

(** ** Build options *)
Record Build := mkBuild { USE_PRAC : Z; ROWPRESS : bool }.
Definition PRAC_IMPL_ONLY_DELAY : Z := 1.
Definition PRAC_IMPL_MOAT : Z := 2.
Definition PRAC_IMPL_PAC : Z := 3.
Definition PRAC_IMPL_MOPAC : Z := 4.
(** [#if USE_PRAC==PRAC_IMPL_MOAT || USE_PRAC==PRAC_IMPL_PAC] *)
Definition uses_moat (B : Build) : bool :=
  (B.(USE_PRAC) =? PRAC_IMPL_MOAT) || (B.(USE_PRAC) =? PRAC_IMPL_PAC).
Definition uses_mopac (B : Build) : bool := B.(USE_PRAC) =? PRAC_IMPL_MOPAC.

(** ** State *)

Inductive State : Set := OPEN | CLOSED | SREF | PD | STATE_SIZE.
Record MopacEntry := mkMopac { row_ : Z; sctr_ : Z }.

Record BankState := mkBankState {
  state_ : State;
  cmd_timing_ : list Z;
  open_row_ : Z; row_open_clk_ : Z; row_hit_count_ : Z;
  rank_ : Z; bank_group_ : Z; bank_ : Z;
  raa_ctr_ : Z;
  acts_stat_name_ : string; acts_counter_ : Z;
  total_row_acts_ : list Z; prac_ : list Z;
  moat_row_valid_ : bool; moat_row_ : Z; moat_eth_ : Z; moat_ath_ : Z; moat_trefi_cnt_ : Z;
  mopac_act_ctr_ : Z; mopac_mint_sel_ : Z; mopac_drain_countdown_ : Z;
  mopac_buf_ : list MopacEntry; mopac_critical_rows_ : Z;
  ref_idx_ : Z
}.

(** what all banks share: the file's static variables and the statistics *)
Record Shared {G : Type} := mkShared {
  sh_rng : G;
  pac_next_pre_cmd_is_valid : bool;
  pac_next_pre_cmd : CommandType;
  sh_stats : SimpleStats
}.
Arguments Shared G : clear implicits.
Arguments mkShared {G}.

Section Bank.
Context {G : Type} `{Rng64 G} (B : Build) (c : Config).
Implicit Types (sh : Shared G) (b : BankState) (cmd : Command).

Definition stat (f : SimpleStats → SimpleStats) (sh : Shared G) : Shared G :=
  sh <| sh_stats ::= f |>.
Definition stat_o (f : SimpleStats → outcome SimpleStats) (sh : Shared G) : outcome (Shared G) :=
  st ← f sh.(sh_stats);
  Ret (sh <| sh_stats := st |>).
(** [rng() % n], [n] an [int] converted to 64 bits *)
Definition rng_mod (sh : Shared G) (n : Z) : outcome (Shared G * Z) :=
  let r := rng sh.(sh_rng) in
  v ← umod r.1 (u64 n);
  Ret (sh <| sh_rng := r.2 |>, v).

Definition BankState_new (sh : Shared G) (rank bank_group bank : Z) : outcome (Shared G * BankState) :=
  if c.(rows) <? 0 then Fault Throw
  else
    r ← rng_mod sh c.(pac_prob);
    let (sh, sel) := r : Shared G * Z in
    let name := ("acts." +:+ pretty rank +:+ "." +:+ pretty bank_group +:+ "." +:+ pretty bank)%string in
    let zeros := replicate (Z.to_nat c.(rows)) 0 in
    Ret (stat (InitStat name Counter) sh,
      {| state_ := CLOSED; cmd_timing_ := replicate 16 0; open_row_ := -1; row_open_clk_ := 0;
         row_hit_count_ := 0; rank_ := rank; bank_group_ := bank_group; bank_ := bank;
         raa_ctr_ := 0; acts_stat_name_ := name; acts_counter_ := 0;
         total_row_acts_ := zeros; prac_ := zeros;
         moat_row_valid_ := false; moat_row_ := 0;
         moat_eth_ := u64 (Z.quot c.(moat_ath) 2); moat_ath_ := u64 c.(moat_ath);
         moat_trefi_cnt_ := 0; mopac_act_ctr_ := 0; mopac_mint_sel_ := sel;
         mopac_drain_countdown_ := 0; mopac_buf_ := []; mopac_critical_rows_ := 0;
         ref_idx_ := 0 |}).

(** ** The next command *)

Definition GetPrechargeCmd (sh : Shared G) (pac_prob : Z) : outcome (Shared G * CommandType) :=
  if uses_mopac B then Ret (sh, PRECHARGE)
  else if B.(USE_PRAC) =? PRAC_IMPL_PAC then
    if negb sh.(pac_next_pre_cmd_is_valid) then
      r ← rng_mod sh pac_prob;
      let (sh, v) := r : Shared G * Z in
      let p := if v =? 0 then PRECHARGE2 else PRECHARGE in
      Ret (sh <| pac_next_pre_cmd_is_valid := true |> <| pac_next_pre_cmd := p |>, p)
    else Ret (sh, sh.(pac_next_pre_cmd))
  else if 1 <=? B.(USE_PRAC) then Ret (sh, PRECHARGE2)
  else Ret (sh, PRECHARGE).

(** [READ], [WRITE] and their variants; refreshes, RFM and [SREF_ENTER] *)
Definition is_access (t : CommandType) : bool :=
  match t with
  | READ | READ_PRECHARGE | READ_PRECHARGE2 | WRITE | WRITE_PRECHARGE | WRITE_PRECHARGE2 => true
  | _ => false
  end.
Definition is_maintenance (t : CommandType) : bool :=
  match t with REFRESH_BANK | REFsb | REFab | SREF_ENTER | RFMsb | RFMab => true | _ => false end.

Definition needs_rfm (b : BankState) (mode : Z) : bool :=
  (c.(rfm_mode) =? mode) && (c.(raammt) <=? b.(raa_ctr_)).

(** an access that hits the open row; with [ROWPRESS] a row open longer than tON is
    closed by the access *)
Definition row_hit_type (sh : Shared G) (b : BankState) (t : CommandType) (clk : Z) :
    outcome (Shared G * CommandType) :=
  if B.(ROWPRESS) && (u64 c.(tON) <? u64 (clk - b.(row_open_clk_))) then
    r ← GetPrechargeCmd sh c.(pac_prob);
    let (sh, p) := r : Shared G * CommandType in
    Ret (sh, if ct_eqb p PRECHARGE2
             then (if ct_eqb t READ then READ_PRECHARGE2 else WRITE_PRECHARGE2)
             else (if ct_eqb t READ then READ_PRECHARGE else WRITE_PRECHARGE))
  else Ret (sh, t).

Definition required_type (sh : Shared G) (b : BankState) (cmd : Command) (clk : Z) :
    outcome (Shared G * CommandType) :=
  let t := cmd.(cmd_type) in
  match b.(state_) with
  | CLOSED =>
      if is_access t then
        Ret (sh, if needs_rfm b 1 then RFMsb else if needs_rfm b 2 then RFMab else ACTIVATE)
      else if is_maintenance t then Ret (sh, t)
      else AbruptExit
  | OPEN =>
      if is_access t then
        if Row cmd =? b.(open_row_) then row_hit_type sh b t clk
        else GetPrechargeCmd sh c.(pac_prob)
      else if is_maintenance t then GetPrechargeCmd sh c.(pac_prob)
      else AbruptExit
  | SREF => if is_access t then Ret (sh, SREF_EXIT) else AbruptExit
  | PD | STATE_SIZE => AbruptExit
  end.

Definition GetReadyCommand (sh : Shared G) (b : BankState) (cmd : Command) (clk : Z) :
    outcome (Shared G * Command) :=
  r ← required_type sh b cmd clk;
  let (sh, t) := r : Shared G * CommandType in
  if negb (ct_eqb t SIZE) then
    time ← aget b.(cmd_timing_) (ct_int t);
    Ret (sh, if time <=? clk then mkCommand t cmd.(addr) cmd.(hex_addr) else Command0)
  else Ret (sh, Command0).

(** ** MOAT *)

Definition MoatCheckTrackedRowIsRefreshed (b : BankState) : BankState :=
  let lwr := b.(ref_idx_) in
  let upp := u32 (b.(ref_idx_) + c.(rows_refreshed)) in
  if b.(moat_row_valid_) && (lwr <=? b.(moat_row_)) && (b.(moat_row_) <? upp)
  then b <| moat_row_valid_ := false |> else b.

(** row [r] with counter [v] becomes the tracked row when it beats the tracked one *)
Definition moat_track (b : BankState) (r v : Z) : outcome BankState :=
  if v <? b.(moat_eth_) then Ret b
  else if negb b.(moat_row_valid_) then Ret (b <| moat_row_ := r |> <| moat_row_valid_ := true |>)
  else
    w ← aget b.(prac_) b.(moat_row_);
    Ret (if w <? v then b <| moat_row_ := r |> <| moat_row_valid_ := true |> else b).

Definition MoatUpdate (b : BankState) : outcome BankState :=
  v ← aget b.(prac_) b.(open_row_);
  moat_track b b.(open_row_) v.

Definition MoatMitigate (sh : Shared G) (b : BankState) : outcome (Shared G * BankState) :=
  if b.(moat_row_valid_) then
    p ← aset b.(prac_) b.(moat_row_) 0;
    Ret (stat (Increment "num_moat_mitigations") sh,
         b <| prac_ := p |> <| moat_row_valid_ := false |>)
  else Ret (sh, b).

Definition MoatHandleRef (sh : Shared G) (b : BankState) : outcome (Shared G * BankState) :=
  let b := b <| moat_trefi_cnt_ ::= λ n, u64 (n + 1) |> in
  r ← (if b.(moat_trefi_cnt_) =? 5 then
         r ← MoatMitigate sh b;
         let (sh, b) := r : Shared G * BankState in Ret (sh, b <| moat_trefi_cnt_ := 0 |>)
       else Ret (sh, b));
  let (sh, b) := r : Shared G * BankState in
  Ret (sh, MoatCheckTrackedRowIsRefreshed b).

(** ** MOPAC *)

(** [SafeDecrement] takes its argument by value: the caller's counter does not change *)
Definition SafeDecrement (b : BankState) : BankState := b.

Definition MopacUpdatePRAC (b : BankState) (r by_ : Z) : outcome BankState :=
  x ← aget b.(prac_) r;
  let v := u16 (x + by_) in
  p ← aset b.(prac_) r v;
  moat_track (b <| prac_ := p |>) r v.

Definition MopacFlushNextCtr (b : BankState) : outcome BankState :=
  match b.(mopac_buf_) with
  | [] => Ret b
  | e :: buf => MopacUpdatePRAC (b <| mopac_buf_ := buf |>) e.(row_) e.(sctr_)
  end.
Definition flush_n (b : BankState) (n : Z) : outcome BankState :=
  for_ (seqZ 0 n) b (λ b _, MopacFlushNextCtr b).
Definition MopacFlushAllCtrs (b : BankState) : outcome BankState :=
  flush_n b (u64 c.(mopac_abo_updates)).

(** the first entry at or over the queue threshold, and the buffer without it *)
Fixpoint take_critical (buf : list MopacEntry) : option (MopacEntry * list MopacEntry) :=
  match buf with
  | [] => None
  | e :: buf =>
      if u64 c.(mopac_queue_th) <=? e.(sctr_) then Some (e, buf)
      else match take_critical buf with Some (x, rest) => Some (x, e :: rest) | None => None end
  end.
Definition MopacHandleCriticalRow (b : BankState) : outcome BankState :=
  match take_critical b.(mopac_buf_) with
  | Some (e, rest) =>
      b ← MopacUpdatePRAC b e.(row_) e.(sctr_);
      Ret (SafeDecrement (b <| mopac_buf_ := rest |>))
  | None => Ret b
  end.

(** rows about to be refreshed leave the buffer *)
Definition drop_refreshed (b : BankState) : BankState :=
  let lwr := b.(ref_idx_) in
  let upp := u32 (b.(ref_idx_) + c.(rows_refreshed)) in
  b <| mopac_buf_ ::= List.filter (λ e, negb ((lwr <=? e.(row_)) && (e.(row_) <? upp))) |>.
Definition MopacHandleRef (b : BankState) : outcome BankState :=
  let b := drop_refreshed b in
  b ← (if b.(mopac_drain_countdown_) =? 0 then
         b ← flush_n b (u64 c.(mopac_ref_updates));
         Ret (b <| mopac_drain_countdown_ := u64 c.(mopac_drain_freq) |>)
       else Ret b);
  let b := b <| mopac_drain_countdown_ ::= λ n, u64 (n - 1) |> in
  Ret (MoatCheckTrackedRowIsRefreshed b).

Definition MopacMitigate (sh : Shared G) (b : BankState) : outcome (Shared G * BankState) :=
  let quietly (e : outcome BankState) := (b ← e; Ret (sh, b)) : outcome (Shared G * BankState) in
  if 0 <? b.(mopac_critical_rows_) then quietly (MopacHandleCriticalRow b)
  else if u64 c.(mopac_buf_size) <=? zlen b.(mopac_buf_) then quietly (MopacFlushAllCtrs b)
  else
    over ← (if b.(moat_row_valid_)
            then (v ← aget b.(prac_) b.(moat_row_); Ret (b.(moat_ath_) <=? v)) else Ret false);
    if over : bool then MoatMitigate sh b else quietly (MopacFlushAllCtrs b).

(** counts one more selection of row [r]: the entry's counter and whether it reached the
    threshold; [None] when the row is not in the buffer *)
Fixpoint bump_row (r : Z) (buf : list MopacEntry) : option (list MopacEntry * bool) :=
  match buf with
  | [] => None
  | e :: buf =>
      if e.(row_) =? r then
        let n := u64 (e.(sctr_) + 1) in
        Some (mkMopac e.(row_) n :: buf, n =? u64 c.(mopac_queue_th))
      else match bump_row r buf with Some (buf, k) => Some (e :: buf, k) | None => None end
  end.
(** [MopacEntry e = { open_row_, 1, 1 }] has one initialiser too many for the struct; the
    model takes the first two. *)
Definition MopacCtrUpdate (sh : Shared G) (b : BankState) : outcome (Shared G * BankState) :=
  let '(sh, b) :=
    if b.(mopac_act_ctr_) =? b.(mopac_mint_sel_) then
      let b := match bump_row (u64 b.(open_row_)) b.(mopac_buf_) with
        | Some (buf, critical) =>
            b <| mopac_buf_ := buf |>
              <| mopac_critical_rows_ ::= λ n, if critical : bool then u64 (n + 1) else n |>
        | None => b <| mopac_buf_ ::= λ buf, buf ++ [mkMopac (u64 b.(open_row_)) 1] |>
        end in
      (stat (Increment "num_mopac_buf_ins") sh, b)
    else (sh, b) in
  let b := b <| mopac_act_ctr_ ::= λ n, u64 (n + 1) |> in
  if b.(mopac_act_ctr_) =? u64 c.(pac_prob) then
    r ← rng_mod sh c.(pac_prob);
    let (sh, sel) := r : Shared G * Z in
    Ret (sh, b <| mopac_act_ctr_ := 0 |> <| mopac_mint_sel_ := sel |>)
  else Ret (sh, b).

(** [(size_t) ceil((double) x / (double) y)]; out of range the conversion is undefined *)
Definition ceil_quot (x y : Z) : outcome Z :=
  match ddiv (double_of_Z x) (double_of_Z y) with
  | S754_zero _ => Ret 0
  | S754_finite false m e =>
      let v := if 0 <=? e then Z.pos m * 2 ^ e else - ((- Z.pos m) / 2 ^ (- e)) in
      if v <? 18446744073709551616 then Ret v else Fault Undefined
  | _ => Fault Undefined
  end.
Definition MopacHandleRowpress (sh : Shared G) (b : BankState) (clk : Z) : outcome (Shared G * BankState) :=
  if existsb (λ e, e.(row_) =? u64 b.(open_row_)) b.(mopac_buf_) then
    n ← ceil_quot (u64 (clk - b.(row_open_clk_))) c.(tON);
    let n_acts := u64 (n - 1) in
    for_ (seqZ 0 n_acts) (stat (AddValue "row_open_time" n_acts) sh, b)
      (λ s _, MopacCtrUpdate s.1 s.2)
  else Ret (sh, b).

(** ** The effect of a command *)

(** 0, 1, 2, 4, 8, ..., 1024, more *)
Definition get_geostat_bin (val : Z) : Z :=
  if val =? 0 then 0 else if val =? 1 then 1 else if val <=? 2 then 2 else if val <=? 4 then 3
  else if val <=? 8 then 4 else if val <=? 16 then 5 else if val <=? 32 then 6
  else if val <=? 64 then 7 else if val <=? 128 then 8 else if val <=? 256 then 9
  else if val <=? 512 then 10 else if val <=? 1024 then 11 else 12.

(** one row of a refresh *)
Definition refresh_row (s : Shared G * BankState) (i : Z) : outcome (Shared G * BankState) :=
  let (sh, b) := s in
  idx ← umod (u32 (b.(ref_idx_) + i)) (u32 c.(rows));
  let idx := i32 idx in
  v ← aget b.(prac_) idx;
  sh ← stat_o (IncrementVec "prac_per_tREFI" (get_geostat_bin v)) sh;
  p ← aset b.(prac_) idx 0;
  Ret (sh, b <| prac_ := p |>).

Definition update_refresh (sh : Shared G) (b : BankState) : outcome (Shared G * BankState) :=
  b ← (if uses_mopac B then MopacHandleRef b else Ret b);
  r ← for_ (seqZ 0 c.(rows_refreshed)) (sh, b) refresh_row;
  let (sh, b) := r : Shared G * BankState in
  sh ← stat_o (IncrementVec "acts_per_tREFI" (Z.quot b.(acts_counter_) 10)) sh;
  let b := b <| raa_ctr_ ::= λ n, i32 (n - Z.min n c.(ref_raa_decrement)) |>
             <| acts_counter_ := 0 |> in
  r ← (if uses_moat B then MoatHandleRef sh b else Ret (sh, b));
  let (sh, b) := r : Shared G * BankState in
  i ← umod (u32 (b.(ref_idx_) + c.(rows_refreshed))) (u32 c.(rows));
  let b := b <| ref_idx_ := i |> in
  Ret (sh, if i =? 0 then b <| total_row_acts_ := [] |> else b).

Definition update_rfm (sh : Shared G) (b : BankState) : outcome (Shared G * BankState) :=
  let b := b <| raa_ctr_ ::= λ n, i32 (n - Z.min n c.(rfm_raa_decrement)) |> in
  if uses_mopac B then MopacMitigate sh b
  else if uses_moat B then MoatMitigate sh b
  else Ret (sh, b).

(** the statistics of a row's [n]-th activation in a refresh window *)
Definition count_acts (n : Z) (sh : Shared G) : Shared G :=
  let at_n k name sh := if n =? k then stat (Increment name) sh else sh in
  at_n 256 "rows_ge_256_acts"%string (at_n 200 "rows_ge_200_acts"%string
    (at_n 128 "rows_ge_128_acts"%string (at_n 64 "rows_ge_64_acts"%string
    (at_n 32 "rows_ge_32_acts"%string sh)))).
Definition update_activate (sh : Shared G) (b : BankState) (row clk : Z) : outcome (Shared G * BankState) :=
  let b := b <| state_ := OPEN |> <| open_row_ := row |> <| row_open_clk_ := clk |>
             <| acts_counter_ ::= λ n, i32 (n + 1) |> in
  let sh := stat (Increment b.(acts_stat_name_)) sh in
  n ← aget b.(total_row_acts_) row;
  let n := u64 (n + 1) in
  t ← aset b.(total_row_acts_) row n;
  let b := b <| total_row_acts_ := t |> <| raa_ctr_ ::= λ n, i32 (n + 1) |> in
  let sh := count_acts n sh in
  if uses_mopac B then MopacCtrUpdate sh b else Ret (sh, b).

(** a precharge: [prac] when the row's counter is updated *)
Definition update_precharge (prac : bool) (sh : Shared G) (b : BankState) (clk : Z) :
    outcome (Shared G * BankState) :=
  b ← (if prac then
         x ← aget b.(prac_) b.(open_row_);
         p ← aset b.(prac_) b.(open_row_) (u16 (x + 1));
         let b := b <| prac_ := p |> in
         if uses_moat B then MoatUpdate b else Ret b
       else Ret b);
  let sh := sh <| pac_next_pre_cmd_is_valid := false |> in
  r ← (if B.(ROWPRESS) && uses_mopac B then MopacHandleRowpress sh b clk else Ret (sh, b));
  let (sh, b) := r : Shared G * BankState in
  Ret (sh, b <| state_ := CLOSED |> <| open_row_ := -1 |> <| row_hit_count_ := 0 |>).

Definition UpdateState (sh : Shared G) (b : BankState) (cmd : Command) (clk : Z) :
    outcome (Shared G * BankState) :=
  match b.(state_), cmd.(cmd_type) with
  | OPEN, (READ | WRITE) => Ret (sh, b <| row_hit_count_ ::= λ n, i32 (n + 1) |>)
  | OPEN, (READ_PRECHARGE2 | WRITE_PRECHARGE2 | PRECHARGE2) => update_precharge true sh b clk
  | OPEN, (READ_PRECHARGE | WRITE_PRECHARGE | PRECHARGE) => update_precharge false sh b clk
  | CLOSED, (REFab | REFRESH_BANK | REFsb) => update_refresh sh b
  | CLOSED, (RFMab | RFMsb) => update_rfm sh b
  | CLOSED, ACTIVATE => update_activate sh b (Row cmd) clk
  | CLOSED, SREF_ENTER => Ret (sh, b <| state_ := SREF |>)
  | SREF, SREF_EXIT => Ret (sh, b <| state_ := CLOSED |>)
  | _, _ => AbruptExit
  end.

Definition UpdateTiming (b : BankState) (t : CommandType) (time : Z) : outcome BankState :=
  x ← aget b.(cmd_timing_) (ct_int t);
  l ← aset b.(cmd_timing_) (ct_int t) (Z.max x time);
  Ret (b <| cmd_timing_ := l |>).

Definition IsRowOpen (b : BankState) : bool := match b.(state_) with OPEN => true | _ => false end.
Definition OpenRow (b : BankState) : Z := b.(open_row_).
Definition RowHitCount (b : BankState) : Z := b.(row_hit_count_).

Definition CheckAlert (sh : Shared G) (b : BankState) : outcome (Shared G * bool) :=
  if 0 <? b.(mopac_critical_rows_) then Ret (stat (Increment "num_mopac_alerts_qth") sh, true)
  else if u64 c.(mopac_buf_size) <=? zlen b.(mopac_buf_) then
    Ret (stat (Increment "num_mopac_alerts_buf_full") sh, true)
  else if b.(moat_row_valid_) then
    v ← aget b.(prac_) b.(moat_row_);
    Ret (sh, b.(moat_ath_) <=? v)
  else Ret (sh, false).
End Bank.
