(* ===== verification/BankSpec.v ===== *)
(** * Properties of a bank ([BankState])

    The state machine a bank implements ([next_state], [bank_step]), the invariant every
    command keeps ([bank_inv]), and that [GetReadyCommand] only returns commands the state
    machine allows. *)
From S2P Require Import Prelude Common Config Stats BankState.
Open Scope Z_scope.

(** ** Well-formed banks *)

Record bank_config_ok (c : Config) : Prop := {
  bc_rows : 0 < c.(rows) < 2147483648;
  bc_refreshed : 0 <= c.(rows_refreshed) < 2147483648;
  bc_pac : 0 < c.(pac_prob) < 2147483648;
  bc_rfm_dec : 0 <= c.(rfm_raa_decrement) < 2147483648;
  bc_ref_dec : 0 <= c.(ref_raa_decrement) < 2147483648;
  bc_raammt : 0 < c.(raammt) < 2147483648
}.
(** the statistics' vectors that a refresh uses have their 13 elements *)
Definition bins13 (st : SimpleStats) : Prop :=
  ∀ n, n ∈ geostat_vecs → zlen (vec st.(epoch_vec_counters_) n) = 13.
Definition stats_fit (c : Config) (st : SimpleStats) : Prop := bins13 st ∧ stats_ok c st.
(** updates of the statistics that keep their shape *)
Definition keeps_fit (c : Config) (f : SimpleStats → SimpleStats) : Prop := ∀ st, stats_fit c st → stats_fit c (f st).
Lemma fit_Increment c n : keeps_fit c (Increment n).
Proof. intros st [Hb []]. by split; [|split]. Qed.
Lemma fit_InitStat c n : keeps_fit c (InitStat n Counter).
Proof. intros st [Hb []]. by split; [|split]. Qed.
Lemma fit_AddValue c n v : keeps_fit c (AddValue n v).
Proof.
  intros st [Hb [? ? ? ? ? ? Hu]]. split; [done|split; try done]. intros m Hm. destruct (Hu m Hm) as [Ha ?].
  split; [|done]. unfold AddValue. rsimp. rewrite lookup_insert. case_decide; [by eexists|done].
Qed.
Lemma fit_vec c st n v : stats_fit c st → zlen v = zlen (vec st.(epoch_vec_counters_) n) →
  stats_fit c (st <| epoch_vec_counters_ ::= <[n := v]> |>).
Proof.
  intros [Hb [H1 H2 H3 H4 H5 H6 H7]] Hv.
  assert (∀ m, length (vec (<[n := v]> st.(epoch_vec_counters_)) m) = length (vec st.(epoch_vec_counters_) m)) as Hl.
  { intros m. rewrite vec_insert. case_decide; [subst; unfold zlen in Hv; lia|done]. }
  split; [intros m Hm; unfold zlen; rsimp; rewrite Hl; by apply Hb|]. split; rsimp; try done.
  - intros m. by rewrite Hl.
  - intros m Hm. unfold zlen. rewrite Hl. by apply H5.
Qed.
Lemma IncrementVec_fit c st n i : stats_fit c st → 0 <= i < zlen (vec st.(epoch_vec_counters_) n) →
  returns (IncrementVec n i st) (stats_fit c).
Proof.
  intros Hb Hi. unfold IncrementVec, IncrementVecBy. destruct (aget_ok _ _ Hi) as [x ->].
  cbn [mbind outcome_bind]. rewrite aset_ok by done. cbn [mbind outcome_bind].
  apply returns_ret. apply fit_vec; [done|]. unfold zlen. by rewrite length_insert.
Qed.
#[export] Hint Resolve fit_Increment fit_InitStat fit_AddValue : core.
Definition rfm_on (c : Config) : Prop := c.(rfm_mode) = 1 ∨ c.(rfm_mode) = 2.

Record bank_inv (c : Config) (b : BankState) : Prop := {
  bi_timing : length b.(cmd_timing_) = 16%nat;
  bi_state : b.(state_) = OPEN ∨ b.(state_) = CLOSED ∨ b.(state_) = SREF;
  bi_open : b.(state_) = OPEN → 0 <= b.(open_row_) < c.(rows);
  bi_prac : zlen b.(prac_) = c.(rows);
  bi_acts : b.(total_row_acts_) = [] ∨ zlen b.(total_row_acts_) = c.(rows);
  bi_moat : b.(moat_row_valid_) = true → 0 <= b.(moat_row_) < c.(rows);
  bi_ref : 0 <= b.(ref_idx_) < c.(rows);
  bi_buf : Forall (λ e, 0 <= e.(row_) < c.(rows)) b.(mopac_buf_);
  bi_raa : 0 <= b.(raa_ctr_) < 2147483648;
  bi_raammt : rfm_on c → b.(raa_ctr_) <= c.(raammt);
  bi_counter : 0 <= b.(acts_counter_)
}.

(** the request can be given to the bank in its state *)
Definition accepts (b : BankState) (t : CommandType) : Prop :=
  is_access t = true ∨ (is_maintenance t = true ∧ b.(state_) ≠ SREF).

Section BankLemmas.
Context {G : Type} `{Rng64 G} (B : Build) (c : Config) (Hc : bank_config_ok c).
Implicit Types (sh : Shared G) (b : BankState) (cmd : Command).

(** fields a step of the row-hammer counters may change *)
Record hammer_step (b b' : BankState) : Prop := {
  hs_timing : b'.(cmd_timing_) = b.(cmd_timing_);
  hs_state : b'.(state_) = b.(state_);
  hs_open : b'.(open_row_) = b.(open_row_);
  hs_hits : b'.(row_hit_count_) = b.(row_hit_count_);
  hs_raa : b'.(raa_ctr_) = b.(raa_ctr_);
  hs_acts : b'.(acts_counter_) = b.(acts_counter_);
  hs_total : b'.(total_row_acts_) = b.(total_row_acts_);
  hs_ref : b'.(ref_idx_) = b.(ref_idx_);
  hs_clk : b'.(row_open_clk_) = b.(row_open_clk_)
}.
(** what these steps need and keep *)
Record hammer_ok (b : BankState) : Prop := {
  ho_prac : zlen b.(prac_) = c.(rows);
  ho_moat : b.(moat_row_valid_) = true → 0 <= b.(moat_row_) < c.(rows);
  ho_buf : Forall (λ e, 0 <= e.(row_) < c.(rows)) b.(mopac_buf_)
}.
Definition hammer_post (b b' : BankState) : Prop :=
  hammer_step b b' ∧ hammer_ok b' ∧ 0 <= b.(mopac_critical_rows_) <= b'.(mopac_critical_rows_).

Definition shared_ok sh : Prop :=
  stats_fit c sh.(sh_stats) ∧
  (sh.(pac_next_pre_cmd_is_valid) = true →
   sh.(pac_next_pre_cmd) = PRECHARGE ∨ sh.(pac_next_pre_cmd) = PRECHARGE2).
Lemma shared_stat f sh : keeps_fit c f → shared_ok sh → shared_ok (stat f sh).
Proof. intros Hf [Hs Hv]. split; [|done]. unfold stat. rsimp. by apply Hf. Qed.

#[local] Hint Resolve zlen_nonneg : core.

Lemma inv_hammer_ok b : bank_inv c b → hammer_ok b.
Proof. intros []. by split. Qed.

(** an update of fields the counters own *)
Ltac hp := split_and!; try done; try (rsimp; lia); try (by split; rsimp).

Lemma moat_track_spec b r v : hammer_ok b → 0 <= r < c.(rows) →
  returns (moat_track b r v) (λ b', hammer_step b b' ∧ hammer_ok b' ∧
    b'.(prac_) = b.(prac_) ∧ b'.(mopac_buf_) = b.(mopac_buf_) ∧
    b'.(mopac_critical_rows_) = b.(mopac_critical_rows_) ∧
    b'.(moat_eth_) = b.(moat_eth_) ∧ b'.(moat_ath_) = b.(moat_ath_) ∧
    (b.(moat_eth_) <= v → aget b.(prac_) r = Ret v →
       b'.(moat_row_valid_) = true ∧ ∃ w, aget b.(prac_) b'.(moat_row_) = Ret w ∧ v <= w)).
Proof.
  intros [Hp Hm Hb] Hr. unfold moat_track.
  destruct (Z.ltb_spec v b.(moat_eth_)); [apply returns_ret; split_and!; try done; lia|].
  destruct (moat_row_valid_ b) eqn:Ev; cbn [negb].
  - destruct (aget_ok b.(prac_) b.(moat_row_)) as [w Hw]; [rewrite Hp; auto|].
    rewrite Hw. cbn [mbind outcome_bind]. apply returns_ret. destruct (Z.ltb_spec w v).
    + split_and!; try done. intros _ Hv. rsimp. split; [done|]. exists v. split; [done|lia].
    + split_and!; try done; try (by split; rewrite ?Ev). intros _ _. split; [done|]. by exists w.
  - apply returns_ret. split_and!; try done. intros _ Hv. rsimp. split; [done|].
    exists v. split; [done|lia].
Qed.

Lemma MoatUpdate_spec b : hammer_ok b → 0 <= b.(open_row_) < c.(rows) →
  returns (MoatUpdate b) (λ b', hammer_step b b' ∧ hammer_ok b' ∧
    b'.(prac_) = b.(prac_) ∧ b'.(mopac_buf_) = b.(mopac_buf_) ∧
    b'.(mopac_critical_rows_) = b.(mopac_critical_rows_) ∧ b'.(moat_ath_) = b.(moat_ath_) ∧
    ∀ v, aget b.(prac_) b.(open_row_) = Ret v → b.(moat_eth_) <= v →
      b'.(moat_row_valid_) = true ∧ ∃ w, aget b.(prac_) b'.(moat_row_) = Ret w ∧ v <= w).
Proof.
  intros Hok Ho. unfold MoatUpdate.
  destruct (aget_ok b.(prac_) b.(open_row_)) as [v Hv]; [by rewrite (ho_prac _ Hok)|].
  rewrite Hv. cbn [mbind outcome_bind]. eapply returns_mono; [by apply moat_track_spec|].
  intros b' (H1 & H2 & H3 & H4 & H5 & H6 & H7 & H8). split_and!; try done. intros w [= <-] Hw. auto.
Qed.

Lemma MoatMitigate_spec sh b : hammer_ok b → shared_ok sh → 0 <= b.(mopac_critical_rows_) →
  returns (MoatMitigate sh b) (λ r, shared_ok r.1 ∧ hammer_post b r.2).
Proof.
  intros [Hp Hm Hb] Hs H0. unfold MoatMitigate. destruct (moat_row_valid_ b) eqn:Ev.
  - rewrite aset_ok by (rewrite Hp; auto). cbn [mbind outcome_bind]. apply returns_ret.
    cbn [fst snd]. split; [by apply shared_stat|]. split; [done|]. split; [|rsimp; lia].
    split; rsimp; try done. unfold zlen. by rewrite length_insert.
  - apply returns_ret. cbn [fst snd]. rewrite <- Ev in Hm. hp.
Qed.

Lemma refreshed_spec b : hammer_ok b → 0 <= b.(mopac_critical_rows_) →
  hammer_post b (MoatCheckTrackedRowIsRefreshed c b) ∧
  (MoatCheckTrackedRowIsRefreshed c b).(prac_) = b.(prac_).
Proof.
  intros [Hp Hm Hb] H0. unfold MoatCheckTrackedRowIsRefreshed.
  destruct (_ && _); (split; [hp|done]).
Qed.

Lemma hammer_post_refl b : hammer_ok b → 0 <= b.(mopac_critical_rows_) → hammer_post b b.
Proof. intros Hok H0. split; [by split|]. split; [done|lia]. Qed.
Lemma hammer_post_trans b1 b2 b3 : hammer_post b1 b2 → hammer_post b2 b3 → hammer_post b1 b3.
Proof.
  intros ([] & _ & ?) ([] & ? & ?). split_and!; [|done|lia..]. split; congruence.
Qed.

Lemma MoatHandleRef_spec sh b : hammer_ok b → shared_ok sh → 0 <= b.(mopac_critical_rows_) →
  returns (MoatHandleRef c sh b) (λ r, shared_ok r.1 ∧ hammer_post b r.2).
Proof.
  intros Hok Hs H0. unfold MoatHandleRef.
  set (b1 := b <| moat_trefi_cnt_ ::= λ n, u64 (n + 1) |>).
  assert (hammer_ok b1) as Hok1 by (destruct Hok; by split).
  assert (hammer_post b b1) as Hp1 by (subst b1; hp).
  eapply returns_bind with (P := λ r, shared_ok r.1 ∧ hammer_post b r.2).
  { destruct (_ =? 5).
    - eapply returns_bind; [apply MoatMitigate_spec; try done|].
      intros [sh' b'] [Hs' Hp']. cbn [fst snd] in *. apply returns_ret. split; [done|].
      eapply hammer_post_trans; [exact Hp1|]. eapply hammer_post_trans; [exact Hp'|].
      destruct Hp' as (_ & [] & ?). hp.
    - by apply returns_ret. }
  intros [sh' b'] [Hs' Hp']. cbn [fst snd] in *. apply returns_ret. split; [done|].
  eapply hammer_post_trans; [exact Hp'|]. apply refreshed_spec; [apply Hp'|].
  destruct Hp' as (_ & _ & ?). lia.
Qed.

Lemma MopacUpdatePRAC_spec b r by_ : hammer_ok b → 0 <= r < c.(rows) → 0 <= b.(mopac_critical_rows_) →
  returns (MopacUpdatePRAC b r by_) (λ b', hammer_post b b' ∧ b'.(mopac_buf_) = b.(mopac_buf_)).
Proof.
  intros [Hp Hm Hb] Hr H0. unfold MopacUpdatePRAC.
  destruct (aget_ok b.(prac_) r) as [x ->]; [by rewrite Hp|]. cbn [mbind outcome_bind].
  rewrite aset_ok by (by rewrite Hp). cbn [mbind outcome_bind].
  eapply returns_mono; [apply moat_track_spec; [|done]|].
  - split; rsimp; try done. unfold zlen. by rewrite length_insert.
  - intros b' (H1 & H2 & _ & H4 & H5 & _). split; [|by rewrite H4].
    split; [|split; [done|rewrite H5; rsimp; lia]]. destruct H1. by split.
Qed.

Lemma MopacFlushNextCtr_spec b : hammer_ok b → 0 <= b.(mopac_critical_rows_) →
  returns (MopacFlushNextCtr b) (hammer_post b).
Proof.
  intros Hok H0. unfold MopacFlushNextCtr. destruct (mopac_buf_ b) as [|e buf] eqn:E.
  { apply returns_ret. by apply hammer_post_refl. }
  pose proof (ho_buf _ Hok) as Hb. rewrite E in Hb. apply Forall_cons in Hb as [He Hb].
  assert (hammer_ok (b <| mopac_buf_ := buf |>)) as Hok' by (destruct Hok; by split).
  eapply returns_mono; [by apply MopacUpdatePRAC_spec|]. intros b' [Hp _].
  eapply hammer_post_trans; [|exact Hp]. hp.
Qed.
Lemma flush_n_spec b n : hammer_ok b → 0 <= b.(mopac_critical_rows_) →
  returns (flush_n b n) (hammer_post b).
Proof.
  intros Hok H0. unfold flush_n. apply for_inv; [by apply hammer_post_refl|].
  intros b' _ _ Hp. eapply returns_mono.
  - apply MopacFlushNextCtr_spec; [apply Hp|]. destruct Hp as (_ & _ & ?). lia.
  - intros b'' Hp'. by eapply hammer_post_trans.
Qed.

Lemma take_critical_Forall (P : MopacEntry → Prop) buf e rest :
  take_critical c buf = Some (e, rest) → Forall P buf → P e ∧ Forall P rest.
Proof.
  revert e rest. induction buf as [|x buf IH]; intros e rest; [done|]. cbn [take_critical].
  intros Ht [Hx Hb]%Forall_cons. destruct (_ <=? _); [by simplify_eq|].
  destruct (take_critical c buf) as [[y r]|]; simplify_eq.
  destruct (IH _ _ eq_refl Hb). split; [done|]. by apply Forall_cons.
Qed.
Lemma MopacHandleCriticalRow_spec b : hammer_ok b → 0 <= b.(mopac_critical_rows_) →
  returns (MopacHandleCriticalRow c b) (hammer_post b).
Proof.
  intros Hok H0. unfold MopacHandleCriticalRow. destruct (take_critical c _) as [[e rest]|] eqn:E.
  - destruct (take_critical_Forall _ _ _ _ E (ho_buf _ Hok)) as [He Hrest].
    eapply returns_bind; [by apply MopacUpdatePRAC_spec|]. intros b' [Hp _]. apply returns_ret.
    eapply hammer_post_trans; [exact Hp|]. unfold SafeDecrement. destruct Hp as (_ & [] & ?).
    hp.
  - apply returns_ret. by apply hammer_post_refl.
Qed.

Lemma MopacHandleRef_spec b : hammer_ok b → 0 <= b.(mopac_critical_rows_) →
  returns (MopacHandleRef c b) (hammer_post b).
Proof.
  intros Hok H0. unfold MopacHandleRef.
  assert (hammer_post b (drop_refreshed c b)) as Hp.
  { destruct Hok as [H1 H2 H3]. unfold drop_refreshed. split_and!; try done; [|rsimp; lia..].
    split; rsimp; try done. apply Forall_forall. intros e He.
    apply list_elem_of_In, List.filter_In in He as [He _].
    rewrite Forall_forall in H3. apply H3. by apply list_elem_of_In. }
  eapply returns_bind with (P := hammer_post b).
  { destruct (_ =? 0); [|by apply returns_ret].
    eapply returns_bind; [apply flush_n_spec; [apply Hp|destruct Hp as (_ & _ & ?); lia]|].
    intros b' Hp'. apply returns_ret. eapply hammer_post_trans; [exact Hp|].
    eapply hammer_post_trans; [exact Hp'|]. destruct Hp' as (_ & [] & ?).
    hp. }
  intros b' Hp'. apply returns_ret. eapply hammer_post_trans; [exact Hp'|].
  destruct Hp' as (_ & [] & ?).
  eapply hammer_post_trans; [|apply refreshed_spec; [|rsimp; lia]; by split].
  hp.
Qed.

(** *** Mitigation and selection *)
Lemma MopacMitigate_spec sh b : hammer_ok b → shared_ok sh → 0 <= b.(mopac_critical_rows_) →
  returns (MopacMitigate c sh b) (λ r, shared_ok r.1 ∧ hammer_post b r.2).
Proof.
  intros Hok Hs H0. unfold MopacMitigate.
  assert (∀ e, returns e (hammer_post b) →
    returns ((b' ← e; Ret (sh, b')) : outcome (Shared G * BankState))
      (λ r, shared_ok r.1 ∧ hammer_post b r.2)) as Hq.
  { intros e He. eapply returns_bind; [exact He|]. intros b' Hb'. by apply returns_ret. }
  destruct (0 <? _); [by apply Hq, MopacHandleCriticalRow_spec|].
  destruct (_ <=? zlen _); [by apply Hq, flush_n_spec|].
  destruct (moat_row_valid_ b) eqn:Ev.
  - destruct (aget_ok b.(prac_) b.(moat_row_)) as [v ->];
      [rewrite (ho_prac _ Hok); by apply (ho_moat _ Hok)|]. cbn [mbind outcome_bind].
    destruct (_ <=? v); [by apply MoatMitigate_spec|by apply Hq, flush_n_spec].
  - cbn [mbind outcome_bind]. by apply Hq, flush_n_spec.
Qed.

Lemma rng_mod_spec sh n : 0 < n < 2147483648 → shared_ok sh →
  returns (rng_mod sh n) (λ r, shared_ok r.1 ∧ 0 <= r.2 < n).
Proof.
  intros Hn Hs. unfold rng_mod. rewrite u64_id by (unfold is_u64; lia).
  rewrite umod_ok by lia. cbn [mbind outcome_bind]. apply returns_ret. cbn [fst snd].
  split; [exact Hs|]. apply Z.mod_pos_bound; lia.
Qed.

Lemma bump_row_Forall r buf buf' k :
  bump_row c r buf = Some (buf', k) → Forall (λ e, 0 <= e.(row_) < c.(rows)) buf →
  Forall (λ e, 0 <= e.(row_) < c.(rows)) buf'.
Proof.
  revert buf' k. induction buf as [|e buf IH]; intros buf' k; [done|]. cbn [bump_row].
  intros Hb [He Hbuf]%Forall_cons. destruct (_ =? _).
  - simplify_eq. by apply Forall_cons.
  - destruct (bump_row c r buf) as [[buf1 k1]|]; simplify_eq. apply Forall_cons. split; [done|].
    by eapply IH.
Qed.

Lemma MopacCtrUpdate_spec sh b : hammer_ok b → shared_ok sh → 0 <= b.(mopac_critical_rows_) →
  0 <= b.(open_row_) < c.(rows) →
  returns (MopacCtrUpdate c sh b) (λ r, shared_ok r.1 ∧ hammer_step b r.2 ∧ hammer_ok r.2 ∧
    0 <= r.2.(mopac_critical_rows_) ∧
    (b.(mopac_critical_rows_) < 18446744073709551615 →
     b.(mopac_critical_rows_) <= r.2.(mopac_critical_rows_))).
Proof.
  intros [Hp Hm Hb] Hs H0 Ho. pose proof (bc_rows _ Hc). unfold MopacCtrUpdate.
  rewrite (u64_id b.(open_row_)) by (unfold is_u64; lia).
  set (e := if mopac_act_ctr_ b =? mopac_mint_sel_ b then _ else (sh, b)).
  assert (shared_ok e.1 ∧ hammer_step b e.2 ∧ hammer_ok e.2 ∧
    0 <= e.2.(mopac_critical_rows_) ∧ (b.(mopac_critical_rows_) < 18446744073709551615 →
     b.(mopac_critical_rows_) <= e.2.(mopac_critical_rows_))) as (E1 & E2 & E3 & E4 & E5).
  { subst e. destruct (_ =? _); cbn [fst snd]; [|split_and!; try done; lia].
    split; [by apply shared_stat|].
    destruct (bump_row _ _ _) as [[buf k]|] eqn:Eb.
    - pose proof (bump_row_Forall _ _ _ _ Eb Hb). split; [done|]. split; [by split; rsimp|]. rsimp.
      destruct k; [|lia]. split; [apply u64_is|]. intros ?. rewrite u64_id; [lia|unfold is_u64; lia].
    - split; [done|]. split; [|rsimp; lia]. split; rsimp; try done.
      apply Forall_app. split; [done|]. apply Forall_cons. cbn [row_]. done. }
  destruct e as [sh1 b1]. cbn [fst snd] in *. rsimp.
  destruct (_ =? u64 _).
  - eapply returns_bind; [apply rng_mod_spec; [apply Hc|exact E1]|]. intros [sh2 v] (F1 & _).
    cbn [fst snd] in *. apply returns_ret. cbn [fst snd]. split; [done|].
    split; [destruct E2; by split; rsimp|]. split; [destruct E3; by split; rsimp|]. rsimp. done.
  - apply returns_ret. cbn [fst snd]. split; [done|].
    split; [destruct E2; by split; rsimp|]. split; [destruct E3; by split; rsimp|]. rsimp. done.
Qed.

Lemma GetPrechargeCmd_spec sh : shared_ok sh →
  returns (GetPrechargeCmd B sh c.(pac_prob)) (λ r, shared_ok r.1 ∧
    (r.2 = PRECHARGE ∨ r.2 = PRECHARGE2)).
Proof.
  intros Hs. unfold GetPrechargeCmd.
  destruct (uses_mopac B); [apply returns_ret; cbn [fst snd]; auto|].
  destruct (_ =? PRAC_IMPL_PAC).
  - destruct (pac_next_pre_cmd_is_valid sh) eqn:E; cbn [negb];
      [apply returns_ret; cbn [fst snd]; split; [done|]; by apply Hs|].
    eapply returns_bind; [apply rng_mod_spec; [apply Hc|done]|]. intros [sh' v] ([E1 _] & _).
    cbn [fst snd] in *. apply returns_ret. cbn [fst snd]. unfold shared_ok. rsimp.
    split; [split; [done|]|]; destruct (v =? 0); auto.
  - destruct (_ <=? _); apply returns_ret; cbn [fst snd]; auto.
Qed.

(** ** The state machine *)

(** the transitions; [None] is a command the state does not allow *)
Definition next_state (s : State) (t : CommandType) : option State :=
  match s, t with
  | OPEN, (READ | WRITE) => Some OPEN
  | OPEN, (READ_PRECHARGE | WRITE_PRECHARGE | READ_PRECHARGE2 | WRITE_PRECHARGE2
          | PRECHARGE | PRECHARGE2) => Some CLOSED
  | CLOSED, ACTIVATE => Some OPEN
  | CLOSED, (REFRESH_BANK | REFsb | REFab | RFMsb | RFMab) => Some CLOSED
  | CLOSED, SREF_ENTER => Some SREF
  | SREF, SREF_EXIT => Some CLOSED
  | _, _ => None
  end.

Definition bank_ok (b : BankState) : Prop := bank_inv c b ∧ 0 <= b.(mopac_critical_rows_).

Lemma inv_of_hammer b b' : bank_inv c b → hammer_step b b' → hammer_ok b' → bank_inv c b'.
Proof.
  intros [] [E1 E2 E3 E4 E5 E6 E7 E8 E9] [].
  by split; rewrite ?E1, ?E2, ?E3, ?E4, ?E5, ?E6, ?E7, ?E8.
Qed.

Lemma get_geostat_bin_range v : 0 <= get_geostat_bin v < 13.
Proof. unfold get_geostat_bin. repeat case_match; lia. Qed.
Lemma IncrementVec_bins st n i : stats_fit c st → n ∈ geostat_vecs → 0 <= i < 13 →
  returns (IncrementVec n i st) (stats_fit c).
Proof. intros Hb Hn Hi. apply IncrementVec_fit; [done|]. by rewrite (proj1 Hb n Hn). Qed.
Lemma stat_o_bins f sh : returns (f sh.(sh_stats)) (stats_fit c) → shared_ok sh →
  returns (stat_o f sh) shared_ok.
Proof.
  intros Hf [_ Hv]. unfold stat_o. eapply returns_bind; [exact Hf|]. intros st Hst.
  apply returns_ret. by split; rsimp.
Qed.

(** [b] with its counters cleared on some rows *)
Definition rows_cleared (b b' : BankState) : Prop :=
  b' = b <| prac_ := b'.(prac_) |> ∧ zlen b'.(prac_) = zlen b.(prac_).
Lemma refresh_rows_spec sh b n : bank_ok b → shared_ok sh →
  returns (for_ (seqZ 0 n) (sh, b) (refresh_row c)) (λ r, shared_ok r.1 ∧ rows_cleared b r.2).
Proof.
  intros [Hb _] Hs. pose proof (bc_rows _ Hc) as Hr. apply for_inv.
  { cbn [fst snd]. split; [done|]. split; [by destruct b|done]. }
  intros [sh' b'] i _ [Hs' [E Hl]]. cbn [fst snd] in *. unfold refresh_row.
  rewrite (u32_id c.(rows)) by (unfold is_u32; lia). rewrite umod_ok by lia. cbn [mbind outcome_bind].
  set (idx := u32 (ref_idx_ b' + i) mod c.(rows)).
  assert (0 <= idx < c.(rows)) as Hidx by (apply Z.mod_pos_bound; lia).
  rewrite (i32_id idx) by (unfold is_i32; lia). rewrite <- (bi_prac _ _ Hb), <- Hl in Hidx.
  destruct (aget_ok _ _ Hidx) as [v ->]. cbn [mbind outcome_bind].
  eapply returns_bind.
  { apply stat_o_bins; [|done]. apply IncrementVec_bins; [apply Hs'|left|apply get_geostat_bin_range]. }
  intros sh'' Hs''. rewrite aset_ok by done. cbn [mbind outcome_bind]. apply returns_ret.
  cbn [fst snd]. split; [done|]. split; [rewrite E; by rsimp|]. rsimp. rewrite <- Hl.
  unfold zlen. by rewrite length_insert.
Qed.

(** a bank that raises no alert, when alerts are on: the build tracks no rows *)
Definition untracked : Prop :=
  uses_moat B = false ∧ uses_mopac B = false ∧ 0 < u64 c.(mopac_buf_size).
Definition tracks_none b : Prop :=
  b.(moat_row_valid_) = false ∧ b.(mopac_buf_) = [] ∧ b.(mopac_critical_rows_) = 0.
Definition mute b : Prop := c.(alert_mode) = 1 → untracked ∧ tracks_none b.
Lemma mute_same b b' : b'.(moat_row_valid_) = b.(moat_row_valid_) → b'.(mopac_buf_) = b.(mopac_buf_) →
  b'.(mopac_critical_rows_) = b.(mopac_critical_rows_) → mute b → mute b'.
Proof. intros E1 E2 E3 Hm Ha. unfold tracks_none. rewrite E1, E2, E3. by apply Hm. Qed.
(** a step that leaves an untracked bank's row-hammer state alone *)
Lemma mute_untracked b b' : (untracked → tracks_none b → tracks_none b') → mute b → mute b'.
Proof. intros Ht Hm Ha. destruct (Hm Ha). auto. Qed.

(** the bank after a command that its state allows *)
Record bank_step (b : BankState) (cmd : Command) (s : State) (b' : BankState) : Prop := {
  bs_ok : bank_ok b';
  bs_state : b'.(state_) = s;
  bs_timing : b'.(cmd_timing_) = b.(cmd_timing_);
  bs_open : s = OPEN → b'.(open_row_) = if ct_eqb cmd.(cmd_type) ACTIVATE then Row cmd else b.(open_row_);
  bs_raa : b'.(raa_ctr_) =
    if ct_eqb cmd.(cmd_type) ACTIVATE then b.(raa_ctr_) + 1
    else if IsRefresh cmd then b.(raa_ctr_) - Z.min b.(raa_ctr_) c.(ref_raa_decrement)
    else if IsRFM cmd then b.(raa_ctr_) - Z.min b.(raa_ctr_) c.(rfm_raa_decrement)
    else b.(raa_ctr_);
  bs_count : b'.(acts_counter_) =
    if ct_eqb cmd.(cmd_type) ACTIVATE then b.(acts_counter_) + 1
    else if IsRefresh cmd then 0 else b.(acts_counter_);
  bs_acts : IsRefresh cmd = false → b.(total_row_acts_) ≠ [] → b'.(total_row_acts_) ≠ [];
  bs_mute : mute b → mute b'
}.
(** what the caller keeps: counters below their width, and no [ACTIVATE] while an RFM is due *)
Record bank_pre (b : BankState) (cmd : Command) : Prop := {
  bp_ok : bank_ok b;
  bp_acts : IsRefresh cmd = true → b.(acts_counter_) < 130;
  bp_act : cmd.(cmd_type) = ACTIVATE →
    0 <= Row cmd < c.(rows) ∧ b.(total_row_acts_) ≠ [] ∧ b.(raa_ctr_) < 2147483647 ∧
    b.(acts_counter_) < 2147483647 ∧
    (rfm_on c → b.(raa_ctr_) < c.(raammt))
}.

#[local] Hint Resolve shared_stat : core.

(** steps that only the builds that track rows take *)
Lemma when_untracked b (e : outcome (Shared G * BankState)) P : (untracked → ∃ sh', e = Ret (sh', b)) →
  returns e P → returns e (λ r, P r ∧ (untracked → r.2 = b)).
Proof.
  intros He (r & Er & Hr). exists r. split; [done|]. split; [done|]. intros Hu.
  destruct (He Hu) as [sh' E]. rewrite E in Er. by injection Er as <-.
Qed.

(** the counters a command moves, from the ones of the bank it started from *)
Lemma bank_ok_hammer b b' : bank_ok b → hammer_post b b' → bank_ok b'.
Proof. intros [Hb _] (H1 & H2 & H3). split; [by eapply inv_of_hammer|lia]. Qed.

Lemma update_rfm_spec sh b cmd : bank_ok b → shared_ok sh →
  b.(state_) = CLOSED → cmd.(cmd_type) = RFMab ∨ cmd.(cmd_type) = RFMsb →
  returns (update_rfm B c sh b) (λ r, shared_ok r.1 ∧ bank_step b cmd CLOSED r.2).
Proof.
  intros Hb Hs Hst Ht. unfold update_rfm.
  set (b1 := b <| raa_ctr_ ::= _ |>).
  pose proof (bi_raa _ _ (proj1 Hb)). pose proof (bc_rfm_dec _ Hc).
  assert (b1.(raa_ctr_) = b.(raa_ctr_) - Z.min b.(raa_ctr_) c.(rfm_raa_decrement)) as Eraa.
  { subst b1. rsimp. apply i32_id. unfold is_i32. lia. }
  assert (bank_ok b1) as Hb1.
  { destruct Hb as [[] ?]. split; [|done]. split; try done; rewrite Eraa; [lia|].
    intros Hr. specialize (bi_raammt0 Hr). lia. }
  assert (returns (if uses_mopac B then MopacMitigate c sh b1
    else if uses_moat B then MoatMitigate sh b1 else Ret (sh, b1))
    (λ r, (shared_ok r.1 ∧ hammer_post b1 r.2) ∧ (untracked → r.2 = b1))) as Hq.
  { apply when_untracked; [intros (-> & -> & _); by eexists|].
    destruct (uses_mopac B); [apply MopacMitigate_spec; try done; [apply inv_hammer_ok|]; apply Hb1|].
    destruct (uses_moat B); [apply MoatMitigate_spec; try done; [apply inv_hammer_ok|]; apply Hb1|].
    apply returns_ret. split; [done|]. apply hammer_post_refl; [apply inv_hammer_ok|]; apply Hb1. }
  eapply returns_mono; [exact Hq|]. intros [sh' b'] [[Hs' Hp] Hun]. cbn [fst snd] in *. split; [done|].
  pose proof (bank_ok_hammer _ _ Hb1 Hp) as Hok. destruct Hp as ([] & _ & _). split; try done.
  - by rewrite hs_state0.
  - rewrite hs_raa0, Eraa. unfold IsRefresh, IsRFM. by destruct Ht as [-> | ->].
  - rewrite hs_acts0. unfold IsRefresh. by destruct Ht as [-> | ->].
  - intros _ ?. by rewrite hs_total0.
  - apply mute_untracked. intros Hu ?. by rewrite Hun.
Qed.

Lemma update_refresh_spec sh b cmd : bank_ok b → shared_ok sh →
  b.(acts_counter_) < 130 → b.(state_) = CLOSED → IsRefresh cmd = true →
  returns (update_refresh B c sh b) (λ r, shared_ok r.1 ∧ bank_step b cmd CLOSED r.2 ∧
    r.2.(ref_idx_) = u32 (b.(ref_idx_) + c.(rows_refreshed)) mod c.(rows) ∧
    (r.2.(ref_idx_) = 0 → r.2.(total_row_acts_) = [])).
Proof.
  intros Hb Hs Hacts Hst Ht. unfold update_refresh.
  pose proof (bi_raa _ _ (proj1 Hb)). pose proof (bc_ref_dec _ Hc). pose proof (bc_rows _ Hc).
  eapply returns_bind with (P := λ b1, hammer_post b b1 ∧ (untracked → b1 = b)).
  { destruct (uses_mopac B) eqn:Em.
    - eapply returns_mono; [apply MopacHandleRef_spec; [apply inv_hammer_ok|]; apply Hb|].
      intros b1 ?. split; [done|]. intros (_ & ? & _). congruence.
    - apply returns_ret. split; [|done]. apply hammer_post_refl; [apply inv_hammer_ok|]; apply Hb. }
  intros b1 [Hp1 Hun1]. pose proof (bank_ok_hammer _ _ Hb Hp1) as Hb1.
  eapply returns_bind; [by apply refresh_rows_spec|]. intros [sh2 b2] [Hs2 [E2 Hl2]]. cbn [fst snd] in *.
  assert (b2.(acts_counter_) = b.(acts_counter_)) as Eacts.
  { rewrite E2. rsimp. apply Hp1. }
  eapply returns_bind.
  { apply stat_o_bins; [|exact Hs2]. apply IncrementVec_bins; [apply Hs2|right; left|].
    rewrite Eacts. pose proof (bi_counter _ _ (proj1 Hb)). Z.quot_rem_to_equations. lia. }
  intros sh3 Hs3. set (b3 := b2 <| raa_ctr_ ::= _ |> <| acts_counter_ := 0 |>).
  assert (b3.(raa_ctr_) = b.(raa_ctr_) - Z.min b.(raa_ctr_) c.(ref_raa_decrement)) as Eraa.
  { assert (b2.(raa_ctr_) = b.(raa_ctr_)) as E by (rewrite E2; rsimp; apply Hp1).
    subst b3. rsimp. rewrite E. apply i32_id. unfold is_i32. lia. }
  assert (bank_ok b3) as Hb3.
  { destruct Hb1 as [[] ?]. subst b3. rewrite E2 in Eraa |- *. split; [|by rsimp].
    split; rsimp; try done; [by rewrite Hl2|rewrite Eraa; lia|].
    intros Hr. rewrite Eraa. pose proof (bi_raammt _ _ (proj1 Hb) Hr). lia. }
  eapply returns_bind with (P := λ r, (shared_ok r.1 ∧ hammer_post b3 r.2) ∧ (untracked → r.2 = b3)).
  { apply when_untracked; [intros (-> & _); by eexists|].
    destruct (uses_moat B); [apply MoatHandleRef_spec; try done; [apply inv_hammer_ok|]; apply Hb3|].
    apply returns_ret. split; [done|]. apply hammer_post_refl; [apply inv_hammer_ok|]; apply Hb3. }
  intros [sh4 b4] [[Hs4 Hp4] Hun4]. cbn [fst snd] in *. pose proof (bank_ok_hammer _ _ Hb3 Hp4) as Hb4.
  rewrite (u32_id c.(rows)) by (unfold is_u32; lia). rewrite umod_ok by lia. cbn [mbind outcome_bind].
  assert (b4.(ref_idx_) = b.(ref_idx_)) as ->.
  { destruct Hp4 as ([] & _). destruct Hp1 as ([] & _). rewrite hs_ref0. subst b3. rewrite E2. by rsimp. }
  set (i := _ mod c.(rows)).
  assert (0 <= i < c.(rows)) as Hi by (apply Z.mod_pos_bound; lia).
  apply returns_ret. cbn [fst snd]. split; [done|].
  assert (b4.(state_) = CLOSED ∧ b4.(cmd_timing_) = b.(cmd_timing_) ∧ b4.(raa_ctr_) = b3.(raa_ctr_))
    as (F1 & F2 & F3).
  { assert (b3.(state_) = b1.(state_) ∧ b3.(cmd_timing_) = b1.(cmd_timing_)) as [G1 G2]
      by (subst b3; rewrite E2; by rsimp).
    destruct Hp4 as ([] & _). destruct Hp1 as ([] & _). split_and!; congruence. }
  assert (bank_ok (if i =? 0 then b4 <| ref_idx_ := i |> <| total_row_acts_ := [] |>
                   else b4 <| ref_idx_ := i |>)) as Hok.
  { destruct Hb4 as [[] ?]. case_match; (split; [|done]; split; rsimp; try done; by left). }
  assert (b4.(acts_counter_) = 0) as F4 by (by destruct Hp4 as ([] & _); rewrite hs_acts0).
  split; [|by destruct (Z.eqb_spec i 0)].
  assert (untracked → tracks_none b → tracks_none b4) as Hmute.
  { intros Hu. rewrite (Hun4 Hu). subst b3. rewrite E2, (Hun1 Hu). done. }
  split; [exact Hok| | |done| | | |apply mute_untracked; intros Hu Hn; specialize (Hmute Hu Hn); by case_match].
  - by case_match.
  - by case_match.
  - assert (ct_eqb cmd.(cmd_type) ACTIVATE = false) as ->.
    { revert Ht. unfold IsRefresh. by destruct (cmd_type cmd). }
    rewrite Ht, <- Eraa, <- F3. by case_match.
  - assert (ct_eqb cmd.(cmd_type) ACTIVATE = false) as ->.
    { revert Ht. unfold IsRefresh. by destruct (cmd_type cmd). }
    rewrite Ht. by case_match.
  - by rewrite Ht.
Qed.

Lemma update_activate_spec sh b cmd clk : bank_pre b cmd → shared_ok sh → b.(state_) = CLOSED →
  cmd.(cmd_type) = ACTIVATE →
  returns (update_activate B c sh b (Row cmd) clk)
    (λ r, shared_ok r.1 ∧ bank_step b cmd OPEN r.2 ∧
      ∀ n, aget b.(total_row_acts_) (Row cmd) = Ret n →
        aget r.2.(total_row_acts_) (Row cmd) = Ret (u64 (n + 1))).
Proof.
  intros [Hb Hacts Hact] Hs Hst Ht. destruct (Hact Ht) as (Hrow & Hne & Hraa & Hac & Hrfm).
  pose proof Hb as [Hi Hcr]. pose proof (bi_counter _ _ Hi). pose proof (bi_raa _ _ Hi).
  unfold update_activate. cbv zeta. rsimp.
  destruct (bi_acts _ _ Hi) as [|Hlen]; [done|].
  destruct (aget_ok b.(total_row_acts_) (Row cmd)) as [n Hn]; [by rewrite Hlen|].
  rewrite Hn. cbn [mbind outcome_bind]. rewrite aset_ok by (by rewrite Hlen). cbn [mbind outcome_bind].
  set (b1 := _ <| raa_ctr_ ::= _ |>). set (sh1 := count_acts _ _).
  assert (shared_ok sh1) as Hs1.
  { subst sh1. unfold count_acts. cbv zeta. repeat case_match; auto 8. }
  assert (b1.(raa_ctr_) = b.(raa_ctr_) + 1) as Eraa
    by (subst b1; rsimp; apply i32_id; unfold is_i32; lia).
  assert (b1.(acts_counter_) = b.(acts_counter_) + 1) as Ecnt
    by (subst b1; rsimp; apply i32_id; unfold is_i32; lia).
  assert (b1.(total_row_acts_) = <[Z.to_nat (Row cmd) := u64 (n + 1)]> b.(total_row_acts_)) as Et
    by (subst b1; by rsimp).
  assert (bank_ok b1) as Hb1.
  { split; [|by subst b1]. destruct Hi. split; rewrite ?Eraa; try (by subst b1); try lia.
    - left. by subst b1.
    - right. rewrite Et. unfold zlen. by rewrite length_insert.
    - intros Hr. specialize (Hrfm Hr). lia. }
  assert (returns (if uses_mopac B then MopacCtrUpdate c sh1 b1 else Ret (sh1, b1))
    (λ r, (shared_ok r.1 ∧ hammer_step b1 r.2 ∧ hammer_ok r.2 ∧ 0 <= r.2.(mopac_critical_rows_)) ∧
      (untracked → r.2 = b1))) as Hq.
  { apply when_untracked; [intros (_ & -> & _); by eexists|]. destruct (uses_mopac B).
    - eapply returns_mono; [apply MopacCtrUpdate_spec; [apply inv_hammer_ok, Hb1|done|apply Hb1|
        subst b1; by rsimp]|]. by intros r (?&?&?&?&_).
    - apply returns_ret. split; [done|]. split; [by split|]. split; [apply inv_hammer_ok|]; apply Hb1. }
  eapply returns_mono; [exact Hq|]. intros [sh2 b2] [(Hs2 & Hst2 & Hok2 & Hcr2) Hun]. cbn [fst snd] in *.
  split; [done|]. split.
  - split.
    + split; [|done]. eapply inv_of_hammer; [apply Hb1|done|done].
    + rewrite (hs_state _ _ Hst2). by subst b1.
    + rewrite (hs_timing _ _ Hst2). by subst b1.
    + intros _. rewrite Ht, (hs_open _ _ Hst2). by subst b1.
    + rewrite Ht, (hs_raa _ _ Hst2). exact Eraa.
    + rewrite Ht, (hs_acts _ _ Hst2). exact Ecnt.
    + intros _ _. rewrite (hs_total _ _ Hst2), Et. intros E%(f_equal length).
      rewrite length_insert in E. unfold zlen in Hlen. cbn in E. lia.
    + apply mute_untracked. intros Hu ?. rewrite (Hun Hu). by subst b1.
  - intros m Hm. assert (m = n) as -> by congruence. rewrite (hs_total _ _ Hst2), Et.
    apply aget_Ret. split; [lia|]. apply list_lookup_insert_eq. unfold zlen in Hlen. lia.
Qed.

Lemma update_precharge_spec prac sh b cmd clk : bank_ok b → shared_ok sh →
  ROWPRESS B && uses_mopac B = false → b.(state_) = OPEN →
  ct_eqb cmd.(cmd_type) ACTIVATE = false → IsRefresh cmd = false → IsRFM cmd = false →
  returns (update_precharge B c prac sh b clk) (λ r, shared_ok r.1 ∧ bank_step b cmd CLOSED r.2).
Proof.
  intros Hb Hs HB Hst H1 H2 H3. unfold update_precharge. rewrite HB.
  pose proof Hb as [Hi Hcr]. pose proof (bi_open _ _ Hi Hst) as Ho. pose proof (inv_hammer_ok _ Hi) as Hok.
  eapply returns_bind with (P := λ b1, hammer_post b b1 ∧ (untracked → tracks_none b → tracks_none b1)).
  { destruct prac; [|apply returns_ret; split; [by apply hammer_post_refl|done]].
    destruct (aget_ok b.(prac_) b.(open_row_)) as [x ->]; [by rewrite (bi_prac _ _ Hi)|].
    cbn [mbind outcome_bind]. rewrite aset_ok by (by rewrite (bi_prac _ _ Hi)). cbn [mbind outcome_bind].
    set (b1 := b <| prac_ := _ |>).
    assert (hammer_post b b1) as Hp1.
    { split; [by split|]. split; [|subst b1; rsimp; lia]. destruct Hok. split; try done.
      subst b1. rsimp. unfold zlen. by rewrite length_insert. }
    destruct (uses_moat B) eqn:Em; [|by apply returns_ret].
    eapply returns_mono; [apply MoatUpdate_spec; [apply Hp1|by subst b1]|].
    intros b' (G1 & G2 & _ & _ & G5 & _). split; [|intros (? & _); congruence]. eapply hammer_post_trans; [exact Hp1|].
    split; [done|]. split; [done|]. rewrite G5. subst b1. rsimp. lia. }
  intros b1 [Hp Hun]. apply returns_ret. cbn [fst snd]. split; [by destruct Hs|].
  pose proof (bank_ok_hammer _ _ Hb Hp) as [Hi1 Hc1]. destruct Hp as (Hp & _ & _).
  split; rsimp; try done.
  - split; [|done]. destruct Hi1. split; rsimp; try done. by right; left.
  - by apply Hp.
  - rewrite H1, H2, H3. apply Hp.
  - rewrite H1, H2. apply Hp.
  - intros _. by rewrite (hs_total _ _ Hp).
  - by apply mute_untracked.
Qed.

(** a command the state allows is carried out, any other one stops the program *)
Definition update_spec sh b cmd clk : Prop :=
  match next_state b.(state_) cmd.(cmd_type) with
  | Some s => returns (UpdateState B c sh b cmd clk) (λ r, shared_ok r.1 ∧ bank_step b cmd s r.2)
  | None => UpdateState B c sh b cmd clk = Fault (Exit (-1))
  end.
Lemma bank_step_refl b b' cmd s : bank_ok b → bank_ok b' → b'.(state_) = s →
  b'.(cmd_timing_) = b.(cmd_timing_) → b'.(open_row_) = b.(open_row_) →
  b'.(raa_ctr_) = b.(raa_ctr_) → b'.(acts_counter_) = b.(acts_counter_) →
  b'.(total_row_acts_) = b.(total_row_acts_) →
  (mute b → mute b') →
  ct_eqb cmd.(cmd_type) ACTIVATE = false → IsRefresh cmd = false → IsRFM cmd = false →
  bank_step b cmd s b'.
Proof. intros ????? Hr Hn Ha Hm H1 H2 H3. split; try done; rewrite ?H1, ?H2, ?H3, ?Ha; done. Qed.
Lemma UpdateState_spec sh b cmd clk : bank_pre b cmd → shared_ok sh →
  ROWPRESS B && uses_mopac B = false → update_spec sh b cmd clk.
Proof.
  intros Hpre Hs HB. pose proof (bp_ok _ _ Hpre) as Hb. unfold update_spec, UpdateState.
  assert (∀ s, bank_ok (b <| state_ := s |>) ↔ bank_inv c (b <| state_ := s |>)) as Hst.
  { intros s. split; [by intros []|]. intros ?. split; [done|]. apply Hb. }
  destruct (bi_state _ _ (proj1 Hb)) as [E|[E|E]]; rewrite E.
  - assert (∀ p, ct_eqb cmd.(cmd_type) ACTIVATE = false → IsRefresh cmd = false → IsRFM cmd = false →
      returns (update_precharge B c p sh b clk) (λ r, shared_ok r.1 ∧ bank_step b cmd CLOSED r.2)) as Hp
      by (intros; by apply update_precharge_spec).
    assert (ct_eqb cmd.(cmd_type) ACTIVATE = false → IsRefresh cmd = false → IsRFM cmd = false →
      returns (Ret (sh, b <| row_hit_count_ ::= λ n, i32 (n + 1) |>))
        (λ r, shared_ok r.1 ∧ bank_step b cmd OPEN r.2)) as Hh.
    { intros. apply returns_ret. split; [done|]. apply bank_step_refl; try done.
      split; [|apply Hb]. destruct (proj1 Hb). by split. }
    unfold IsRefresh, IsRFM in *. destruct (cmd_type cmd); try done; first [by apply Hp|by apply Hh].
  - destruct (cmd_type cmd) eqn:Et; try done;
      try (eapply returns_mono; [apply update_refresh_spec; try done;
             [apply Hpre|]; unfold IsRefresh; by rewrite Et|by intros r (? & ? & _)]);
      try (apply update_rfm_spec; auto).
    + eapply returns_mono; [by apply update_activate_spec|]. by intros r (? & ? & _).
    + apply returns_ret. split; [done|]. apply bank_step_refl; try done; rewrite ?Et; try done;
        [|unfold IsRefresh; by rewrite Et|unfold IsRFM; by rewrite Et].
      apply Hst. destruct (proj1 Hb). split; try done. by right; right.
  - destruct (cmd_type cmd) eqn:Et; try done.
    apply returns_ret. split; [done|]. apply bank_step_refl; try done; rewrite ?Et; try done;
      [|unfold IsRefresh; by rewrite Et|unfold IsRFM; by rewrite Et].
    apply Hst. destruct (proj1 Hb). split; try done. by right; left.
Qed.

(** *** The next command *)

(** a command the bank allows, now: its type is a transition of the state, its address the
    request's, its earliest time is past; an [ACTIVATE] only while no RFM is due *)
Record ready_ok b (req : Command) (clk : Z) cmd : Prop := {
  rd_next : is_Some (next_state b.(state_) cmd.(cmd_type));
  rd_addr : cmd.(addr) = req.(addr) ∧ cmd.(hex_addr) = req.(hex_addr);
  rd_time : returns (aget b.(cmd_timing_) (ct_int cmd.(cmd_type))) (λ t, t <= clk);
  rd_raa : cmd.(cmd_type) = ACTIVATE → rfm_on c → b.(raa_ctr_) < c.(raammt)
}.
(** reads; a [READ] and a [WRITE] keep their kind, the others only without [ROWPRESS] *)
Definition rd_type (t : CommandType) : bool :=
  match t with READ | READ_PRECHARGE | READ_PRECHARGE2 => true | _ => false end.
Definition keeps_kind (t : CommandType) : Prop := ROWPRESS B = false ∨ t = READ ∨ t = WRITE.
(** the command an access needs next, by the state of the bank *)
Inductive access_next b cmd : CommandType → Prop :=
| an_hit t : b.(state_) = OPEN → Row cmd = b.(open_row_) → is_access t = true →
    (keeps_kind cmd.(cmd_type) → rd_type t = rd_type cmd.(cmd_type)) → access_next b cmd t
| an_miss t : b.(state_) = OPEN → Row cmd ≠ b.(open_row_) → t = PRECHARGE ∨ t = PRECHARGE2 →
    access_next b cmd t
| an_rfm t : b.(state_) = CLOSED → rfm_on c → c.(raammt) <= b.(raa_ctr_) → t = RFMsb ∨ t = RFMab →
    access_next b cmd t
| an_act : b.(state_) = CLOSED → needs_rfm c b 1 || needs_rfm c b 2 = false → access_next b cmd ACTIVATE
| an_wake : b.(state_) = SREF → access_next b cmd SREF_EXIT.

Lemma row_hit_type_spec sh b t clk : shared_ok sh → is_access t = true →
  returns (row_hit_type B c sh b t clk) (λ r, shared_ok r.1 ∧ is_access r.2 = true ∧
    (keeps_kind t → rd_type r.2 = rd_type t)).
Proof.
  intros Hs Ht. unfold row_hit_type. destruct (_ && _) eqn:E; [|by apply returns_ret].
  eapply returns_bind; [by apply GetPrechargeCmd_spec|]. intros [sh' p] [Hs' Hp]. cbn [fst snd] in *.
  apply returns_ret. split; [done|]. cbn [fst snd]. split; [by repeat case_match|].
  intros [Ek|[-> | ->]]; [by rewrite Ek in E| |]; by destruct (ct_eqb p PRECHARGE2).
Qed.
(** for an access, the next command; otherwise the request itself or a precharge *)
Lemma required_type_spec sh b cmd clk : bank_ok b → shared_ok sh →
  accepts b cmd.(cmd_type) →
  returns (required_type B c sh b cmd clk) (λ r, shared_ok r.1 ∧
    if is_access cmd.(cmd_type) then access_next b cmd r.2
    else if IsRowOpen b then r.2 = PRECHARGE ∨ r.2 = PRECHARGE2 else r.2 = cmd.(cmd_type)).
Proof.
  intros Hb Hs Ha. unfold required_type, IsRowOpen.
  destruct (is_access (cmd_type cmd)) eqn:Eacc.
  - destruct (bi_state _ _ (proj1 Hb)) as [E|[E|E]]; rewrite E.
    + destruct (Z.eqb_spec (Row cmd) (open_row_ b)).
      * eapply returns_mono; [by apply row_hit_type_spec|]. intros r (? & ? & ?). split; [done|by apply an_hit].
      * eapply returns_mono; [by apply GetPrechargeCmd_spec|]. intros r [??]. split; [done|by apply an_miss].
    + apply returns_ret. cbn [fst snd]. split; [done|].
      destruct (needs_rfm c b 1) eqn:E1; [|destruct (needs_rfm c b 2) eqn:E2].
      * unfold needs_rfm in E1. apply an_rfm; try done; [left|..]; lia || auto.
      * unfold needs_rfm in E2. apply an_rfm; try done; [right|..]; lia || auto.
      * apply an_act; [done|]. by rewrite E1, E2.
    + apply returns_ret. split; [done|]. by apply an_wake.
  - destruct Ha as [?|[Ha Hne]]; [congruence|]. rewrite Ha.
    destruct (bi_state _ _ (proj1 Hb)) as [E|[E|E]]; rewrite E in *; [|by apply returns_ret|done].
    eapply returns_mono; [by apply GetPrechargeCmd_spec|]. done.
Qed.
Lemma access_next_ok b cmd t : bank_ok b → access_next b cmd t →
  is_Some (next_state b.(state_) t) ∧ t ≠ SIZE ∧
  IsRefresh (mkCommand t cmd.(addr) cmd.(hex_addr)) = false ∧
  (t = ACTIVATE → rfm_on c → b.(raa_ctr_) < c.(raammt)).
Proof.
  intros Hb Hn. destruct Hn as [t E Er Ha _|t E Er Ha|t E Ho Hr Ha|E Hn|E]; rewrite E.
  - by destruct t; (split_and!; eauto; done).
  - by destruct Ha as [-> | ->]; (split_and!; eauto; done).
  - by destruct Ha as [-> | ->]; (split_and!; eauto; done).
  - split_and!; eauto; try done. unfold needs_rfm, rfm_on in *. intros _ ?. lia.
  - split_and!; eauto; done.
Qed.

Definition next_type b cmd (t : CommandType) : Prop :=
  if is_access cmd.(cmd_type) then access_next b cmd t
  else if IsRowOpen b then t = PRECHARGE ∨ t = PRECHARGE2 else t = cmd.(cmd_type).
Lemma GetReadyCommand_spec sh b cmd clk : bank_ok b → shared_ok sh →
  accepts b cmd.(cmd_type) →
  returns (GetReadyCommand B c sh b cmd clk) (λ r, shared_ok r.1 ∧
    (r.2 = Command0 ∨ ready_ok b cmd clk r.2 ∧ next_type b cmd r.2.(cmd_type))).
Proof.
  intros Hb Hs Ha. unfold GetReadyCommand.
  eapply returns_bind; [by apply required_type_spec|].
  intros [sh' t] (Hs' & Hn). cbn [fst snd] in *.
  assert (is_Some (next_state b.(state_) t) ∧ t ≠ SIZE ∧
    (t = ACTIVATE → rfm_on c → b.(raa_ctr_) < c.(raammt))) as (Hnx & Ht & Hraa).
  { destruct (is_access (cmd_type cmd)) eqn:Eacc; [by apply access_next_ok in Hn as (?&?&_&?)|].
    destruct Ha as [?|[Ha Hne]]; [congruence|]. unfold IsRowOpen in Hn.
    destruct (bi_state _ _ (proj1 Hb)) as [E|[E|E]]; rewrite E in *; [| |done].
    - by destruct Hn as [-> | ->]; eauto.
    - subst t. by destruct (cmd_type cmd); eauto. }
  assert (ct_eqb t SIZE = false) as -> by (by destruct t). cbn [negb].
  destruct (aget_ok b.(cmd_timing_) (ct_int t)) as [x Hx].
  { unfold zlen. rewrite (bi_timing _ _ (proj1 Hb)). pose proof (ct_int_lt t Ht). lia. }
  rewrite Hx. cbn [mbind outcome_bind]. apply returns_ret. cbn [fst snd]. split; [done|].
  destruct (Z.leb_spec x clk); [right|by left]. split; [|exact Hn]. split; try done. by exists x.
Qed.
End BankLemmas.

(** ** Service of a request *)

Section Service.
Context {G : Type} `{Rng64 G} (B : Build) (c : Config).



Context (Hc : bank_config_ok c) (Hdec : 0 < c.(rfm_raa_decrement))
  (HB : ROWPRESS B && uses_mopac B = false).




End Service.

(** ** The theorems *)

Section Theorems.
Context {G : Type} `{Rng64 G}.

Lemma BankState_new_spec (c : Config) (sh : Shared G) r bg ba : bank_config_ok c → shared_ok c sh →
  returns (BankState_new c sh r bg ba) (λ s, shared_ok c s.1 ∧ bank_ok c s.2 ∧
    s.2.(state_) = CLOSED ∧ s.2.(raa_ctr_) = 0 ∧ s.2.(acts_counter_) = 0 ∧
    zlen s.2.(total_row_acts_) = c.(rows) ∧ s.2.(cmd_timing_) = replicate 16 0 ∧ tracks_none s.2).
Proof.
  intros Hc Hs. pose proof (bc_rows _ Hc). pose proof (bc_raammt _ Hc). unfold BankState_new.
  destruct (Z.ltb_spec c.(rows) 0); [lia|].
  eapply returns_bind; [apply rng_mod_spec; [apply Hc|done]|]. intros [sh' sel] [Hs' _]. cbn [fst snd] in *.
  assert (zlen (replicate (Z.to_nat c.(rows)) 0) = c.(rows)) as Hz
    by (unfold zlen; rewrite length_replicate; lia).
  apply returns_ret. cbn [fst snd]. split; [by apply shared_stat|].
  split; [|split_and!; done]. split; [|done]. split; try done; try lia; cbn; first [by right; left | by right | by constructor | intros; lia].
Qed.

(** C3. A command that the state of the bank allows is carried out: the new state is the one of
    the transition table, the open row, the RAA counter and the activation count are those the
    command sets, the timing table is untouched and the invariant is kept (with every row-hammer
    scheme, refresh wrap-around included). Any other command stops the program. *)
Theorem bank_update_refines (B : Build) (c : Config) (sh : Shared G) (b : BankState) cmd clk :
  bank_config_ok c → ROWPRESS B && uses_mopac B = false → bank_pre c b cmd → shared_ok c sh →
  match next_state b.(state_) cmd.(cmd_type) with
  | Some s => returns (UpdateState B c sh b cmd clk) (λ r, shared_ok c r.1 ∧ bank_step B c b cmd s r.2)
  | None => UpdateState B c sh b cmd clk = Fault (Exit (-1))
  end.
Proof. intros Hc HB Hpre Hs. by apply (UpdateState_spec B c Hc sh b cmd clk Hpre Hs HB). Qed.

(** C16. For a request the bank accepts (an access, or a refresh, RFM or self-refresh entry outside
    self-refresh), [GetReadyCommand] returns either no command or one that the state machine
    allows, whose earliest time is past, with the address of the request; it is no [ACTIVATE]
    while an RFM is due. For any other request it stops the program. *)
Theorem bank_ready_legal (B : Build) (c : Config) (sh : Shared G) (b : BankState) req clk :
  bank_config_ok c → bank_ok c b → shared_ok c sh →
  (accepts b req.(cmd_type) → returns (GetReadyCommand B c sh b req clk)
     (λ r, shared_ok c r.1 ∧ (r.2 = Command0 ∨ ready_ok c b req clk r.2))) ∧
  (¬ accepts b req.(cmd_type) → GetReadyCommand B c sh b req clk = Fault (Exit (-1))).
Proof.
  intros Hc Hb Hs. split.
  { intros Ha. eapply returns_mono; [by apply GetReadyCommand_spec|]. intros r [? [?|[? _]]]; auto. }
  unfold accepts. intros Ha.
  unfold GetReadyCommand, required_type.
  destruct (is_access (cmd_type req)) eqn:Eacc; [exfalso; auto|].
  destruct (is_maintenance (cmd_type req)) eqn:Em; [|by destruct (bi_state _ _ (proj1 Hb)) as [->|[->| ->]]].
  destruct (bi_state _ _ (proj1 Hb)) as [E|[E|E]]; [exfalso; apply Ha; right; by rewrite E..|].
  by rewrite E.
Qed.


(** C29. MOAT: when a precharge with counter update brings the counter of the open row to the
    alert threshold, the bank raises the alert. *)
Theorem moat_alert_at_threshold (B : Build) (c : Config) (sh : Shared G) (b : BankState) cmd clk x :
  bank_config_ok c → uses_moat B = true → bank_ok c b → shared_ok c sh → b.(state_) = OPEN →
  cmd.(cmd_type) ∈ [PRECHARGE2; READ_PRECHARGE2; WRITE_PRECHARGE2] →
  aget b.(prac_) b.(open_row_) = Ret x → b.(moat_eth_) <= b.(moat_ath_) <= u16 (x + 1) →
  returns (UpdateState B c sh b cmd clk) (λ r, r.2.(state_) = CLOSED ∧
    returns (CheckAlert c r.1 r.2) (λ a, a.2 = true)).
Proof.
  intros Hc HB Hb Hs Hst Ht Hx Hath. pose proof Hb as [Hi Hcr].
  pose proof (bi_open _ _ Hi Hst) as Ho. pose proof (inv_hammer_ok _ _ Hi) as Hok.
  assert (uses_mopac B = false) as HM by (unfold uses_moat, uses_mopac, PRAC_IMPL_MOAT, PRAC_IMPL_PAC, PRAC_IMPL_MOPAC in *; lia).
  assert (UpdateState B c sh b cmd clk = update_precharge B c true sh b clk) as ->.
  { unfold UpdateState. rewrite Hst. repeat (apply elem_of_cons in Ht as [->|Ht]; [done|]). by apply elem_of_nil in Ht. }
  unfold update_precharge. rewrite Hx, HB, HM, andb_false_r. cbn [mbind outcome_bind].
  rewrite aset_ok by (by rewrite (bi_prac _ _ Hi)). cbn [mbind outcome_bind].
  set (b1 := b <| prac_ := _ |>).
  assert (hammer_ok c b1) as Hok1.
  { destruct Hok. split; try done. subst b1. rsimp. unfold zlen. by rewrite length_insert. }
  eapply returns_bind; [apply (MoatUpdate_spec c b1 Hok1); by subst b1|].
  intros b2 (_ & _ & Ep & _ & _ & Ea & Hv). apply returns_ret. cbn [fst snd]. split; [by rsimp|].
  destruct (Hv (u16 (x + 1))) as (Hvalid & w & Hw & Hle).
  { subst b1. rsimp. apply aget_Ret. split; [lia|]. apply list_lookup_insert_eq.
    pose proof (bi_prac _ _ Hi) as E. unfold zlen in E. lia. }
  { subst b1. rsimp. lia. }
  unfold CheckAlert. rsimp. destruct (0 <? _); [by apply returns_ret|].
  destruct (_ <=? zlen _); [by apply returns_ret|]. rewrite Hvalid, Ep, Hw. cbn [mbind outcome_bind].
  apply returns_ret. cbn [snd]. rewrite Ea. subst b1. rsimp. lia.
Qed.

(** A refresh that completes the window clears the per-row activation counts, and the vector
    is then empty: the next [ACTIVATE] indexes it out of range. *)
Theorem bank_acts_lost_after_window (B : Build) (c : Config) (sh : Shared G) (b : BankState) cmd clk
    act clk' :
  bank_config_ok c → bank_pre c b cmd → shared_ok c sh → ROWPRESS B && uses_mopac B = false →
  b.(state_) = CLOSED → IsRefresh cmd = true → act.(cmd_type) = ACTIVATE →
  b.(ref_idx_) + c.(rows_refreshed) = c.(rows) →
  returns (UpdateState B c sh b cmd clk) (λ r, r.2.(ref_idx_) = 0 ∧
    UpdateState B c r.1 r.2 act clk' = Fault OutOfRange).
Proof.
  intros Hc [Hb Hacts _] Hs HB Hst Ht Ha Hwrap. pose proof (bc_rows _ Hc).
  assert (UpdateState B c sh b cmd clk = update_refresh B c sh b) as ->.
  { unfold UpdateState, IsRefresh in *. rewrite Hst. by destruct (cmd_type cmd). }
  eapply returns_mono; [by apply update_refresh_spec; auto|].
  intros [sh' b'] (Hs' & Hstep & Hidx & Htot). cbn [fst snd] in *.
  assert (b'.(ref_idx_) = 0) as Hz.
  { rewrite Hidx, Hwrap, u32_id by (unfold is_u32; lia). by apply Z_mod_same_full. }
  split; [done|]. unfold UpdateState. rewrite (bs_state _ _ _ _ _ _ Hstep), Ha.
  unfold update_activate. rsimp. rewrite (Htot Hz). unfold aget. rewrite lookup_nil. by destruct (Row act <? 0).
Qed.
End Theorems.

(** ** Witnesses: a bank of the baseline configuration, with RFM on *)

Definition demo_config : Config := baseline <| rfm_ := mkRFM 1 16 48 16 16 840 0 |>.
Definition demo_build : Build := mkBuild 3 true.
Definition demo_cmd (t : CommandType) : Command := mkCommand t (mkAddress 0 0 2 1 77 5) 4886718336.

Lemma demo_config_ok : bank_config_ok demo_config.
Proof. split; vm_compute; split; (reflexivity || discriminate). Qed.
(** a fresh bank, and a fresh bank moved to another state *)
Lemma demo_bank : ∃ (sh : Shared Z) b,
  shared_ok demo_config sh ∧ bank_ok demo_config b ∧ b.(state_) = CLOSED ∧ b.(raa_ctr_) = 0 ∧
  b.(acts_counter_) = 0 ∧ zlen b.(total_row_acts_) = 65536 ∧ b.(cmd_timing_) = replicate 16 0.
Proof.
  pose proof (stats_init_inv demo_config ltac:(vm_compute; discriminate)) as Hi.
  set (st := stats_init _) in Hi. clearbody st.
  pose (sh0 := mkShared 0 false PRECHARGE st).
  assert (shared_ok demo_config sh0) as Hs by (split; [exact (conj (ri_geo _ _ _ _ Hi) (ri_ok _ _ _ _ Hi))|done]).
  destruct (BankState_new_spec demo_config sh0 0 1 2 demo_config_ok Hs) as ([sh b] & _ & (? & ? & ? & ? & ? & ? & ? & _)).
  by exists sh, b.
Qed.
Lemma demo_activate b : bank_ok demo_config b → b.(raa_ctr_) = 0 → b.(acts_counter_) = 0 →
  zlen b.(total_row_acts_) = 65536 → bank_pre demo_config b (demo_cmd ACTIVATE).
Proof.
  intros Hb Hr Ha Hz. split; [done|done|]. intros _. split; [vm_compute; by split|].
  rewrite Hr, Ha. split_and!; try lia; [by intros E; rewrite E in Hz|by intros _].
Qed.

Lemma bank_update_refines_witness : ∃ (sh : Shared Z) b,
  bank_pre demo_config b (demo_cmd ACTIVATE) ∧
  returns (UpdateState demo_build demo_config sh b (demo_cmd ACTIVATE) 100)
    (λ r, r.2.(state_) = OPEN ∧ r.2.(open_row_) = 77 ∧ r.2.(raa_ctr_) = 1) ∧
  UpdateState demo_build demo_config sh b (demo_cmd READ) 100 = Fault (Exit (-1)).
Proof.
  destruct demo_bank as (sh & b & Hs & Hb & Hst & Hr & Ha & Hz & _). exists sh, b.
  pose proof (demo_activate b Hb Hr Ha Hz) as Hpre. split; [done|]. split.
  - pose proof (bank_update_refines demo_build demo_config sh b (demo_cmd ACTIVATE) 100
      demo_config_ok eq_refl Hpre Hs) as Hu. rewrite Hst in Hu. cbn [next_state demo_cmd cmd_type] in Hu.
    eapply returns_mono; [exact Hu|]. intros r [_ [_ Hs' _ Ho Hr' _ _]]. split; [done|].
    split; [by apply Ho|]. rewrite Hr', Hr. done.
  - assert (bank_pre demo_config b (demo_cmd READ)) as Hp by by split.
    pose proof (bank_update_refines demo_build demo_config sh b (demo_cmd READ) 100
      demo_config_ok eq_refl Hp Hs) as Hu. rewrite Hst in Hu. exact Hu.
Defined.

Lemma bank_ready_legal_witness : ∃ (sh : Shared Z) b, b.(state_) = CLOSED ∧
  returns (GetReadyCommand demo_build demo_config sh b (demo_cmd READ) 100)
    (λ r, r.2 = Command0 ∨ ready_ok demo_config b (demo_cmd READ) 100 r.2) ∧
  GetReadyCommand demo_build demo_config sh b (demo_cmd PRECHARGE) 100 = Fault (Exit (-1)).
Proof.
  destruct demo_bank as (sh & b & Hs & Hb & Hst & _). exists sh, b. split; [done|]. split.
  - destruct (bank_ready_legal demo_build demo_config sh b (demo_cmd READ) 100 demo_config_ok Hb Hs) as [H1 _].
    eapply returns_mono; [apply H1; by left|]. by intros r [_ ?].
  - destruct (bank_ready_legal demo_build demo_config sh b (demo_cmd PRECHARGE) 100 demo_config_ok Hb Hs) as [_ H2].
    apply H2. by intros [?|[? _]].
Defined.


Lemma moat_alert_at_threshold_witness : ∃ (sh : Shared Z) b,
  aget b.(prac_) b.(open_row_) = Ret 127 ∧
  returns (UpdateState demo_build demo_config sh b (demo_cmd PRECHARGE2) 100) (λ r,
    returns (CheckAlert demo_config r.1 r.2) (λ a, a.2 = true)).
Proof.
  destruct demo_bank as (sh & b & Hs & Hb & _).
  pose (b1 := b <| state_ := OPEN |> <| open_row_ := 3 |> <| prac_ := repeat 127 (Z.to_nat 65536) |>
    <| moat_eth_ := 64 |> <| moat_ath_ := 128 |>).
  assert (bank_ok demo_config b1) as Hb1.
  { destruct Hb as [[] ?]. split; [|done]. split; try done; unfold b1; rsimp.
    by left. }
  exists sh, b1. assert (aget b1.(prac_) b1.(open_row_) = Ret 127) as Hx by (vm_compute; reflexivity).
  split; [exact Hx|].
  eapply returns_mono; [apply (moat_alert_at_threshold demo_build demo_config sh b1 (demo_cmd PRECHARGE2) 100 127
    demo_config_ok eq_refl Hb1 Hs eq_refl)|by intros r [_ ?]].
  - left.
  - exact Hx.
  - unfold b1. rsimp. vm_compute. split; discriminate.
Defined.

Lemma bank_acts_lost_after_window_witness : ∃ (sh : Shared Z) b,
  b.(ref_idx_) = 65528 ∧
  returns (UpdateState demo_build demo_config sh b (demo_cmd REFab) 100) (λ r,
    UpdateState demo_build demo_config r.1 r.2 (demo_cmd ACTIVATE) 1000 = Fault OutOfRange).
Proof.
  destruct demo_bank as (sh & b & Hs & Hb & Hst & _ & Ha & _).
  pose (b1 := b <| ref_idx_ := 65528 |>).
  assert (bank_pre demo_config b1 (demo_cmd REFab)) as Hp.
  { split; [|unfold b1; rsimp; lia|done]. destruct Hb as [[] ?]. split; [|done].
    by split. }
  exists sh, b1. split; [done|].
  eapply returns_mono; [apply (bank_acts_lost_after_window demo_build demo_config sh b1 (demo_cmd REFab) 100
    (demo_cmd ACTIVATE) 1000 demo_config_ok Hp Hs eq_refl Hst eq_refl eq_refl eq_refl)|by intros r [_ ?]].
Defined.
