(* ===== verification/ChannelState.v ===== *)
(** * DRAMsim3: the state of a channel (DRAMsim3/src/channel_state.h, channel_state.cc)

    The grid of banks of a channel, the queues of waiting refreshes and RFMs, the activation
    windows and the alert. [GetReadyCommand] asks the banks what a command needs next,
    [UpdateTimingAndStates] carries a command out and raises the earliest times of the
    commands it delays. *)
From S2P Require Import Prelude Common Config Timing Stats BankState.
Open Scope Z_scope.

(** [bank_states_[rank][bankgroup][bank]] *)
Definition Banks : Type := list (list (list BankState)).
Definition bank_at (bs : Banks) (r g k : Z) : outcome BankState :=
  x ← aget bs r; y ← aget x g; aget y k.
Definition bank_set (bs : Banks) (r g k : Z) (b : BankState) : outcome Banks :=
  x ← aget bs r; y ← aget x g; y ← aset y k b; x ← aset x g y; aset bs r x.

Record ChannelState := mkChannelState {
  rank_idle_cycles : list Z;
  rank_is_sref_ : list bool;
  bank_states_ : Banks;
  refresh_q_ : list Command;
  rfm_q_ : list Command;
  four_aw_ : list (list Z);
  thirty_two_aw_ : list (list Z);
  alert_n : bool;
  last_alert_clk_ : Z;
  num_acts_abo_ : Z
}.

(** [erase] of the first element that satisfies [p] *)
Fixpoint erase_first {A} (p : A → bool) (l : list A) : list A :=
  match l with [] => [] | x :: l => if p x then l else x :: erase_first p l end.

Section Channel.
Context {G : Type} `{Rng64 G} (B : Build) (c : Config) (T : Timing).
Implicit Types (sh : Shared G) (cs : ChannelState) (cmd : Command).

Definition ChannelState_new sh : outcome (Shared G * ChannelState) :=
  if c.(ranks) <? 0 then Fault Throw
  else
    r ← for_ (seqZ 0 c.(ranks)) (sh, []) (λ s i,
      if c.(bankgroups) <? 0 then Fault Throw
      else
        r ← for_ (seqZ 0 c.(bankgroups)) (s.1, []) (λ s j,
          r ← for_ (seqZ 0 c.(banks_per_group)) (s.1, []) (λ s k,
            r ← BankState_new c s.1 i j k;
            Ret (r.1, s.2 ++ [r.2]));
          Ret (r.1, s.2 ++ [r.2]));
        Ret (r.1, s.2 ++ [r.2]));
    let n := Z.to_nat c.(ranks) in
    Ret (r.1, {| rank_idle_cycles := replicate n 0; rank_is_sref_ := replicate n false;
      bank_states_ := r.2; refresh_q_ := []; rfm_q_ := []; four_aw_ := replicate n [];
      thirty_two_aw_ := replicate n []; alert_n := false; last_alert_clk_ := 0;
      num_acts_abo_ := 0 |}).

(** ** Queries *)

Definition IsRowOpen cs (rank bankgroup bank : Z) : outcome bool :=
  b ← bank_at cs.(bank_states_) rank bankgroup bank; Ret (BankState.IsRowOpen b).
Definition OpenRow cs (rank bankgroup bank : Z) : outcome Z :=
  b ← bank_at cs.(bank_states_) rank bankgroup bank; Ret (BankState.OpenRow b).
Definition RowHitCount cs (rank bankgroup bank : Z) : outcome Z :=
  b ← bank_at cs.(bank_states_) rank bankgroup bank; Ret (BankState.RowHitCount b).
Definition IsRankSelfRefreshing cs (rank : Z) : outcome bool := aget cs.(rank_is_sref_) rank.
Definition IsRefreshWaiting cs : bool := match cs.(refresh_q_) with [] => false | _ => true end.
Definition IsRFMWaiting cs : bool := match cs.(rfm_q_) with [] => false | _ => true end.
(** [front()] *)
Definition PendingRefCommand cs : outcome Command := aget cs.(refresh_q_) 0.
Definition PendingRFMCommand cs : outcome Command := aget cs.(rfm_q_) 0.

Definition IsAllBankIdleInRank cs (rank : Z) : outcome bool :=
  r ← for_ret (seqZ 0 c.(bankgroups)) tt (λ _ j,
    for_ret (seqZ 0 c.(banks_per_group)) tt (λ _ k,
      o ← IsRowOpen cs rank j k;
      Ret (tt, if o : bool then Some false else None)));
  Ret (default true r.2).

Definition IsRWPendingOnRef cs cmd : outcome bool :=
  o ← IsRowOpen cs (Rank cmd) (Bankgroup cmd) (Bank cmd);
  if o : bool then
    h ← RowHitCount cs (Rank cmd) (Bankgroup cmd) (Bank cmd);
    if h =? 0 then
      r ← OpenRow cs (Rank cmd) (Bankgroup cmd) (Bank cmd);
      Ret (r =? Row cmd)
    else Ret false
  else Ret false.

(** ** The queues of waiting refreshes and RFMs *)

(** a command for a whole rank, bank set or bank: unused fields and the address are -1 *)
Definition maint_cmd (t : CommandType) (rank bankgroup bank : Z) : Command :=
  mkCommand t (mkAddress (-1) rank bankgroup bank (-1) (-1)) (u64 (-1)).

Definition BankNeedRefresh cs (rank bankgroup bank : Z) (need : bool) : ChannelState :=
  if need then cs <| refresh_q_ ::= λ q, q ++ [maint_cmd REFRESH_BANK rank bankgroup bank] |>
  else cs <| refresh_q_ ::=
    erase_first (λ x, (Rank x =? rank) && (Bankgroup x =? bankgroup) && (Bank x =? bank)) |>.
Definition BanksetNeedRefresh cs (rank bank : Z) (need : bool) : ChannelState :=
  if need then cs <| refresh_q_ ::= λ q, q ++ [maint_cmd REFsb rank (-1) bank] |>
  else cs <| refresh_q_ ::= erase_first (λ x, (Rank x =? rank) && (Bank x =? bank)) |>.
Definition RankNeedRefresh cs (rank : Z) (need : bool) : ChannelState :=
  if need then cs <| refresh_q_ ::= λ q, q ++ [maint_cmd REFab rank (-1) (-1)] |>
  else cs <| refresh_q_ ::= erase_first (λ x, Rank x =? rank) |>.

Definition BanksetNeedRFM cs (rank bank : Z) (need : bool) : ChannelState :=
  let p x := (Rank x =? rank) && (Bank x =? bank) in
  if need && negb (existsb p cs.(rfm_q_))
  then cs <| rfm_q_ ::= λ q, q ++ [maint_cmd RFMsb rank (-1) bank] |>
  else if negb need then cs <| rfm_q_ ::= erase_first p |>
  else cs.
Definition RankNeedRFM cs (rank : Z) (need : bool) : ChannelState :=
  let p x := Rank x =? rank in
  if need && negb (existsb p cs.(rfm_q_))
  then cs <| rfm_q_ ::= λ q, q ++ [maint_cmd RFMab rank (-1) (-1)] |>
  else if negb need then cs <| rfm_q_ ::= erase_first p |>
  else cs.

(** ** Activation windows *)

Definition IsFAWReady cs (rank curr_time : Z) : outcome bool :=
  l ← aget cs.(four_aw_) rank;
  match l with
  | t :: _ => Ret (negb ((curr_time <? t) && (4 <=? zlen l)))
  | [] => Ret true
  end.
Definition Is32AWReady cs (rank curr_time : Z) : outcome bool :=
  l ← aget cs.(thirty_two_aw_) rank;
  match l with
  | t :: _ => Ret (negb ((curr_time <? t) && (32 <=? zlen l)))
  | [] => Ret true
  end.
Definition ActivationWindowOk cs (rank curr_time : Z) : outcome bool :=
  tfaw_ok ← IsFAWReady cs rank curr_time;
  if IsGDDR c then (if tfaw_ok : bool then Is32AWReady cs rank curr_time else Ret false)
  else Ret tfaw_ok.

(** drop the front when its time has come, push the end of the new window *)
Definition push_window (curr_time window : Z) (l : list Z) : list Z :=
  match l with t :: l' => if t <=? curr_time then l' else l | [] => [] end
  ++ [u64 (curr_time + window)].
Definition UpdateActivationTimes cs (rank curr_time : Z) : outcome ChannelState :=
  l ← aget cs.(four_aw_) rank;
  f ← aset cs.(four_aw_) rank (push_window curr_time c.(tFAW) l);
  let cs := cs <| four_aw_ := f |> in
  if IsGDDR c then
    l ← aget cs.(thirty_two_aw_) rank;
    f ← aset cs.(thirty_two_aw_) rank (push_window curr_time c.(t32AW) l);
    Ret (cs <| thirty_two_aw_ := f |>)
  else Ret cs.

(** ** The next command *)

(** one bank of a rank or bank-set command: a command it needs first ends the scan, with the
    bank's address; else the ready banks are counted and the last answer is kept *)
Definition scan_bank cs cmd (clk : Z) (s : Shared G * Z * Command) (j k : Z) :
    outcome (Shared G * Z * Command * option Command) :=
  let '(sh, num_ready, _) := s in
  b ← bank_at cs.(bank_states_) (Rank cmd) j k;
  r ← BankState.GetReadyCommand B c sh b cmd clk;
  let (sh, ready) := r : Shared G * Command in
  if negb (IsValid ready) then Ret (sh, num_ready, ready, None)
  else if negb (ct_eqb ready.(cmd_type) cmd.(cmd_type)) then
    Ret (sh, num_ready, ready,
         Some (mkCommand ready.(cmd_type) (mkAddress (-1) (Rank cmd) j k (-1) (-1)) ready.(hex_addr)))
  else Ret (sh, i32 (num_ready + 1), ready, None).

(** the answer of a scan: the early one, or the command when [total] banks are ready *)
Definition scan_result (total : Z) (r : Shared G * Z * Command * option Command) : Shared G * Command :=
  let '(sh, num_ready, ready, early) := r in
  match early with
  | Some x => (sh, x)
  | None => (sh, if num_ready =? total then ready else Command0)
  end.

Definition GetReadyCommand sh cs cmd (clk : Z) : outcome (Shared G * ChannelState * Command) :=
  if IsRankCMD cmd then
    r ← for_ret (seqZ 0 c.(bankgroups)) (sh, 0, Command0) (λ s j,
      for_ret (seqZ 0 c.(banks_per_group)) s (λ s k, scan_bank cs cmd clk s j k));
    let (sh, x) := scan_result c.(banks) r in Ret (sh, cs, x)
  else if IsSbCMD cmd then
    r ← for_ret (seqZ 0 c.(bankgroups)) (sh, 0, Command0) (λ s j, scan_bank cs cmd clk s j (Bank cmd));
    let (sh, x) := scan_result c.(bankgroups) r in Ret (sh, cs, x)
  else
    b ← bank_at cs.(bank_states_) (Rank cmd) (Bankgroup cmd) (Bank cmd);
    r ← BankState.GetReadyCommand B c sh b cmd clk;
    let (sh, ready) := r : Shared G * Command in
    if negb (IsValid ready) then Ret (sh, cs, Command0)
    else if cs.(alert_n) && (u64 (c.(tABO) + cs.(last_alert_clk_)) <? clk) then
      Ret (sh, RankNeedRFM cs (Rank ready) true, Command0)
    else if ct_eqb ready.(cmd_type) RFMsb then
      Ret (sh, BanksetNeedRFM cs (Rank ready) (Bank ready) true, Command0)
    else if ct_eqb ready.(cmd_type) RFMab then
      Ret (sh, RankNeedRFM cs (Rank ready) true, Command0)
    else if ct_eqb ready.(cmd_type) ACTIVATE then
      ok ← ActivationWindowOk cs (Rank ready) clk;
      Ret (sh, cs, if ok : bool then ready else Command0)
    else Ret (sh, cs, ready).

(** ** The effect of a command *)

(** [bank_states_[r][g][k].UpdateState(cmd, clk)] *)
Definition update_bank cmd (clk : Z) (s : Shared G * ChannelState) (r g k : Z) :
    outcome (Shared G * ChannelState) :=
  let (sh, cs) := s in
  b ← bank_at cs.(bank_states_) r g k;
  x ← BankState.UpdateState B c sh b cmd clk;
  let (sh, b) := x : Shared G * BankState in
  bs ← bank_set cs.(bank_states_) r g k b;
  Ret (sh, cs <| bank_states_ := bs |>).

Definition ResetAlert cs : ChannelState := cs <| alert_n := false |>.

Definition UpdateState sh cs cmd (clk : Z) : outcome (Shared G * ChannelState) :=
  if IsRankCMD cmd then
    s ← for_ (seqZ 0 c.(bankgroups)) (sh, cs) (λ s j,
      for_ (seqZ 0 c.(banks_per_group)) s (λ s k, update_bank cmd clk s (Rank cmd) j k));
    let (sh, cs) := s : Shared G * ChannelState in
    if IsRFM cmd then Ret (sh, ResetAlert (RankNeedRFM cs (Rank cmd) false))
    else if IsRefresh cmd then Ret (sh, ResetAlert (RankNeedRefresh cs (Rank cmd) false))
    else if ct_eqb cmd.(cmd_type) SREF_ENTER then
      l ← aset cs.(rank_is_sref_) (Rank cmd) true; Ret (sh, cs <| rank_is_sref_ := l |>)
    else if ct_eqb cmd.(cmd_type) SREF_EXIT then
      l ← aset cs.(rank_is_sref_) (Rank cmd) false; Ret (sh, cs <| rank_is_sref_ := l |>)
    else Ret (sh, cs)
  else if IsSbCMD cmd then
    s ← for_ (seqZ 0 c.(bankgroups)) (sh, cs) (λ s j, update_bank cmd clk s (Rank cmd) j (Bank cmd));
    let (sh, cs) := s : Shared G * ChannelState in
    if IsRFM cmd then Ret (sh, BanksetNeedRFM cs (Rank cmd) (Bank cmd) false)
    else if IsRefresh cmd then Ret (sh, BanksetNeedRefresh cs (Rank cmd) (Bank cmd) false)
    else Ret (sh, cs)
  else
    s ← update_bank cmd clk (sh, cs) (Rank cmd) (Bankgroup cmd) (Bank cmd);
    let (sh, cs) := s : Shared G * ChannelState in
    if IsRefresh cmd then Ret (sh, BankNeedRefresh cs (Rank cmd) (Bankgroup cmd) (Bank cmd) false)
    else Ret (sh, cs).

(** *** Alerts *)

(** [alert_mode == 1 and bank.CheckAlert()], and the alert *)
Definition alert_bank (clk : Z) sh cs (r g k : Z) : outcome (Shared G * ChannelState) :=
  if c.(alert_mode) =? 1 then
    b ← bank_at cs.(bank_states_) r g k;
    x ← CheckAlert c sh b;
    let (sh, alert) := x : Shared G * bool in
    if alert then
      Ret (stat (Increment "num_alerts") sh, cs <| alert_n := true |> <| last_alert_clk_ := clk |>)
    else Ret (sh, cs)
  else Ret (sh, cs).
Definition alert_blocked cs : bool := cs.(alert_n) || (cs.(num_acts_abo_) <? c.(ABO_delay_acts)).

Definition TriggerSameBankAlert sh cs cmd (clk : Z) : outcome (Shared G * ChannelState) :=
  if alert_blocked cs then Ret (sh, cs)
  else alert_bank clk sh cs (Rank cmd) (Bankgroup cmd) (Bank cmd).
Definition TriggerSameRankAlert sh cs cmd (clk : Z) : outcome (Shared G * ChannelState) :=
  if alert_blocked cs then Ret (sh, cs)
  else
    r ← for_ret (seqZ 0 c.(bankgroups)) (sh, cs) (λ s j,
      for_ret (seqZ 0 c.(banks_per_group)) s (λ s k,
        let (sh, cs) := s : Shared G * ChannelState in
        if cs.(alert_n) then Ret (sh, cs, Some tt)
        else
          s ← alert_bank clk sh cs (Rank cmd) j k;
          Ret (s, None)));
    Ret r.1.

(** *** Timing *)

(** [for (auto cmd_timing : cmd_timing_list) bank_states_[r][g][k].UpdateTiming(...)] *)
Definition bank_timings (l : list (CommandType * Z)) (clk : Z) (bs : Banks) (r g k : Z) : outcome Banks :=
  for_ l bs (λ bs x,
    b ← bank_at bs r g k;
    b ← BankState.UpdateTiming b x.1 (u64 (clk + x.2));
    bank_set bs r g k b).

Definition UpdateSameBankset (a : Address) l (clk : Z) (bs : Banks) : outcome Banks :=
  for_ (seqZ 0 c.(bankgroups)) bs (λ bs j, bank_timings l clk bs a.(rank) j a.(bank)).
Definition UpdateOtherBanksets (a : Address) l (clk : Z) (bs : Banks) : outcome Banks :=
  for_ (seqZ 0 c.(ranks)) bs (λ bs i,
    for_ (seqZ 0 c.(bankgroups)) bs (λ bs j,
      for_ (seqZ 0 c.(banks_per_group)) bs (λ bs k,
        if k =? a.(bank) then Ret bs else bank_timings l clk bs i j k))).
Definition UpdateSameBankTiming (a : Address) l (clk : Z) (bs : Banks) : outcome Banks :=
  bank_timings l clk bs a.(rank) a.(bankgroup) a.(bank).
Definition UpdateOtherBanksSameBankgroupTiming (a : Address) l (clk : Z) (bs : Banks) : outcome Banks :=
  for_ (seqZ 0 c.(banks_per_group)) bs (λ bs k,
    if k =? a.(bank) then Ret bs else bank_timings l clk bs a.(rank) a.(bankgroup) k).
Definition UpdateOtherBankgroupsSameRankTiming (a : Address) l (clk : Z) (bs : Banks) : outcome Banks :=
  for_ (seqZ 0 c.(bankgroups)) bs (λ bs j,
    if j =? a.(bankgroup) then Ret bs
    else for_ (seqZ 0 c.(banks_per_group)) bs (λ bs k, bank_timings l clk bs a.(rank) j k)).
Definition UpdateOtherRanksTiming (a : Address) l (clk : Z) (bs : Banks) : outcome Banks :=
  for_ (seqZ 0 c.(ranks)) bs (λ bs i,
    if i =? a.(rank) then Ret bs
    else for_ (seqZ 0 c.(bankgroups)) bs (λ bs j,
      for_ (seqZ 0 c.(banks_per_group)) bs (λ bs k, bank_timings l clk bs i j k))).
Definition UpdateSameRankTiming (a : Address) l (clk : Z) (bs : Banks) : outcome Banks :=
  for_ (seqZ 0 c.(bankgroups)) bs (λ bs j,
    for_ (seqZ 0 c.(banks_per_group)) bs (λ bs k, bank_timings l clk bs a.(rank) j k)).

(** the four scopes of a bank command *)
Definition bank_scopes cmd (clk : Z) (bs : Banks) : outcome Banks :=
  l ← aget T.(same_bank) (ct_int cmd.(cmd_type));
  bs ← UpdateSameBankTiming cmd.(addr) l clk bs;
  l ← aget T.(other_banks_same_bankgroup) (ct_int cmd.(cmd_type));
  bs ← UpdateOtherBanksSameBankgroupTiming cmd.(addr) l clk bs;
  l ← aget T.(other_bankgroups_same_rank) (ct_int cmd.(cmd_type));
  bs ← UpdateOtherBankgroupsSameRankTiming cmd.(addr) l clk bs;
  l ← aget T.(other_ranks) (ct_int cmd.(cmd_type));
  UpdateOtherRanksTiming cmd.(addr) l clk bs.
Definition rank_scope cmd (clk : Z) (bs : Banks) : outcome Banks :=
  l ← aget T.(same_rank) (ct_int cmd.(cmd_type));
  UpdateSameRankTiming cmd.(addr) l clk bs.
Definition bankset_scopes cmd (clk : Z) (bs : Banks) : outcome Banks :=
  l ← aget T.(same_bankset) (ct_int cmd.(cmd_type));
  bs ← UpdateSameBankset cmd.(addr) l clk bs;
  l ← aget T.(other_banksets) (ct_int cmd.(cmd_type));
  UpdateOtherBanksets cmd.(addr) l clk bs.

(** [switch] with its fall-throughs: an [ACTIVATE] is counted, a command that ends a row cycle
    may raise the alert, and every command updates its scopes *)
Definition UpdateTiming sh cs cmd (clk : Z) : outcome (Shared G * ChannelState) :=
  let on_banks (f : Command → Z → Banks → outcome Banks) (s : Shared G * ChannelState) :=
    bs ← f cmd clk s.2.(bank_states_); Ret (s.1, s.2 <| bank_states_ := bs |>) in
  let t := cmd.(cmd_type) in
  match t with
  | ACTIVATE =>
      cs ← UpdateActivationTimes (cs <| num_acts_abo_ ::= λ n, i32 (n + 1) |>) (Rank cmd) clk;
      s ← TriggerSameBankAlert sh cs cmd clk;
      on_banks bank_scopes s
  | READ_PRECHARGE | READ_PRECHARGE2 | WRITE_PRECHARGE | WRITE_PRECHARGE2 | PRECHARGE | PRECHARGE2 =>
      s ← TriggerSameBankAlert sh cs cmd clk;
      on_banks bank_scopes s
  | READ | WRITE | REFRESH_BANK => on_banks bank_scopes (sh, cs)
  | RFMab =>
      s ← TriggerSameRankAlert sh (cs <| num_acts_abo_ := 0 |>) cmd clk;
      on_banks rank_scope s
  | REFab =>
      s ← TriggerSameRankAlert sh cs cmd clk;
      on_banks rank_scope s
  | SREF_ENTER | SREF_EXIT => on_banks rank_scope (sh, cs)
  | REFsb | RFMsb =>
      s ← TriggerSameRankAlert sh cs cmd clk;
      on_banks bankset_scopes s
  | SIZE => AbruptExit
  end.

Definition UpdateTimingAndStates sh cs cmd (clk : Z) : outcome (Shared G * ChannelState) :=
  s ← UpdateState sh cs cmd clk;
  UpdateTiming s.1 s.2 cmd clk.
End Channel.
(** [get_channel] *)
Definition get_channel (c : Config) (hex_addr : Z) : outcome Z :=
  a ← shr64 hex_addr c.(shift_bits);
  ch ← shr64 a c.(ch_pos);
  Ret (i32 (Z.land ch c.(ch_mask))).
