(* ===== verification/ChannelSpec.v ===== *)
(** * Properties of a channel ([ChannelState])

    The grid of banks and loops over it, the invariant of a channel and the effect of a
    command on every bank, and what follows over a run: no command is issued before the
    delays of the timing tables have passed, and the activation window holds. *)
From S2P Require Import Prelude Common Config Timing Stats BankState BankSpec ChannelState.
Open Scope Z_scope.

(** ** The grid of banks *)

Definition grid_ok (c : Config) (bs : Banks) : Prop :=
  zlen bs = c.(ranks) ∧
  Forall (λ x, zlen x = c.(bankgroups) ∧ Forall (λ y, zlen y = c.(banks_per_group)) x) bs.
Definition in_grid (c : Config) (r g k : Z) : Prop :=
  0 <= r < c.(ranks) ∧ 0 <= g < c.(bankgroups) ∧ 0 <= k < c.(banks_per_group).

Lemma aget_Forall {A} (P : A → Prop) (l : list A) i x : Forall P l → aget l i = Ret x → P x.
Proof. intros Hl [_ Hx]%aget_Ret. by eapply Forall_lookup_1 in Hx. Qed.
Lemma aset_Forall {A} (P : A → Prop) (l l' : list A) i x :
  Forall P l → P x → aset l i x = Ret l' → Forall P l'.
Proof. intros Hl Hx [_ ->]%aset_Ret. by apply Forall_insert. Qed.
Lemma aset_returns {A} (l : list A) i x : 0 <= i < zlen l → ∃ l', aset l i x = Ret l'.
Proof. intros Hi. eexists. by apply aset_ok. Qed.

Section Grid.
Context (c : Config).
Implicit Types (bs : Banks).

Lemma bank_at_in bs r g k b : grid_ok c bs → bank_at bs r g k = Ret b → in_grid c r g k.
Proof.
  intros [Hl HF]. unfold bank_at. intros (x & Hx & (y & Hy & Hb)%bind_Ret)%bind_Ret.
  destruct (aget_Forall _ _ _ _ HF Hx) as [Hlx HFx]. pose proof (aget_Forall _ _ _ _ HFx Hy) as Hly.
  apply aget_bound in Hx, Hy, Hb. rewrite Hl in Hx. cbn beta in *. rewrite Hlx in Hy. rewrite Hly in Hb. done.
Qed.
Lemma bank_at_ok bs r g k : grid_ok c bs → in_grid c r g k → ∃ b, bank_at bs r g k = Ret b.
Proof.
  intros [Hl HF] (Hr & Hg & Hk). unfold bank_at.
  destruct (aget_ok bs r) as [x Hx]; [by rewrite Hl|]. rewrite Hx. cbn [mbind outcome_bind].
  destruct (aget_Forall _ _ _ _ HF Hx) as [Hlx HFx].
  destruct (aget_ok x g) as [y Hy]; [by rewrite Hlx|]. rewrite Hy. cbn [mbind outcome_bind].
  pose proof (aget_Forall _ _ _ _ HFx Hy) as Hly. cbn beta in Hly.
  apply aget_ok. by rewrite Hly.
Qed.
Lemma bank_set_ok bs r g k b : grid_ok c bs → in_grid c r g k →
  returns (bank_set bs r g k b) (λ bs', grid_ok c bs' ∧ bank_at bs' r g k = Ret b ∧
    ∀ r' g' k', (r', g', k') ≠ (r, g, k) → bank_at bs' r' g' k' = bank_at bs r' g' k').
Proof.
  intros [Hl HF] (Hr & Hg & Hk). unfold bank_set.
  destruct (aget_ok bs r) as [x Hx]; [by rewrite Hl|]. rewrite Hx. cbn [mbind outcome_bind].
  destruct (aget_Forall _ _ _ _ HF Hx) as [Hlx HFx].
  destruct (aget_ok x g) as [y Hy]; [by rewrite Hlx|]. rewrite Hy. cbn [mbind outcome_bind].
  pose proof (aget_Forall _ _ _ _ HFx Hy) as Hly. cbn beta in Hly.
  destruct (aset_returns y k b) as [y' Ey]; [by rewrite Hly|]. rewrite Ey. cbn [mbind outcome_bind].
  destruct (aset_returns x g y') as [x' Ex]; [by rewrite Hlx|]. rewrite Ex. cbn [mbind outcome_bind].
  destruct (aset_returns bs r x') as [bs' Eb]; [by rewrite Hl|]. rewrite Eb.
  exists bs'. split; [done|]. split; [split|split].
  - rewrite (aset_length _ _ _ _ Eb). exact Hl.
  - eapply aset_Forall; [exact HF| |exact Eb]. split; [by rewrite (aset_length _ _ _ _ Ex)|].
    eapply aset_Forall; [exact HFx| |exact Ex]. by rewrite (aset_length _ _ _ _ Ey).
  - unfold bank_at. rewrite (aget_aset _ _ r _ _ Eb), Z.eqb_refl. cbn [mbind outcome_bind].
    rewrite (aget_aset _ _ g _ _ Ex), Z.eqb_refl. cbn [mbind outcome_bind].
    by rewrite (aget_aset _ _ k _ _ Ey), Z.eqb_refl.
  - intros r' g' k' Hne. unfold bank_at. rewrite (aget_aset _ _ r' _ _ Eb).
    destruct (Z.eqb_spec r' r) as [->|]; [|done]. rewrite Hx. cbn [mbind outcome_bind].
    rewrite (aget_aset _ _ g' _ _ Ex). destruct (Z.eqb_spec g' g) as [->|]; [|done].
    rewrite Hy. cbn [mbind outcome_bind]. rewrite (aget_aset _ _ k' _ _ Ey).
    destruct (Z.eqb_spec k' k) as [->|]; [by destruct Hne|done].
Qed.

(** ** Updates of a set of banks

    [upd S R bs bs']: the banks of [S] move by [R], the others stay. A loop that visits the
    banks of its index updates their union. *)
Definition upd (S : Z → Z → Z → bool) (R : BankState → BankState → Prop) bs bs' : Prop :=
  grid_ok c bs' ∧ ∀ r g k b, bank_at bs r g k = Ret b →
    ∃ b', bank_at bs' r g k = Ret b' ∧ if S r g k then R b b' else b' = b.
Definition holds_on (S : Z → Z → Z → bool) (P : BankState → Prop) bs : Prop :=
  ∀ r g k b, S r g k = true → bank_at bs r g k = Ret b → P b.

Lemma upd_ext S S' R bs bs' : (∀ r g k, in_grid c r g k → S r g k = S' r g k) → grid_ok c bs →
  upd S R bs bs' → upd S' R bs bs'.
Proof.
  intros HS Hbs [Hg Hu]. split; [done|]. intros r g k b Hb. rewrite <- (HS r g k (bank_at_in bs r g k b Hbs Hb)).
  by apply Hu.
Qed.
Lemma upd_mono S (R R' : BankState → BankState → Prop) bs bs' :
  (∀ b b', R b b' → R' b b') → upd S R bs bs' → upd S R' bs bs'.
Proof.
  intros HR [Hg Hu]. split; [done|]. intros r g k b Hb. destruct (Hu r g k b Hb) as (b' & Hb' & Hs).
  exists b'. split; [done|]. case_match; auto.
Qed.

Lemma upd_loop {X} (bks : X → Banks) (I : X → Prop) (idx : Z → Z → Z → Z) S P R n (s : X)
    (body : X → Z → outcome X) :
  0 <= n → I s → grid_ok c (bks s) →
  (∀ i r g k, S i r g k = true → idx r g k = i) →
  (∀ i r g k b, 0 <= i < n → S i r g k = true → bank_at (bks s) r g k = Ret b → P b) →
  (∀ i s, 0 <= i < n → I s → grid_ok c (bks s) → holds_on (S i) P (bks s) →
     returns (body s i) (λ s', I s' ∧ upd (S i) R (bks s) (bks s'))) →
  returns (for_ (seqZ 0 n) s body) (λ s', I s' ∧
    upd (λ r g k, (0 <=? idx r g k) && (idx r g k <? n) && S (idx r g k) r g k) R (bks s) (bks s')).
Proof.
  intros Hn Hs Hg Hidx HP Hbody.
  set (done m r g k := (0 <=? idx r g k) && (idx r g k <? m) && S (idx r g k) r g k).
  apply (for_seqZ (λ m s', I s' ∧ upd (done m) R (bks s) (bks s')) 0 n); [done| |].
  { split; [done|]. split; [done|]. intros r g k b Hb. exists b. split; [done|].
    unfold done. destruct (Z.leb_spec 0 (idx r g k)), (Z.ltb_spec (idx r g k) 0); cbn; done || lia. }
  intros s' i Hi [Hs' [Hg' Hu]].
  eapply returns_mono; [apply Hbody; [lia|done|done|]|].
  { intros r g k b HS Hb. pose proof (bank_at_in _ _ _ _ _ Hg' Hb) as Hin.
    destruct (bank_at_ok _ r g k Hg Hin) as [b0 Hb0]. destruct (Hu r g k b0 Hb0) as (b1 & Hb1 & Hd).
    assert (b1 = b) as -> by congruence. unfold done in Hd. rewrite (Hidx i r g k HS) in Hd.
    rewrite Z.ltb_irrefl, andb_false_r in Hd. cbn in Hd. subst b0.
    by apply (HP i r g k b); [lia| |]. }
  intros s2 [Hs2 [Hg2 Hu2]]. split; [done|]. split; [done|]. intros r g k b Hb.
  destruct (Hu r g k b Hb) as (b1 & Hb1 & Hd1). destruct (Hu2 r g k b1 Hb1) as (b2 & Hb2 & Hd2).
  exists b2. split; [done|]. unfold done in *.
  destruct (S i r g k) eqn:HS.
  - rewrite (Hidx i r g k HS) in *. rewrite Z.ltb_irrefl, andb_false_r in Hd1. cbn in Hd1. subst b1.
    rewrite HS. destruct (Z.leb_spec 0 i), (Z.ltb_spec i (i + 1)); cbn; done || lia.
  - subst b2. destruct (Z.eqb_spec (idx r g k) i) as [E|E].
    + rewrite E, HS, !andb_false_r in *. done.
    + replace (idx r g k <? i + 1) with (idx r g k <? i) by
        (destruct (Z.ltb_spec (idx r g k) i), (Z.ltb_spec (idx r g k) (i + 1)); done || lia).
      done.
Qed.

(** the loops of the source: over the banks of a rank, of a bank group, and the same bank of
    every group *)
Definition only (r g k r' g' k' : Z) : bool := (r' =? r) && (k' =? k) && (g' =? g).
Context (Hbg : 0 <= c.(bankgroups)) (Hbpg : 0 <= c.(banks_per_group)).
Section Loops.
Context {X : Type} (bks : X → Banks) (I : X → Prop) (P : BankState → Prop)
  (R : BankState → BankState → Prop).

Definition body_ok (r g k : Z) (f : X → outcome X) : Prop :=
  ∀ s, I s → grid_ok c (bks s) → holds_on (only r g k) P (bks s) →
    returns (f s) (λ s', I s' ∧ upd (only r g k) R (bks s) (bks s')).

Lemma upd_none S (s : X) : grid_ok c (bks s) → (∀ r g k, S r g k = false) →
  upd S R (bks s) (bks s).
Proof. intros Hg HS. split; [done|]. intros r g k b Hb. exists b. by rewrite HS. Qed.

Lemma group_loop r g (keep : Z → bool) (body : X → Z → outcome X) (s : X) :
  I s → grid_ok c (bks s) →
  holds_on (λ r' g' k', (r' =? r) && (g' =? g) && keep k') P (bks s) →
  (∀ k, 0 <= k < c.(banks_per_group) → keep k = true → body_ok r g k (λ s, body s k)) →
  (∀ s k, keep k = false → body s k = Ret s) →
  returns (for_ (seqZ 0 c.(banks_per_group)) s body) (λ s', I s' ∧
    upd (λ r' g' k', (r' =? r) && (g' =? g) && keep k') R (bks s) (bks s')).
Proof.
  intros Hs Hg HP Hbody Hskip.
  eapply returns_mono; [apply (upd_loop bks I (λ _ _ k, k)
    (λ i r' g' k', keep i && only r g i r' g' k') P R); try done|].
  - unfold only. intros i r' g' k'. lia.
  - unfold only. intros i r' g' k' b Hi HS Hb. apply (HP r' g' k'); [|done].
    assert (k' = i) as -> by lia. destruct (keep i); lia.
  - intros i s' Hi Hs' Hg' HP'. destruct (keep i) eqn:E.
    + by apply Hbody.
    + rewrite Hskip by done. apply returns_ret. split; [done|]. by apply upd_none.
  - intros s' [Hs' Hu]. split; [done|]. eapply upd_ext; [|done|exact Hu].
    intros r' g' k' (Hr & Hg' & Hk). unfold only. destruct (keep k'); lia.
Qed.

Lemma skip_none (S : Z → Z → Z → bool) (s : X) : I s → grid_ok c (bks s) → (∀ r g k, S r g k = false) →
  returns (Ret s) (λ s', I s' ∧ upd S R (bks s) (bks s')).
Proof. intros Hs Hg HS. apply returns_ret. split; [done|]. by apply upd_none. Qed.

Lemma rank_loop r (skip keep : Z → bool) (body : X → Z → Z → outcome X) (s : X) :
  I s → grid_ok c (bks s) →
  holds_on (λ r' g' k', (r' =? r) && negb (skip g') && keep k') P (bks s) →
  (∀ g k, in_grid c r g k → skip g = false → keep k = true → body_ok r g k (λ s, body s g k)) →
  (∀ s g k, keep k = false → body s g k = Ret s) → 0 <= r < c.(ranks) →
  returns (for_ (seqZ 0 c.(bankgroups)) s (λ s g,
      if skip g then Ret s else for_ (seqZ 0 c.(banks_per_group)) s (λ s k, body s g k)))
    (λ s', I s' ∧ upd (λ r' g' k', (r' =? r) && negb (skip g') && keep k') R (bks s) (bks s')).
Proof.
  intros Hs Hg HP Hbody Hskip Hr.
  eapply returns_mono; [apply (upd_loop bks I (λ _ g _, g)
    (λ i r' g' k', negb (skip i) && ((r' =? r) && (g' =? i) && keep k')) P R); try done|].
  - intros i r' g' k'. lia.
  - intros i r' g' k' b Hi HS Hb. apply (HP r' g' k'); [|done].
    assert (g' = i) as -> by lia. cbn beta. destruct (skip i), (keep k'); lia.
  - intros i s' Hi Hs' Hg' HP'. destruct (skip i) eqn:E; [by apply skip_none|].
    apply (group_loop r i keep); try done; [|by intros s2 k; apply Hskip].
    intros k Hk Ek. apply Hbody; [|done..]. unfold in_grid. lia.
  - intros s' [Hs' Hu]. split; [done|]. eapply upd_ext; [|done|exact Hu].
    intros r' g' k' (Hr' & Hg' & Hk). cbn beta. destruct (skip g'), (keep k'); lia.
Qed.

Lemma bankset_loop r k (body : X → Z → outcome X) (s : X) :
  I s → grid_ok c (bks s) → holds_on (λ r' g' k', (r' =? r) && (k' =? k)) P (bks s) →
  (∀ g, in_grid c r g k → body_ok r g k (λ s, body s g)) → 0 <= r < c.(ranks) →
  0 <= k < c.(banks_per_group) →
  returns (for_ (seqZ 0 c.(bankgroups)) s body)
    (λ s', I s' ∧ upd (λ r' g' k', (r' =? r) && (k' =? k)) R (bks s) (bks s')).
Proof.
  intros Hs Hg HP Hbody Hr Hk.
  eapply returns_mono; [apply (upd_loop bks I (λ _ g _, g) (λ i, only r i k) P R); try done|].
  - unfold only. intros i r' g' k'. lia.
  - unfold only. intros i r' g' k' b Hi HS Hb. apply (HP r' g' k'); [lia|done].
  - intros i s' Hi Hs' Hg' HP'. apply Hbody; try done.
  - intros s' [Hs' Hu]. split; [done|]. eapply upd_ext; [|done|exact Hu].
    intros r' g' k' (Hr' & Hg' & Hk'). unfold only. lia.
Qed.

Lemma all_loop (skip keep : Z → bool) (body : X → Z → Z → Z → outcome X) (s : X) :
  I s → grid_ok c (bks s) → holds_on (λ r' _ k', negb (skip r') && keep k') P (bks s) →
  (∀ r g k, in_grid c r g k → skip r = false → keep k = true → body_ok r g k (λ s, body s r g k)) →
  (∀ s r g k, keep k = false → body s r g k = Ret s) → 0 <= c.(ranks) →
  returns (for_ (seqZ 0 c.(ranks)) s (λ s r, if skip r then Ret s else
      for_ (seqZ 0 c.(bankgroups)) s (λ s g, for_ (seqZ 0 c.(banks_per_group)) s (λ s k, body s r g k))))
    (λ s', I s' ∧ upd (λ r' _ k', negb (skip r') && keep k') R (bks s) (bks s')).
Proof.
  intros Hs Hg HP Hbody Hskip Hr.
  eapply returns_mono; [apply (upd_loop bks I (λ r _ _, r)
    (λ i r' g' k', negb (skip i) && ((r' =? i) && true && keep k')) P R); try done|].
  - intros i r' g' k'. lia.
  - intros i r' g' k' b Hi HS Hb. apply (HP r' g' k'); [|done].
    assert (r' = i) as -> by lia. cbn beta. destruct (skip i), (keep k'); lia.
  - intros i s' Hi Hs' Hg' HP'. destruct (skip i) eqn:E; [by apply skip_none|].
    apply (rank_loop i (λ _, false) keep); try done.
    + intros g k Hin _ Ek. by apply Hbody.
    + intros s2 g k Ek. by apply Hskip.
  - intros s' [Hs' Hu]. split; [done|]. eapply upd_ext; [|done|exact Hu].
    intros r' g' k' (Hr' & Hg' & Hk'). cbn beta. destruct (skip r'), (keep k'); lia.
Qed.
End Loops.

(** *** Timing updates *)

(** the earliest times of a bank after a list of delays from [clk] *)
Definition raise1 (clk : Z) (tm : list Z) (x : CommandType * Z) : list Z :=
  let i := Z.to_nat (ct_int x.1) in
  match tm !! i with Some old => <[i := Z.max old (u64 (clk + x.2))]> tm | None => tm end.
Definition raise (l : list (CommandType * Z)) (clk : Z) (tm : list Z) : list Z := foldl (raise1 clk) tm l.

Lemma raise1_length clk tm x : length (raise1 clk tm x) = length tm.
Proof. unfold raise1. case_match; [|done]. apply length_insert. Qed.
Lemma raise_length l clk tm : length (raise l clk tm) = length tm.
Proof.
  revert tm. induction l as [|x l IH]; intros tm; [done|]. unfold raise in *. cbn [foldl].
  by rewrite IH, raise1_length.
Qed.
Lemma raise1_mono clk tm x i t : tm !! i = Some t → ∃ t', raise1 clk tm x !! i = Some t' ∧ t <= t'.
Proof.
  intros Ht. unfold raise1. case_match eqn:E; [|by exists t].
  destruct (decide (i = Z.to_nat (ct_int x.1))) as [->|Hne].
  - assert (t = z) as -> by congruence. eexists.
    rewrite list_lookup_insert_eq by (by eapply lookup_lt_Some). split; [done|lia].
  - exists t. rewrite list_lookup_insert_ne by done. done.
Qed.
(** times only grow, and every delay of the list is respected *)
Lemma raise_mono l clk tm i t : tm !! i = Some t → ∃ t', raise l clk tm !! i = Some t' ∧ t <= t'.
Proof.
  revert tm t. induction l as [|x l IH]; intros tm t Ht; [by exists t|].
  destruct (raise1_mono clk tm x i t Ht) as (t1 & H1 & ?). destruct (IH _ _ H1) as (t2 & H2 & ?).
  exists t2. split; [done|lia].
Qed.
Lemma raise_delay l clk tm x t : x ∈ l → tm !! Z.to_nat (ct_int x.1) = Some t →
  ∃ t', raise l clk tm !! Z.to_nat (ct_int x.1) = Some t' ∧ u64 (clk + x.2) <= t'.
Proof.
  revert tm t. induction l as [|y l IH]; intros tm t Hx Ht; [by apply elem_of_nil in Hx|].
  apply elem_of_cons in Hx as [<-|Hx].
  - assert (raise1 clk tm x !! Z.to_nat (ct_int x.1) = Some (Z.max t (u64 (clk + x.2)))) as H1.
    { unfold raise1. rewrite Ht, list_lookup_insert_eq; [done|by eapply lookup_lt_Some]. }
    destruct (raise_mono l clk _ _ _ H1) as (t' & H2 & ?). exists t'. split; [done|lia].
  - destruct (raise1_mono clk tm y _ t Ht) as (t1 & H1 & ?). by apply (IH _ t1).
Qed.

Definition delays_ok (l : list (CommandType * Z)) : Prop := Forall (λ x, x.1 ≠ SIZE) l.
Definition timed l clk (b b' : BankState) : Prop := b' = b <| cmd_timing_ := raise l clk b.(cmd_timing_) |>.
Definition has_timing (b : BankState) : Prop := length b.(cmd_timing_) = 16%nat.

Lemma UpdateTiming_spec clk b t d : has_timing b → t ≠ SIZE →
  returns (BankState.UpdateTiming b t (u64 (clk + d)))
    (λ b', b' = b <| cmd_timing_ := raise1 clk b.(cmd_timing_) (t, d) |>).
Proof.
  intros Hb Ht. unfold BankState.UpdateTiming. pose proof (ct_int_lt t Ht).
  destruct (aget_ok b.(cmd_timing_) (ct_int t)) as [x Hx]; [unfold zlen; rewrite Hb; lia|].
  rewrite Hx. cbn [mbind outcome_bind]. rewrite aset_ok by (unfold zlen; rewrite Hb; lia).
  cbn [mbind outcome_bind]. apply returns_ret. unfold raise1. cbn [fst snd].
  apply aget_Ret in Hx as [_ ->]. done.
Qed.
Lemma upd_single bs r g k b b' : grid_ok c bs → in_grid c r g k → bank_at bs r g k = Ret b →
  returns (bank_set bs r g k b') (upd (only r g k) (λ x y, x = b ∧ y = b') bs).
Proof.
  intros Hg Hin Hb. eapply returns_mono; [by apply (bank_set_ok bs r g k b')|].
  intros bs' (Hg' & Hb' & Hoth). split; [done|]. intros r1 g1 k1 b1 Hb1. unfold only.
  destruct (Z.eqb_spec r1 r) as [->|], (Z.eqb_spec k1 k) as [->|], (Z.eqb_spec g1 g) as [->|]; cbn;
    try (exists b1; split; [rewrite Hoth; [done|congruence]|done]).
  exists b'. split; [done|]. split; [congruence|done].
Qed.
Lemma upd_seq S (R1 R2 : BankState → BankState → Prop) bs1 bs2 bs3 :
  upd S R1 bs1 bs2 → upd S R2 bs2 bs3 → upd S (λ b b', ∃ x, R1 b x ∧ R2 x b') bs1 bs3.
Proof.
  intros [_ H1] [Hg H2]. split; [done|]. intros r g k b Hb.
  destruct (H1 _ _ _ _ Hb) as (b1 & Hb1 & E1). destruct (H2 _ _ _ _ Hb1) as (b2 & Hb2 & E2).
  exists b2. split; [done|]. case_match; [by exists b1|congruence].
Qed.
Lemma bank_timings_spec l clk r g k bs : delays_ok l → grid_ok c bs → in_grid c r g k →
  holds_on (only r g k) has_timing bs →
  returns (bank_timings l clk bs r g k) (upd (only r g k) (timed l clk) bs).
Proof.
  intros Hl. revert bs. induction Hl as [|[t d] l Ht Hl IH]; intros bs Hg Hin HP; unfold bank_timings; cbn [for_].
  { apply returns_ret. split; [done|]. intros r' g' k' b Hb. exists b. split; [done|].
    case_match; [|done]. unfold timed. by destruct b. }
  destruct (bank_at_ok _ r g k Hg Hin) as [b Hb]. rewrite Hb. cbn [mbind outcome_bind].
  set (b1 := b <| cmd_timing_ := raise1 clk b.(cmd_timing_) (t, d) |>).
  eapply returns_bind with (P := upd (only r g k) (λ x y, x = b ∧ y = b1) bs).
  { eapply returns_bind; [apply (UpdateTiming_spec clk b t d); [|done]|intros ? ->; by apply upd_single].
    apply (HP r g k b); [unfold only; lia|done]. }
  intros bs1 [Hg1 Hu1]. eapply returns_mono; [apply IH; try done|].
  - intros r' g' k' b' HS Hb'. destruct (bank_at_ok _ r' g' k' Hg (bank_at_in _ _ _ _ _ Hg1 Hb')) as [b0 Hb0].
    destruct (Hu1 _ _ _ _ Hb0) as (b2 & Hb2 & Hd). rewrite HS in Hd. destruct Hd as [-> ->].
    assert (b' = b1) as -> by congruence. unfold has_timing, b1. rsimp. rewrite raise1_length.
    by apply (HP r' g' k').
  - intros bs2 Hu2. eapply upd_mono; [|exact (upd_seq _ _ _ _ _ _ (conj Hg1 Hu1) Hu2)]. intros x y (z & [-> ->] & ->).
    unfold timed, b1. by rsimp.
Qed.

(** every bank gets the delays [f] gives for its position *)
Definition delayed (f : Z → Z → Z → list (CommandType * Z)) clk bs bs' : Prop :=
  grid_ok c bs' ∧ ∀ r g k b, bank_at bs r g k = Ret b →
    bank_at bs' r g k = Ret (b <| cmd_timing_ := raise (f r g k) clk b.(cmd_timing_) |>).
Lemma delayed_upd S l clk bs bs' : upd S (timed l clk) bs bs' →
  delayed (λ r g k, if S r g k then l else []) clk bs bs'.
Proof.
  intros [Hg Hu]. split; [done|]. intros r g k b Hb. destruct (Hu _ _ _ _ Hb) as (b' & -> & Hd).
  case_match; [by rewrite Hd|]. subst b'. by destruct b.
Qed.
Lemma delayed_seq f1 f2 clk bs1 bs2 bs3 : delayed f1 clk bs1 bs2 → delayed f2 clk bs2 bs3 →
  delayed (λ r g k, f1 r g k ++ f2 r g k) clk bs1 bs3.
Proof.
  intros [_ H1] [Hg H2]. split; [done|]. intros r g k b Hb. rewrite (H2 _ _ _ _ (H1 _ _ _ _ Hb)). rsimp.
  unfold raise. by rewrite foldl_app.
Qed.
Lemma delayed_ext f f' clk bs bs' : grid_ok c bs → (∀ r g k, in_grid c r g k → f r g k = f' r g k) →
  delayed f clk bs bs' → delayed f' clk bs bs'.
Proof.
  intros Hg Hf [Hg' Hd]. split; [done|]. intros r g k b Hb.
  rewrite <- (Hf r g k (bank_at_in _ _ _ _ _ Hg Hb)). by apply Hd.
Qed.
Definition timings_ok bs : Prop := grid_ok c bs ∧ ∀ r g k b, bank_at bs r g k = Ret b → has_timing b.
Lemma delayed_ok f clk bs bs' : timings_ok bs → delayed f clk bs bs' → timings_ok bs'.
Proof.
  intros [Hg Ht] [Hg' Hd]. split; [done|]. intros r g k b Hb.
  destruct (bank_at_ok _ r g k Hg (bank_at_in _ _ _ _ _ Hg' Hb)) as [b0 Hb0].
  rewrite (Hd _ _ _ _ Hb0) in Hb. injection Hb as <-. unfold has_timing. rsimp. rewrite raise_length.
  by eapply Ht.
Qed.

Context (Hranks : 0 <= c.(ranks)).
Lemma timings_body l clk r g k : delays_ok l → in_grid c r g k →
  body_ok id (λ _, True) has_timing (timed l clk) r g k (λ bs, bank_timings l clk bs r g k).
Proof.
  intros Hl Hin bs _ Hg HP. eapply returns_mono; [by apply bank_timings_spec|]. by intros bs' Hu.
Qed.
Lemma timings_all S bs : timings_ok bs → holds_on S has_timing bs.
Proof. intros [_ Ht] r g k b _. apply Ht. Qed.

Lemma UpdateSameBankTiming_spec (a : Address) l clk bs : delays_ok l → timings_ok bs →
  in_grid c a.(rank) a.(bankgroup) a.(bank) →
  returns (UpdateSameBankTiming a l clk bs)
    (delayed (λ r g k, if only a.(rank) a.(bankgroup) a.(bank) r g k then l else []) clk bs).
Proof.
  intros Hl Hok Hin. eapply returns_mono; [apply bank_timings_spec; try done|]; [apply Hok|by apply timings_all|].
  apply delayed_upd.
Qed.
Lemma UpdateOtherBanksSameBankgroupTiming_spec (a : Address) l clk bs : delays_ok l → timings_ok bs →
  in_grid c a.(rank) a.(bankgroup) a.(bank) →
  returns (UpdateOtherBanksSameBankgroupTiming c a l clk bs)
    (delayed (λ r g k, if (r =? a.(rank)) && (g =? a.(bankgroup)) && negb (k =? a.(bank)) then l else []) clk bs).
Proof.
  intros Hl Hok Hin. pose proof Hin as (H1 & H2 & H3).
  eapply returns_mono; [apply (group_loop id (λ _, True) has_timing (timed l clk)
    a.(rank) a.(bankgroup) (λ k, negb (k =? a.(bank)))); try done|].
  - apply Hok.
  - by apply timings_all.
  - intros k Hk E. assert (k =? a.(bank) = false) as -> by (by destruct (k =? a.(bank))).
    by apply timings_body.
  - intros s k E. assert (k =? a.(bank) = true) as -> by (by destruct (k =? a.(bank))). done.
  - intros bs' [_ Hu]. by apply delayed_upd in Hu.
Qed.
Lemma UpdateOtherBankgroupsSameRankTiming_spec (a : Address) l clk bs : delays_ok l → timings_ok bs →
  0 <= a.(rank) < c.(ranks) →
  returns (UpdateOtherBankgroupsSameRankTiming c a l clk bs)
    (delayed (λ r g k, if (r =? a.(rank)) && negb (g =? a.(bankgroup)) then l else []) clk bs).
Proof.
  intros Hl Hok Hr.
  eapply returns_mono; [apply (rank_loop id (λ _, True) has_timing (timed l clk)
    a.(rank) (λ g, g =? a.(bankgroup)) (λ _, true)); try done|].
  - apply Hok.
  - by apply timings_all.
  - intros g k Hin _ _. by apply timings_body.
  - intros bs' [_ Hu]. apply delayed_upd in Hu. eapply delayed_ext; [apply Hok| |exact Hu].
    intros; cbn beta. by rewrite andb_true_r.
Qed.
Lemma UpdateOtherRanksTiming_spec (a : Address) l clk bs : delays_ok l → timings_ok bs →
  returns (UpdateOtherRanksTiming c a l clk bs)
    (delayed (λ r _ _, if negb (r =? a.(rank)) then l else []) clk bs).
Proof.
  intros Hl Hok.
  eapply returns_mono; [apply (all_loop id (λ _, True) has_timing (timed l clk)
    (λ r, r =? a.(rank)) (λ _, true)); try done|].
  - apply Hok.
  - by apply timings_all.
  - intros r g k Hin _ _. by apply timings_body.
  - intros bs' [_ Hu]. apply delayed_upd in Hu. eapply delayed_ext; [apply Hok| |exact Hu].
    intros; cbn beta. by rewrite andb_true_r.
Qed.
Lemma UpdateSameRankTiming_spec (a : Address) l clk bs : delays_ok l → timings_ok bs →
  0 <= a.(rank) < c.(ranks) →
  returns (UpdateSameRankTiming c a l clk bs)
    (delayed (λ r _ _, if r =? a.(rank) then l else []) clk bs).
Proof.
  intros Hl Hok Hr.
  eapply returns_mono; [apply (rank_loop id (λ _, True) has_timing (timed l clk)
    a.(rank) (λ _, false) (λ _, true)); try done|].
  - apply Hok.
  - by apply timings_all.
  - intros g k Hin _ _. by apply timings_body.
  - intros bs' [_ Hu]. apply delayed_upd in Hu. eapply delayed_ext; [apply Hok| |exact Hu].
    intros; cbn beta. by rewrite !andb_true_r.
Qed.
Lemma UpdateSameBankset_spec (a : Address) l clk bs : delays_ok l → timings_ok bs →
  0 <= a.(rank) < c.(ranks) → 0 <= a.(bank) < c.(banks_per_group) →
  returns (UpdateSameBankset c a l clk bs)
    (delayed (λ r _ k, if (r =? a.(rank)) && (k =? a.(bank)) then l else []) clk bs).
Proof.
  intros Hl Hok Hr Hk.
  eapply returns_mono; [apply (bankset_loop id (λ _, True) has_timing (timed l clk)
    a.(rank) a.(bank)); try done|].
  - apply Hok.
  - by apply timings_all.
  - intros g Hin. by apply timings_body.
  - intros bs' [_ Hu]. by apply delayed_upd in Hu.
Qed.
Lemma UpdateOtherBanksets_spec (a : Address) l clk bs : delays_ok l → timings_ok bs →
  returns (UpdateOtherBanksets c a l clk bs)
    (delayed (λ _ _ k, if negb (k =? a.(bank)) then l else []) clk bs).
Proof.
  intros Hl Hok.
  eapply returns_mono; [apply (all_loop id (λ _, True) has_timing (timed l clk)
    (λ _, false) (λ k, negb (k =? a.(bank)))); try done|].
  - apply Hok.
  - by apply timings_all.
  - intros r g k Hin _ E. assert (k =? a.(bank) = false) as -> by (by destruct (k =? a.(bank))).
    by apply timings_body.
  - intros s r g k E. assert (k =? a.(bank) = true) as -> by (by destruct (k =? a.(bank))). done.
  - intros bs' [_ Hu]. by apply delayed_upd in Hu.
Qed.
End Grid.

(** ** The state of a channel *)

(** the banks a command is for *)
Definition covers (cmd : Command) (r g k : Z) : bool :=
  (r =? Rank cmd) &&
  (if IsRankCMD cmd then true
   else (k =? Bank cmd) && (if IsSbCMD cmd then true else g =? Bankgroup cmd)).
Definition target_ok (c : Config) (cmd : Command) : Prop :=
  0 <= Rank cmd < c.(ranks) ∧
  (IsRankCMD cmd = false → 0 <= Bank cmd < c.(banks_per_group)) ∧
  (IsRankCMD cmd = false → IsSbCMD cmd = false → 0 <= Bankgroup cmd < c.(bankgroups)).

(** [cs'] is [cs] with other banks *)
Definition same_but_banks (cs cs' : ChannelState) : Prop :=
  cs' = cs <| bank_states_ := cs'.(bank_states_) |>.
Lemma same_but_banks_refl cs : same_but_banks cs cs.
Proof. by destruct cs. Qed.
Lemma same_but_banks_trans cs1 cs2 cs3 :
  same_but_banks cs1 cs2 → same_but_banks cs2 cs3 → same_but_banks cs1 cs3.
Proof. unfold same_but_banks. intros E1 E2. rewrite E2, E1. by rsimp. Qed.

(** the scope in which a command delays a bank *)
Definition scope_of (cmd : Command) (r g k : Z) : option scope :=
  if IsRankCMD cmd then (if r =? Rank cmd then Some SameRank else None)
  else if IsSbCMD cmd then
    (if k =? Bank cmd then (if r =? Rank cmd then Some SameBankset else None) else Some OtherBanksets)
  else if r =? Rank cmd then
    (if g =? Bankgroup cmd then (if k =? Bank cmd then Some SameBank else Some OtherBanksSameBankgroup)
     else Some OtherBankgroupsSameRank)
  else Some OtherRanks.
Definition scope_delays (T : Timing) (cmd : Command) (r g k : Z) : list (CommandType * Z) :=
  match scope_of cmd r g k with Some s => row_of (table T s) cmd.(cmd_type) | None => [] end.
(** every table has a row for every command *)
Definition tables_ok (T : Timing) : Prop := ∀ s t, t ≠ SIZE →
  aget (table T s) (ct_int t) = Ret (row_of (table T s) t) ∧ delays_ok (row_of (table T s) t).
Lemma build_tables D ppd : tables_ok (build D ppd).
Proof.
  intros s t Ht.
  assert (aget (table (build D ppd) s) (ct_int t) = Ret (row_of (table (build D ppd) s) t) ∧
    forallb (λ x, negb (ct_eqb x.1 SIZE)) (row_of (table (build D ppd) s) t) = true) as [H1 H2]
    by (destruct D, ppd, s, t; try done; (split; vm_compute; reflexivity)).
  split; [exact H1|]. apply Forall_forall. intros x Hx. rewrite forallb_forall in H2.
  apply list_elem_of_In, H2 in Hx. intros E. by rewrite E in Hx.
Qed.
Lemma Timing_new_tables c : tables_ok (Timing_new c).
Proof. exact (build_tables (delays c) (needs_ppd c)). Qed.

Section ChannelLemmas.
Context {G : Type} `{Rng64 G} (B : Build) (c : Config) (Hc : bank_config_ok c)
  (HB : ROWPRESS B && uses_mopac B = false).
Implicit Types (sh : Shared G) (cs : ChannelState) (cmd : Command).

Definition step_ok cmd (b b' : BankState) : Prop :=
  ∃ s, next_state b.(state_) cmd.(cmd_type) = Some s ∧ bank_step B c b cmd s b'.
Definition can_step cmd (b : BankState) : Prop :=
  bank_pre c b cmd ∧ is_Some (next_state b.(state_) cmd.(cmd_type)).

Lemma update_bank_spec cmd clk (s : Shared G * ChannelState) r g k :
  shared_ok c s.1 → grid_ok c s.2.(bank_states_) → in_grid c r g k →
  holds_on (only r g k) (can_step cmd) s.2.(bank_states_) →
  returns (update_bank B c cmd clk s r g k) (λ s', (shared_ok c s'.1 ∧ same_but_banks s.2 s'.2) ∧
    upd c (only r g k) (step_ok cmd) s.2.(bank_states_) s'.2.(bank_states_)).
Proof.
  destruct s as [sh cs]. cbn [fst snd]. intros Hs Hg Hin HP. unfold update_bank.
  destruct (bank_at_ok c _ r g k Hg Hin) as [b Hb]. rewrite Hb. cbn [mbind outcome_bind].
  destruct (HP r g k b) as [Hpre [t Ht]]; [unfold only; by rewrite !Z.eqb_refl|done|].
  pose proof (bank_update_refines B c sh b cmd clk Hc HB Hpre Hs) as Hu. rewrite Ht in Hu.
  eapply returns_bind; [exact Hu|]. intros [sh' b'] [Hs' Hstep]. cbn [fst snd] in *.
  eapply returns_bind; [by apply (upd_single c _ r g k b b')|]. intros bs' Hu'.
  apply returns_ret. cbn [fst snd]. unfold same_but_banks. rsimp. split; [done|].
  eapply upd_mono; [|exact Hu']. intros x y [-> ->]. by exists t.
Qed.

Context (Hbg : 0 <= c.(bankgroups)) (Hbpg : 0 <= c.(banks_per_group)).

(** the waiting refresh or RFM that a command takes out of its queue *)
Definition served_by cmd (x : Command) : bool :=
  if IsRankCMD cmd then Rank x =? Rank cmd
  else if IsSbCMD cmd then (Rank x =? Rank cmd) && (Bank x =? Bank cmd)
  else (Rank x =? Rank cmd) && (Bankgroup x =? Bankgroup cmd) && (Bank x =? Bank cmd).
(** what a command does to the fields other than the banks *)
Definition after_state cmd cs cs' : Prop :=
  cs'.(four_aw_) = cs.(four_aw_) ∧ cs'.(thirty_two_aw_) = cs.(thirty_two_aw_) ∧
  cs'.(rank_idle_cycles) = cs.(rank_idle_cycles) ∧ cs'.(num_acts_abo_) = cs.(num_acts_abo_) ∧
  cs'.(last_alert_clk_) = cs.(last_alert_clk_) ∧
  cs'.(alert_n) = (if IsRankCMD cmd && (IsRFM cmd || IsRefresh cmd) then false else cs.(alert_n)) ∧
  cs'.(rank_is_sref_) = (if ct_eqb cmd.(cmd_type) SREF_ENTER then <[Z.to_nat (Rank cmd) := true]> cs.(rank_is_sref_)
    else if ct_eqb cmd.(cmd_type) SREF_EXIT then <[Z.to_nat (Rank cmd) := false]> cs.(rank_is_sref_)
    else cs.(rank_is_sref_)) ∧
  cs'.(refresh_q_) = (if IsRefresh cmd then erase_first (served_by cmd) cs.(refresh_q_) else cs.(refresh_q_)) ∧
  cs'.(rfm_q_) = (if IsRFM cmd then erase_first (served_by cmd) cs.(rfm_q_) else cs.(rfm_q_)).

Lemma update_banks_spec sh cs cmd clk :
  shared_ok c sh → grid_ok c cs.(bank_states_) → target_ok c cmd →
  holds_on (covers cmd) (can_step cmd) cs.(bank_states_) →
  let post (s' : Shared G * ChannelState) := (shared_ok c s'.1 ∧ same_but_banks cs s'.2) ∧
    upd c (covers cmd) (step_ok cmd) cs.(bank_states_) s'.2.(bank_states_) in
  (IsRankCMD cmd = true → returns (for_ (seqZ 0 c.(bankgroups)) (sh, cs) (λ s j,
     for_ (seqZ 0 c.(banks_per_group)) s (λ s k, update_bank B c cmd clk s (Rank cmd) j k))) post) ∧
  (IsRankCMD cmd = false → IsSbCMD cmd = true → returns (for_ (seqZ 0 c.(bankgroups)) (sh, cs) (λ s j,
     update_bank B c cmd clk s (Rank cmd) j (Bank cmd))) post) ∧
  (IsRankCMD cmd = false → IsSbCMD cmd = false →
     returns (update_bank B c cmd clk (sh, cs) (Rank cmd) (Bankgroup cmd) (Bank cmd)) post).
Proof.
  intros Hs Hg (Hr & Hk & Hgr) HP post.
  set (I := λ s' : Shared G * ChannelState, shared_ok c s'.1 ∧ same_but_banks cs s'.2).
  assert (I (sh, cs)) as HI by (split; [done|apply same_but_banks_refl]).
  assert (∀ r g k, in_grid c r g k → body_ok c (λ s, s.2.(bank_states_)) I (can_step cmd) (step_ok cmd)
    r g k (λ s, update_bank B c cmd clk s r g k)) as Hbody.
  { intros r g k Hin s [Hs1 Hs2] Hg' HP'. eapply returns_mono; [by apply update_bank_spec|].
    intros s' [[H1 H2] H3]. split; [|done]. split; [done|]. by eapply same_but_banks_trans. }
  assert (∀ S bs', (∀ r g k, S r g k = covers cmd r g k) → upd c S (step_ok cmd) cs.(bank_states_) bs' →
    upd c (covers cmd) (step_ok cmd) cs.(bank_states_) bs') as Hext.
  { intros S bs' HS Hu. eapply upd_ext; [|exact Hg|exact Hu]. auto. }
  assert (∀ S, (∀ r g k, S r g k = covers cmd r g k) → holds_on S (can_step cmd) cs.(bank_states_)) as HPS.
  { intros S HS r g k b E. apply HP. by rewrite <- HS. }
  split; [|split].
  - intros E.
    assert (∀ r g k, (r =? Rank cmd) && true && true = covers cmd r g k) as HS.
    { intros; unfold covers; rewrite E. lia. }
    eapply returns_mono; [apply (rank_loop c Hbg Hbpg (λ s, s.2.(bank_states_)) I (can_step cmd) (step_ok cmd)
      (Rank cmd) (λ _, false) (λ _, true)); try done; [by apply HPS|by auto]|].
    intros s' [HI' Hu]. split; [exact HI'|]. by eapply Hext; [|exact Hu].
  - intros E1 E2.
    assert (∀ r g k, (r =? Rank cmd) && (k =? Bank cmd) = covers cmd r g k) as HS.
    { intros; unfold covers; rewrite E1, E2. lia. }
    eapply returns_mono; [apply (bankset_loop c Hbg (λ s, s.2.(bank_states_)) I (can_step cmd) (step_ok cmd)
      (Rank cmd) (Bank cmd)); try done; [by apply HPS|by auto|by apply Hk]|].
    intros s' [HI' Hu]. split; [exact HI'|]. by eapply Hext; [|exact Hu].
  - intros E1 E2.
    assert (∀ r g k, only (Rank cmd) (Bankgroup cmd) (Bank cmd) r g k = covers cmd r g k) as HS.
    { intros; unfold covers, only; rewrite E1, E2. lia. }
    eapply returns_mono; [apply (Hbody (Rank cmd) (Bankgroup cmd) (Bank cmd)); try done|].
    + split; [done|]. split; [by apply Hgr|by apply Hk].
    + by apply HPS.
    + intros s' [HI' Hu]. split; [exact HI'|]. by eapply Hext; [|exact Hu].
Qed.

Lemma UpdateState_chan sh cs cmd clk :
  shared_ok c sh → grid_ok c cs.(bank_states_) → zlen cs.(rank_is_sref_) = c.(ranks) → target_ok c cmd →
  holds_on (covers cmd) (can_step cmd) cs.(bank_states_) →
  returns (UpdateState B c sh cs cmd clk) (λ s', shared_ok c s'.1 ∧ after_state cmd cs s'.2 ∧
    upd c (covers cmd) (step_ok cmd) cs.(bank_states_) s'.2.(bank_states_)).
Proof.
  intros Hs Hg Hz Ht HP. destruct (update_banks_spec sh cs cmd clk Hs Hg Ht HP) as (L1 & L2 & L3).
  assert (∀ (e : outcome (Shared G * ChannelState)) (k : Shared G * ChannelState → outcome (Shared G * ChannelState)),
    returns e (λ s', (shared_ok c s'.1 ∧ same_but_banks cs s'.2) ∧
      upd c (covers cmd) (step_ok cmd) cs.(bank_states_) s'.2.(bank_states_)) →
    (∀ sh' bs', shared_ok c sh' → returns (k (sh', cs <| bank_states_ := bs' |>))
       (λ s', shared_ok c s'.1 ∧ after_state cmd cs s'.2 ∧ s'.2.(bank_states_) = bs')) →
    returns (s ← e; k s) (λ s', shared_ok c s'.1 ∧ after_state cmd cs s'.2 ∧
      upd c (covers cmd) (step_ok cmd) cs.(bank_states_) s'.2.(bank_states_))) as Hbind.
  { intros e k He Hk. eapply returns_bind; [exact He|]. intros [sh' cs'] [[Hs' Hcs] Hu]. cbn [fst snd] in *.
    rewrite Hcs. eapply returns_mono; [by apply Hk|]. intros s' (H1 & H2 & ->). done. }
  destruct (aset_returns cs.(rank_is_sref_) (Rank cmd) true) as [l1 Hl1]; [rewrite Hz; apply Ht|].
  destruct (aset_returns cs.(rank_is_sref_) (Rank cmd) false) as [l2 Hl2]; [rewrite Hz; apply Ht|].
  pose proof Hl1 as [_ El1]%aset_Ret. pose proof Hl2 as [_ El2]%aset_Ret.
  unfold UpdateState. destruct (IsRankCMD cmd) eqn:E1; [|destruct (IsSbCMD cmd) eqn:E2];
    (apply Hbind; [by auto|]; intros sh' bs' Hs'; unfold after_state, served_by; rewrite E1, ?E2; clear HP L1 L2 L3 Hbind Ht;
     destruct cmd as [[] a h]; cbn in E1; try cbn in E2; try done; cbn; rsimp; rewrite ?Hl1, ?Hl2; cbn [mbind outcome_bind];
     apply returns_ret; cbn; split_and!; done || congruence).
Qed.

(** *** Alerts: only the alert fields and the statistics change *)
Definition same_but_alert cs cs' : Prop :=
  cs' = cs <| alert_n := cs'.(alert_n) |> <| last_alert_clk_ := cs'.(last_alert_clk_) |>.
Lemma same_but_alert_refl cs : same_but_alert cs cs.
Proof. by destruct cs. Qed.
Lemma same_but_alert_trans cs1 cs2 cs3 :
  same_but_alert cs1 cs2 → same_but_alert cs2 cs3 → same_but_alert cs1 cs3.
Proof. unfold same_but_alert. intros E1 E2. rewrite E2, E1. by rsimp. Qed.
Lemma CheckAlert_spec sh b : shared_ok c sh → bank_ok c b →
  returns (CheckAlert c sh b) (λ r, shared_ok c r.1).
Proof.
  intros Hs [Hi _]. unfold CheckAlert. destruct (0 <? _); [apply returns_ret; by apply shared_stat|].
  destruct (_ <=? zlen _); [apply returns_ret; by apply shared_stat|].
  destruct (moat_row_valid_ b) eqn:E; [|by apply returns_ret].
  destruct (aget_ok b.(prac_) b.(moat_row_)) as [v ->];
    [rewrite (bi_prac _ _ Hi); by apply (bi_moat _ _ Hi)|].
  by apply returns_ret.
Qed.
Lemma CheckAlert_mute sh b : c.(alert_mode) = 1 → mute B c b → CheckAlert c sh b = Ret (sh, false).
Proof.
  intros Ha Hm. destruct (Hm Ha) as [(_ & _ & Hz) (E1 & E2 & E3)]. unfold CheckAlert. rewrite E1, E2, E3.
  rewrite (proj2 (Z.leb_gt _ _)); [done|]. exact Hz.
Qed.
(** banks that raise no alert *)
Definition mute_banks (bs : Banks) : Prop := ∀ r g k b, bank_at bs r g k = Ret b → mute B c b.
Definition banks_ok (bs : Banks) : Prop :=
  grid_ok c bs ∧ ∀ r g k b, bank_at bs r g k = Ret b → bank_ok c b.
Definition alert_post cs (s' : Shared G * ChannelState) : Prop :=
  shared_ok c s'.1 ∧ same_but_alert cs s'.2 ∧ (mute_banks cs.(bank_states_) → s'.2.(alert_n) = cs.(alert_n)).
Lemma alert_post_refl sh cs : shared_ok c sh → alert_post cs (sh, cs).
Proof. intros Hs. split; [done|]. split; [apply same_but_alert_refl|done]. Qed.
Lemma alert_bank_spec clk sh cs r g k : shared_ok c sh → banks_ok cs.(bank_states_) → in_grid c r g k →
  returns (alert_bank c clk sh cs r g k) (alert_post cs).
Proof.
  intros Hs [Hg Hb] Hin. unfold alert_bank.
  destruct (Z.eqb_spec c.(alert_mode) 1) as [Ea|]; [|by apply returns_ret, alert_post_refl].
  destruct (bank_at_ok c _ r g k Hg Hin) as [b Eb]. rewrite Eb. cbn [mbind outcome_bind].
  destruct (CheckAlert_spec sh b Hs) as ([sh' al] & Ech & Hs'); [by eapply Hb|]. rewrite Ech. cbn [mbind outcome_bind fst snd] in *.
  destruct al; apply returns_ret; cbn [fst snd].
  - split; [by apply shared_stat|]. split; [unfold same_but_alert; by rsimp|]. intros Hm.
    rewrite (CheckAlert_mute sh b Ea (Hm _ _ _ _ Eb)) in Ech. congruence.
  - by apply alert_post_refl.
Qed.
Lemma TriggerSameBankAlert_spec clk sh cs cmd : shared_ok c sh → banks_ok cs.(bank_states_) →
  in_grid c (Rank cmd) (Bankgroup cmd) (Bank cmd) →
  returns (TriggerSameBankAlert c sh cs cmd clk) (alert_post cs).
Proof.
  intros Hs Hb Hin. unfold TriggerSameBankAlert. destruct (alert_blocked c cs); [|by apply alert_bank_spec].
  by apply returns_ret, alert_post_refl.
Qed.
Lemma TriggerSameRankAlert_spec clk sh cs cmd : shared_ok c sh → banks_ok cs.(bank_states_) →
  0 <= Rank cmd < c.(ranks) →
  returns (TriggerSameRankAlert c sh cs cmd clk) (alert_post cs).
Proof.
  intros Hs Hb Hr. unfold TriggerSameRankAlert.
  assert (alert_post cs (sh, cs)) as H0 by (by apply alert_post_refl).
  destruct (alert_blocked c cs); [by apply returns_ret|].
  assert (∀ (r : (Shared G * ChannelState) * option unit), (match r.2 with Some _ => alert_post cs r.1
    | None => alert_post cs r.1 end) → alert_post cs r.1) as Hm by (intros [? []]; done).
  eapply returns_bind; [apply (for_ret_inv (alert_post cs) (λ _, alert_post cs)); [done|]|].
  - intros s g Hgi Hs1. apply elem_of_seqZ in Hgi.
    apply (for_ret_inv (alert_post cs) (λ _, alert_post cs)); [done|].
    intros [sh1 cs1] k Hki (Hs2 & Hcs2 & Ha2). apply elem_of_seqZ in Hki. cbn [fst snd] in *.
    destruct (alert_n cs1) eqn:Ean; [apply returns_ret; cbn [fst snd]; unfold alert_post; cbn [fst snd]; by rewrite Ean|].
    eapply returns_bind; [apply (alert_bank_spec clk sh1 cs1 (Rank cmd) g k); [done|rewrite Hcs2; by rsimp|]|].
    + unfold in_grid. lia.
    + intros s' (Hs3 & Hcs3 & Ha3). apply returns_ret. cbn [fst snd]. split; [done|].
      split; [by eapply same_but_alert_trans|]. intros Hm'. rewrite Ha3, <- Ha2, Ean; [done..|].
      rewrite Hcs2. by rsimp.
  - intros r Hr'. apply returns_ret. by apply Hm.
Qed.

(** *** Timing *)
Context (T : Timing) (HT : tables_ok T) (Hranks : 0 <= c.(ranks)).

Definition applied cmd clk (bs bs' : Banks) : Prop := delayed c (scope_delays T cmd) clk bs bs'.

Lemma bank_scopes_spec cmd clk bs : timings_ok c bs → target_ok c cmd → cmd.(cmd_type) ≠ SIZE →
  IsRankCMD cmd = false → IsSbCMD cmd = false → returns (bank_scopes c T cmd clk bs) (applied cmd clk bs).
Proof.
  intros Hok (Hr & Hk & Hg) Ht E1 E2. specialize (Hk E1). specialize (Hg E1 E2). unfold bank_scopes.
  assert (in_grid c cmd.(addr).(rank) cmd.(addr).(bankgroup) cmd.(addr).(bank)) as Hin by done.
  destruct (HT SameBank _ Ht) as [R1 D1]. destruct (HT OtherBanksSameBankgroup _ Ht) as [R2 D2].
  destruct (HT OtherBankgroupsSameRank _ Ht) as [R3 D3]. destruct (HT OtherRanks _ Ht) as [R4 D4].
  cbn [table] in *. rewrite R1. cbn [mbind outcome_bind].
  eapply returns_bind; [by apply UpdateSameBankTiming_spec|]. intros bs1 H1.
  pose proof (delayed_ok _ _ _ _ _ Hok H1) as Hok1. rewrite R2. cbn [mbind outcome_bind].
  eapply returns_bind; [by apply UpdateOtherBanksSameBankgroupTiming_spec|]. intros bs2 H2.
  pose proof (delayed_ok _ _ _ _ _ Hok1 H2) as Hok2. rewrite R3. cbn [mbind outcome_bind].
  eapply returns_bind; [by apply UpdateOtherBankgroupsSameRankTiming_spec|]. intros bs3 H3.
  pose proof (delayed_ok _ _ _ _ _ Hok2 H3) as Hok3. rewrite R4. cbn [mbind outcome_bind].
  eapply returns_mono; [by apply UpdateOtherRanksTiming_spec|]. intros bs4 H4.
  pose proof (delayed_seq _ _ _ _ _ _ _ (delayed_seq _ _ _ _ _ _ _ (delayed_seq _ _ _ _ _ _ _ H1 H2) H3) H4) as Hall.
  eapply delayed_ext; [apply Hok| |exact Hall]. intros r g k _. unfold scope_delays, scope_of, only.
  rewrite E1, E2. unfold Rank, Bankgroup, Bank.
  destruct (r =? _), (g =? _), (k =? _); cbn [andb negb]; rewrite ?app_nil_r; done.
Qed.
Lemma rank_scope_spec cmd clk bs : timings_ok c bs → target_ok c cmd → cmd.(cmd_type) ≠ SIZE →
  IsRankCMD cmd = true → returns (rank_scope c T cmd clk bs) (applied cmd clk bs).
Proof.
  intros Hok (Hr & _) Ht E. unfold rank_scope. destruct (HT SameRank _ Ht) as [R1 D1].
  cbn [table] in *. rewrite R1. cbn [mbind outcome_bind].
  eapply returns_mono; [by apply UpdateSameRankTiming_spec|]. intros bs1 H1.
  eapply delayed_ext; [apply Hok| |exact H1]. intros r g k _. unfold scope_delays, scope_of.
  rewrite E. unfold Rank. by destruct (r =? _).
Qed.
Lemma bankset_scopes_spec cmd clk bs : timings_ok c bs → target_ok c cmd → cmd.(cmd_type) ≠ SIZE →
  IsRankCMD cmd = false → IsSbCMD cmd = true → returns (bankset_scopes c T cmd clk bs) (applied cmd clk bs).
Proof.
  intros Hok (Hr & Hk & _) Ht E1 E2. specialize (Hk E1). unfold bankset_scopes.
  destruct (HT SameBankset _ Ht) as [R1 D1]. destruct (HT OtherBanksets _ Ht) as [R2 D2].
  cbn [table] in *. rewrite R1. cbn [mbind outcome_bind].
  eapply returns_bind; [by apply UpdateSameBankset_spec|]. intros bs1 H1.
  pose proof (delayed_ok _ _ _ _ _ Hok H1) as Hok1. rewrite R2. cbn [mbind outcome_bind].
  eapply returns_mono; [by apply UpdateOtherBanksets_spec|]. intros bs2 H2.
  pose proof (delayed_seq _ _ _ _ _ _ _ H1 H2) as Hall.
  eapply delayed_ext; [apply Hok| |exact Hall]. intros r g k _. unfold scope_delays, scope_of.
  rewrite E1, E2. unfold Rank, Bank. destruct (r =? _), (k =? _); cbn [andb negb]; rewrite ?app_nil_r; done.
Qed.

(** *** The whole effect *)
Record chan_ok cs : Prop := {
  ck_banks : banks_ok cs.(bank_states_);
  ck_sref : zlen cs.(rank_is_sref_) = c.(ranks);
  ck_idle : zlen cs.(rank_idle_cycles) = c.(ranks);
  ck_faw : zlen cs.(four_aw_) = c.(ranks);
  ck_32 : zlen cs.(thirty_two_aw_) = c.(ranks)
}.
Lemma banks_timings bs : banks_ok bs → timings_ok c bs.
Proof. intros [Hg Hb]. split; [done|]. intros r g k b E. apply (bi_timing c b). by eapply Hb. Qed.
Lemma banks_ok_delayed f clk bs bs' : banks_ok bs → delayed c f clk bs bs' → banks_ok bs'.
Proof.
  intros [Hg Hb] [Hg' Hd]. split; [done|]. intros r g k b E.
  destruct (bank_at_ok c _ r g k Hg (bank_at_in c _ _ _ _ _ Hg' E)) as [b0 E0].
  rewrite (Hd _ _ _ _ E0) in E. injection E as <-. destruct (Hb _ _ _ _ E0) as [[] ?]. split; [|done].
  split; try done. rsimp. by rewrite raise_length.
Qed.

Definition windows (w : Z) cmd clk (l : list (list Z)) : list (list Z) :=
  if ct_eqb cmd.(cmd_type) ACTIVATE then alter (push_window clk w) (Z.to_nat (Rank cmd)) l else l.
Definition after_timing cmd clk cs cs' : Prop :=
  cs'.(refresh_q_) = cs.(refresh_q_) ∧ cs'.(rfm_q_) = cs.(rfm_q_) ∧
  cs'.(rank_is_sref_) = cs.(rank_is_sref_) ∧ cs'.(rank_idle_cycles) = cs.(rank_idle_cycles) ∧
  cs'.(four_aw_) = windows c.(tFAW) cmd clk cs.(four_aw_) ∧
  cs'.(thirty_two_aw_) =
    (if IsGDDR c then windows c.(t32AW) cmd clk cs.(thirty_two_aw_) else cs.(thirty_two_aw_)) ∧
  (mute_banks cs.(bank_states_) → cs'.(alert_n) = cs.(alert_n)).

Lemma aset_alter {A} (l : list A) i x f : aget l i = Ret x →
  aset l i (f x) = Ret (alter f (Z.to_nat i) l).
Proof.
  intros Hx. rewrite aset_ok by (by eapply aget_bound). f_equal. apply aget_Ret in Hx as [_ Hx].
  apply list_eq. intros j. destruct (decide (Z.to_nat i = j)) as [<-|Hne].
  - rewrite list_lookup_insert_eq by (by eapply lookup_lt_Some). by rewrite list_lookup_alter_eq, Hx.
  - by rewrite list_lookup_insert_ne, list_lookup_alter_ne.
Qed.
Lemma UpdateActivationTimes_spec cs cmd clk : cmd.(cmd_type) = ACTIVATE → chan_ok cs →
  0 <= Rank cmd < c.(ranks) →
  returns (UpdateActivationTimes c cs (Rank cmd) clk) (λ cs', after_timing cmd clk cs cs' ∧
    cs'.(bank_states_) = cs.(bank_states_) ∧ chan_ok cs').
Proof.
  intros Ht [H1 H2 H3 H4 H5] Hr. unfold UpdateActivationTimes, after_timing, windows. rewrite Ht.
  destruct (aget_ok cs.(four_aw_) (Rank cmd)) as [l Hl]; [by rewrite H4|]. rewrite Hl. cbn [mbind outcome_bind].
  rewrite (aset_alter _ _ _ _ Hl). cbn [mbind outcome_bind]. rsimp.
  destruct (aget_ok cs.(thirty_two_aw_) (Rank cmd)) as [l2 Hl2]; [by rewrite H5|].
  destruct (IsGDDR c); [rewrite Hl2; cbn [mbind outcome_bind]; rewrite (aset_alter _ _ _ _ Hl2)|];
    cbn [mbind outcome_bind]; apply returns_ret; rsimp; (split; [done|]; split; [done|]);
    split; rsimp; try done; unfold zlen; by rewrite length_alter.
Qed.

Lemma chan_ok_banks cs bs : chan_ok cs → banks_ok bs → chan_ok (cs <| bank_states_ := bs |>).
Proof. by intros [] ?; split. Qed.
Definition timing_post cmd clk cs (s' : Shared G * ChannelState) : Prop :=
  shared_ok c s'.1 ∧ chan_ok s'.2 ∧ after_timing cmd clk cs s'.2 ∧
  applied cmd clk cs.(bank_states_) s'.2.(bank_states_).
(** an alert check, then the timing updates *)
Lemma alert_then_timing cmd clk cs cs1 (e : outcome (Shared G * ChannelState)) (f : Banks → outcome Banks) :
  chan_ok cs1 → after_timing cmd clk cs cs1 → cs1.(bank_states_) = cs.(bank_states_) →
  returns e (alert_post cs1) →
  (∀ bs, timings_ok c bs → returns (f bs) (applied cmd clk bs)) →
  returns (s ← e; bs ← f s.2.(bank_states_); Ret (s.1, s.2 <| bank_states_ := bs |>)) (timing_post cmd clk cs).
Proof.
  intros Hok Haft Hbs He Hf. eapply returns_bind; [exact He|]. intros [sh' cs'] (Hs' & Hcs' & Ha'). cbn [fst snd] in *.
  assert (cs'.(bank_states_) = cs.(bank_states_)) as E by (rewrite Hcs'; by rsimp).
  rewrite E. pose proof (ck_banks _ Hok) as Hbok. rewrite Hbs in Hbok.
  eapply returns_bind; [apply Hf; by apply banks_timings|]. intros bs Happ. apply returns_ret.
  unfold timing_post. cbn [fst snd]. rsimp. split; [done|]. split; [|split; [|done]].
  - apply chan_ok_banks; [|by eapply banks_ok_delayed]. rewrite Hcs'. destruct Hok. by split.
  - unfold after_timing in *. rsimp. destruct Haft as (A1 & A2 & A3 & A4 & A5 & A6 & A7).
    split_and!; try (rewrite Hcs'; by rsimp). intros Hm. rewrite (A7 Hm) in Ha'. apply Ha'. by rewrite Hbs.
Qed.
Lemma after_timing_refl cmd clk cs : ct_eqb cmd.(cmd_type) ACTIVATE = false → after_timing cmd clk cs cs.
Proof. intros E. unfold after_timing, windows. rewrite E. by case_match. Qed.

Lemma UpdateTiming_chan sh cs cmd clk : shared_ok c sh → chan_ok cs → target_ok c cmd →
  cmd.(cmd_type) ≠ SIZE →
  returns (UpdateTiming c T sh cs cmd clk) (timing_post cmd clk cs).
Proof.
  intros Hs Hok Ht Hsz. pose proof (ck_banks _ Hok) as Hb. pose proof Ht as (Hr & Hk & Hg).
  assert (∀ cs1, chan_ok cs1 → IsRankCMD cmd = false → IsSbCMD cmd = false →
    returns (TriggerSameBankAlert c sh cs1 cmd clk) (alert_post cs1)) as HA.
  { intros cs1 Hok1 E1 E2. apply TriggerSameBankAlert_spec; [done|apply Hok1|]. unfold in_grid. auto. }
  assert (∀ cs1, chan_ok cs1 → returns (TriggerSameRankAlert c sh cs1 cmd clk) (alert_post cs1)) as HR.
  { intros cs1 Hok1. by apply TriggerSameRankAlert_spec; [|apply Hok1|]. }
  assert (∀ cs1, alert_post cs1 (sh, cs1)) as H0 by (intros; by apply alert_post_refl).
  assert (∀ f, chan_ok (cs <| num_acts_abo_ ::= f |>)) as Hn by (intros f; destruct Hok; by split).
  pose proof (λ bs Hbs, bank_scopes_spec cmd clk bs Hbs Ht Hsz) as S1.
  pose proof (λ bs Hbs, rank_scope_spec cmd clk bs Hbs Ht Hsz) as S2.
  pose proof (λ bs Hbs, bankset_scopes_spec cmd clk bs Hbs Ht Hsz) as S3.
  pose proof (after_timing_refl cmd clk cs) as Hrefl.
  assert (∀ (f : Banks → outcome Banks), (∀ bs, timings_ok c bs → returns (f bs) (applied cmd clk bs)) →
    ct_eqb cmd.(cmd_type) ACTIVATE = false →
    returns (bs ← f cs.(bank_states_); Ret (sh, cs <| bank_states_ := bs |>)) (timing_post cmd clk cs)) as Hplain.
  { intros f Hf E. apply (alert_then_timing cmd clk cs cs (Ret (sh, cs)) f); auto. by apply returns_ret. }
  unfold UpdateTiming. destruct cmd as [t a h]. destruct t; cbn [cmd_type] in *; cbv zeta;
    try (by apply (alert_then_timing _ clk cs cs _ (bank_scopes c T _ clk)); auto);
    try (by apply (Hplain (bank_scopes c T _ clk)); auto);
    try (by apply (alert_then_timing _ clk cs cs _ (rank_scope c T _ clk)); auto);
    try (by apply (Hplain (rank_scope c T _ clk)); auto);
    try (by apply (alert_then_timing _ clk cs cs _ (bankset_scopes c T _ clk)); auto); try done.
  - eapply returns_bind; [apply (UpdateActivationTimes_spec _ (mkCommand ACTIVATE a h)); auto|].
    intros cs1 (Haft & Hbs & Hok1).
    apply (alert_then_timing _ clk cs cs1 _ (bank_scopes c T _ clk)); auto.
  - by apply (alert_then_timing _ clk cs (cs <| num_acts_abo_ := 0 |>) _ (rank_scope c T _ clk)); auto.
Qed.

(** the channel after a command *)
Record chan_step cmd clk cs cs' : Prop := {
  ch_ok : chan_ok cs';
  ch_bank : ∀ r g k b, bank_at cs.(bank_states_) r g k = Ret b →
    ∃ b1, (if covers cmd r g k then step_ok cmd b b1 else b1 = b) ∧
      bank_at cs'.(bank_states_) r g k =
        Ret (b1 <| cmd_timing_ := raise (scope_delays T cmd r g k) clk b.(cmd_timing_) |>);
  ch_sref : cs'.(rank_is_sref_) =
    (if ct_eqb cmd.(cmd_type) SREF_ENTER then <[Z.to_nat (Rank cmd) := true]> cs.(rank_is_sref_)
     else if ct_eqb cmd.(cmd_type) SREF_EXIT then <[Z.to_nat (Rank cmd) := false]> cs.(rank_is_sref_)
     else cs.(rank_is_sref_));
  ch_ref : cs'.(refresh_q_) =
    (if IsRefresh cmd then erase_first (served_by cmd) cs.(refresh_q_) else cs.(refresh_q_));
  ch_rfm : cs'.(rfm_q_) = (if IsRFM cmd then erase_first (served_by cmd) cs.(rfm_q_) else cs.(rfm_q_));
  ch_faw : cs'.(four_aw_) = windows c.(tFAW) cmd clk cs.(four_aw_);
  ch_32 : IsGDDR c = true → cs'.(thirty_two_aw_) = windows c.(t32AW) cmd clk cs.(thirty_two_aw_);
  ch_idle : cs'.(rank_idle_cycles) = cs.(rank_idle_cycles);
  ch_mute : mute_banks cs.(bank_states_) → mute_banks cs'.(bank_states_);
  ch_alert : mute_banks cs.(bank_states_) → cs.(alert_n) = false → cs'.(alert_n) = false
}.

Lemma banks_ok_upd cmd bs bs' : banks_ok bs → upd c (covers cmd) (step_ok cmd) bs bs' → banks_ok bs'.
Proof.
  intros [Hg Hb] [Hg' Hu]. split; [done|]. intros r g k b E.
  destruct (bank_at_ok c _ r g k Hg (bank_at_in c _ _ _ _ _ Hg' E)) as [b0 E0].
  destruct (Hu _ _ _ _ E0) as (b1 & E1 & Hd). assert (b = b1) as -> by congruence.
  case_match; [destruct Hd as (s & _ & Hstep); apply Hstep|subst; by eapply Hb].
Qed.

Lemma mute_upd cmd bs bs' : grid_ok c bs → upd c (covers cmd) (step_ok cmd) bs bs' → mute_banks bs → mute_banks bs'.
Proof.
  intros Hg [Hg' Hu] Hm r g k b E. destruct (bank_at_ok c _ r g k Hg (bank_at_in c _ _ _ _ _ Hg' E)) as [b0 E0].
  destruct (Hu _ _ _ _ E0) as (b1 & E1 & Hd). assert (b = b1) as -> by congruence. specialize (Hm _ _ _ _ E0).
  case_match; [|by subst]. destruct Hd as (s & _ & Hstep). by apply (bs_mute _ _ _ _ _ _ Hstep).
Qed.
Lemma mute_delayed f clk bs bs' : grid_ok c bs → delayed c f clk bs bs' → mute_banks bs → mute_banks bs'.
Proof.
  intros Hg [Hg' Hd] Hm r g k b E. destruct (bank_at_ok c _ r g k Hg (bank_at_in c _ _ _ _ _ Hg' E)) as [b0 E0].
  rewrite (Hd _ _ _ _ E0) in E. injection E as <-. exact (Hm _ _ _ _ E0).
Qed.
Lemma command_chan sh cs cmd clk : shared_ok c sh → chan_ok cs → target_ok c cmd →
  cmd.(cmd_type) ≠ SIZE → holds_on (covers cmd) (can_step cmd) cs.(bank_states_) →
  returns (UpdateTimingAndStates B c T sh cs cmd clk) (λ r, shared_ok c r.1 ∧ chan_step cmd clk cs r.2).
Proof.
  intros Hs Hok Ht Hsz HP. unfold UpdateTimingAndStates. pose proof Hok as [Hb Hsr Hi Hf H32].
  eapply returns_bind; [apply UpdateState_chan; try done; apply Hb|].
  intros [sh1 cs1] (Hs1 & (A1 & A2 & A3 & A4 & A5 & A6 & A7 & A8 & A9) & Hu). cbn [fst snd] in *.
  assert (chan_ok cs1) as Hok1.
  { split; [by eapply banks_ok_upd|rewrite A7|by rewrite A3|by rewrite A1|by rewrite A2].
    repeat case_match; unfold zlen; rewrite ?length_insert; done. }
  eapply returns_mono; [by apply UpdateTiming_chan|].
  intros [sh2 cs2] (Hs2 & Hok2 & (T1 & T2 & T3 & T4 & T5 & T6 & T7) & Happ). cbn [fst snd] in *.
  split; [done|]. split; try done; try congruence.
  - intros r g k b Eb. destruct Hu as [_ Hu]. destruct (Hu _ _ _ _ Eb) as (b1 & Eb1 & Hd).
    exists b1. split; [done|]. destruct Happ as [_ Happ]. rewrite (Happ _ _ _ _ Eb1).
    assert (b1.(cmd_timing_) = b.(cmd_timing_)) as ->; [|done].
    case_match; [destruct Hd as (s & _ & Hstep); apply Hstep|by subst].
  - intros E. rewrite E in T6. congruence.
  - intros Hm. apply (mute_delayed _ _ _ _ (proj1 (ck_banks _ Hok1)) Happ).
    by apply (mute_upd cmd cs.(bank_states_)); [apply Hb|..].
  - intros Hm Ha. rewrite T7, A6; [by destruct (IsRankCMD cmd && _)|].
    by apply (mute_upd cmd cs.(bank_states_)); [apply Hb|..].
Qed.
End ChannelLemmas.
