(* ===== verification/ChannelRun.v ===== *)
(** * Runs of a channel

    What [GetReadyCommand] of a channel answers, and what follows for the commands a channel
    is given over time: the delays of the timing tables are respected between any two
    commands, and at most four activations fall in a window. *)
From S2P Require Import Prelude Common Config Timing Stats BankState BankSpec ChannelState ChannelSpec.
Open Scope Z_scope.

(** the fields of the configuration that give the shape of a channel *)
Record shape_ok (c : Config) : Prop := {
  so_ranks : 0 < c.(ranks) < 2147483648;
  so_bg : 0 < c.(bankgroups) < 2147483648;
  so_bpg : 0 < c.(banks_per_group) < 2147483648;
  so_banks : c.(banks) = c.(bankgroups) * c.(banks_per_group);
  so_max : c.(banks) < 2147483648
}.

Section Ready.
Context {G : Type} `{Rng64 G} (B : Build) (c : Config) (Hc : bank_config_ok c) (Hshape : shape_ok c).
Implicit Types (sh : Shared G) (cs : ChannelState) (cmd : Command).

(** what must hold of a bank for [cmd] to be issued to it at time [clk] *)
Definition bank_ready (b : BankState) (t : CommandType) (clk : Z) : Prop :=
  is_Some (next_state b.(state_) t) ∧ returns (aget b.(cmd_timing_) (ct_int t)) (λ x, x <= clk).
Definition all_ready cs cmd clk : Prop :=
  holds_on (covers cmd) (λ b, bank_ready b cmd.(cmd_type) clk) cs.(bank_states_).
Definition is_pre (t : CommandType) : Prop := t = PRECHARGE ∨ t = PRECHARGE2.

(** [y] is a command the channel can carry out now for the request [cmd] *)
Record chan_ready cs cmd clk y : Prop := {
  cr_target : target_ok c y;
  cr_type : y.(cmd_type) ≠ SIZE;
  cr_ready : all_ready cs y clk;
  cr_act : y.(cmd_type) = ACTIVATE → y.(addr) = cmd.(addr) ∧ is_access cmd.(cmd_type) = true ∧
    ActivationWindowOk c cs (Rank y) clk = Ret true ∧
    (rfm_on c → holds_on (covers y) (λ b, b.(raa_ctr_) < c.(raammt)) cs.(bank_states_));
  cr_rw : IsReadWrite y = true → y.(addr) = cmd.(addr) ∧ y.(hex_addr) = cmd.(hex_addr) ∧
    is_access cmd.(cmd_type) = true ∧ (keeps_kind B cmd.(cmd_type) → IsRead y = IsRead cmd);
  cr_enter : y.(cmd_type) = SREF_ENTER → cmd.(cmd_type) = SREF_ENTER
}.

(** one bank of a scan for [cmd], a refresh, an RFM or a self-refresh entry *)
Lemma scan_bank_spec sh cs cmd clk n y0 j k b :
  is_maintenance cmd.(cmd_type) = true → shared_ok c sh → bank_ok c b → b.(state_) ≠ SREF →
  bank_at cs.(bank_states_) (Rank cmd) j k = Ret b →
  returns (scan_bank B c cs cmd clk (sh, n, y0) j k) (λ r, shared_ok c r.1.1.1 ∧
    match r.2 with
    | Some y => y.(addr) = mkAddress (-1) (Rank cmd) j k (-1) (-1) ∧ is_pre y.(cmd_type) ∧
                bank_ready b y.(cmd_type) clk
    | None => (r.1.1.2 = n ∧ r.1.2 = Command0) ∨
              (r.1.1.2 = i32 (n + 1) ∧ r.1.2 = cmd ∧ bank_ready b cmd.(cmd_type) clk)
    end).
Proof.
  intros Hm Hs Hb Hst Eb. unfold scan_bank. rewrite Eb. cbn [mbind outcome_bind].
  eapply returns_bind; [apply (GetReadyCommand_spec B c Hc sh b cmd clk Hb Hs); by right|].
  intros [sh' y] [Hs' Hy]. cbn [fst snd] in *. destruct Hy as [->|[[Hn [Ha1 Ha2] Ht _] Hnt]].
  { apply returns_ret. cbn [fst snd]. auto. }
  assert (bank_ready b y.(cmd_type) clk) as Hr by (by split).
  assert (IsValid y = true) as ->.
  { unfold IsValid. destruct Hn as [s Hn]. destruct (cmd_type y); try done. by destruct (state_ b). }
  cbn [negb]. unfold next_type in Hnt.
  assert (is_access (cmd_type cmd) = false) as Ena by (by destruct (cmd_type cmd)). rewrite Ena in Hnt.
  destruct (ct_eqb y.(cmd_type) cmd.(cmd_type)) eqn:Et; cbn [negb]; apply returns_ret; cbn [fst snd].
  - apply ct_eqb_eq in Et. split; [done|]. right. rewrite <- Et. split; [done|]. split; [|done].
    destruct y, cmd; cbn in *. congruence.
  - split; [done|]. cbn [addr cmd_type]. split; [done|]. split; [|done].
    destruct (BankState.IsRowOpen b); [done|]. by rewrite Hnt, ct_eqb_refl in Et.
Qed.

(** the state of a scan after [m] banks: at most [m] are ready, and if all are, each one is *)
Definition scan_inv (S : Z → Z → Prop) cs cmd clk (m : Z) (s : Shared G * Z * Command) : Prop :=
  shared_ok c s.1.1 ∧ 0 <= s.1.2 <= m ∧
  (s.1.2 = m → (0 < m → s.2 = cmd) ∧ ∀ g k b, S g k → bank_at cs.(bank_states_) (Rank cmd) g k = Ret b →
     bank_ready b cmd.(cmd_type) clk).
(** an early answer: a precharge of one bank *)
Definition early_ok cs cmd clk (y : Command) (s : Shared G * Z * Command) : Prop :=
  shared_ok c s.1.1 ∧ ∃ j k b, in_grid c (Rank cmd) j k ∧ bank_at cs.(bank_states_) (Rank cmd) j k = Ret b ∧
    y.(addr) = mkAddress (-1) (Rank cmd) j k (-1) (-1) ∧ is_pre y.(cmd_type) ∧ bank_ready b y.(cmd_type) clk.

Lemma scan_inv_ext (S S' : Z → Z → Prop) cs cmd clk m m' s : m = m' → (∀ g k, S' g k → S g k) →
  scan_inv S cs cmd clk m s → scan_inv S' cs cmd clk m' s.
Proof.
  intros <- HS (H1 & H2 & H3). split; [done|]. split; [done|]. intros E.
  destruct (H3 E) as [H4 H5]. split; [done|]. intros g k b Hgk. by apply H5, HS.
Qed.

Lemma scan_step (S : Z → Z → Prop) cs cmd clk m s j k : is_maintenance cmd.(cmd_type) = true →
  chan_ok c cs → holds_on (covers cmd) (λ b, b.(state_) ≠ SREF) cs.(bank_states_) →
  in_grid c (Rank cmd) j k → covers cmd (Rank cmd) j k = true → m + 1 < 2147483648 →
  scan_inv S cs cmd clk m s →
  returns (scan_bank B c cs cmd clk s j k) (λ r, match r.2 with
    | Some y => early_ok cs cmd clk y r.1
    | None => scan_inv (λ g' k', S g' k' ∨ (g' = j ∧ k' = k)) cs cmd clk (m + 1) r.1
    end).
Proof.
  intros Hm Hok HP Hin Hcov Hmax (Hs & Hn & Hall). destruct s as [[sh n] y0]. cbn [fst snd] in *.
  destruct (ck_banks _ _ Hok) as [Hg Hb].
  destruct (bank_at_ok c _ _ _ _ Hg Hin) as [b Eb].
  eapply returns_mono; [apply (scan_bank_spec sh cs cmd clk n y0 j k b Hm Hs); [by eapply Hb|by eapply HP|done]|].
  intros [[[sh' n'] y] [e|]]; cbn [fst snd].
  - intros (Hs' & Ha & Hpre & Hr). split; [done|]. by exists j, k, b.
  - intros (Hs' & [[-> ->]|(-> & -> & Hr)]); (split; [done|]); cbn [fst snd].
    + split; [lia|]. lia.
    + rewrite i32_id by (unfold is_i32; lia). split; [lia|]. intros E. split; [done|].
      intros g' k' b' [HS|[-> ->]] Eb'; [|congruence]. destruct (Hall ltac:(lia)) as [_ Ha]. by apply (Ha g' k').
Qed.

(** the scan of a rank or a bank set ends with the command, a precharge or nothing *)
Lemma scan_end (S : Z → Z → Prop) cs cmd clk total (r : Shared G * Z * Command * option Command) :
  chan_ok c cs → target_ok c cmd → is_maintenance cmd.(cmd_type) = true → 0 < total →
  (∀ g k, in_grid c (Rank cmd) g k → covers cmd (Rank cmd) g k = true → S g k) →
  (∀ r' g k, covers cmd r' g k = true → r' = Rank cmd) →
  match r.2 with Some y => early_ok cs cmd clk y r.1 | None => scan_inv S cs cmd clk total r.1 end →
  shared_ok c (scan_result total r).1 ∧
  ((scan_result total r).2 = Command0 ∨ chan_ready cs cmd clk (scan_result total r).2).
Proof.
  intros Hok Ht Hm Htot HS Hcov Hr. destruct r as [[[sh n] y] [e|]]; cbn [fst snd scan_result] in *.
  - destruct Hr as (Hs & j & k & b & Hin & Eb & Ha & Hp & Hrdy). split; [done|]. right.
    assert (IsRankCMD e = false ∧ IsSbCMD e = false ∧ e.(cmd_type) ≠ SIZE ∧ e.(cmd_type) ≠ ACTIVATE ∧
      IsReadWrite e = false ∧ e.(cmd_type) ≠ SREF_ENTER) as (E1 & E2 & E3 & E4 & E5 & E6).
    { unfold IsRankCMD, IsSbCMD, IsReadWrite, IsRead, IsWrite. by destruct Hp as [-> | ->]. }
    destruct Hin as (H1 & H2 & H3). split; try done; try congruence.
    + unfold target_ok, Rank, Bank, Bankgroup. rewrite Ha. cbn. done.
    + intros r' g' k' b' Hc' Eb'. unfold covers in Hc'. rewrite E1, E2 in Hc'.
      unfold Rank, Bank, Bankgroup in Hc'. rewrite Ha in Hc'. cbn in Hc'.
      assert (r' = Rank cmd ∧ g' = j ∧ k' = k) as (-> & -> & ->) by lia. congruence.
  - destruct Hr as (Hs & Hn & Hall). split; [done|]. destruct (Z.eqb_spec n total) as [->|]; [right|by left].
    destruct (Hall eq_refl) as [Hy Hrdy]. cbn [fst snd] in Hy. rewrite (Hy Htot). split; [done| | | | |done].
    + intros E. by rewrite E in Hm.
    + intros r' g' k' b' Hc' Eb'. pose proof (Hcov _ _ _ Hc') as ->.
      apply (Hrdy g' k'); [|done]. apply HS; [|done].
      by eapply bank_at_in; [apply (ck_banks _ _ Hok)|].
    + intros E. by rewrite E in Hm.
    + unfold IsReadWrite, IsRead, IsWrite. intros E. by destruct (cmd_type cmd).
Qed.

(** the banks of a rank enter and leave self-refresh together *)
Record chan_sync cs : Prop := {
  sy_state : ∀ r g k b, bank_at cs.(bank_states_) r g k = Ret b →
    (b.(state_) = SREF ↔ aget cs.(rank_is_sref_) r = Ret true);
  sy_time : ∀ r g k g' k' b b', bank_at cs.(bank_states_) r g k = Ret b →
    bank_at cs.(bank_states_) r g' k' = Ret b' →
    aget b.(cmd_timing_) (ct_int SREF_EXIT) = aget b'.(cmd_timing_) (ct_int SREF_EXIT)
}.
(** requests the channel is given: an access, or maintenance of a rank that is awake *)
Definition request_ok cs cmd : Prop :=
  target_ok c cmd ∧ holds_on (covers cmd) (λ b, accepts b cmd.(cmd_type)) cs.(bank_states_) ∧
  (is_access cmd.(cmd_type) = true → 0 <= Row cmd < c.(rows)).

(** [GetReadyCommand] may only add an RFM to the waiting ones *)
Definition rfm_added cs cs' : Prop :=
  cs' = cs ∨ (rfm_on c ∨ cs.(alert_n) = true) ∧ ∃ x, cs' = cs <| rfm_q_ := cs.(rfm_q_) ++ [x] |> ∧
    target_ok c x ∧ (x.(cmd_type) = RFMab ∨ x.(cmd_type) = RFMsb).
Lemma RankNeedRFM_added cs r : rfm_on c ∨ cs.(alert_n) = true → 0 <= r < c.(ranks) → rfm_added cs (RankNeedRFM cs r true).
Proof.
  intros Hw Hr. unfold RankNeedRFM, rfm_added. destruct (existsb _ _); cbn [negb andb]; [by left|]. right. split; [done|].
  eexists. split; [done|]. split; [|by left]. split; [done|]. done.
Qed.
Lemma BanksetNeedRFM_added cs r k : rfm_on c ∨ cs.(alert_n) = true → 0 <= r < c.(ranks) → 0 <= k < c.(banks_per_group) →
  rfm_added cs (BanksetNeedRFM cs r k true).
Proof.
  intros Hw Hr Hk. unfold BanksetNeedRFM, rfm_added. destruct (existsb _ _); cbn [negb andb]; [by left|]. right. split; [done|].
  eexists. split; [done|]. split; [|by right]. split; [done|]. split; [done|]. done.
Qed.

Definition ready_post cs cmd clk (r : Shared G * ChannelState * Command) : Prop :=
  shared_ok c r.1.1 ∧ rfm_added cs r.1.2 ∧ (r.2 = Command0 ∨ chan_ready r.1.2 cmd clk r.2).

Lemma rank_scan_spec sh cs cmd clk : IsRankCMD cmd = true → is_maintenance cmd.(cmd_type) = true →
  shared_ok c sh → chan_ok c cs → target_ok c cmd →
  holds_on (covers cmd) (λ b, b.(state_) ≠ SREF) cs.(bank_states_) →
  returns (GetReadyCommand B c sh cs cmd clk) (ready_post cs cmd clk).
Proof.
  intros E Hm Hs Hok Ht HP. unfold GetReadyCommand. rewrite E. destruct Hshape as [Hr Hbg Hbpg Hbk Hmax].
  set (done j g k := in_grid c (Rank cmd) g k ∧ g < j).
  assert (∀ g k, in_grid c (Rank cmd) g k → covers cmd (Rank cmd) g k = true) as Hcov.
  { intros g k _. unfold covers. by rewrite E, Z.eqb_refl. }
  eapply returns_bind.
  { apply (for_ret_seq (λ j, scan_inv (done j) cs cmd clk (j * c.(banks_per_group))) (early_ok cs cmd clk) 0);
      [lia|split; [done|]; cbn [fst snd]; split; [lia|]; intros _; split; [lia|]; intros g k b [Hin Hlt];
       unfold in_grid in Hin; lia|].
    intros s j Hj Hinv. assert (j * banks_per_group c <= c.(banks) - c.(banks_per_group)) as Hle by nia.
    eapply returns_mono; [apply (for_ret_seq (λ k, scan_inv (λ g k', done j g k' ∨
      (in_grid c (Rank cmd) g k' ∧ g = j ∧ k' < k)) cs cmd clk (j * c.(banks_per_group) + k))
      (early_ok cs cmd clk) 0); [lia| |]|].
    - eapply scan_inv_ext; [| |exact Hinv]; [lia|]. intros g k' [?|(Hg & -> & ?)]; [done|].
      unfold in_grid in Hg. lia.
    - intros s' k Hk Hinv'. assert (in_grid c (Rank cmd) j k) as Hin
        by (split; [apply Ht|unfold in_grid; lia]).
      eapply returns_mono; [eapply (scan_step _ cs cmd clk _ s' j k Hm Hok HP Hin (Hcov _ _ Hin)); [|exact Hinv']; lia|].
      intros [s2 [e|]]; cbn [fst snd]; [done|]. eapply scan_inv_ext; [lia|].
      intros g k' [?|(Hg & -> & ?)]; [by left; left|].
      destruct (Z.eqb_spec k' k) as [->|]; [by right|]. left; right. split; [done|]. split; [done|]. lia.
    - intros [s2 [e|]]; cbn [fst snd]; [done|]. eapply scan_inv_ext; [lia|].
      intros g k' [Hg Hlt]. destruct (Z.eqb_spec g j) as [->|]; [|left; split; [done|lia]].
      right. split; [done|]. split; [done|]. unfold in_grid in Hg. lia. }
  intros r Hr'. destruct (scan_end (done c.(bankgroups)) cs cmd clk c.(banks) r) as [H1 H2]; try done; [nia| | | |].
  - intros g k Hin _. split; [done|]. unfold in_grid in Hin. lia.
  - intros r' g k Hc'. unfold covers in Hc'. lia.
  - rewrite Hbk. exact Hr'.
  - destruct (scan_result (banks c) r) as [sh' y]. apply returns_ret. split; [done|]. split; [by left|done].
Qed.

Lemma bankset_scan_spec sh cs cmd clk : IsRankCMD cmd = false → IsSbCMD cmd = true →
  is_maintenance cmd.(cmd_type) = true → shared_ok c sh → chan_ok c cs → target_ok c cmd →
  holds_on (covers cmd) (λ b, b.(state_) ≠ SREF) cs.(bank_states_) →
  returns (GetReadyCommand B c sh cs cmd clk) (ready_post cs cmd clk).
Proof.
  intros E E' Hm Hs Hok Ht HP. unfold GetReadyCommand. rewrite E, E'. destruct Hshape as [Hr Hbg Hbpg Hbk Hmax].
  destruct Ht as (Htr & Htk & Htg). specialize (Htk E).
  set (done j g k := in_grid c (Rank cmd) g k ∧ k = Bank cmd ∧ g < j).
  eapply returns_bind.
  { apply (for_ret_seq (λ j, scan_inv (done j) cs cmd clk j) (early_ok cs cmd clk) 0);
      [lia|split; [done|]; cbn [fst snd]; split; [lia|]; intros _; split; [lia|]; intros g k b (Hin & _ & Hlt);
       unfold in_grid in Hin; lia|].
    intros s j Hj Hinv. assert (in_grid c (Rank cmd) j (Bank cmd)) as Hin by (split; [done|lia]).
    assert (covers cmd (Rank cmd) j (Bank cmd) = true) as Hcov by (unfold covers; rewrite E, E'; lia).
    eapply returns_mono; [eapply (scan_step _ cs cmd clk _ s j _ Hm Hok HP Hin Hcov); [|exact Hinv]; lia|].
    intros [s2 [e|]]; cbn [fst snd]; [done|]. eapply scan_inv_ext; [lia|].
    intros g k (Hg & -> & ?). destruct (Z.eqb_spec g j) as [->|]; [by right|]. left. split; [done|]. split; [done|]. lia. }
  intros r Hr'. destruct (scan_end (done c.(bankgroups)) cs cmd clk c.(bankgroups) r) as [H1 H2]; try done; [lia| | |].
  - intros g k Hin Hc'. split; [done|]. unfold covers in Hc'. rewrite E, E' in Hc'. unfold in_grid in Hin. lia.
  - intros r' g k Hc'. unfold covers in Hc'. lia.
  - destruct (scan_result (bankgroups c) r) as [sh' y]. apply returns_ret. split; [done|]. split; [by left|done].
Qed.

Lemma ActivationWindowOk_returns cs r clk : chan_ok c cs → 0 <= r < c.(ranks) →
  ∃ ok, ActivationWindowOk c cs r clk = Ret ok.
Proof.
  intros Hok Hr. unfold ActivationWindowOk, IsFAWReady, Is32AWReady.
  destruct (aget_ok cs.(four_aw_) r) as [l ->]; [by rewrite (ck_faw _ _ Hok)|].
  destruct (aget_ok cs.(thirty_two_aw_) r) as [l2 ->]; [by rewrite (ck_32 _ _ Hok)|]. cbn [mbind outcome_bind].
  destruct l, l2; cbn [mbind outcome_bind]; repeat case_match; by eexists.
Qed.

(** an access or the refresh of one bank *)
Lemma bank_scan_spec sh cs cmd clk : IsRankCMD cmd = false → IsSbCMD cmd = false →
  shared_ok c sh → chan_ok c cs → chan_sync cs → request_ok cs cmd →
  returns (GetReadyCommand B c sh cs cmd clk) (ready_post cs cmd clk).
Proof.
  intros E E' Hs Hok Hsync (Ht & Hacc & Hrow). unfold GetReadyCommand. rewrite E, E'.
  destruct Ht as (Htr & Htk & Htg). specialize (Htk E). specialize (Htg E E').
  destruct (ck_banks _ _ Hok) as [Hg Hb].
  destruct (bank_at_ok c cs.(bank_states_) (Rank cmd) (Bankgroup cmd) (Bank cmd) Hg) as [b Eb]; [done|].
  assert (accepts b cmd.(cmd_type)) as Ha.
  { eapply Hacc; [|exact Eb]. unfold covers. rewrite E, E'. lia. }
  rewrite Eb. cbn [mbind outcome_bind].
  eapply returns_bind; [apply (GetReadyCommand_spec B c Hc sh b cmd clk (Hb _ _ _ _ Eb) Hs Ha)|].
  intros [sh' y] [Hs' Hy]. cbn [fst snd] in *. destruct Hy as [->|[[Hn [Ha1 Ha2] Htm Hraa] Hnt]].
  { apply returns_ret. split; [done|]. split; [by left|by left]. }
  destruct (negb (IsValid y)); [apply returns_ret; split; [done|]; split; by left|].
  assert (Rank y = Rank cmd ∧ Bank y = Bank cmd ∧ Bankgroup y = Bankgroup cmd) as (ER & EB & EG).
  { unfold Rank, Bank, Bankgroup. by rewrite Ha1. }
  assert (is_access (cmd_type cmd) = true ∨ cmd_type cmd = REFRESH_BANK) as Hkind.
  { destruct Ha as [?|[Hm _]]; [by left|]. unfold IsRankCMD, IsSbCMD in *. destruct (cmd_type cmd); auto. }
  assert (IsRFM y = true → rfm_on c) as Hrfm.
  { clear Hn Htm Hraa. unfold next_type in Hnt. unfold IsRFM. destruct Hkind as [Ek|Ek]; rewrite Ek in Hnt.
    - destruct Hnt as [t ? ? Et _|t ? ? [-> | ->]|t ? ? ? _| |]; try done. by destruct t.
    - cbn [is_access] in Hnt. destruct (BankState.IsRowOpen b); [by destruct Hnt as [-> | ->]|by rewrite Hnt]. }
  unfold IsRFM in Hrfm. rewrite ER, EB. destruct (alert_n cs && _) eqn:Eal.
  { apply andb_true_iff in Eal as [Eal _]. apply returns_ret. split; [done|]. split; [|by left].
    apply RankNeedRFM_added; auto. }
  destruct (ct_eqb (cmd_type y) RFMsb) eqn:En1.
  { apply returns_ret. split; [done|]. split; [|by left]. apply BanksetNeedRFM_added; auto using orb_true_r. }
  destruct (ct_eqb (cmd_type y) RFMab) eqn:En2.
  { apply returns_ret. split; [done|]. split; [|by left]. apply RankNeedRFM_added; auto. }
  assert (y.(cmd_type) = SREF_EXIT ∧ b.(state_) = SREF ∨ IsRankCMD y = false ∧ IsSbCMD y = false ∧ y.(cmd_type) ≠ SIZE)
    as Hty.
  { clear Hn Htm Hraa. unfold next_type in Hnt. destruct Hkind as [Ek|Ek]; rewrite Ek in Hnt.
    - unfold IsRankCMD, IsSbCMD. destruct Hnt as [t ? ? Et _|t ? ? [-> | ->]|t ? ? ? [-> | ->]| |]; auto; try done.
      right. by destruct t.
    - cbn [is_access] in Hnt. unfold IsRankCMD, IsSbCMD. right.
      destruct (BankState.IsRowOpen b); [by destruct Hnt as [-> | ->]|by rewrite Hnt]. }
  assert (target_ok c y) as Hty'.
  { unfold target_ok. rewrite ER, EB, EG. by split. }
  assert (all_ready cs y clk ∧ y.(cmd_type) ≠ SIZE) as [Hall Hsz].
  { destruct Hty as [[Ey Est]|(E1 & E2 & E3)]; (split; [|congruence]).
    - intros r g k b' Hcov Eb'. unfold covers, IsRankCMD in Hcov. rewrite Ey, ER in Hcov. cbn in Hcov.
      assert (r = Rank cmd) as -> by lia. unfold bank_ready. rewrite Ey.
      pose proof (proj1 (sy_state _ Hsync _ _ _ _ Eb) Est) as Hf.
      rewrite (proj2 (sy_state _ Hsync _ _ _ _ Eb') Hf). split; [done|].
      rewrite <- (sy_time _ Hsync _ _ _ _ _ _ _ Eb Eb'). by rewrite <- Ey.
    - intros r g k b' Hcov Eb'. unfold covers in Hcov. rewrite E1, E2, ER, EB, EG in Hcov.
      assert (r = Rank cmd ∧ g = Bankgroup cmd ∧ k = Bank cmd) as (-> & -> & ->) by lia.
      assert (b' = b) as -> by congruence. by split. }
  assert (IsReadWrite y = true → y.(addr) = cmd.(addr) ∧ y.(hex_addr) = cmd.(hex_addr) ∧
    is_access cmd.(cmd_type) = true ∧ (keeps_kind B cmd.(cmd_type) → IsRead y = IsRead cmd)) as Hkd.
  { intros Erw. split; [done|]. split; [done|]. unfold next_type in Hnt. unfold IsReadWrite, IsRead, IsWrite in *.
    destruct Hkind as [Ek|Ek]; rewrite Ek in Hnt.
    - split; [done|]. intros Hkp. destruct Hnt as [t ? ? Et Hk|t ? ? [-> | ->]|t ? ? ? [-> | ->]| |]; try done.
      specialize (Hk Hkp). by destruct t, (cmd_type cmd).
    - cbn [is_access] in Hnt. destruct (BankState.IsRowOpen b); [by destruct Hnt as [E0|E0]; rewrite E0 in Erw|].
      by rewrite Hnt in Erw. }
  assert (y.(cmd_type) = SREF_ENTER → cmd.(cmd_type) = SREF_ENTER) as Hent.
  { intros Ey. unfold next_type in Hnt. destruct Hkind as [Ek|Ek]; rewrite Ek, Ey in Hnt.
    - inversion Hnt; subst; try done; by match goal with Hx : _ ∨ _ |- _ => destruct Hx end.
    - cbn [is_access] in Hnt. destruct (BankState.IsRowOpen b); [by destruct Hnt|done]. }
  assert ((y.(cmd_type) = ACTIVATE → ActivationWindowOk c cs (Rank y) clk = Ret true) → chan_ready cs cmd clk y) as Hrdy.
  { intros Hw. split; try done. intros Ey. split; [done|].
    split; [destruct Hkind as [?|Ek]; [done|]; unfold next_type in Hnt; rewrite Ek, Ey in Hnt; cbn [is_access] in Hnt;
      destruct (BankState.IsRowOpen b); [by destruct Hnt|done]|]. split; [by apply Hw|]. intros Hon r g k b' Hcov Eb'.
    destruct Hty as [[? _]|(E1 & E2 & _)]; [congruence|]. unfold covers in Hcov. rewrite E1, E2, ER, EB, EG in Hcov.
    assert (r = Rank cmd ∧ g = Bankgroup cmd ∧ k = Bank cmd) as (-> & -> & ->) by lia.
    assert (b' = b) as -> by congruence. by apply Hraa. }
  destruct (ct_eqb (cmd_type y) ACTIVATE) eqn:Ey.
  - apply ct_eqb_eq in Ey. rewrite ER in Hrdy.
    destruct (ActivationWindowOk_returns cs (Rank cmd) clk Hok Htr) as [ok Eok]. rewrite Eok in *.
    cbn [mbind outcome_bind]. apply returns_ret. split; [done|]. split; [by left|]. cbn [fst snd].
    destruct ok; [|by left]. right. by apply Hrdy.
  - apply returns_ret. split; [done|]. split; [by left|]. right. apply Hrdy. intros Ey'. rewrite Ey' in Ey. done.
Qed.

(** every request the channel may be given gets an answer: nothing yet, or a command that can be
    carried out now *)
Lemma GetReadyCommand_chan sh cs cmd clk : shared_ok c sh → chan_ok c cs → chan_sync cs → request_ok cs cmd →
  returns (GetReadyCommand B c sh cs cmd clk) (ready_post cs cmd clk).
Proof.
  intros Hs Hok Hsync Hreq. pose proof Hreq as (Ht & Hacc & _).
  assert (∀ t, cmd.(cmd_type) = t → IsRankCMD cmd || IsSbCMD cmd = true → is_maintenance t = true →
    holds_on (covers cmd) (λ b, b.(state_) ≠ SREF) cs.(bank_states_)) as HP.
  { intros t Et E Hm r g k b Hcov Eb. destruct (Hacc _ _ _ _ Hcov Eb) as [Hx|[_ ?]]; [|done].
    unfold IsRankCMD, IsSbCMD in E. by destruct (cmd_type cmd). }
  destruct (IsRankCMD cmd) eqn:E1; [|destruct (IsSbCMD cmd) eqn:E2; [|by apply bank_scan_spec]].
  - assert (is_maintenance (cmd_type cmd) = true) as Hm.
    { destruct Hc, Ht as (Hr & _).
      destruct (bank_at_ok c cs.(bank_states_) (Rank cmd) 0 0) as [b Eb];
        [apply (ck_banks _ _ Hok)|destruct Hshape; unfold in_grid; lia|].
      destruct (Hacc (Rank cmd) 0 0 b) as [Hx|[? _]]; [unfold covers; by rewrite E1, Z.eqb_refl|done| |done].
      unfold IsRankCMD in E1. by destruct (cmd_type cmd). }
    apply rank_scan_spec; try done. by eapply HP.
  - assert (is_maintenance (cmd_type cmd) = true) as Hm by (unfold IsSbCMD in E2; by destruct (cmd_type cmd)).
    apply bankset_scan_spec; try done. by eapply HP.
Qed.
End Ready.
