(* ===== verification/ChannelSafety.v ===== *)
(** * Timing safety of a channel over a run

    A run of a channel is what its controller makes of it: questions ([GetReadyCommand]), the
    command of the last answer issued in the same cycle ([UpdateTimingAndStates]), and changes of
    the waiting queues. Over a run every delay of the timing tables separates the commands it is
    for, and no five activations of a rank fall in its four-activate window. *)
From S2P Require Import Prelude Common Config Timing Stats BankState BankSpec ChannelState ChannelSpec ChannelRun.
Open Scope Z_scope.

(** ** A new channel *)

(** a vector filled by [push_back] *)
Definition built {S A} (I : S → Prop) (P : A → Prop) (n : Z) (s : S * list A) : Prop :=
  I s.1 ∧ zlen s.2 = n ∧ Forall P s.2.
Lemma built_nil {S A} (I : S → Prop) (P : A → Prop) s : I s → built I P 0 (s, []).
Proof. intros Hs. split; [done|]. split; [done|constructor]. Qed.
Lemma built_snoc {S A} (I : S → Prop) (P : A → Prop) n s l s' x :
  built I P n (s, l) → I s' → P x → built I P (n + 1) (s', l ++ [x]).
Proof.
  intros (_ & Hl & HP) Hs Hx. cbn [fst snd] in *. split; [done|]. split.
  - cbn [snd]. unfold zlen in *. rewrite length_app. cbn. lia.
  - apply Forall_app. split; [done|by constructor].
Qed.

Definition bank_fresh (c : Config) (b : BankState) : Prop :=
  bank_ok c b ∧ b.(state_) = CLOSED ∧ b.(cmd_timing_) = replicate 16 0 ∧ b.(raa_ctr_) = 0 ∧
  b.(acts_counter_) = 0 ∧ zlen b.(total_row_acts_) = c.(rows) ∧ tracks_none b.
Record chan_fresh (c : Config) (cs : ChannelState) : Prop := {
  cf_ok : chan_ok c cs;
  cf_banks : ∀ r g k b, bank_at cs.(bank_states_) r g k = Ret b → bank_fresh c b;
  cf_sref : cs.(rank_is_sref_) = replicate (Z.to_nat c.(ranks)) false;
  cf_faw : cs.(four_aw_) = replicate (Z.to_nat c.(ranks)) [];
  cf_32 : cs.(thirty_two_aw_) = replicate (Z.to_nat c.(ranks)) [];
  cf_ref : cs.(refresh_q_) = [] ∧ cs.(rfm_q_) = [] ∧ cs.(alert_n) = false
}.

Lemma ChannelState_new_spec {G} `{Rng64 G} (c : Config) (sh : Shared G) :
  bank_config_ok c → shape_ok c → shared_ok c sh →
  returns (ChannelState_new c sh) (λ r, shared_ok c r.1 ∧ chan_fresh c r.2).
Proof.
  intros Hc [Hr Hbg Hbpg _ _] Hs. unfold ChannelState_new. destruct (Z.ltb_spec c.(ranks) 0); [lia|].
  set (Y := λ y, zlen y = c.(banks_per_group) ∧ Forall (bank_fresh c) y).
  set (X := λ x, zlen x = c.(bankgroups) ∧ Forall Y x).
  eapply returns_bind.
  { apply (for_seqZ (built (shared_ok c) X) 0); [lia|by apply built_nil|]. intros [s l] i _ Hl.
    destruct (Z.ltb_spec c.(bankgroups) 0); [lia|]. cbn [fst snd].
    eapply returns_bind; [apply (for_seqZ (built (shared_ok c) Y) 0); [lia|apply built_nil, Hl|]|].
    - intros [s1 l1] j _ Hl1. cbn [fst snd].
      eapply returns_bind; [apply (for_seqZ (built (shared_ok c) (bank_fresh c)) 0); [lia|apply built_nil, Hl1|]|].
      + intros [s2 l2] k _ Hl2. cbn [fst snd].
        eapply returns_bind; [by apply BankState_new_spec, Hl2|]. intros [s3 b] (Hs3 & A1 & A2 & A3 & A4 & A5 & A6 & A7).
        apply returns_ret. eapply built_snoc; [exact Hl2|done|]. cbn [fst snd] in *. unfold bank_fresh. auto 10.
      + intros [s2 l2] (Hs2 & Hz & HF). apply returns_ret. by eapply built_snoc; [exact Hl1| |].
    - intros [s1 l1] (Hs1 & Hz & HF). apply returns_ret. by eapply built_snoc; [exact Hl| |]. }
  intros [s l] (Hs' & Hz & HF). apply returns_ret. cbn [fst snd] in *. split; [done|].
  assert (zlen l = c.(ranks)) as Hzl by lia.
  assert (grid_ok c l) as Hg.
  { split; [done|]. eapply Forall_impl; [exact HF|]. intros x [Hx HFx]. split; [lia|].
    eapply Forall_impl; [exact HFx|]. intros y [Hy _]. lia. }
  assert (∀ r g k b, bank_at l r g k = Ret b → bank_fresh c b) as Hb.
  { intros r g k b (x & Ex & (y & Ey & Eb)%bind_Ret)%bind_Ret.
    destruct (aget_Forall _ _ _ _ HF Ex) as [_ HFx]. destruct (aget_Forall _ _ _ _ HFx Ey) as [_ HFy].
    by apply (aget_Forall _ _ _ _ HFy Eb). }
  assert (∀ {A} (v : A), zlen (replicate (Z.to_nat c.(ranks)) v) = c.(ranks)) as Hrep.
  { intros A v. unfold zlen. rewrite length_replicate. lia. }
  split; try done. split; try apply Hrep. split; [done|]. intros r g k b Eb. by eapply Hb.
Qed.

(** ** Self-refresh *)

(** what a list of delays does to one entry depends on that entry alone *)
Lemma raise1_at clk tm tm' x i : tm !! i = tm' !! i → raise1 clk tm x !! i = raise1 clk tm' x !! i.
Proof.
  intros E. unfold raise1. destruct (decide (i = Z.to_nat (ct_int x.1))) as [->|Hne].
  - rewrite <- E. destruct (tm !! Z.to_nat (ct_int x.1)) eqn:E1; [|by rewrite <- E, E1].
    rewrite !list_lookup_insert_eq; [done|by eapply lookup_lt_Some; rewrite <- E|by eapply lookup_lt_Some].
  - destruct (tm !! Z.to_nat (ct_int x.1)), (tm' !! Z.to_nat (ct_int x.1));
      rewrite ?list_lookup_insert_ne by done; done.
Qed.
Lemma raise_at l clk tm tm' i : tm !! i = tm' !! i → raise l clk tm !! i = raise l clk tm' !! i.
Proof.
  revert tm tm'. induction l as [|x l IH]; intros tm tm' E; [done|]. unfold raise in *. cbn [foldl].
  by apply IH, raise1_at.
Qed.
Lemma raise_other l clk tm t : Forall (λ x, x.1 ≠ SIZE ∧ x.1 ≠ t) l → t ≠ SIZE →
  raise l clk tm !! Z.to_nat (ct_int t) = tm !! Z.to_nat (ct_int t).
Proof.
  intros Hl Ht. revert tm. induction Hl as [|x l [Hx Hne] Hl IH]; intros tm; [done|]. unfold raise in *.
  cbn [foldl]. rewrite IH. unfold raise1. destruct (tm !! Z.to_nat (ct_int x.1)) eqn:E; [|done].
  apply list_lookup_insert_ne. intros Ei. apply Hne. destruct x as [y d]. cbn [fst] in *.
  by destruct y, t; vm_compute in Ei.
Qed.

(** comparisons of known command types *)
Ltac ct_simp :=
  repeat match goal with |- context [ct_eqb ?a ?b] =>
    let v := eval vm_compute in (ct_eqb a b) in change (ct_eqb a b) with v end;
  cbv iota beta.

(** only [SREF_ENTER] delays [SREF_EXIT], for the whole rank *)
Lemma build_no_exit D ppd s t : s ≠ SameRank → t ≠ SIZE →
  Forall (λ x, x.1 ≠ SIZE ∧ x.1 ≠ SREF_EXIT) (row_of (table (build D ppd) s) t).
Proof.
  intros Hs Ht.
  assert (forallb (λ x, negb (ct_eqb x.1 SIZE) && negb (ct_eqb x.1 SREF_EXIT))
    (row_of (table (build D ppd) s) t) = true) as H.
  { destruct s; try done; destruct D, ppd, t; try done; vm_compute; reflexivity. }
  apply Forall_forall. intros x Hx. rewrite forallb_forall in H. apply list_elem_of_In, H in Hx.
  destruct x as [y d]. cbn [fst] in *. by destruct y.
Qed.

Lemma Timing_new_no_exit c s t : s ≠ SameRank → t ≠ SIZE →
  Forall (λ x, x.1 ≠ SIZE ∧ x.1 ≠ SREF_EXIT) (row_of (table (Timing_new c) s) t).
Proof. exact (build_no_exit (delays c) (needs_ppd c) s t). Qed.

Lemma aget_lookup {A} (l l' : list A) i : 0 <= i → l !! Z.to_nat i = l' !! Z.to_nat i → aget l i = aget l' i.
Proof. intros Hi E. unfold aget. by rewrite E. Qed.
Lemma lookup_aget {A} (l l' : list A) i : 0 <= i → aget l i = aget l' i → l !! Z.to_nat i = l' !! Z.to_nat i.
Proof. intros Hi. unfold aget. destruct (Z.ltb_spec i 0); [lia|]. by repeat case_match; intros; simplify_eq. Qed.

(** ** Activation windows *)

(** the activations of rank [r] in a log *)
Definition acts (r : Z) (log : list (Z * Command)) : list Z :=
  omap (λ e, if ct_eqb e.2.(cmd_type) ACTIVATE && (Rank e.2 =? r) then Some e.1 else None) log.
(** [l] holds the ends of the last windows of [w] cycles, at most [n]; the others are over *)
Definition window_inv (w n now : Z) (times l : list Z) : Prop :=
  ∃ old, map (λ t, t + w) times = old ++ l ∧ zlen l <= n ∧ Forall (λ e, e <= now) old.
(** the [n]-th activation after another comes when its window is over *)
Definition spaced (w n : Z) (times : list Z) : Prop :=
  ∀ i j t t', j = (i + Z.to_nat n)%nat → times !! i = Some t → times !! j = Some t' → t + w <= t'.
(** the test of [IsFAWReady] and [Is32AWReady] *)
Definition window_ready (n clk : Z) (l : list Z) : bool :=
  match l with t :: _ => negb ((clk <? t) && (n <=? zlen l)) | [] => true end.

Lemma window_inv_later w n now now' times l : now <= now' → window_inv w n now times l → window_inv w n now' times l.
Proof.
  intros Hle (old & E & Hl & Hold). exists old. split; [done|]. split; [done|].
  eapply Forall_impl; [exact Hold|]. cbn beta. lia.
Qed.
Lemma window_push w n now clk times l : 0 < n → now <= clk → 0 <= clk + w < 18446744073709551616 →
  window_ready n clk l = true → window_inv w n now times l →
  window_inv w n clk (times ++ [clk]) (push_window clk w l).
Proof.
  intros Hn Hle Hw Hr (old & E & Hl & Hold).
  assert (Forall (λ e, e <= clk) old) as Hold' by (eapply Forall_impl; [exact Hold|cbn beta; lia]).
  unfold window_inv, push_window. rewrite map_app, E. cbn [map]. rewrite u64_id by (unfold is_u64; lia).
  destruct l as [|t l]; cbn [window_ready] in Hr.
  - exists old. rewrite <- app_assoc. split; [done|]. split; [unfold zlen; cbn [app length]; lia|done].
  - unfold zlen in *. cbn [length] in *. destruct (Z.leb_spec t clk).
    + exists (old ++ [t]). rewrite <- !app_assoc. split; [done|]. rewrite length_app. cbn [length]. split; [lia|].
      apply Forall_app. split; [done|by constructor].
    + exists old. rewrite <- app_assoc. split; [done|]. rewrite length_app. cbn [length]. destruct (Z.ltb_spec clk t); [|lia].
      destruct (Z.leb_spec n (Z.of_nat (S (length l)))); [done|]. split; [lia|done].
Qed.
Lemma spaced_push w n now clk times l : 0 < n → now <= clk → window_ready n clk l = true →
  window_inv w n now times l → spaced w n times → spaced w n (times ++ [clk]).
Proof.
  intros Hn Hle Hr (old & E & Hl & Hold) Hs i j t t' -> Hi Hj.
  pose proof (lookup_lt_Some _ _ _ Hj) as Hlt. rewrite length_app in Hlt. cbn [length] in Hlt.
  rewrite lookup_app_l in Hi by lia.
  destruct (decide (i + Z.to_nat n < length times)%nat) as [Hd|Hd].
  { rewrite lookup_app_l in Hj by done. by eapply Hs. }
  rewrite lookup_app_r in Hj by lia. assert (i + Z.to_nat n - length times = 0)%nat as E0 by lia.
  rewrite E0 in Hj. injection Hj as <-.
  assert ((old ++ l) !! i = Some (t + w)) as Hm by (rewrite <- E; by rewrite list_lookup_fmap, Hi).
  assert (length times = length old + length l)%nat as El by (rewrite <- length_app, <- E; by rewrite length_map).
  unfold zlen in Hl. destruct (decide (i < length old)%nat) as [Ho|Ho].
  - rewrite lookup_app_l in Hm by done. rewrite Forall_lookup in Hold. specialize (Hold _ _ Hm). cbn beta in Hold. lia.
  - rewrite lookup_app_r in Hm by lia. assert (i - length old = 0)%nat as E1 by lia. rewrite E1 in Hm.
    destruct l as [|e l]; [done|]. injection Hm as ->. cbn [window_ready] in Hr.
    unfold zlen in Hr. destruct (Z.ltb_spec clk (t + w)); [|lia].
    destruct (Z.leb_spec n (Z.of_nat (length (t + w :: l)))); [done|]. cbn [length] in *. lia.
Qed.

Section Runs.
Context {G : Type} `{Rng64 G} (B : Build) (c : Config) (Hc : bank_config_ok c) (Hshape : shape_ok c)
  (HB : ROWPRESS B && uses_mopac B = false).
Notation T := (Timing_new c).
Implicit Types (sh : Shared G) (cs : ChannelState) (cmd : Command).

Lemma sync_delays cmd r g k g' k' clk tm tm' : cmd.(cmd_type) ≠ SIZE →
  tm !! Z.to_nat (ct_int SREF_EXIT) = tm' !! Z.to_nat (ct_int SREF_EXIT) →
  raise (scope_delays T cmd r g k) clk tm !! Z.to_nat (ct_int SREF_EXIT) =
  raise (scope_delays T cmd r g' k') clk tm' !! Z.to_nat (ct_int SREF_EXIT).
Proof.
  intros Hsz E. unfold scope_delays. destruct (IsRankCMD cmd) eqn:ER.
  - assert (scope_of cmd r g' k' = scope_of cmd r g k) as -> by (unfold scope_of; by rewrite ER). by apply raise_at.
  - assert (∀ g k, scope_of cmd r g k ≠ Some SameRank) as Hs.
    { intros g1 k1. unfold scope_of. rewrite ER. by repeat case_match. }
    assert (∀ g k tm, raise match scope_of cmd r g k with Some s => row_of (table T s) cmd.(cmd_type) | None => [] end
      clk tm !! Z.to_nat (ct_int SREF_EXIT) = tm !! Z.to_nat (ct_int SREF_EXIT)) as Hno.
    { intros g1 k1 tm1. apply raise_other; [|done]. specialize (Hs g1 k1).
      destruct (scope_of cmd r g1 k1) as [s|]; [|constructor]. apply Timing_new_no_exit; [|exact Hsz]. intros ->. by apply Hs. }
    by rewrite !Hno.
Qed.

Lemma sync_fresh cs : chan_fresh c cs → chan_sync cs.
Proof.
  intros [Hok Hb Hsr _ _ _]. split.
  - intros r g k b Eb. destruct (Hb _ _ _ _ Eb) as (_ & Est & _). split; [congruence|].
    rewrite Hsr. intros [_ [? _]%lookup_replicate]%aget_Ret. done.
  - intros r g k g' k' b b' Eb Eb'. destruct (Hb _ _ _ _ Eb) as (_ & _ & -> & _).
    by destruct (Hb _ _ _ _ Eb') as (_ & _ & -> & _).
Qed.

Lemma sync_step cs cs' cmd clk : chan_ok c cs → chan_sync cs → target_ok c cmd → cmd.(cmd_type) ≠ SIZE →
  chan_step B c T cmd clk cs cs' → chan_sync cs'.
Proof.
  intros Hok [S1 S2] Ht Hsz Hst.
  assert (∀ r g k b', bank_at cs'.(bank_states_) r g k = Ret b' → ∃ b b1, bank_at cs.(bank_states_) r g k = Ret b ∧
    (if covers cmd r g k then step_ok B c cmd b b1 else b1 = b) ∧
    b' = b1 <| cmd_timing_ := raise (scope_delays T cmd r g k) clk b.(cmd_timing_) |>) as Hback.
  { intros r g k b' Eb'. destruct (bank_at_ok c cs.(bank_states_) r g k) as [b Eb];
      [apply (ck_banks _ _ Hok)|eapply bank_at_in; [apply (ck_banks _ _ (ch_ok _ _ _ _ _ _ _ Hst))|exact Eb']|].
    destruct (ch_bank _ _ _ _ _ _ _ Hst _ _ _ _ Eb) as (b1 & Hb1 & Eb1). exists b, b1.
    split; [done|]. split; [done|]. congruence. }
  split.
  - intros r g k b' Eb'. destruct (Hback _ _ _ _ Eb') as (b & b1 & Eb & Hb1 & ->). rsimp.
    rewrite (ch_sref _ _ _ _ _ _ _ Hst). destruct Ht as (Htr & _). specialize (S1 _ _ _ _ Eb).
    assert (∀ v, aget (<[Z.to_nat (Rank cmd) := v]> cs.(rank_is_sref_)) r =
      if r =? Rank cmd then Ret v else aget cs.(rank_is_sref_) r) as Hins.
    { intros v. apply aget_aset. apply aset_ok. by rewrite (ck_sref _ _ Hok). }
    unfold covers in Hb1. destruct (Z.eqb_spec r (Rank cmd)) as [->|Hne]; cbn [andb] in Hb1.
    + destruct (IsRankCMD cmd) eqn:ER.
      * destruct Hb1 as (s & Hn & Hbs). rewrite (bs_state _ _ _ _ _ _ Hbs).
        unfold IsRankCMD in ER. destruct (cmd_type cmd) eqn:Et; try done;
          destruct (state_ b) eqn:Es; cbn in Hn; simplify_eq; rewrite <- ?S1;
          ct_simp; rewrite ?Hins, ?Z.eqb_refl; done.
      * assert (ct_eqb (cmd_type cmd) SREF_ENTER = false ∧ ct_eqb (cmd_type cmd) SREF_EXIT = false) as [-> ->].
        { unfold IsRankCMD in ER. by destruct (cmd_type cmd). }
        destruct ((k =? Bank cmd) && _); [|by subst b1]. destruct Hb1 as (s & Hn & Hbs). rewrite (bs_state _ _ _ _ _ _ Hbs).
        unfold IsRankCMD in ER.
        destruct (cmd_type cmd) eqn:Et; try done; destruct (state_ b) eqn:Es; cbn in Hn; simplify_eq; rewrite <- S1; done.
    + subst b1. repeat case_match; rewrite ?Hins; destruct (Z.eqb_spec r (Rank cmd)); done.
  - intros r g k g' k' b' b2' Eb' Eb2'. destruct (Hback _ _ _ _ Eb') as (b & b1 & Eb & _ & ->).
    destruct (Hback _ _ _ _ Eb2') as (b2 & b3 & Eb2 & _ & ->). rsimp. specialize (S2 _ _ _ _ _ _ _ Eb Eb2).
    apply aget_lookup; [done|]. apply sync_delays; [done|]. by apply lookup_aget in S2.
Qed.
(** *** Runs *)

(** the counters a command moves are below their width, and the activation counts of the window
    are there *)
Definition counted cmd (b : BankState) : Prop :=
  (IsRefresh cmd = true → b.(acts_counter_) < 130) ∧
  (cmd.(cmd_type) = ACTIVATE → b.(total_row_acts_) ≠ [] ∧ b.(raa_ctr_) < 2147483647 ∧
     b.(acts_counter_) < 2147483647).
(** the queues, the alert and the idle counters are the controller's and the refresh generator's *)
Definition same_device cs cs' : Prop :=
  cs'.(bank_states_) = cs.(bank_states_) ∧ cs'.(rank_is_sref_) = cs.(rank_is_sref_) ∧
  cs'.(four_aw_) = cs.(four_aw_) ∧ cs'.(thirty_two_aw_) = cs.(thirty_two_aw_) ∧
  zlen cs'.(rank_idle_cycles) = zlen cs.(rank_idle_cycles).

(** [run s now log]: the commands issued so far, with their times *)
Inductive run : Shared G * ChannelState → Z → list (Z * Command) → Prop :=
| run_start sh s : shared_ok c sh → ChannelState_new c sh = Ret s → run s 0 []
| run_queue sh cs sh' cs' now log :
    run (sh, cs) now log → shared_ok c sh' → same_device cs cs' → run (sh', cs') now log
| run_ask sh cs req sh' cs' y now clk log :
    run (sh, cs) now log → now <= clk → request_ok c cs req →
    GetReadyCommand B c sh cs req clk = Ret (sh', cs', y) → run (sh', cs') clk log
| run_issue sh cs req sh1 cs1 y s now clk log :
    run (sh, cs) now log → now <= clk → request_ok c cs req →
    GetReadyCommand B c sh cs req clk = Ret (sh1, cs1, y) → y.(cmd_type) ≠ SIZE →
    holds_on (covers y) (counted y) cs1.(bank_states_) →
    UpdateTimingAndStates B c T sh1 cs1 y clk = Ret s → run s clk (log ++ [(clk, y)]).

(** [x] at [t] keeps [y] away from the bank until [t + d] *)
Definition delays_by (x y : Command) (d : Z) : Prop :=
  ∃ r g k e, in_grid c r g k ∧ covers y r g k = true ∧ e ∈ scope_delays T x r g k ∧ e = (y.(cmd_type), d).

Record run_inv (s : Shared G * ChannelState) (now : Z) (log : list (Z * Command)) : Prop := {
  ri_shared : shared_ok c s.1;
  ri_chan : chan_ok c s.2;
  ri_sync : chan_sync s.2;
  ri_now : 0 <= now ∧ Forall (λ e, 0 <= e.1 <= now ∧ e.2.(cmd_type) ≠ SIZE) log;
  ri_past : ∀ t x r g k b e, (t, x) ∈ log → bank_at s.2.(bank_states_) r g k = Ret b →
    e ∈ scope_delays T x r g k → ∃ v, b.(cmd_timing_) !! Z.to_nat (ct_int e.1) = Some v ∧ u64 (t + e.2) <= v;
  ri_gaps : ∀ i j t1 x t2 y d, (i < j)%nat → log !! i = Some (t1, x) → log !! j = Some (t2, y) →
    delays_by x y d → u64 (t1 + d) <= t2;
  ri_faw : ∀ r l, aget s.2.(four_aw_) r = Ret l → 0 <= c.(tFAW) → now + c.(tFAW) < 18446744073709551616 →
    window_inv c.(tFAW) 4 now (acts r log) l ∧ spaced c.(tFAW) 4 (acts r log);
  ri_32 : ∀ r l, IsGDDR c = true → aget s.2.(thirty_two_aw_) r = Ret l → 0 <= c.(t32AW) →
    now + c.(t32AW) < 18446744073709551616 →
    window_inv c.(t32AW) 32 now (acts r log) l ∧ spaced c.(t32AW) 32 (acts r log)
}.

Lemma run_inv_device sh cs sh' cs' now now' log : run_inv (sh, cs) now log → shared_ok c sh' → now <= now' →
  same_device cs cs' → run_inv (sh', cs') now' log.
Proof.
  intros [I1 I2 I3 [I4 I4'] I5 I6 I7 I8] Hs Hle (E1 & E2 & E3 & E4 & E5). cbn [fst snd] in *. split; cbn [fst snd]; try done.
  - destruct I2. split; congruence.
  - destruct I3 as [S1 S2]. split; rewrite E1; [by rewrite E2|done].
  - split; [lia|]. eapply Forall_impl; [exact I4'|]. intros e [? ?]. split; [lia|done].
  - by rewrite E1.
  - rewrite E3. intros r l El H0 Hw. destruct (I7 r l El H0) as [??]; [lia|]. split; [by eapply window_inv_later|done].
  - rewrite E4. intros r l Eg El H0 Hw. destruct (I8 r l Eg El H0) as [??]; [lia|].
    split; [by eapply window_inv_later|done].
Qed.
Lemma rfm_added_device cs cs' : rfm_added c cs cs' → same_device cs cs'.
Proof. by intros [->|(_ & x & -> & _)]. Qed.

Lemma scope_delays_ok cmd r g k : cmd.(cmd_type) ≠ SIZE → delays_ok (scope_delays T cmd r g k).
Proof.
  intros Ht. unfold scope_delays. destruct (scope_of cmd r g k) as [s|]; [|constructor].
  exact (proj2 (Timing_new_tables c s _ Ht)).
Qed.
Lemma raise_ge l clk (b : BankState) e : delays_ok l → has_timing b → e ∈ l →
  ∃ v, raise l clk b.(cmd_timing_) !! Z.to_nat (ct_int e.1) = Some v ∧ u64 (clk + e.2) <= v.
Proof.
  intros Hl Hb He. unfold delays_ok in Hl. rewrite Forall_forall in Hl. pose proof (ct_int_lt _ (Hl e He)).
  destruct (lookup_lt_is_Some_2 b.(cmd_timing_) (Z.to_nat (ct_int e.1))) as [v Ev]; [rewrite Hb; lia|].
  by apply (raise_delay l clk _ e v).
Qed.
Lemma window_step (w n now clk : Z) (ws ws' : list (list Z)) log y :
  0 < n → now <= clk → 0 <= now → 0 <= w → clk + w < 18446744073709551616 →
  ws' = windows w y clk ws →
  (y.(cmd_type) = ACTIVATE → returns (aget ws (Rank y)) (λ l, window_ready n clk l = true)) →
  (∀ r l, aget ws r = Ret l → window_inv w n now (acts r log) l ∧ spaced w n (acts r log)) →
  ∀ r l, aget ws' r = Ret l →
    window_inv w n clk (acts r (log ++ [(clk, y)])) l ∧ spaced w n (acts r (log ++ [(clk, y)])).
Proof.
  intros Hn Hle H0 Hw Hclk -> Hready Hinv r l El. unfold acts. rewrite omap_app. cbn [omap list_omap snd fst].
  unfold windows in El. destruct (ct_eqb (cmd_type y) ACTIVATE) eqn:Et; cbn [andb].
  - apply ct_eqb_eq in Et. destruct (Hready Et) as (l0 & El0 & Hr). pose proof (aset_alter _ _ _ (push_window clk w) El0) as Ea.
    rewrite (aget_aset _ _ r _ _ Ea) in El. destruct (Z.eqb_spec (Rank y) r) as [<-|Hne].
    + rewrite Z.eqb_refl in El. injection El as <-. destruct (Hinv _ _ El0) as [Hi Hs].
      split; [by apply (window_push w n now); try lia|by eapply spaced_push].
    + destruct (Z.eqb_spec r (Rank y)); [done|]. rewrite app_nil_r. destruct (Hinv _ _ El) as [Hi Hs].
      split; [by eapply window_inv_later|done].
  - rewrite app_nil_r. destruct (Hinv _ _ El) as [Hi Hs]. split; [by eapply window_inv_later|done].
Qed.
Lemma window_ok_ready cs r clk : ActivationWindowOk c cs r clk = Ret true →
  returns (aget cs.(four_aw_) r) (λ l, window_ready 4 clk l = true) ∧
  (IsGDDR c = true → returns (aget cs.(thirty_two_aw_) r) (λ l, window_ready 32 clk l = true)).
Proof.
  unfold ActivationWindowOk, IsFAWReady, Is32AWReady. intros (ok & (l & El & Eok)%bind_Ret & Hr)%bind_Ret.
  assert (ok = window_ready 4 clk l) as Hok by (destruct l; cbn; congruence).
  destruct (IsGDDR c).
  - destruct ok; [|done]. apply bind_Ret in Hr as (l2 & El2 & E2). split; [exists l; by split|].
    intros _. exists l2. split; [done|]. destruct l2; cbn; congruence.
  - split; [|done]. exists l. split; [done|congruence].
Qed.
(** a ready command is carried out *)
Lemma chan_ready_step sh cs req y clk : shared_ok c sh → chan_ok c cs → request_ok c cs req →
  chan_ready B c cs req clk y → holds_on (covers y) (counted y) cs.(bank_states_) →
  returns (UpdateTimingAndStates B c T sh cs y clk) (λ r, shared_ok c r.1 ∧ chan_step B c T y clk cs r.2).
Proof.
  intros Hs Hok (_ & _ & Hrow) [Htgt Hsz Hall Hact _ _] Hcnt. destruct Hshape as [? ? ? _ _].
  apply command_chan; try done; try lia; [exact (Timing_new_tables c)|].
  intros r g k b Hcov Eb. destruct (Hall _ _ _ _ Hcov Eb) as [Hn _]. split; [|done].
  destruct (Hcnt _ _ _ _ Hcov Eb) as [C1 C2]. destruct (ck_banks _ _ Hok) as [_ Hb]. split; [by eapply Hb|done|].
  intros Ey. destruct (C2 Ey) as (C3 & C4 & C5). destruct (Hact Ey) as (Ha & Hacc & _ & Hraa).
  split; [unfold Row; rewrite Ha; by apply Hrow|].
  split_and!; try done. intros Hon. by apply (Hraa Hon _ _ _ _ Hcov Eb).
Qed.
(** what an issued command meets and leaves *)
Lemma issue_spec sh cs req sh1 cs1 y s clk : shared_ok c sh → chan_ok c cs → chan_sync cs → request_ok c cs req →
  GetReadyCommand B c sh cs req clk = Ret (sh1, cs1, y) → y.(cmd_type) ≠ SIZE →
  holds_on (covers y) (counted y) cs1.(bank_states_) →
  UpdateTimingAndStates B c T sh1 cs1 y clk = Ret s →
  same_device cs cs1 ∧ shared_ok c s.1 ∧ chan_ready B c cs1 req clk y ∧ chan_step B c T y clk cs1 s.2.
Proof.
  intros Hs Hok Hsync Hreq Ea Hsz Hcnt Eu.
  destruct (returns_inv _ _ _ (GetReadyCommand_chan B c Hc Hshape sh cs req clk Hs Hok Hsync Hreq) Ea)
    as (Hs1 & Hadd & [E0|Hrdy]); cbn [fst snd] in *; [by rewrite E0 in Hsz|].
  pose proof (rfm_added_device _ _ Hadd) as Hdev. split; [done|].
  pose proof Hdev as (E1 & E2 & E3 & E4 & E5).
  assert (chan_ok c cs1) as Hok1 by (destruct Hok; split; congruence).
  assert (request_ok c cs1 req) as Hreq1 by (destruct Hreq as (? & ? & ?); split; [done|]; by rewrite E1).
  destruct (returns_inv _ _ _ (chan_ready_step sh1 cs1 req y clk Hs1 Hok1 Hreq1 Hrdy Hcnt) Eu). done.
Qed.

Lemma run_inv_issue cs sh s1 y s now clk log req : run_inv (sh, cs) now log → now <= clk →
  chan_ok c cs → y.(cmd_type) ≠ SIZE → chan_ready B c cs req clk y → chan_step B c T y clk cs s.2 → shared_ok c s.1 →
  s1 = s → run_inv s1 clk (log ++ [(clk, y)]).
Proof.
  intros [I1 I2 I3 [I4 I4'] I5 I6 I7 I8] Hle Hok Hsz Hrdy Hst Hs ->. cbn [fst snd] in *.
  destruct Hrdy as [Htgt _ Hall Hact _ _].
  assert (∀ r g k b', bank_at s.2.(bank_states_) r g k = Ret b' → ∃ b, bank_at cs.(bank_states_) r g k = Ret b ∧
    has_timing b ∧ b'.(cmd_timing_) = raise (scope_delays T y r g k) clk b.(cmd_timing_)) as Hback.
  { intros r g k b' Eb'. destruct (bank_at_ok c cs.(bank_states_) r g k) as [b Eb];
      [apply (ck_banks _ _ Hok)|eapply bank_at_in; [apply (ck_banks _ _ (ch_ok _ _ _ _ _ _ _ Hst))|exact Eb']|].
    destruct (ch_bank _ _ _ _ _ _ _ Hst _ _ _ _ Eb) as (b1 & _ & Eb1). rewrite Eb1 in Eb'. injection Eb' as <-.
    exists b. split; [done|]. split; [|done]. apply (bi_timing c). by eapply (ck_banks _ _ Hok). }
  split; try done; try apply Hst.
  - by eapply (sync_step cs s.2 y clk).
  - split; [lia|]. apply Forall_app. split; [|by constructor; [cbn; split; [lia|done]|]].
    eapply Forall_impl; [exact I4'|]. cbn beta. intros e [? ?]. split; [lia|done].
  - intros t x r g k b e Hx Eb He. destruct (Hback _ _ _ _ Eb) as (b0 & Eb0 & Htm & ->).
    apply elem_of_app in Hx as [Hx|Hx].
    + destruct (I5 _ _ _ _ _ _ _ Hx Eb0 He) as (v & Ev & ?).
      destruct (raise_mono (scope_delays T y r g k) clk _ _ _ Ev) as (v' & Ev' & ?). exists v'. split; [done|lia].
    + apply list_elem_of_singleton in Hx. injection Hx as -> ->.
      by apply raise_ge; [apply scope_delays_ok| |].
  - intros i j t1 x t2 z d Hij Hi Hj (r & g & k & e & Hin & Hcov & He & Ee).
    destruct (decide (j < length log)%nat) as [Hd|Hd].
    { rewrite lookup_app_l in Hi, Hj by lia. apply (I6 i j t1 x t2 z d); try done. by exists r, g, k, e. }
    rewrite lookup_app_r in Hj by lia. pose proof (lookup_lt_Some _ _ _ Hj) as Hlt. cbn [length] in Hlt.
    assert (j - length log = 0)%nat as E0 by lia. rewrite E0 in Hj. injection Hj as <- <-.
    rewrite lookup_app_l in Hi by lia. apply list_elem_of_lookup_2 in Hi.
    destruct (bank_at_ok c cs.(bank_states_) r g k) as [b Eb]; [apply (ck_banks _ _ Hok)|done|].
    destruct (I5 _ _ _ _ _ _ _ Hi Eb He) as (v & Ev & Hv). destruct (Hall _ _ _ _ Hcov Eb) as [_ (u & Eu & Hu)].
    subst e. cbn [fst snd] in *. apply aget_Ret in Eu as [_ Eu]. assert (u = v) by congruence. lia.
  - intros r l El H0 Hw. apply (window_step c.(tFAW) 4 now clk cs.(four_aw_) s.2.(four_aw_) log y); try done; try lia.
    + by apply (ch_faw _ _ _ _ _ _ _ Hst).
    + intros Ey. destruct (Hact Ey) as (_ & _ & Hok' & _). exact (proj1 (window_ok_ready _ _ _ Hok')).
    + intros r' l' El'. apply I7; [done|done|lia].
  - intros r l Eg El H0 Hw.
    apply (window_step c.(t32AW) 32 now clk cs.(thirty_two_aw_) s.2.(thirty_two_aw_) log y); try done; try lia.
    + by apply (ch_32 _ _ _ _ _ _ _ Hst).
    + intros Ey. destruct (Hact Ey) as (_ & _ & Hok' & _). exact (proj2 (window_ok_ready _ _ _ Hok') Eg).
    + intros r' l' El'. apply I8; [done|done|done|lia].
Qed.

Lemma run_inv_all s now log : run s now log → run_inv s now log.
Proof.
  induction 1 as [sh s Hs En|sh cs sh' cs' now log _ IH Hs Hdev|sh cs req sh' cs' y now clk log _ IH Hle Hreq Ea
    |sh cs req sh1 cs1 y s now clk log _ IH Hle Hreq Ea Hsz Hcnt Eu].
  - destruct (returns_inv _ _ _ (ChannelState_new_spec c sh Hc Hshape Hs) En) as [Hs' Hf].
    assert (∀ (w n : Z) ws r l, ws = replicate (Z.to_nat c.(ranks)) [] → 0 < n → aget ws r = Ret l →
      window_inv w n 0 (acts r []) l ∧ spaced w n (acts r [])) as Hwin.
    { intros w n ws r l -> Hn [_ [-> _]%lookup_replicate]%aget_Ret. split; [exists []; split; [done|]; split; [unfold zlen; cbn [length]; lia|done]|].
      by intros i j t t' _ Hi. }
    split; try done; try apply Hf; try (by apply sync_fresh).
    + by intros t x r g k b e Hx%elem_of_nil.
    + intros r l El _ _. by apply (Hwin _ _ _ _ _ (cf_faw _ _ Hf)).
    + intros r l _ El _ _. by apply (Hwin _ _ _ _ _ (cf_32 _ _ Hf)).
  - by eapply run_inv_device.
  - pose proof IH as [I1 I2 I3 _ _ _ _ _]. cbn [fst snd] in *.
    destruct (returns_inv _ _ _ (GetReadyCommand_chan B c Hc Hshape sh cs req clk I1 I2 I3 Hreq) Ea) as (Hs1 & Hadd & _).
    eapply run_inv_device; [exact IH|done|done|by apply rfm_added_device].
  - pose proof IH as [I1 I2 I3 _ _ _ _ _]. cbn [fst snd] in *.
    destruct (issue_spec sh cs req sh1 cs1 y s clk I1 I2 I3 Hreq Ea Hsz Hcnt Eu) as (Hdev & Hs & Hrdy & Hst).
    eapply (run_inv_issue cs1 sh s y s now clk log req); try done.
    + by eapply run_inv_device.
    + destruct I2, Hdev as (E1 & E2 & E3 & E4 & E5). split; congruence.
Qed.
(** *** An executable controller: one request per entry, its command issued when it is ready *)
Definition access_okb (req : Command) : bool :=
  is_access req.(cmd_type) && (0 <=? Rank req) && (Rank req <? c.(ranks)) && (0 <=? Bank req) &&
  (Bank req <? c.(banks_per_group)) && (0 <=? Bankgroup req) && (Bankgroup req <? c.(bankgroups)) &&
  (0 <=? Row req) && (Row req <? c.(rows)).
Definition all_banks (p : BankState → bool) (bs : Banks) : bool := forallb (forallb (forallb p)) bs.
Definition countedb (b : BankState) : bool :=
  (b.(acts_counter_) <? 130) && (b.(raa_ctr_) <? 2147483647) &&
  match b.(total_row_acts_) with [] => false | _ => true end.
Fixpoint play (l : list (Z * Command)) (s : Shared G * ChannelState) (now : Z) (log : list (Z * Command)) :
    outcome (Z * list (Z * Command)) :=
  match l with
  | [] => Ret (now, log)
  | (clk, req) :: l =>
      assert_ ((now <=? clk) && access_okb req);;
      r ← GetReadyCommand B c s.1 s.2 req clk;
      let '(sh, cs, y) := r in
      if IsValid y then
        assert_ (all_banks countedb cs.(bank_states_));;
        s ← UpdateTimingAndStates B c T sh cs y clk;
        play l s clk (log ++ [(clk, y)])
      else play l (sh, cs) clk log
  end.

Lemma all_banks_ok p bs r g k b : all_banks p bs = true → bank_at bs r g k = Ret b → p b = true.
Proof.
  unfold all_banks. rewrite forallb_forall. intros Hp (x & [_ Ex]%aget_Ret & (y & [_ Ey]%aget_Ret &
    [_ Eb]%aget_Ret)%bind_Ret)%bind_Ret.
  apply list_elem_of_lookup_2, list_elem_of_In, Hp in Ex. rewrite forallb_forall in Ex.
  apply list_elem_of_lookup_2, list_elem_of_In, Ex in Ey. rewrite forallb_forall in Ey.
  by apply list_elem_of_lookup_2, list_elem_of_In, Ey in Eb.
Qed.
Lemma play_run l s now log now' log' : run s now log → play l s now log = Ret (now', log') →
  ∃ s', run s' now' log'.
Proof.
  revert s now log. induction l as [|[clk req] l IH]; intros s now log Hr; cbn [play].
  { intros [= <- <-]. by exists s. }
  intros (_ & Hck%assert_Ret & ([[sh cs] y] & Ea & Hp)%bind_Ret)%bind_Ret.
  destruct s as [sh0 cs0]. cbn [fst snd] in *.
  assert (now <= clk ∧ request_ok c cs0 req) as [Hle Hreq].
  { unfold access_okb in Hck. split; [lia|]. split; [unfold target_ok; lia|]. split; [|lia].
    intros r g k b _ _. left. by destruct (is_access (cmd_type req)); [|lia]. }
  destruct (IsValid y) eqn:Ev.
  - apply bind_Ret in Hp as (_ & Hall%assert_Ret & (s & Eu & Hp)%bind_Ret).
    apply IH in Hp; [done|]. eapply run_issue; try done; [unfold IsValid in Ev; intros E; by rewrite E in Ev|].
    intros r g k b _ Eb. pose proof (all_banks_ok _ _ _ _ _ _ Hall Eb) as Hb. unfold countedb in Hb.
    split; [lia|]. intros _. destruct (total_row_acts_ b); [by rewrite andb_false_r in Hb|]. split; [done|lia].
  - apply IH in Hp; [done|]. by eapply run_ask.
Qed.
End Runs.

(** ** The properties *)

Lemma delay_row c s from to d : delay_of (Timing_new c) s from to = Some d →
  (to, d) ∈ row_of (table (Timing_new c) s) from.
Proof.
  unfold delay_of. destruct (List.find _ _) as [[t v]|] eqn:E; [|done]. cbn. intros [= ->].
  apply List.find_some in E as [Hin Ht%ct_eqb_eq]. cbn [fst] in Ht. subst t. by apply list_elem_of_In.
Qed.

(** C1. In every run of a channel, a command [x] issued at [t1] and a command [y] issued later, at [t2],
    that involves a bank in the scope of [x], are separated by the delay the reference matrix gives for
    the pair: no timing constraint is violated. *)
Theorem channel_timing_safety {G} `{Rng64 G} (B : Build) (c : Config) (s : Shared G * ChannelState)
    now log i j t1 x t2 y r g k sc d :
  bank_config_ok c → shape_ok c → ROWPRESS B && uses_mopac B = false → timing_ok c →
  run B c s now log → now + 8388608 < 18446744073709551616 →
  (i < j)%nat → log !! i = Some (t1, x) → log !! j = Some (t2, y) →
  in_grid c r g k → covers y r g k = true → scope_of x r g k = Some sc →
  reference (gaps c) (needs_ppd c) sc x.(cmd_type) y.(cmd_type) = Some d →
  t1 + d <= t2.
Proof.
  intros Hc Hsh HB Htm Hrun Hnow Hij Hi Hj Hin Hcov Hsc Hd.
  destruct (timing_tables_reference c Htm sc x.(cmd_type) y.(cmd_type)) as [Href Hrange].
  rewrite <- Href in Hd. specialize (Hrange _ Hd). apply delay_row in Hd.
  destruct (run_inv_all B c Hc Hsh HB s now log Hrun) as [_ _ _ [H0 Hall] _ Hgaps _ _].
  rewrite Forall_lookup in Hall. destruct (Hall _ _ Hi) as [Ht1 _]. cbn [fst] in Ht1.
  rewrite <- (u64_id (t1 + d)) by (unfold is_u64; lia).
  apply (Hgaps i j t1 x t2 y d Hij Hi Hj). exists r, g, k, (y.(cmd_type), d).
  split; [done|]. split; [done|]. split; [|done]. unfold scope_delays. by rewrite Hsc.
Qed.

(** In every run of a channel, an activation of a rank comes at least tFAW cycles after the fourth one
    before it (and, for GDDR, at least t32AW cycles after the 32nd one before it). *)
Theorem channel_activate_window {G} `{Rng64 G} (B : Build) (c : Config) (s : Shared G * ChannelState)
    now log r i t t' :
  bank_config_ok c → shape_ok c → ROWPRESS B && uses_mopac B = false →
  run B c s now log → 0 <= r < c.(ranks) → acts r log !! i = Some t →
  (0 <= c.(tFAW) → now + c.(tFAW) < 18446744073709551616 →
   acts r log !! (i + 4)%nat = Some t' → t + c.(tFAW) <= t') ∧
  (IsGDDR c = true → 0 <= c.(t32AW) → now + c.(t32AW) < 18446744073709551616 →
   acts r log !! (i + 32)%nat = Some t' → t + c.(t32AW) <= t').
Proof.
  intros Hc Hsh HB Hrun Hr Hi. destruct (run_inv_all B c Hc Hsh HB s now log Hrun) as [_ Hok _ _ _ _ Hf H32].
  split.
  - intros H0 Hw Hj. destruct (aget_ok s.2.(four_aw_) r) as [l El]; [by rewrite (ck_faw _ _ Hok)|].
    by apply (proj2 (Hf r l El H0 Hw) i (i + 4)%nat).
  - intros Eg H0 Hw Hj. destruct (aget_ok s.2.(thirty_two_aw_) r) as [l El]; [by rewrite (ck_32 _ _ Hok)|].
    by apply (proj2 (H32 r l Eg El H0 Hw) i (i + 32)%nat).
Qed.

(** C15. A command that the banks it covers can make is carried out on the whole channel: every covered
    bank makes its step of the bank's state machine, every bank of the channel gets the delays of its
    scope on top of its earliest times, the self-refresh flag and the activation windows follow, and the
    refresh or RFM it serves leaves its queue. *)
Theorem channel_command_refines {G} `{Rng64 G} (B : Build) (c : Config) (sh : Shared G) cs cmd clk :
  bank_config_ok c → shape_ok c → ROWPRESS B && uses_mopac B = false →
  shared_ok c sh → chan_ok c cs → target_ok c cmd → cmd.(cmd_type) ≠ SIZE →
  holds_on (covers cmd) (can_step c cmd) cs.(bank_states_) →
  returns (UpdateTimingAndStates B c (Timing_new c) sh cs cmd clk)
    (λ r, shared_ok c r.1 ∧ chan_step B c (Timing_new c) cmd clk cs r.2).
Proof.
  intros Hc [? ? ? _ _] HB. intros. apply command_chan; try done; try lia. exact (Timing_new_tables c).
Qed.

(** C30. For every request the channel may be given, GetReadyCommand returns: either nothing can be issued
    yet (an RFM may have been queued), or its answer is a command that every bank it covers can make now,
    inside the activation windows and never an ACTIVATE while an RFM is due. *)
Theorem channel_ready_legal {G} `{Rng64 G} (B : Build) (c : Config) (sh : Shared G) cs req clk :
  bank_config_ok c → shape_ok c → shared_ok c sh → chan_ok c cs → chan_sync cs → request_ok c cs req →
  returns (GetReadyCommand B c sh cs req clk) (λ r, shared_ok c r.1.1 ∧ rfm_added c cs r.1.2 ∧
    (r.2 = Command0 ∨ chan_ready B c r.1.2 req clk r.2)).
Proof. intros. by apply GetReadyCommand_chan. Qed.

(** A per-bank refresh does not delay any command to the bank it refreshes: the earliest times of
    that bank are the same before and after, so it can be activated in the next cycle. *)
Theorem refresh_bank_leaves_bank_free {G} `{Rng64 G} (B : Build) (c : Config) (sh : Shared G) cs cmd clk b :
  bank_config_ok c → shape_ok c → ROWPRESS B && uses_mopac B = false →
  shared_ok c sh → chan_ok c cs → target_ok c cmd → cmd.(cmd_type) = REFRESH_BANK →
  holds_on (covers cmd) (can_step c cmd) cs.(bank_states_) →
  bank_at cs.(bank_states_) (Rank cmd) (Bankgroup cmd) (Bank cmd) = Ret b →
  returns (UpdateTimingAndStates B c (Timing_new c) sh cs cmd clk) (λ r,
    returns (bank_at r.2.(bank_states_) (Rank cmd) (Bankgroup cmd) (Bank cmd))
      (λ b', b'.(cmd_timing_) = b.(cmd_timing_) ∧ b'.(state_) = CLOSED)).
Proof.
  intros Hc [? ? ? _ _] HB Hs Hok Ht Et HP Eb.
  eapply returns_mono; [apply command_chan; try done; try lia; [exact (Timing_new_tables c)|congruence]|].
  intros [sh' cs'] [_ Hst]. cbn [fst snd] in *. destruct (ch_bank _ _ _ _ _ _ _ Hst _ _ _ _ Eb) as (b1 & Hb1 & Eb1).
  assert (IsRankCMD cmd = false ∧ IsSbCMD cmd = false) as [E1 E2] by (unfold IsRankCMD, IsSbCMD; by rewrite Et).
  unfold covers in Hb1. rewrite E1, E2, !Z.eqb_refl in Hb1. destruct Hb1 as (st & Hn & Hbs).
  eexists. split; [exact Eb1|]. rsimp. rewrite (bs_state _ _ _ _ _ _ Hbs). split.
  - unfold scope_delays, scope_of. rewrite E1, E2, !Z.eqb_refl, Et.
    assert (∀ D ppd, row_of (table (build D ppd) SameBank) REFRESH_BANK = []) as Hrow
      by (intros [] []; vm_compute; reflexivity).
    rewrite (Hrow (delays c) (needs_ppd c) : row_of (table (Timing_new c) SameBank) REFRESH_BANK = []). done.
  - rewrite Et in Hn. destruct (state_ b); cbn in Hn; by simplify_eq.
Qed.

(** ** Witnesses: five activations of a rank and a read, on a small module with the baseline timings *)
Definition small_config : Config :=
  demo_config <| dram_ ::= λ d, d <| bankgroups := 2 |> <| banks_per_group := 4 |> <| banks := 8 |> <| rows := 16 |> |>
    <| size_ ::= λ s, s <| ranks := 1 |> |>.
Definition small_req (bg ba row : Z) : Command := mkCommand READ (mkAddress 0 0 bg ba row 0) 0.
Definition small_reqs : list (Z * Command) :=
  [(0, small_req 0 0 3); (8, small_req 1 0 3); (16, small_req 0 1 3); (24, small_req 1 1 3);
   (31, small_req 0 2 3); (32, small_req 0 2 3); (40, small_req 0 0 3)].
Definition small_log : list (Z * Command) :=
  let act t bg ba := (t, mkCommand ACTIVATE (mkAddress 0 0 bg ba 3 0) 0) in
  [act 0 0 0; act 8 1 0; act 16 0 1; act 24 1 1; act 32 0 2; (40, small_req 0 0 3)].
Definition small_shared : Shared Z := mkShared 0 false PRECHARGE (stats_init 1).

Lemma small_config_ok : bank_config_ok small_config ∧ shape_ok small_config ∧ timing_ok small_config.
Proof.
  split; [split; vm_compute; split; (reflexivity || discriminate)|].
  split; [split; vm_compute; try split; (reflexivity || discriminate)|].
  split; [repeat constructor; vm_compute; done|try reflexivity; vm_compute; discriminate..].
Qed.
Lemma small_run : ∃ s, run demo_build small_config s 40 small_log.
Proof.
  assert (shared_ok small_config small_shared) as Hs.
  { pose proof (stats_init_inv small_config ltac:(vm_compute; discriminate)) as Hi. split; [|done].
    exact (conj (ri_geo _ _ _ _ Hi) (ri_ok _ _ _ _ Hi)). }
  destruct small_config_ok as (Hc & Hsh & _).
  destruct (ChannelState_new_spec small_config small_shared Hc Hsh Hs) as (s0 & E0 & _).
  apply (play_run demo_build small_config small_reqs s0 0 [] 40 small_log); [by eapply run_start|].
  assert ((s0 ← ChannelState_new small_config small_shared; play demo_build small_config small_reqs s0 0 []) =
    Ret (40, small_log)) as Hp by (vm_compute; reflexivity).
  by rewrite E0 in Hp.
Qed.

Lemma channel_timing_safety_witness : ∃ s, run demo_build small_config s 40 small_log ∧
  0 + small_config.(tRCD) <= 40 ∧ 0 + small_config.(tRRD_S) <= 8.
Proof.
  destruct small_run as [s Hr]. exists s. split; [done|]. destruct small_config_ok as (Hc & Hsh & Ht). split.
  - apply (channel_timing_safety demo_build small_config s 40 small_log 0 5 0
      (mkCommand ACTIVATE (mkAddress 0 0 0 0 3 0) 0) 40 (small_req 0 0 3) 0 0 0 SameBank 33 Hc Hsh eq_refl Ht Hr);
      done || lia || (vm_compute; repeat split; done).
  - apply (channel_timing_safety demo_build small_config s 40 small_log 0 1 0
      (mkCommand ACTIVATE (mkAddress 0 0 0 0 3 0) 0) 8 (mkCommand ACTIVATE (mkAddress 0 0 1 0 3 0) 0) 0 1 0
      OtherBankgroupsSameRank 8 Hc Hsh eq_refl Ht Hr);
      done || lia || (vm_compute; repeat split; done).
Defined.

Lemma channel_activate_window_witness : ∃ s, run demo_build small_config s 40 small_log ∧
  acts 0 small_log = [0; 8; 16; 24; 32] ∧ 0 + small_config.(tFAW) <= 32.
Proof.
  destruct small_run as [s Hr]. exists s. split; [done|]. split; [done|].
  destruct small_config_ok as (Hc & Hsh & _).
  apply (channel_activate_window demo_build small_config s 40 small_log 0 0 0 32 Hc Hsh eq_refl Hr);
    done || (vm_compute; repeat split; done).
Defined.

(** a new channel and what can be done with it *)
Lemma small_channel : ∃ (sh : Shared Z) cs, shared_ok small_config sh ∧ chan_fresh small_config cs.
Proof.
  assert (shared_ok small_config small_shared) as Hs.
  { pose proof (stats_init_inv small_config ltac:(vm_compute; discriminate)) as Hi. split; [|done].
    exact (conj (ri_geo _ _ _ _ Hi) (ri_ok _ _ _ _ Hi)). }
  destruct small_config_ok as (Hc & Hsh & _).
  destruct (ChannelState_new_spec small_config small_shared Hc Hsh Hs) as ([sh cs] & _ & H). by exists sh, cs.
Qed.
Definition small_cmd (t : CommandType) : Command := mkCommand t (mkAddress 0 0 1 2 3 0) 0.
Lemma small_target t : target_ok small_config (small_cmd t).
Proof. split; [|split; [intros _|intros _ _]]; vm_compute; repeat split; done. Qed.
Lemma small_can_step t cs : chan_fresh small_config cs → is_Some (next_state CLOSED t) →
  holds_on (covers (small_cmd t)) (can_step small_config (small_cmd t)) cs.(bank_states_).
Proof.
  intros Hf Ht r g k b _ Eb. destruct (cf_banks _ _ Hf _ _ _ _ Eb) as (Hb & Est & _ & Hr & Ha & Hz & _).
  split; [|by rewrite Est]. split; [done|rewrite Ha; done|]. intros _. rewrite Hr, Ha.
  split; [by vm_compute|]. split; [intros E; by rewrite E in Hz|]. done.
Qed.

Lemma channel_command_refines_witness : ∃ (sh : Shared Z) cs,
  returns (UpdateTimingAndStates demo_build small_config (Timing_new small_config) sh cs (small_cmd ACTIVATE) 10)
    (λ r, returns (bank_at r.2.(bank_states_) 0 1 2) (λ b, b.(state_) = OPEN ∧ aget b.(cmd_timing_) (ct_int READ) = Ret 43)).
Proof.
  destruct small_channel as (sh & cs & Hs & Hf). exists sh, cs. destruct small_config_ok as (Hc & Hsh & _).
  pose proof (cf_ok _ _ Hf) as Hok.
  eapply returns_mono; [apply (channel_command_refines demo_build small_config sh cs (small_cmd ACTIVATE) 10 Hc Hsh
    eq_refl Hs Hok); [apply small_target|done|apply small_can_step; [done|by eexists]]|].
  intros [sh' cs'] [_ Hst]. cbn [fst snd] in *.
  destruct (bank_at_ok small_config cs.(bank_states_) 0 1 2) as [b Eb]; [apply Hok|vm_compute; repeat split; done|].
  destruct (ch_bank _ _ _ _ _ _ _ Hst _ _ _ _ Eb) as (b1 & (st & Hn & Hbs) & Eb1).
  destruct (cf_banks _ _ Hf _ _ _ _ Eb) as (_ & Est & Htm & _). rewrite Est in Hn. cbn in Hn. injection Hn as <-.
  eexists. split; [exact Eb1|]. rsimp. split; [apply Hbs|]. rewrite Htm. vm_compute. reflexivity.
Defined.

Lemma channel_ready_legal_witness : ∃ (sh : Shared Z) cs, request_ok small_config cs (small_cmd READ) ∧
  returns (GetReadyCommand demo_build small_config sh cs (small_cmd READ) 10) (λ r, r.2 = Command0 ∨
    chan_ready demo_build small_config r.1.2 (small_cmd READ) 10 r.2).
Proof.
  destruct small_channel as (sh & cs & Hs & Hf). exists sh, cs. destruct small_config_ok as (Hc & Hsh & _).
  assert (request_ok small_config cs (small_cmd READ)) as Hreq.
  { split; [apply small_target|]. split; [|by vm_compute]. intros r g k b _ _. by left. }
  split; [done|].
  eapply returns_mono; [apply (channel_ready_legal demo_build small_config sh cs (small_cmd READ) 10 Hc Hsh Hs
    (cf_ok _ _ Hf) (sync_fresh small_config cs Hf) Hreq)|]. by intros r (_ & _ & ?).
Defined.

Lemma refresh_bank_leaves_bank_free_witness : ∃ (sh : Shared Z) cs,
  returns (UpdateTimingAndStates demo_build small_config (Timing_new small_config) sh cs (small_cmd REFRESH_BANK) 10)
    (λ r, returns (bank_at r.2.(bank_states_) 0 1 2)
      (λ b, b.(state_) = CLOSED ∧ aget b.(cmd_timing_) (ct_int ACTIVATE) = Ret 0)).
Proof.
  destruct small_channel as (sh & cs & Hs & Hf). exists sh, cs. destruct small_config_ok as (Hc & Hsh & _).
  pose proof (cf_ok _ _ Hf) as Hok.
  destruct (bank_at_ok small_config cs.(bank_states_) 0 1 2) as [b Eb]; [apply Hok|vm_compute; repeat split; done|].
  destruct (cf_banks _ _ Hf _ _ _ _ Eb) as (_ & Est & Htm & _).
  eapply returns_mono; [apply (refresh_bank_leaves_bank_free demo_build small_config sh cs (small_cmd REFRESH_BANK)
    10 b Hc Hsh eq_refl Hs Hok); [apply small_target|done|apply small_can_step; [done|by eexists]|done]|].
  intros r Hr. eapply returns_mono; [exact Hr|]. intros b' [E ?]. split; [done|]. by rewrite E, Htm.
Defined.
