(* ===== verification/Refresh.v ===== *)
(** * DRAMsim3: the refresh generator (DRAMsim3/src/refresh.h, refresh.cc)

    A counter that queues a refresh on the channel every interval, for the next target of the
    policy. The theorems give the whole schedule in closed form, its coverage, and the bank sets
    that the bank-set policy never refreshes. *)
From S2P Require Import Prelude Common Config BankState ChannelState ChannelSpec ChannelRun ChannelSafety.
Open Scope Z_scope.

Record Refresh := mkRefresh {
  clk_ : Z;
  refresh_interval_ : Z;
  refresh_policy_ : RefreshPolicy;
  next_rank_ : Z; next_bg_ : Z; next_bank_ : Z
}.

Section Refresh.
Context (c : Config).
Implicit Types (r : Refresh) (cs : ChannelState).

Definition Refresh_new : outcome Refresh :=
  interval ← match c.(refresh_policy) with
    | RANK_LEVEL_SIMULTANEOUS => Ret c.(tREFI)
    | BANKSET_LEVEL_STAGGERED => Ret c.(tREFIsb)
    | BANK_LEVEL_STAGGERED => Ret c.(tREFIb)
    | _ => iquot c.(tREFI) c.(ranks)
    end;
  Ret (mkRefresh 0 interval c.(refresh_policy) 0 0 0).

(** [(x + 1) % n] on [int]s *)
Definition next_mod (x n : Z) : outcome Z := irem (i32 (x + 1)) n.

Definition next_rank r : outcome Refresh :=
  n ← next_mod r.(next_rank_) c.(ranks); Ret (r <| next_rank_ := n |>).
(** the next bank, and the next rank when it wraps *)
Definition next_bank r : outcome Refresh :=
  n ← next_mod r.(next_bank_) c.(banks_per_group);
  let r := r <| next_bank_ := n |> in
  if n =? 0 then next_rank r else Ret r.
(** the next bank group, and the next bank when it wraps *)
Definition next_bg r : outcome Refresh :=
  n ← next_mod r.(next_bg_) c.(bankgroups);
  let r := r <| next_bg_ := n |> in
  if n =? 0 then next_bank r else Ret r.

(** the case of the bank-set policy falls through to the one of the bank policy *)
Definition IterateNext r : outcome Refresh :=
  match r.(refresh_policy_) with
  | RANK_LEVEL_STAGGERED => next_rank r
  | BANKSET_LEVEL_STAGGERED => r ← next_bank r; next_bg r
  | BANK_LEVEL_STAGGERED => next_bg r
  | _ => AbruptExit
  end.

(** [if (!channel_state_.IsRankSelfRefreshing(next_rank_)) queue; IterateNext()] *)
Definition staggered r cs (queue : ChannelState → ChannelState) : outcome (Refresh * ChannelState) :=
  sref ← IsRankSelfRefreshing cs r.(next_rank_);
  r' ← IterateNext r;
  Ret (r', if sref : bool then cs else queue cs).
Definition InsertRefresh r cs : outcome (Refresh * ChannelState) :=
  match r.(refresh_policy_) with
  | RANK_LEVEL_SIMULTANEOUS =>
      x ← for_ret (seqZ 0 c.(ranks)) cs (λ cs i,
        sref ← IsRankSelfRefreshing cs i;
        Ret (if sref : bool then (cs, None) else (RankNeedRefresh cs i true, Some tt)));
      Ret (r, x.1)
  | RANK_LEVEL_STAGGERED => staggered r cs (λ cs, RankNeedRefresh cs r.(next_rank_) true)
  | BANKSET_LEVEL_STAGGERED =>
      staggered r cs (λ cs, BanksetNeedRefresh cs r.(next_rank_) r.(next_bank_) true)
  | BANK_LEVEL_STAGGERED =>
      staggered r cs (λ cs, BankNeedRefresh cs r.(next_rank_) r.(next_bg_) r.(next_bank_) true)
  | NO_REFRESH => Ret (r, cs)
  end.

Definition ClockTick r cs : outcome (Refresh * ChannelState) :=
  m ← umod r.(clk_) (u64 r.(refresh_interval_));
  s ← (if (m =? 0) && (0 <? r.(clk_)) then InsertRefresh r cs else Ret (r, cs));
  let (r, cs) := s : Refresh * ChannelState in
  Ret (r <| clk_ ::= λ n, u64 (n + 1) |>, cs).

(** ** The schedule *)

(** the [n]-th refresh the generator queues, when no rank is in self-refresh *)
Definition refresh_target (n : Z) : option Command :=
  match c.(refresh_policy) with
  | RANK_LEVEL_SIMULTANEOUS => Some (maint_cmd REFab 0 (-1) (-1))
  | RANK_LEVEL_STAGGERED => Some (maint_cmd REFab (n mod c.(ranks)) (-1) (-1))
  | BANKSET_LEVEL_STAGGERED =>
      let m := n + n / c.(bankgroups) in
      Some (maint_cmd REFsb ((m / c.(banks_per_group)) mod c.(ranks)) (-1) (m mod c.(banks_per_group)))
  | BANK_LEVEL_STAGGERED =>
      let m := n / c.(bankgroups) in
      Some (maint_cmd REFRESH_BANK ((m / c.(banks_per_group)) mod c.(ranks)) (n mod c.(bankgroups))
        (m mod c.(banks_per_group)))
  | NO_REFRESH => None
  end.

(** the position after [n] refreshes: [m] banks have been passed *)
Definition position (n m : Z) r : Prop :=
  r.(next_bg_) = n mod c.(bankgroups) ∧ r.(next_bank_) = m mod c.(banks_per_group) ∧
  r.(next_rank_) = (m / c.(banks_per_group)) mod c.(ranks).
Definition after_refreshes (n : Z) r : Prop :=
  match c.(refresh_policy) with
  | RANK_LEVEL_STAGGERED => r.(next_rank_) = n mod c.(ranks)
  | BANKSET_LEVEL_STAGGERED => position n (n + n / c.(bankgroups)) r
  | BANK_LEVEL_STAGGERED => position n (n / c.(bankgroups)) r
  | _ => True
  end.
Definition same_setup r r' : Prop :=
  r'.(clk_) = r.(clk_) ∧ r'.(refresh_interval_) = r.(refresh_interval_) ∧
  r'.(refresh_policy_) = r.(refresh_policy_).

Context (Hshape : shape_ok c).

Lemma next_mod_spec n k : 0 <= n → 0 < k < 2147483648 → next_mod (n mod k) k = Ret ((n + 1) mod k).
Proof.
  intros Hn Hk. pose proof (Z.mod_pos_bound n k ltac:(lia)). unfold next_mod.
  rewrite i32_id by (unfold is_i32; lia). rewrite irem_ok by lia. f_equal.
  rewrite Z.rem_mod_nonneg by lia. apply Z.add_mod_idemp_l. lia.
Qed.
Lemma next_quot n k : 0 <= n → 0 < k → (n + 1) / k = n / k + (if (n + 1) mod k =? 0 then 1 else 0).
Proof.
  intros Hn Hk. destruct (Z.eqb_spec ((n + 1) mod k) 0) as [E|E].
  - apply Z.mod_divide in E as [q Eq]; [|lia]. rewrite Eq, Z.div_mul by lia.
    assert (n = q * k - 1) as -> by lia. replace (q * k - 1) with (k - 1 + (q - 1) * k) by lia.
    rewrite Z.div_add by lia. rewrite (Z.div_small (k - 1) k) by lia. lia.
  - rewrite Z.add_0_r. pose proof (Z.mod_pos_bound (n + 1) k ltac:(lia)). pose proof (Z.div_mod (n + 1) k ltac:(lia)).
    apply (Z.div_unique_pos _ _ _ ((n + 1) mod k - 1)); lia.
Qed.

Lemma next_rank_spec r n : 0 <= n → r.(next_rank_) = n mod c.(ranks) →
  next_rank r = Ret (r <| next_rank_ := (n + 1) mod c.(ranks) |>).
Proof.
  intros Hn E. destruct Hshape as [Hr _ _ _ _]. unfold next_rank. rewrite E, next_mod_spec by lia. done.
Qed.
Lemma next_bank_spec n r m : 0 <= m → position n m r →
  returns (next_bank r) (λ r', position n (m + 1) r' ∧ same_setup r r').
Proof.
  intros Hm (E1 & E2 & E3). destruct Hshape as [Hr Hbg Hbpg _ _]. unfold next_bank.
  rewrite E2, next_mod_spec by lia. cbn [mbind outcome_bind].
  pose proof (next_quot m c.(banks_per_group) Hm ltac:(lia)) as Hq.
  destruct (Z.eqb_spec ((m + 1) mod c.(banks_per_group)) 0) as [E0|E0].
  - erewrite next_rank_spec; [|apply (Z.div_pos m c.(banks_per_group)); lia|exact E3].
    apply returns_ret. unfold position. rsimp. by rewrite Hq, E0.
  - apply returns_ret. unfold position. rsimp. by rewrite Hq, Z.add_0_r.
Qed.
Lemma next_bg_spec r n m : 0 <= n → 0 <= m → position n m r →
  returns (next_bg r) (λ r', position (n + 1) (m + ((n + 1) / c.(bankgroups) - n / c.(bankgroups))) r' ∧
    same_setup r r').
Proof.
  intros Hn Hm (E1 & E2 & E3). destruct Hshape as [Hr Hbg Hbpg _ _]. unfold next_bg.
  rewrite E1, next_mod_spec by lia. cbn [mbind outcome_bind].
  rewrite (next_quot n c.(bankgroups)) by lia.
  destruct (Z.eqb_spec ((n + 1) mod c.(bankgroups)) 0) as [E0|E0].
  - eapply returns_mono; [apply (next_bank_spec (n + 1) _ m Hm); by split|]. intros r' [Hp Hs].
    split; [|exact Hs]. replace (m + _) with (m + 1) by lia. exact Hp.
  - apply returns_ret. split; [|done]. replace (m + _) with m by lia. by split.
Qed.

Definition all_awake cs : Prop := ∀ i, 0 <= i < c.(ranks) → IsRankSelfRefreshing cs i = Ret false.
Definition queued (n : Z) cs : ChannelState :=
  cs <| refresh_q_ ::= λ q, q ++ omap refresh_target (seqZ 0 n) |>.

Lemma IterateNext_spec r n : 0 <= n → r.(refresh_policy_) = c.(refresh_policy) →
  c.(refresh_policy) = RANK_LEVEL_STAGGERED ∨ c.(refresh_policy) = BANKSET_LEVEL_STAGGERED ∨
    c.(refresh_policy) = BANK_LEVEL_STAGGERED →
  after_refreshes n r → returns (IterateNext r) (λ r', after_refreshes (n + 1) r' ∧ same_setup r r').
Proof.
  intros Hn Ep Hpol Hpos. pose proof Hshape as [Hr Hbg Hbpg _ _]. unfold IterateNext, after_refreshes in *. rewrite Ep.
  assert (0 <= n / c.(bankgroups)) by (apply Z.div_pos; lia).
  destruct Hpol as [E|[E|E]]; rewrite E in *.
  - rewrite (next_rank_spec r n Hn Hpos). apply returns_ret. by split.
  - eapply returns_bind; [apply (next_bank_spec n r); [|exact Hpos]; lia|]. intros r1 [H1 S1].
    eapply returns_mono; [eapply (next_bg_spec r1 n _ Hn); [|exact H1]; lia|]. intros r2 [H2 S2]. split.
    + replace (n + 1 + (n + 1) / c.(bankgroups)) with
        (n + n / c.(bankgroups) + 1 + ((n + 1) / c.(bankgroups) - n / c.(bankgroups))) by lia. exact H2.
    + unfold same_setup in *. destruct S1 as (? & ? & ?), S2 as (? & ? & ?). split_and!; congruence.
  - eapply returns_mono; [eapply (next_bg_spec r n _ Hn); [|exact Hpos]; lia|]. intros r2 [H2 S2]. split; [|done].
    replace ((n + 1) / c.(bankgroups)) with
      (n / c.(bankgroups) + ((n + 1) / c.(bankgroups) - n / c.(bankgroups))) by lia. exact H2.
Qed.

Lemma queued_snoc n cs : 0 <= n →
  queued (n + 1) cs = match refresh_target n with
    | Some x => queued n cs <| refresh_q_ ::= λ q, q ++ [x] |> | None => queued n cs end.
Proof.
  intros Hn. unfold queued. rewrite (seqZ_app 0 n 1) by lia. rewrite omap_app.
  assert (seqZ (0 + n) 1 = [n]) as -> by (rewrite seqZ_cons, seqZ_nil by lia; f_equal; lia). cbn [omap list_omap].
  destruct cs, (refresh_target n); unfold set_field, setter; cbn; by rewrite ?app_nil_r, ?app_assoc.
Qed.

Lemma InsertRefresh_spec r cs n : 0 <= n → r.(refresh_policy_) = c.(refresh_policy) → all_awake cs →
  after_refreshes n r →
  returns (InsertRefresh r (queued n cs)) (λ s, s.2 = queued (n + 1) cs ∧ after_refreshes (n + 1) s.1 ∧ same_setup r s.1).
Proof.
  intros Hn Ep Haw Hpos. pose proof Hshape as [Hr Hbg Hbpg _ _].
  rewrite (queued_snoc n cs Hn). pose proof (IterateNext_spec r n Hn Ep) as Hit.
  unfold InsertRefresh, staggered. rewrite Ep. unfold refresh_target. pose proof Hpos as Hp. unfold after_refreshes in Hp.
  assert (∀ i, 0 <= i < c.(ranks) → IsRankSelfRefreshing (queued n cs) i = Ret false) as Hq by exact Haw.
  destruct (refresh_policy c) eqn:E.
  - rewrite (seqZ_cons 0) by lia. cbn [for_ret]. rewrite (Hq 0) by lia. cbn [mbind outcome_bind fst snd].
    apply returns_ret. split; [done|]. unfold after_refreshes. by rewrite E.
  - rewrite Hq by (rewrite Hp; apply Z.mod_pos_bound; lia). cbn [mbind outcome_bind].
    eapply returns_bind; [apply Hit; auto|]. intros r' [H1 H2]. apply returns_ret. cbn [fst snd].
    split; [|done]. by rewrite Hp.
  - destruct Hp as (E1 & E2 & E3). rewrite Hq by (rewrite E3; apply Z.mod_pos_bound; lia). cbn [mbind outcome_bind].
    eapply returns_bind; [apply Hit; auto|]. intros r' [H1 H2]. apply returns_ret. cbn [fst snd].
    split; [|done]. by rewrite E2, E3.
  - destruct Hp as (E1 & E2 & E3). rewrite Hq by (rewrite E3; apply Z.mod_pos_bound; lia). cbn [mbind outcome_bind].
    eapply returns_bind; [apply Hit; auto|]. intros r' [H1 H2]. apply returns_ret. cbn [fst snd].
    split; [|done]. by rewrite E1, E2, E3.
  - apply returns_ret. split; [done|]. unfold after_refreshes. by rewrite E.
Qed.

Definition ticks (n : Z) (s : Refresh * ChannelState) : outcome (Refresh * ChannelState) :=
  for_ (seqZ 0 n) s (λ s _, ClockTick s.1 s.2).
(** after [t] ticks, the multiples of the interval from 1 to [t - 1] have passed *)
Definition insertions (interval t : Z) : Z := if t =? 0 then 0 else (t - 1) / interval.

Definition tick_inv (interval : Z) cs (t : Z) (s : Refresh * ChannelState) : Prop :=
  s.1.(clk_) = t ∧ s.1.(refresh_interval_) = interval ∧ s.1.(refresh_policy_) = c.(refresh_policy) ∧
  after_refreshes (insertions interval t) s.1 ∧ s.2 = queued (insertions interval t) cs.

Lemma insertions_next interval t : 0 <= t → 0 < interval →
  insertions interval (t + 1) =
    insertions interval t + (if (t mod interval =? 0) && (0 <? t) then 1 else 0) ∧ 0 <= insertions interval t.
Proof.
  intros Ht Hi. unfold insertions. destruct (Z.eqb_spec (t + 1) 0); [lia|]. replace (t + 1 - 1) with t by lia.
  destruct (Z.eqb_spec t 0) as [->|Hne].
  - rewrite Z.div_0_l, andb_false_r by lia. lia.
  - pose proof (next_quot (t - 1) interval ltac:(lia) Hi) as Hq. replace (t - 1 + 1) with t in Hq by lia. rewrite Hq.
    assert (0 <? t = true) as -> by lia. rewrite andb_true_r. split; [lia|]. apply Z.div_pos; lia.
Qed.

Lemma tick_spec interval cs t s : 0 < interval < 2147483648 → 0 <= t < 18446744073709551615 → all_awake cs →
  tick_inv interval cs t s → returns (ClockTick s.1 s.2) (tick_inv interval cs (t + 1)).
Proof.
  intros Hi Ht Haw (E1 & E2 & E3 & E4 & E5). destruct s as [r cs']. cbn [fst snd] in *. unfold ClockTick.
  rewrite E1, E2, (u64_id interval) by (unfold is_u64; lia). rewrite umod_ok by lia. cbn [mbind outcome_bind].
  destruct (insertions_next interval t ltac:(lia) ltac:(lia)) as [En H0]. unfold tick_inv. rewrite En.
  destruct ((t mod interval =? 0) && (0 <? t)).
  - rewrite E5. eapply returns_bind; [by apply InsertRefresh_spec|]. intros [r' cs2] (Q & A & (S1 & S2 & S3)).
    cbn [fst snd] in *. apply returns_ret. cbn [fst snd]. rsimp. rewrite S1, E1, S2, S3, u64_id by (unfold is_u64; lia).
    split_and!; try done.
  - cbn [mbind outcome_bind]. apply returns_ret. cbn [fst snd]. rsimp. rewrite E1, u64_id by (unfold is_u64; lia).
    rewrite Z.add_0_r. split_and!; done.
Qed.

Lemma ticks_spec r cs t : Refresh_new = Ret r → 0 < r.(refresh_interval_) < 2147483648 →
  0 <= t < 18446744073709551616 → all_awake cs →
  returns (ticks t (r, cs)) (tick_inv r.(refresh_interval_) cs t).
Proof.
  intros En Hi Ht Haw. pose proof Hshape as [Hr Hbg Hbpg _ _]. unfold ticks.
  apply (for_seqZ (λ t s, tick_inv r.(refresh_interval_) cs t s) 0 t); [lia| |].
  - apply bind_Ret in En as (iv & _ & [= <-]). unfold tick_inv, after_refreshes, position. cbn.
    rewrite ?Z.div_0_l, ?Z.mod_0_l by lia. cbn. rewrite ?Z.div_0_l, ?Z.mod_0_l by lia.
    split_and!; try done; [by destruct (refresh_policy c)|]. unfold queued. cbn. unfold set_field, setter. cbn.
    destruct cs. cbn. by rewrite app_nil_r.
  - intros s i Hit Hs. apply tick_spec; try done. lia.
Qed.
End Refresh.

(** ** The properties *)

(** C31. With every rank awake, after [t] clock ticks the generator has queued exactly the refreshes of
    the intervals that have passed, in the order of its policy's schedule. *)
Theorem refresh_schedule (c : Config) (r : Refresh) (cs : ChannelState) (t : Z) :
  shape_ok c → Refresh_new c = Ret r → 0 < r.(refresh_interval_) < 2147483648 →
  0 <= t < 18446744073709551616 → all_awake c cs →
  returns (ticks c t (r, cs)) (λ s, s.2.(refresh_q_) =
    cs.(refresh_q_) ++ omap (refresh_target c) (seqZ 0 (insertions r.(refresh_interval_) t))).
Proof.
  intros Hsh En Hi Ht Haw. eapply returns_mono; [by apply ticks_spec|]. intros s (_ & _ & _ & _ & ->). done.
Qed.

Lemma digits_unique a x y g z : 0 <= x < a → 0 <= g < a → x + a * y = g + a * z → x = g ∧ y = z.
Proof. intros. assert (y = z) by nia. subst. split; lia. Qed.
Lemma bank_digits (a b d j r g k : Z) : 0 < a → 0 < b → 0 < d → 0 <= g < a → 0 <= k < b → 0 <= r < d →
  j mod (a * (b * d)) = g + a * (k + b * r) ↔
  j mod a = g ∧ (j / a) mod b = k ∧ (j / a / b) mod d = r.
Proof.
  intros Ha Hb Hd Hg Hk Hr. rewrite (Z.rem_mul_r j a), (Z.rem_mul_r (j / a) b) by nia.
  pose proof (Z.mod_pos_bound j a ltac:(lia)). pose proof (Z.mod_pos_bound (j / a) b ltac:(lia)). split.
  - intros E. apply digits_unique in E as [E1 E]; [|lia..]. apply digits_unique in E as [E2 E3]; [|lia..]. done.
  - by intros (-> & -> & ->).
Qed.
(** each residue comes once in every period *)
Lemma period_unique (p v n : Z) : 0 < p → 0 <= v < p →
  ∃ i, n <= i < n + p ∧ i mod p = v ∧ ∀ j, n <= j < n + p → j mod p = v → j = i.
Proof.
  intros Hp Hv. exists (n + (v - n) mod p). pose proof (Z.mod_pos_bound (v - n) p ltac:(lia)).
  assert ((n + (v - n) mod p) mod p = v) as E.
  { rewrite Z.add_mod_idemp_r by lia. replace (n + (v - n)) with v by lia. by apply Z.mod_small. }
  split; [lia|]. split; [done|]. intros j Hj Ej.
  set (i := n + (v - n) mod p) in *. assert (n <= i < n + p) as Hi by lia.
  pose proof (Z.div_mod j p ltac:(lia)) as Dj. pose proof (Z.div_mod i p ltac:(lia)) as Di.
  rewrite E in Di. rewrite Ej in Dj. assert (j / p = i / p) as Eq by nia. rewrite Eq in Dj. lia.
Qed.

(** The staggered policies are fair: among any [ranks] (for the rank policy) or [ranks * banks] (for the
    bank policy) consecutive refreshes, every rank, or every bank, is refreshed exactly once. *)
Theorem refresh_covers (c : Config) (n : Z) :
  shape_ok c → 0 <= n →
  (c.(refresh_policy) = RANK_LEVEL_STAGGERED → ∀ r, 0 <= r < c.(ranks) →
     ∃ i, n <= i < n + c.(ranks) ∧ refresh_target c i = Some (maint_cmd REFab r (-1) (-1)) ∧
       ∀ j, n <= j < n + c.(ranks) → refresh_target c j = Some (maint_cmd REFab r (-1) (-1)) → j = i) ∧
  (c.(refresh_policy) = BANK_LEVEL_STAGGERED → ∀ r g k, in_grid c r g k →
     ∃ i, n <= i < n + c.(ranks) * c.(banks) ∧ refresh_target c i = Some (maint_cmd REFRESH_BANK r g k) ∧
       ∀ j, n <= j < n + c.(ranks) * c.(banks) →
         refresh_target c j = Some (maint_cmd REFRESH_BANK r g k) → j = i).
Proof.
  intros [Hr Hbg Hbpg Hbk _] Hn. unfold refresh_target. split; intros ->.
  - intros r Hr'. destruct (period_unique c.(ranks) r n) as (i & Hi & Ei & Hu); [lia..|].
    exists i. split; [done|]. split; [by rewrite Ei|]. intros j Hj [= Ej]. by apply Hu.
  - intros r g k (Hri & Hgi & Hki). rewrite Hbk.
    replace (c.(ranks) * (c.(bankgroups) * c.(banks_per_group))) with
      (c.(bankgroups) * (c.(banks_per_group) * c.(ranks))) by lia.
    set (v := g + c.(bankgroups) * (k + c.(banks_per_group) * r)).
    assert (0 <= v < c.(bankgroups) * (c.(banks_per_group) * c.(ranks))) as Hv.
    { assert (0 <= k + c.(banks_per_group) * r <= c.(banks_per_group) * c.(ranks) - 1) as Hx by nia.
      subst v. set (x := k + _) in *. set (y := c.(banks_per_group) * c.(ranks)) in *. nia. }
    destruct (period_unique (c.(bankgroups) * (c.(banks_per_group) * c.(ranks))) v n) as (i & Hi & Ei & Hu); [lia|lia|]. exists i. split; [done|].
    apply bank_digits in Ei as (E1 & E2 & E3); [|lia..]. split; [by rewrite E1, E2, E3|].
    intros j Hj [= Ej1 Ej2 Ej3]. apply Hu; [done|]. apply bank_digits; [lia..|done].
Qed.

(** The bank-set policy is not fair: its case falls through to the bank policy's, so the bank counter
    moves twice when the bank group wraps. When [bankgroups + 1] divides the banks of a group, the bank
    sets [k] with [k = bankgroups] modulo [bankgroups + 1] (with one bank group, the odd ones) are never
    queued for refresh, however long the simulation runs. *)
Theorem refresh_bankset_skips (c : Config) (r : Refresh) (cs : ChannelState) (t k : Z) :
  shape_ok c → Refresh_new c = Ret r → 0 < r.(refresh_interval_) < 2147483648 →
  0 <= t < 18446744073709551616 → all_awake c cs → cs.(refresh_q_) = [] →
  c.(refresh_policy) = BANKSET_LEVEL_STAGGERED →
  (c.(bankgroups) + 1 | c.(banks_per_group)) → k mod (c.(bankgroups) + 1) = c.(bankgroups) →
  returns (ticks c t (r, cs)) (λ s, Forall (λ x, Bank x ≠ k) s.2.(refresh_q_)).
Proof.
  intros Hsh En Hi Ht Haw Hq Ep [q Hdiv] Hk. pose proof Hsh as [Hr Hbg Hbpg _ _].
  eapply returns_mono; [by apply (ticks_spec c Hsh r cs t)|]. intros s (_ & _ & _ & _ & ->).
  unfold queued. rsimp. rewrite Hq. cbn [app]. apply Forall_forall. intros x Hx.
  apply list_elem_of_omap in Hx as (n & Hn & Hx). apply elem_of_seqZ in Hn.
  unfold refresh_target in Hx. rewrite Ep in Hx. injection Hx as <-. unfold Bank. cbn [maint_cmd addr bank].
  set (b := c.(bankgroups)) in *. assert (0 <= n) as Hn0 by lia. intros E.
  pose proof (Z.mod_pos_bound n b ltac:(lia)) as Hm. pose proof (Z.div_mod n b ltac:(lia)) as Hd.
  assert ((n + n / b) mod (b + 1) = n mod b) as E1.
  { symmetry. apply (Z.mod_unique_pos _ _ (n / b)); lia. }
  assert (((n + n / b) mod c.(banks_per_group)) mod (b + 1) = (n + n / b) mod (b + 1)) as E2.
  { rewrite Hdiv, Z.mul_comm. rewrite Z.rem_mul_r by nia.
    rewrite Z.mul_comm, Z.mod_add by lia. apply Z.mod_mod. lia. }
  rewrite E, Hk, E1 in E2. lia.
Qed.

(** ** Witnesses: a channel with two ranks and every rank awake *)
Definition refresh_config (p : RefreshPolicy) (bg : Z) : Config :=
  small_config <| dram_ ::= λ d, d <| bankgroups := bg |> <| banks := bg * 4 |> |>
    <| size_ ::= λ s, s <| ranks := 2 |> |> <| system_ ::= λ s, s <| refresh_policy := p |> |>.
Definition awake_channel : ChannelState :=
  mkChannelState [0; 0] [false; false] [] [] [] [[]; []] [[]; []] false 0 0.
Lemma awake_channel_ok p bg : all_awake (refresh_config p bg) awake_channel.
Proof.
  intros i Hi. change (ranks (refresh_config p bg)) with 2 in Hi. assert (i = 0 ∨ i = 1) as [-> | ->] by lia; done.
Qed.
Lemma refresh_config_shape p bg : 0 < bg < 1000 → shape_ok (refresh_config p bg).
Proof.
  intros Hbg. split; [change (0 < 2 < 2147483648)|change (0 < bg < 2147483648)|change (0 < 4 < 2147483648)
    |change (bg * 4 = bg * 4)|change (bg * 4 < 2147483648)]; lia.
Qed.

Lemma refresh_schedule_witness :
  let c := refresh_config BANK_LEVEL_STAGGERED 2 in
  returns (r ← Refresh_new c; ticks c 14042 (r, awake_channel)) (λ s, s.2.(refresh_q_) =
    [maint_cmd REFRESH_BANK 0 0 0; maint_cmd REFRESH_BANK 0 1 0; maint_cmd REFRESH_BANK 0 0 1]).
Proof.
  cbv zeta. destruct (Refresh_new (refresh_config BANK_LEVEL_STAGGERED 2)) as [r|] eqn:E; [|done].
  assert (r.(refresh_interval_) = 4680) as Ei by (vm_compute in E; by injection E as <-).
  eapply returns_mono; [apply (refresh_schedule (refresh_config BANK_LEVEL_STAGGERED 2) r awake_channel 14042);
    [by apply refresh_config_shape|done|rewrite Ei; lia|lia|apply awake_channel_ok]|].
  intros s ->. rewrite Ei. vm_compute. reflexivity.
Defined.

Lemma refresh_covers_witness :
  let c := refresh_config BANK_LEVEL_STAGGERED 2 in
  ∃ i, 5 <= i < 21 ∧ refresh_target c i = Some (maint_cmd REFRESH_BANK 0 1 1).
Proof.
  cbv zeta. destruct (refresh_covers (refresh_config BANK_LEVEL_STAGGERED 2) 5) as [_ H];
    [by apply refresh_config_shape|lia|].
  destruct (H eq_refl 0 1 1) as (i & Hi & E & _); [vm_compute; repeat split; done|].
  exists i. split; [exact Hi|exact E].
Defined.

Lemma refresh_bankset_skips_witness :
  let c := refresh_config BANKSET_LEVEL_STAGGERED 1 in
  returns (r ← Refresh_new c; ticks c 1000000 (r, awake_channel)) (λ s,
    Forall (λ x, Bank x ≠ 1) s.2.(refresh_q_)).
Proof.
  cbv zeta. destruct (Refresh_new (refresh_config BANKSET_LEVEL_STAGGERED 1)) as [r|] eqn:E; [|done].
  assert (r.(refresh_interval_) = 1170) as Ei by (vm_compute in E; by injection E as <-).
  apply (refresh_bankset_skips (refresh_config BANKSET_LEVEL_STAGGERED 1) r awake_channel 1000000 1);
    [by apply refresh_config_shape|done|rewrite Ei; lia|lia|apply awake_channel_ok|done|done|by exists 2|done].
Defined.
