(* ===== verification/CommandQueue.v ===== *)
(** * DRAMsim3: the command queues (DRAMsim3/src/command_queue.h, command_queue.cc)

    One queue of commands per rank or per bank, visited round robin. A refresh or an RFM in
    progress keeps the queues of its banks out; a precharge waits for the row hits of its
    bank and a write for the reads before it. The queues ask the channel through
    [ChannelState.GetReadyCommand], which may queue an RFM there. *)
From S2P Require Import Prelude Common Config Stats BankState ChannelState.
From stdpp Require Import gmap.
Open Scope Z_scope.

Inductive QueueStructure : Set := PER_RANK | PER_BANK.

Record CommandQueue := mkCommandQueue {
  rank_q_empty : list bool;
  queue_structure_ : QueueStructure;
  queues_ : list (list Command);
  ref_q_indices_ : gset Z;
  is_in_ref_ : bool;
  rfm_q_indices_ : gset Z;
  is_in_rfm_ : bool;
  num_queues_ : Z;
  queue_size_ : Z;
  queue_idx_ : Z;
  q_clk_ : Z
}.

Section Queue.
Context {G : Type} `{Rng64 G} (B : Build) (c : Config).
Implicit Types (sh : Shared G) (cs : ChannelState) (q : CommandQueue) (cmd : Command).

Definition CommandQueue_new : outcome CommandQueue :=
  if c.(ranks) <? 0 then Fault Throw
  else
    s ← (if decide (c.(Config.queue_structure) = "PER_BANK"%string)
         then Ret (PER_BANK, i32 (c.(banks) * c.(ranks)))
         else if decide (c.(Config.queue_structure) = "PER_RANK"%string) then Ret (PER_RANK, c.(ranks))
         else AbruptExit);
    let '(structure, num) := s : QueueStructure * Z in
    if (num <? 0) || ((0 <? num) && (c.(cmd_queue_size) <? 0)) then Fault Throw
    else Ret {| rank_q_empty := replicate (Z.to_nat c.(ranks)) true; queue_structure_ := structure;
                queues_ := replicate (Z.to_nat num) []; ref_q_indices_ := ∅; is_in_ref_ := false;
                rfm_q_indices_ := ∅; is_in_rfm_ := false; num_queues_ := num;
                queue_size_ := u64 c.(cmd_queue_size); queue_idx_ := 0; q_clk_ := 0 |}.

(** ** Queues by bank *)

Definition GetQueueIndex q (rank bankgroup bank : Z) : Z :=
  match q.(queue_structure_) with
  | PER_RANK => rank
  | PER_BANK => i32 (rank * c.(banks) + bankgroup * c.(banks_per_group) + bank)
  end.
Definition GetQueue q (rank bankgroup bank : Z) : outcome (list Command) :=
  aget q.(queues_) (GetQueueIndex q rank bankgroup bank).
Definition set_queue q (rank bankgroup bank : Z) (l : list Command) : outcome CommandQueue :=
  qs ← aset q.(queues_) (GetQueueIndex q rank bankgroup bank) l;
  Ret (q <| queues_ := qs |>).

Definition WillAcceptCommand q (rank bankgroup bank : Z) : outcome bool :=
  l ← GetQueue q rank bankgroup bank; Ret (zlen l <? q.(queue_size_)).
Definition QueueEmpty q : bool := forallb (λ l, match l with [] => true | _ => false end) q.(queues_).
Definition QueueUsage q : Z := foldl (λ usage l, i32 (usage + zlen l)) 0 q.(queues_).

Definition AddCommand q cmd : outcome (CommandQueue * bool) :=
  l ← GetQueue q (Rank cmd) (Bankgroup cmd) (Bank cmd);
  if zlen l <? q.(queue_size_) then
    q ← set_queue q (Rank cmd) (Bankgroup cmd) (Bank cmd) (l ++ [cmd]);
    e ← aset q.(rank_q_empty) (Rank cmd) false;
    Ret (q <| rank_q_empty := e |>, true)
  else Ret (q, false).

(** the next queue, round robin *)
Definition GetNextQueue q : outcome (CommandQueue * list Command) :=
  let i := i32 (q.(queue_idx_) + 1) in
  let i := if i =? q.(num_queues_) then 0 else i in
  let q := q <| queue_idx_ := i |> in
  l ← aget q.(queues_) i; Ret (q, l).

Definition EraseRWCommand q cmd : outcome CommandQueue :=
  let p x := (cmd.(hex_addr) =? x.(hex_addr)) && Bool.eqb (IsRead cmd) (IsRead x) in
  l ← GetQueue q (Rank cmd) (Bankgroup cmd) (Bank cmd);
  if existsb p l then set_queue q (Rank cmd) (Bankgroup cmd) (Bank cmd) (erase_first p l)
  else Fault (Exit 1).

(** ** The first ready command of a queue *)

Definition same_bank_as cmd x : bool :=
  (Rank x =? Rank cmd) && (Bankgroup x =? Bankgroup cmd) && (Bank x =? Bank cmd).

(** [prev] are the commands before [*cmd_it], [rest] those from [*cmd_it] on *)
Definition ArbitratePrecharge sh cs (prev : list Command) cmd (rest : list Command) : outcome (Shared G * bool) :=
  if existsb (same_bank_as cmd) prev then Ret (sh, false)
  else
    open_row ← ChannelState.OpenRow cs (Rank cmd) (Bankgroup cmd) (Bank cmd);
    let pending := existsb (λ x, (Row x =? open_row) && same_bank_as cmd x) rest in
    hits ← ChannelState.RowHitCount cs (Rank cmd) (Bankgroup cmd) (Bank cmd);
    if negb pending || (4 <=? hits) then Ret (stat (Increment "num_ondemand_pres") sh, true)
    else Ret (sh, false).
Definition HasRWDependency (prev : list Command) cmd : bool :=
  existsb (λ x, IsRead x && (Row x =? Row cmd) && (Column x =? Column cmd) && (Bank x =? Bank cmd) &&
    (Bankgroup x =? Bankgroup cmd)) prev.

(** the loop of [GetFirstReadyInQueue] from [rest] on *)
Fixpoint first_ready (clk : Z) sh cs (prev rest : list Command) : outcome (Shared G * ChannelState * Command) :=
  match rest with
  | [] => Ret (sh, cs, Command0)
  | it :: rest' =>
      r ← ChannelState.GetReadyCommand B c sh cs it clk;
      let '(sh, cs, cmd) := r in
      if negb (IsValid cmd) then first_ready clk sh cs (prev ++ [it]) rest'
      else if ct_eqb cmd.(cmd_type) PRECHARGE || ct_eqb cmd.(cmd_type) PRECHARGE2 then
        a ← ArbitratePrecharge sh cs prev it rest;
        let (sh, ok) := a : Shared G * bool in
        if negb ok then first_ready clk sh cs (prev ++ [it]) rest' else Ret (sh, cs, cmd)
      else if IsWrite cmd && HasRWDependency prev it then first_ready clk sh cs (prev ++ [it]) rest'
      else Ret (sh, cs, cmd)
  end.
Definition GetFirstReadyInQueue sh cs q (l : list Command) : outcome (Shared G * ChannelState * Command) :=
  first_ready q.(q_clk_) sh cs [] l.

Definition held q : bool :=
  (q.(is_in_ref_) && bool_decide (q.(queue_idx_) ∈ q.(ref_q_indices_))) ||
  (q.(is_in_rfm_) && bool_decide (q.(queue_idx_) ∈ q.(rfm_q_indices_))).

Definition GetCommandToIssue sh cs q : outcome (Shared G * ChannelState * CommandQueue * Command) :=
  r ← for_ret (seqZ 0 q.(num_queues_)) (sh, cs, q) (λ s _,
    let '(sh, cs, q) := s : Shared G * ChannelState * CommandQueue in
    n ← GetNextQueue q;
    let (q, l) := n : CommandQueue * list Command in
    if held q then Ret (sh, cs, q, None)
    else
      f ← GetFirstReadyInQueue sh cs q l;
      let '(sh, cs, cmd) := f in
      if IsValid cmd then
        q ← (if IsReadWrite cmd then EraseRWCommand q cmd else Ret q);
        Ret (sh, cs, q, Some cmd)
      else Ret (sh, cs, q, None));
  Ret (r.1, default Command0 r.2).

(** ** Refresh and RFM *)

Definition insert_rank_queues q (rank : Z) (s : gset Z) : outcome (gset Z) :=
  for_ (seqZ 0 q.(num_queues_)) s (λ s i,
    r ← iquot i c.(banks); Ret (if r =? rank then {[ i ]} ∪ s else s)).
Definition insert_bankset_queues q (rank bank : Z) (s : gset Z) : gset Z :=
  foldl (λ s i, {[ GetQueueIndex q rank i bank ]} ∪ s) s (seqZ 0 c.(bankgroups)).

Definition GetRefQIndices q (ref : Command) : outcome CommandQueue :=
  s ← (if ct_eqb ref.(cmd_type) REFab then
         match q.(queue_structure_) with
         | PER_BANK => insert_rank_queues q (Rank ref) q.(ref_q_indices_)
         | PER_RANK => Ret ({[ Rank ref ]} ∪ q.(ref_q_indices_))
         end
       else if ct_eqb ref.(cmd_type) REFsb then
         match q.(queue_structure_) with
         | PER_BANK => Ret (insert_bankset_queues q (Rank ref) (Bank ref) q.(ref_q_indices_))
         | PER_RANK => Fault Throw
         end
       else Ret ({[ GetQueueIndex q (Rank ref) (Bankgroup ref) (Bank ref) ]} ∪ q.(ref_q_indices_)));
  Ret (q <| ref_q_indices_ := s |>).
Definition GetRFMQIndices q (rfm : Command) : outcome CommandQueue :=
  s ← match q.(queue_structure_) with
      | PER_RANK => Ret ({[ Rank rfm ]} ∪ q.(rfm_q_indices_))
      | PER_BANK =>
          if ct_eqb rfm.(cmd_type) RFMab then insert_rank_queues q (Rank rfm) q.(rfm_q_indices_)
          else Ret (insert_bankset_queues q (Rank rfm) (Bank rfm) q.(rfm_q_indices_))
      end;
  Ret (q <| rfm_q_indices_ := s |>).

(** [assert(("...", !is_in_rfm_))]: the comma operator leaves the condition *)
Definition FinishRefresh sh cs q : outcome (Shared G * ChannelState * CommandQueue * Command) :=
  assert_ (negb q.(is_in_rfm_));;
  ref ← PendingRefCommand cs;
  q ← (if negb q.(is_in_ref_) then q ← GetRefQIndices q ref; Ret (q <| is_in_ref_ := true |>) else Ret q);
  r ← ChannelState.GetReadyCommand B c sh cs ref q.(q_clk_);
  let '(sh, cs, cmd) := r in
  Ret (sh, cs, if IsRefresh cmd then q <| ref_q_indices_ := ∅ |> <| is_in_ref_ := false |> else q, cmd).
Definition FinishRFM sh cs q : outcome (Shared G * ChannelState * CommandQueue * Command) :=
  assert_ (negb q.(is_in_ref_));;
  rfm ← PendingRFMCommand cs;
  q ← (if negb q.(is_in_rfm_) then q ← GetRFMQIndices q rfm; Ret (q <| is_in_rfm_ := true |>) else Ret q);
  r ← ChannelState.GetReadyCommand B c sh cs rfm q.(q_clk_);
  let '(sh, cs, cmd) := r in
  Ret (sh, cs, if IsRFM cmd then q <| rfm_q_indices_ := ∅ |> <| is_in_rfm_ := false |> else q, cmd).

Definition ClockTick q : CommandQueue := q <| q_clk_ ::= λ n, u64 (n + 1) |>.
End Queue.
