(* ===== verification/Controller.v ===== *)
(** * DRAMsim3: the memory controller of a channel (DRAMsim3/src/controller.h, controller.cc)

    Transactions wait in the read queue and the write buffer (or in one unified queue), become
    commands in the command queues, and come back through the return queue once their command
    has been issued. The statistics of the controller are those of [Shared]. [wb_inf] is the build
    option WB_HAS_INF_CAPACITY. *)
From S2P Require Import Prelude Common Config Timing Stats BankState ChannelState.
From S2P Require Import Refresh CommandQueue.
Open Scope Z_scope.

Record Controller := mkController {
  channel_id_ : Z;
  ctl_clk_ : Z;
  channel_state_ : ChannelState;
  cmd_queue_ : CommandQueue;
  refresh_ : Refresh;
  is_unified_queue_ : bool;
  unified_queue_ : list Transaction;
  read_queue_ : list Transaction;
  write_buffer_ : list Transaction;
  clk_last_write_drain_ : Z;
  clk_last_opp_write_drain_ : Z;
  pending_rd_q_ : list (Z * Transaction);
  pending_wr_q_ : list (Z * Transaction);
  return_queue_ : list Transaction;
  row_buf_policy_ : RowBufPolicy;
  last_trans_clk_ : Z;
  write_draining_ : Z
}.

(** [std::multimap]: the entries in order of insertion; [find] gives the first of a key *)
Definition count_key {A} (k : Z) (m : list (Z * A)) : Z := zlen (List.filter (λ e, e.1 =? k) m).
Fixpoint take_key {A} (k : Z) (m : list (Z * A)) : option (A * list (Z * A)) :=
  match m with
  | [] => None
  | e :: m =>
      if e.1 =? k then Some (e.2, m)
      else match take_key k m with Some (x, rest) => Some (x, e :: rest) | None => None end
  end.

Section Controller.
Context {G : Type} `{Rng64 G} (B : Build) (wb_inf : bool) (c : Config) (T : Timing).
Implicit Types (sh : Shared G) (ctl : Controller) (cmd : Command).

(** the constructor; the vectors reserve [trans_queue_size] elements *)
Definition Controller_new sh (channel : Z) : outcome (Shared G * Controller) :=
  st ← SimpleStats_new c.(ranks);
  r ← ChannelState_new c (sh <| sh_stats := st |>);
  let (sh, cs) := r : Shared G * ChannelState in
  q ← CommandQueue_new c;
  rf ← Refresh_new c;
  if c.(trans_queue_size) <? 0 then Fault Throw
  else
    Ret (sh, {| channel_id_ := channel; ctl_clk_ := 0; channel_state_ := cs; cmd_queue_ := q; refresh_ := rf;
      is_unified_queue_ := c.(unified_queue); unified_queue_ := []; read_queue_ := []; write_buffer_ := [];
      clk_last_write_drain_ := 0; clk_last_opp_write_drain_ := 0; pending_rd_q_ := []; pending_wr_q_ := [];
      return_queue_ := []; row_buf_policy_ := c.(row_buf_policy); last_trans_clk_ := 0; write_draining_ := 0 |}).

(** ** Transactions in and out *)

(** the first transaction whose cycle has come, and the queue without it *)
Fixpoint take_done (clk : Z) (l : list Transaction) : option (Transaction * list Transaction) :=
  match l with
  | [] => None
  | t :: l =>
      if t.(complete_cycle) <=? clk then Some (t, l)
      else match take_done clk l with Some (x, rest) => Some (x, t :: rest) | None => None end
  end.
(** the address and [is_write], or (-1, -1) *)
Definition ReturnDoneTrans sh ctl (clk : Z) : Shared G * Controller * (Z * Z) :=
  match take_done clk ctl.(return_queue_) with
  | Some (t, rest) =>
      let sh := if t.(is_write) then stat (Increment "num_writes_done") sh
        else stat (AddValue "read_latency" (u64 (ctl.(ctl_clk_) - t.(added_cycle))))
               (stat (Increment "num_reads_done") sh) in
      (sh, ctl <| return_queue_ := rest |>, (t.(t_addr), if t.(is_write) then 1 else 0))
  | None => (sh, ctl, (u64 (-1), -1))
  end.

(** [capacity()] is what the constructor reserved *)
Definition WillAcceptTransaction ctl (is_write : bool) : bool :=
  let room (l : list Transaction) := zlen l <? c.(trans_queue_size) in
  if ctl.(is_unified_queue_) then room ctl.(unified_queue_)
  else if negb is_write then room ctl.(read_queue_)
  else if wb_inf then true else room ctl.(write_buffer_).

Definition AddTransaction sh ctl (trans : Transaction) : Shared G * Controller :=
  let clk := ctl.(ctl_clk_) in
  let trans := trans <| added_cycle := clk |> in
  let sh := stat (AddValue "interarrival_latency" (u64 (clk - ctl.(last_trans_clk_)))) sh in
  let ctl := ctl <| last_trans_clk_ := clk |> in
  let returned ctl := ctl <| return_queue_ ::= λ l, l ++ [trans <| complete_cycle := u64 (clk + 1) |>] |> in
  let enqueue ctl := if ctl.(is_unified_queue_) then ctl <| unified_queue_ ::= λ l, l ++ [trans] |>
    else if trans.(is_write) then ctl <| write_buffer_ ::= λ l, l ++ [trans] |>
    else ctl <| read_queue_ ::= λ l, l ++ [trans] |> in
  let a := trans.(t_addr) in
  if trans.(is_write) then
    let ctl := if count_key a ctl.(pending_wr_q_) =? 0
      then enqueue (ctl <| pending_wr_q_ ::= λ m, m ++ [(a, trans)] |>) else ctl in
    (sh, returned ctl)
  else if 0 <? count_key a ctl.(pending_wr_q_) then (sh, returned ctl)
  else
    let ctl := ctl <| pending_rd_q_ ::= λ m, m ++ [(a, trans)] |> in
    (sh, if count_key a ctl.(pending_rd_q_) =? 1 then enqueue ctl else ctl).

(** ** Commands *)

Definition close_type (w : bool) : CommandType :=
  if 1 <=? B.(USE_PRAC) then (if w then WRITE_PRECHARGE2 else READ_PRECHARGE2)
  else (if w then WRITE_PRECHARGE else READ_PRECHARGE).
(** a later transaction of the queue [rest] for the same row *)
Definition same_row_later (a : Address) (rest : list Transaction) : outcome bool :=
  r ← for_ret rest tt (λ _ t,
    p ← AddressMapping c c.(mop_size) t.(t_addr);
    Ret (tt, if (p.(row) =? a.(row)) && (p.(rank) =? a.(rank)) && (p.(bankgroup) =? a.(bankgroup)) &&
                (p.(bank) =? a.(bank)) then Some true else None));
  Ret (default false r.2).
Definition TransToCommand ctl (trans : Transaction) (rest : list Transaction) : outcome Command :=
  a ← AddressMapping c c.(mop_size) trans.(t_addr);
  let w := trans.(is_write) in
  t ← match ctl.(row_buf_policy_) with
      | CLOSE_PAGE => Ret (close_type w)
      | SOFT_CLOSE_PAGE =>
          e ← same_row_later a rest;
          Ret (if e : bool then (if w then WRITE else READ) else (if w then WRITE_PRECHARGE else READ_PRECHARGE))
      | OPEN_PAGE => Ret (if w then WRITE else READ)
      end;
  Ret (mkCommand t a trans.(t_addr)).

(** [while (num_reads > 0)]: every read of the address comes back *)
Fixpoint return_reads (n : nat) (a : Z) ctl : outcome Controller :=
  match n with
  | O => Ret ctl
  | S n =>
      match take_key a ctl.(pending_rd_q_) with
      | Some (t, rest) =>
          let t := t <| complete_cycle := u64 (ctl.(ctl_clk_) + c.(read_delay)) |> in
          return_reads n a (ctl <| return_queue_ ::= λ l, l ++ [t] |> <| pending_rd_q_ := rest |>)
      | None => Fault Undefined
      end
  end.

Definition UpdateCommandStats sh ctl cmd : outcome (Shared G) :=
  let inc name := Ret (stat (Increment name) sh) : outcome (Shared G) in
  let rw cmds hits :=
    h ← ChannelState.RowHitCount ctl.(channel_state_) (Rank cmd) (Bankgroup cmd) (Bank cmd);
    let sh := stat (Increment cmds) sh in
    Ret (if negb (h =? 0) then stat (Increment hits) sh else sh) in
  match cmd.(cmd_type) with
  | READ | READ_PRECHARGE | READ_PRECHARGE2 => rw "num_read_cmds"%string "num_read_row_hits"%string
  | WRITE | WRITE_PRECHARGE | WRITE_PRECHARGE2 => rw "num_write_cmds"%string "num_write_row_hits"%string
  | ACTIVATE => inc "num_act_cmds"%string
  | RFMab => inc "num_rfmab_cmds"%string
  | RFMsb => inc "num_rfmsb_cmds"%string
  | PRECHARGE2 => Ret (stat (Increment "num_pre_cmds") (stat (Increment "num_pre2_cmds") sh))
  | PRECHARGE => inc "num_pre_cmds"%string
  | REFab => inc "num_refab_cmds"%string
  | REFsb => inc "num_refsb_cmds"%string
  | REFRESH_BANK => inc "num_refb_cmds"%string
  | SREF_ENTER => inc "num_srefe_cmds"%string
  | SREF_EXIT => inc "num_srefx_cmds"%string
  | SIZE => AbruptExit
  end.

Definition IssueCommand sh ctl cmd : outcome (Shared G * Controller) :=
  r ← (if IsRead cmd then
         let num_reads := count_key cmd.(hex_addr) ctl.(pending_rd_q_) in
         if num_reads =? 0 then Fault (Exit 1)
         else ctl ← return_reads (Z.to_nat num_reads) cmd.(hex_addr) ctl; Ret (sh, ctl)
       else if IsWrite cmd then
         match take_key cmd.(hex_addr) ctl.(pending_wr_q_) with
         | Some (t, rest) =>
             let wr_lat := u64 (ctl.(ctl_clk_) - t.(added_cycle) + c.(write_delay)) in
             Ret (stat (AddValue "write_latency" wr_lat) sh, ctl <| pending_wr_q_ := rest |>)
         | None => Fault (Exit 1)
         end
       else Ret (sh, ctl));
  let (sh, ctl) := r : Shared G * Controller in
  sh ← UpdateCommandStats sh ctl cmd;
  s ← UpdateTimingAndStates B c T sh ctl.(channel_state_) cmd ctl.(ctl_clk_);
  Ret (s.1, ctl <| channel_state_ := s.2 |>).

(** ** Scheduling *)

(** start to drain the write buffer when it is full, or long enough and nothing else waits *)
Definition start_drain sh ctl : Shared G * Controller :=
  let n := zlen ctl.(write_buffer_) in
  let idle := QueueEmpty ctl.(cmd_queue_) in
  let clk := ctl.(ctl_clk_) in
  if (negb wb_inf && (c.(trans_queue_size) <=? n)) || ((8 <? n) && idle) then
    let sh := stat (AddValue "t_btwn_write_drains" (u64 (clk - ctl.(clk_last_write_drain_))))
                (stat (Increment "num_write_drains") sh) in
    let ctl := ctl <| write_draining_ := i32 n |> <| clk_last_write_drain_ := clk |> in
    if idle then
      let sh := stat (Increment "num_opp_write_drains") sh in
      let sh := if 10000000 <? clk then stat (Increment "num_opp_write_drains_post_10M") sh else sh in
      (stat (AddValue "t_btwn_opp_write_drains" (u64 (clk - ctl.(clk_last_opp_write_drain_)))) sh,
       ctl <| clk_last_opp_write_drain_ := clk |>)
    else (sh, ctl)
  else (sh, ctl).

(** the first transaction of the queue whose command queue has room; [None]: nothing leaves *)
Fixpoint schedule ctl (prev rest : list Transaction) : outcome (Controller * option (list Transaction)) :=
  match rest with
  | [] => Ret (ctl, None)
  | t :: rest' =>
      cmd ← TransToCommand ctl t rest';
      ok ← WillAcceptCommand c ctl.(cmd_queue_) (Rank cmd) (Bankgroup cmd) (Bank cmd);
      if ok : bool then
        let w := negb ctl.(is_unified_queue_) && IsWrite cmd in
        if w && (0 <? count_key t.(t_addr) ctl.(pending_rd_q_)) then Ret (ctl <| write_draining_ := 0 |>, None)
        else
          let ctl := if w then ctl <| write_draining_ ::= λ n, i32 (n - 1) |> else ctl in
          a ← AddCommand c ctl.(cmd_queue_) cmd;
          Ret (ctl <| cmd_queue_ := a.1 |>, Some (prev ++ rest'))
      else schedule ctl (prev ++ [t]) rest'
  end.
Definition ScheduleTransaction sh ctl : outcome (Shared G * Controller) :=
  let (sh, ctl) := if (ctl.(write_draining_) =? 0) && negb ctl.(is_unified_queue_)
    then start_drain sh ctl else (sh, ctl) in
  let run l (put : list Transaction → Controller → Controller) :=
    r ← schedule ctl [] l;
    Ret (sh, match r.2 with Some l => put l r.1 | None => r.1 end) in
  if ctl.(is_unified_queue_) then run ctl.(unified_queue_) (λ l ctl, ctl <| unified_queue_ := l |>)
  else if 0 <? ctl.(write_draining_) then run ctl.(write_buffer_) (λ l ctl, ctl <| write_buffer_ := l |>)
  else run ctl.(read_queue_) (λ l ctl, ctl <| read_queue_ := l |>).

(** ** A cycle *)

(** a refresh or an RFM first, then the queues *)
Definition find_command sh ctl : outcome (Shared G * Controller * Command) :=
  let put ctl (r : Shared G * ChannelState * CommandQueue * Command) :=
    let '(sh, cs, q, cmd) := r in (sh, ctl <| channel_state_ := cs |> <| cmd_queue_ := q |>, cmd) in
  let cs := ctl.(channel_state_) in
  r ← (if IsRefreshWaiting cs then r ← FinishRefresh B c sh cs ctl.(cmd_queue_); Ret (put ctl r)
       else if IsRFMWaiting cs then r ← FinishRFM B c sh cs ctl.(cmd_queue_); Ret (put ctl r)
       else Ret (sh, ctl, Command0));
  let '(sh, ctl, cmd) := r : Shared G * Controller * Command in
  if negb (IsValid cmd) then
    r ← GetCommandToIssue B c sh ctl.(channel_state_) ctl.(cmd_queue_); Ret (put ctl r)
  else Ret (sh, ctl, cmd).

(** the second command of a cycle, for HBM *)
Definition dual_command sh ctl cmd : outcome (Shared G * Controller) :=
  if c.(enable_hbm_dual_cmd) then
    r ← GetCommandToIssue B c sh ctl.(channel_state_) ctl.(cmd_queue_);
    let '(sh, cs, q, second) := r in
    let ctl := ctl <| channel_state_ := cs |> <| cmd_queue_ := q |> in
    if IsValid second && negb (Bool.eqb (IsReadWrite second) (IsReadWrite cmd)) then
      r ← IssueCommand sh ctl second;
      Ret (stat (Increment "hbm_dual_cmds") r.1, r.2)
    else Ret (sh, ctl)
  else Ret (sh, ctl).

(** the power state of one rank *)
Definition rank_power (s : Shared G * Controller) (i : Z) : outcome (Shared G * Controller) :=
  let (sh, ctl) := s in
  let cs := ctl.(channel_state_) in
  sref ← IsRankSelfRefreshing cs i;
  if sref : bool then sh ← stat_o (IncrementVec "sref_cycles" i) sh; Ret (sh, ctl)
  else
    all_idle ← IsAllBankIdleInRank c cs i;
    if all_idle : bool then
      sh ← stat_o (IncrementVec "all_bank_idle_cycles" i) sh;
      n ← aget cs.(rank_idle_cycles) i;
      l ← aset cs.(rank_idle_cycles) i (i32 (n + 1));
      Ret (sh, ctl <| channel_state_ := cs <| rank_idle_cycles := l |> |>)
    else
      sh ← stat_o (IncrementVec "rank_active_cycles" i) sh;
      l ← aset cs.(rank_idle_cycles) i 0;
      Ret (sh, ctl <| channel_state_ := cs <| rank_idle_cycles := l |> |>).

(** ranks enter and leave self-refresh; at most one command *)
Definition self_refresh sh ctl : outcome (Shared G * Controller) :=
  let try_ sh ctl (t : CommandType) (i : Z) : outcome (Shared G * Controller * option unit) :=
    let cmd := mkCommand t (Address0 <| rank := i |>) (u64 (-1)) in
    r ← ChannelState.GetReadyCommand B c sh ctl.(channel_state_) cmd ctl.(ctl_clk_);
    let '(sh, cs, cmd) := r in
    let ctl := ctl <| channel_state_ := cs |> in
    if IsValid cmd then r ← IssueCommand sh ctl cmd; Ret (r, Some tt) else Ret (sh, ctl, None) in
  r ← for_ret (seqZ 0 c.(ranks)) (sh, ctl) (λ s i,
    let (sh, ctl) := s : Shared G * Controller in
    sref ← IsRankSelfRefreshing ctl.(channel_state_) i;
    empty ← aget ctl.(cmd_queue_).(rank_q_empty) i;
    if sref : bool then
      if negb empty then try_ sh ctl SREF_EXIT i else Ret (sh, ctl, None)
    else
      idle ← aget ctl.(channel_state_).(rank_idle_cycles) i;
      if empty && (c.(sref_threshold) <=? idle) then try_ sh ctl SREF_ENTER i else Ret (sh, ctl, None));
  Ret r.1.

Definition ClockTick sh ctl : outcome (Shared G * Controller) :=
  r ← Refresh.ClockTick c ctl.(refresh_) ctl.(channel_state_);
  let ctl := ctl <| refresh_ := r.1 |> <| channel_state_ := r.2 |> in
  f ← find_command sh ctl;
  let '(sh, ctl, cmd) := f : Shared G * Controller * Command in
  s ← (if IsValid cmd then s ← IssueCommand sh ctl cmd; dual_command s.1 s.2 cmd else Ret (sh, ctl));
  s ← for_ (seqZ 0 c.(ranks)) s rank_power;
  s ← (if c.(enable_self_refresh) && negb (IsValid cmd) then self_refresh s.1 s.2 else Ret s);
  s ← ScheduleTransaction s.1 s.2;
  let (sh, ctl) := s : Shared G * Controller in
  Ret (stat (Increment "num_cycles") sh,
       ctl <| ctl_clk_ ::= λ n, u64 (n + 1) |> <| cmd_queue_ ::= CommandQueue.ClockTick |>).

(** ** Statistics *)
Definition PrintEpochStats sh : outcome (Shared G) :=
  stat_o (UpdateEpochStats c) (stat (Increment "epoch_num") sh).
Definition PrintFinalStats sh : outcome (Shared G) := stat_o (UpdateFinalStats c) sh.
Definition ResetStats sh : Shared G := stat Reset sh.
Definition QueueUsage ctl : Z := CommandQueue.QueueUsage ctl.(cmd_queue_).
End Controller.
