(* ===== verification/DramSystem.v ===== *)
(** * DRAMsim3: the memory system (DRAMsim3/src/dram_system.h, dram_system.cc)

    [JedecDRAMSystem]: a controller per channel, which a transaction reaches by the channel bits
    of its address; a tick first hands the transactions that are done to the callbacks, then
    runs every controller. [IdealDRAMSystem]: one queue with a fixed latency. *)
From S2P Require Import Prelude Common Config Timing Stats BankState ChannelState.
From S2P Require Import Controller.
Open Scope Z_scope.

(** the static variables of bankstate.cc, shared by all channels *)
Record Statics {G : Type} := mkStatics { st_rng : G; st_pac_valid : bool; st_pac_cmd : CommandType }.
Arguments Statics G : clear implicits.
Arguments mkStatics {G}.

(** the members of [BaseDRAMSystem]; [JedecDRAMSystem] adds none. A controller comes with its statistics *)
Record JedecDRAMSystem {G : Type} := mkJedec {
  statics : Statics G;
  sys_clk_ : Z;
  last_req_clk_ : Z;
  ctrls_ : list (Controller * SimpleStats)
}.
Arguments JedecDRAMSystem G : clear implicits.
Arguments mkJedec {G}.

Section Jedec.
Context {G : Type} `{Rng64 G} (B : Build) (wb_inf : bool) (c : Config).
Notation T := (Timing_new c).
Implicit Types (s : Statics G) (d : JedecDRAMSystem G).

(** what a controller sees: the statics and its own statistics *)
Definition shared_with s (st : SimpleStats) : Shared G := mkShared s.(st_rng) s.(st_pac_valid) s.(st_pac_cmd) st.
Definition statics_of (sh : Shared G) : Statics G :=
  mkStatics sh.(sh_rng) sh.(pac_next_pre_cmd_is_valid) sh.(pac_next_pre_cmd).

(** a controller per channel *)
Definition new_ctrls s : outcome (JedecDRAMSystem G) :=
  if c.(channels) <? 0 then Fault Throw
  else
    r ← for_ (seqZ 0 c.(channels)) (s, []) (λ x i,
      r ← Controller_new c (shared_with x.1 stats0) i;
      Ret (statics_of r.1, x.2 ++ [(r.2, r.1.(sh_stats))]));
    Ret (mkJedec r.1 0 0 r.2).
Definition JedecDRAMSystem_new s : outcome (JedecDRAMSystem G) :=
  if IsHMC c then AbruptExit else new_ctrls s.

Definition GetChannel (hex_addr : Z) : outcome Z :=
  a ← shr64 hex_addr c.(shift_bits);
  ch ← shr64 a c.(ch_pos);
  Ret (i32 (Z.land ch c.(ch_mask))).

Definition WillAcceptTransaction d (hex_addr : Z) (is_write : bool) : outcome bool :=
  ch ← GetChannel hex_addr;
  x ← aget d.(ctrls_) ch;
  Ret (Controller.WillAcceptTransaction wb_inf c x.1 is_write).

Definition AddTransaction d (hex_addr : Z) (is_write : bool) : outcome (JedecDRAMSystem G * bool) :=
  ch ← GetChannel hex_addr;
  x ← aget d.(ctrls_) ch;
  let ok := Controller.WillAcceptTransaction wb_inf c x.1 is_write in
  assert_ ok;;
  let (sh, ctl) := Controller.AddTransaction (shared_with d.(statics) x.2) x.1 (Transaction_new hex_addr is_write) in
  l ← aset d.(ctrls_) ch (ctl, sh.(sh_stats));
  Ret (d <| ctrls_ := l |> <| last_req_clk_ := d.(sys_clk_) |>, ok).

Section Tick.
Context {W : Type} (read_callback_ write_callback_ : W → Z → outcome W).

(** [while (true)]: every transaction that is done goes to its callback *)
Fixpoint return_done (fuel : nat) (sh : Shared G) (ctl : Controller) (clk : Z) (w : W) :
    outcome (Shared G * Controller * W) :=
  match fuel with
  | O => Fault Diverge
  | S fuel =>
      let '(sh, ctl, p) := ReturnDoneTrans sh ctl clk in
      if p.2 =? 1 then w ← write_callback_ w p.1; return_done fuel sh ctl clk w
      else if p.2 =? 0 then w ← read_callback_ w p.1; return_done fuel sh ctl clk w
      else Ret (sh, ctl, w)
  end.

Definition on_ctrl (i : Z) s (l : list (Controller * SimpleStats)) {A}
    (f : Shared G → Controller → outcome (Shared G * Controller * A)) :
    outcome (Statics G * list (Controller * SimpleStats) * A) :=
  x ← aget l i;
  r ← f (shared_with s x.2) x.1;
  let '(sh, ctl, a) := r : Shared G * Controller * A in
  l ← aset l i (ctl, sh.(sh_stats));
  Ret (statics_of sh, l, a).

Definition return_ctrls d (w : W) : outcome (JedecDRAMSystem G * W) :=
  r ← for_ (seqZ 0 (zlen d.(ctrls_))) (d.(statics), d.(ctrls_), w) (λ x i,
    let '(s, l, w) := x : Statics G * list (Controller * SimpleStats) * W in
    on_ctrl i s l (λ sh ctl, return_done (S (length ctl.(return_queue_))) sh ctl d.(sys_clk_) w));
  let '(s, l, w) := r : Statics G * list (Controller * SimpleStats) * W in
  Ret (d <| statics := s |> <| ctrls_ := l |>, w).
Definition each_ctrl d (f : Shared G → Controller → outcome (Shared G * Controller)) : outcome (JedecDRAMSystem G) :=
  r ← for_ (seqZ 0 (zlen d.(ctrls_))) (d.(statics), d.(ctrls_)) (λ x i,
    r ← on_ctrl i x.1 x.2 (λ sh ctl, r ← f sh ctl; Ret (r, tt));
    Ret r.1);
  Ret (d <| statics := r.1 |> <| ctrls_ := r.2 |>).

Definition PrintEpochStats d : outcome (JedecDRAMSystem G) :=
  each_ctrl d (λ sh ctl, sh ← Controller.PrintEpochStats c sh; Ret (sh, ctl)).

Definition ClockTick d (w : W) : outcome (JedecDRAMSystem G * W) :=
  r ← return_ctrls d w;
  let (d, w) := r : JedecDRAMSystem G * W in
  d ← each_ctrl d (Controller.ClockTick B wb_inf c T);
  let d := d <| sys_clk_ ::= λ n, u64 (n + 1) |> in
  m ← umod d.(sys_clk_) (u64 c.(epoch_period));
  d ← (if m =? 0 then PrintEpochStats d else Ret d);
  Ret (d, w).
End Tick.

Definition ResetStats d : outcome (JedecDRAMSystem G) :=
  each_ctrl d (λ sh ctl, Ret (Controller.ResetStats sh, ctl)).
End Jedec.

(** ** The ideal memory *)
Record IdealDRAMSystem := mkIdeal { ideal_clk_ : Z; latency_ : Z; infinite_buffer_q_ : list Transaction }.

Definition IdealDRAMSystem_new (c : Config) : IdealDRAMSystem := mkIdeal 0 c.(ideal_memory_latency) [].
Definition ideal_WillAcceptTransaction (d : IdealDRAMSystem) (hex_addr : Z) (is_write : bool) : bool := true.
Definition ideal_AddTransaction (d : IdealDRAMSystem) (hex_addr : Z) (is_write : bool) : IdealDRAMSystem * bool :=
  let trans := Transaction_new hex_addr is_write <| added_cycle := d.(ideal_clk_) |> in
  (d <| infinite_buffer_q_ ::= λ l, l ++ [trans] |>, true).

Section Ideal.
Context {W : Type} (read_callback_ write_callback_ : W → Z → outcome W).
(** after an element is erased, the one that takes its place is passed over *)
Fixpoint ideal_loop (clk latency : Z) (l : list Transaction) (w : W) : outcome (list Transaction * W) :=
  match l with
  | [] => Ret ([], w)
  | t :: l =>
      if u64 latency <=? u64 (clk - t.(added_cycle)) then
        w ← (if t.(is_write) then write_callback_ w t.(t_addr) else read_callback_ w t.(t_addr));
        match l with
        | [] => Ret ([], w)
        | t2 :: l2 => r ← ideal_loop clk latency l2 w; Ret (t2 :: r.1, r.2)
        end
      else r ← ideal_loop clk latency l w; Ret (t :: r.1, r.2)
  end.
Definition ideal_ClockTick (d : IdealDRAMSystem) (w : W) : outcome (IdealDRAMSystem * W) :=
  r ← ideal_loop d.(ideal_clk_) d.(latency_) d.(infinite_buffer_q_) w;
  Ret (d <| infinite_buffer_q_ := r.1 |> <| ideal_clk_ ::= λ n, u64 (n + 1) |>, r.2).
End Ideal.
