(* ===== verification/QueueSpec.v ===== *)
(** * Properties of the command queues ([CommandQueue])

    The invariant of the queues, and what each operation does to the commands that wait in
    them: the queues hold accesses of their own banks, the scan of a queue offers a command the
    channel can carry out, and an access that is offered leaves its queue. RFM and
    self-refresh are off here, and alerts cannot happen ([quiet]: they are off, or the build tracks
    no rows): then [GetReadyCommand] does not change the channel. *)
From S2P Require Import Prelude Common Config Timing Stats BankState BankSpec ChannelState ChannelSpec ChannelRun ChannelSafety.
From S2P Require Import CommandQueue.
From stdpp Require Import gmap.
Open Scope Z_scope.

(** the maintenance schemes that these theorems leave out, and the sizes *)
Record quiet (B : Build) (c : Config) : Prop := {
  qt_rfm : ¬ rfm_on c;
  qt_alert : c.(alert_mode) = 1 → untracked B c;
  qt_total : c.(banks) * c.(ranks) < 2147483648;
  qt_size : 0 <= c.(cmd_queue_size) < 2147483648
}.

(** the addresses of the waiting reads ([rd = true]) or writes *)
Definition kind_of (rd : bool) (x : Command) : option Z :=
  if Bool.eqb (IsRead x) rd then Some x.(hex_addr) else None.
Definition kind_in (rd : bool) (qs : list (list Command)) : list Z := omap (kind_of rd) (concat qs).

(** replacing one queue *)
Lemma concat_insert {A} (qs : list (list A)) i l l' : qs !! i = Some l →
  ∃ p s, concat qs = p ++ l ++ s ∧ concat (<[i := l']> qs) = p ++ l' ++ s.
Proof.
  intros Hi. exists (concat (take i qs)), (concat (drop (S i) qs)). split.
  - rewrite <- (take_drop_middle qs i l Hi) at 1. by rewrite concat_app.
  - rewrite insert_take_drop by (by eapply lookup_lt_Some). by rewrite concat_app.
Qed.
Lemma erase_first_perm {A} (p : A → bool) l : existsb p l = true →
  ∃ x, x ∈ l ∧ p x = true ∧ l ≡ₚ x :: erase_first p l.
Proof.
  induction l as [|x l IH]; [done|]. cbn [existsb erase_first]. destruct (p x) eqn:E; cbn [orb].
  - intros _. exists x. split; [left|done].
  - intros Hl. destruct (IH Hl) as (y & Hy & Hp & Hperm). exists y. split; [by right|]. split; [done|].
    rewrite Hperm at 1. apply Permutation_swap.
Qed.
Lemma erase_first_incl {A} (p : A → bool) l x : x ∈ erase_first p l → x ∈ l.
Proof.
  induction l as [|y l IH]; [done|]. cbn [erase_first]. destruct (p y); [by right|].
  intros [->|?]%elem_of_cons; [left|right; by apply IH].
Qed.

Section Queue.
Context {G : Type} `{Rng64 G} (B : Build) (c : Config) (Hc : bank_config_ok c) (Hshape : shape_ok c)
  (Hquiet : quiet B c).
Implicit Types (sh : Shared G) (cs : ChannelState) (q : CommandQueue) (x cmd : Command).

(** an access of a bank of the channel *)
Record access_ok x : Prop := {
  ao_type : is_access x.(cmd_type) = true;
  ao_target : target_ok c x;
  ao_row : 0 <= Row x < c.(rows);
  ao_kind : keeps_kind B x.(cmd_type)
}.
Lemma access_bank x : is_access x.(cmd_type) = true → IsRankCMD x = false ∧ IsSbCMD x = false.
Proof. unfold IsRankCMD, IsSbCMD. by destruct (cmd_type x). Qed.
Lemma access_request cs x : access_ok x → request_ok c cs x.
Proof. intros [Ht Htg Hr _]. split; [done|]. split; [|done]. intros r g k b _ _. by left. Qed.

Definition queue_of q x : Z := GetQueueIndex c q (Rank x) (Bankgroup x) (Bank x).
Record queue_ok q : Prop := {
  qo_len : zlen q.(queues_) = q.(num_queues_);
  qo_struct : match q.(queue_structure_) with
    | PER_BANK => q.(num_queues_) = c.(banks) * c.(ranks) | PER_RANK => q.(num_queues_) = c.(ranks) end;
  qo_idx : 0 <= q.(queue_idx_) < q.(num_queues_);
  qo_empty : zlen q.(rank_q_empty) = c.(ranks);
  qo_rfm : q.(is_in_rfm_) = false;
  qo_cmds : ∀ i l x, aget q.(queues_) i = Ret l → x ∈ l → access_ok x ∧ queue_of q x = i
}.

Lemma num_queues_range q : queue_ok q → 0 < q.(num_queues_) < 2147483648.
Proof.
  intros Hq. pose proof (qo_struct _ Hq) as Hs. destruct Hshape as [Hr Hbg Hbpg Hbk Hmax].
  pose proof (qt_total _ _ Hquiet). destruct (queue_structure_ q); nia.
Qed.
Lemma queue_of_range q x : queue_ok q → target_ok c x → IsRankCMD x = false → IsSbCMD x = false →
  0 <= queue_of q x < zlen q.(queues_).
Proof.
  intros Hq (Hr & Hk & Hg) E1 E2. specialize (Hk E1). specialize (Hg E1 E2). rewrite (qo_len _ Hq).
  pose proof (qo_struct _ Hq) as Hs. pose proof (num_queues_range q Hq) as Hn. unfold queue_of, GetQueueIndex.
  destruct (queue_structure_ q); [lia|]. destruct Hshape as [Hr' Hbg Hbpg Hbk Hmax].
  assert (0 <= Bankgroup x * c.(banks_per_group) + Bank x <= c.(banks) - 1) as Hb by nia.
  assert (0 <= Rank x * c.(banks) <= c.(banks) * c.(ranks) - c.(banks)) by nia.
  rewrite i32_id; [lia|]. unfold is_i32. lia.
Qed.
Lemma get_queue q x : queue_ok q → access_ok x →
  ∃ l, GetQueue c q (Rank x) (Bankgroup x) (Bank x) = Ret l ∧ aget q.(queues_) (queue_of q x) = Ret l.
Proof.
  intros Hq Hx. destruct (access_bank x (ao_type _ Hx)) as [E1 E2].
  destruct (aget_ok q.(queues_) (queue_of q x)) as [l Hl]; [apply queue_of_range; try done; apply Hx|].
  exists l. by split.
Qed.

(** replacing the queue of [x] by a list of its own accesses *)
Lemma set_queue_spec q x l l' : queue_ok q → aget q.(queues_) (queue_of q x) = Ret l →
  (∀ y, y ∈ l' → access_ok y ∧ queue_of q y = queue_of q x) →
  ∃ q', set_queue c q (Rank x) (Bankgroup x) (Bank x) l' = Ret q' ∧ queue_ok q' ∧
    q' = q <| queues_ := q'.(queues_) |> ∧
    ∃ p s, concat q.(queues_) = p ++ l ++ s ∧ concat q'.(queues_) = p ++ l' ++ s.
Proof.
  intros Hq Hl Hl'. unfold set_queue. fold (queue_of q x).
  pose proof (aget_bound _ _ _ Hl) as Hb. rewrite aset_ok by done. cbn [mbind outcome_bind].
  eexists. split; [done|]. rsimp. split; [|split; [done|]].
  - destruct Hq as [H1 H2 H3 H4 H5 H6]. split; rsimp; try done; [unfold zlen; by rewrite length_insert|].
    intros i m y Hm Hy. assert (aset q.(queues_) (queue_of q x) l' = Ret (<[Z.to_nat (queue_of q x) := l']> q.(queues_)))
      as Ha by (by apply aset_ok). rewrite (aget_aset _ _ i _ _ Ha) in Hm.
    destruct (Z.eqb_spec i (queue_of q x)) as [->|].
    + injection Hm as <-. by apply Hl'.
    + by eapply H6.
  - apply aget_Ret in Hl as [_ Hl]. destruct (concat_insert _ _ _ l' Hl) as (p & s & E1 & E2). by exists p, s.
Qed.

Definition same_setting q q' : Prop := q'.(q_clk_) = q.(q_clk_) ∧ q'.(is_in_ref_) = q.(is_in_ref_) ∧
  q'.(rank_q_empty) = q.(rank_q_empty) ∧ q'.(queue_size_) = q.(queue_size_) ∧
  q'.(queue_structure_) = q.(queue_structure_).

Lemma kind_of_access rd x : Bool.eqb (IsRead x) rd = true → kind_of rd x = Some x.(hex_addr).
Proof. unfold kind_of. by intros ->. Qed.

(** an access that is issued leaves its queue *)
Lemma EraseRWCommand_spec q req cmd i l : queue_ok q → aget q.(queues_) i = Ret l → req ∈ l →
  cmd.(addr) = req.(addr) → cmd.(hex_addr) = req.(hex_addr) → IsRead cmd = IsRead req →
  ∃ q', EraseRWCommand c q cmd = Ret q' ∧ queue_ok q' ∧ same_setting q q' ∧ q'.(queue_idx_) = q.(queue_idx_) ∧
    ∀ rd, kind_in rd q.(queues_) ≡ₚ (if Bool.eqb (IsRead cmd) rd then [cmd.(hex_addr)] else []) ++ kind_in rd q'.(queues_).
Proof.
  intros Hq Hl Hin Ha Hh Hr. destruct (qo_cmds _ Hq _ _ _ Hl Hin) as [Hao Hi].
  assert (Rank cmd = Rank req ∧ Bankgroup cmd = Bankgroup req ∧ Bank cmd = Bank req) as (E1 & E2 & E3)
    by (unfold Rank, Bankgroup, Bank; by rewrite Ha).
  unfold EraseRWCommand. set (p := λ x, _ && _). rewrite E1, E2, E3.
  destruct (get_queue q req Hq Hao) as (l' & -> & Hl'). rewrite Hi in Hl'. assert (l' = l) as -> by congruence.
  cbn [mbind outcome_bind].
  assert (existsb p l = true) as Hex.
  { apply existsb_exists. exists req. split; [by apply list_elem_of_In|]. unfold p. rewrite Hh, Hr, Z.eqb_refl.
    by destruct (IsRead req). }
  rewrite Hex. destruct (erase_first_perm p l Hex) as (x & Hx & Hp & Hperm).
  destruct (set_queue_spec q req l (erase_first p l) Hq) as (q' & Eq & Hok & Hrest & (u & v & C1 & C2));
    [by rewrite Hi| |].
  { intros y Hy. rewrite Hi. eapply qo_cmds; [done..|]. by eapply erase_first_incl. }
  exists q'. split; [done|]. split; [done|]. split; [by rewrite Hrest|]. split; [by rewrite Hrest|]. intros rd. unfold kind_in. rewrite C1, C2.
  rewrite !omap_app. assert (omap (kind_of rd) l ≡ₚ omap (kind_of rd) (x :: erase_first p l)) as Hk
    by (by apply omap_Permutation).
  assert (omap (kind_of rd) (x :: erase_first p l) =
    (if Bool.eqb (IsRead cmd) rd then [hex_addr cmd] else []) ++ omap (kind_of rd) (erase_first p l)) as Ex.
  { apply andb_true_iff in Hp as [Hp1 Hp2]. apply Z.eqb_eq in Hp1. apply eqb_prop in Hp2.
    cbn [omap list_omap]. unfold kind_of at 1. rewrite Hp1, Hp2. by destruct (Bool.eqb _ _). }
  rewrite Hk, Ex, <- app_assoc. apply Permutation_app_swap_app.
Qed.

(** ** Questions to the channel *)
Record calm cs : Prop := {
  cm_ok : chan_ok c cs;
  cm_sync : chan_sync cs;
  cm_awake : ∀ r, 0 <= r < c.(ranks) → aget cs.(rank_is_sref_) r = Ret false;
  cm_mute : mute_banks B c cs.(bank_states_);
  cm_alert : cs.(alert_n) = false
}.
Lemma ask_spec sh cs req clk : shared_ok c sh → calm cs → request_ok c cs req →
  returns (ChannelState.GetReadyCommand B c sh cs req clk) (λ r, shared_ok c r.1.1 ∧ r.1.2 = cs ∧
    (r.2 = Command0 ∨ chan_ready B c cs req clk r.2)).
Proof.
  intros Hs [Hok Hsync _ _ Hal] Hreq. eapply returns_mono; [by apply GetReadyCommand_chan|].
  intros [[sh' cs'] y] (Hs' & Hadd & Hy). cbn [fst snd] in *.
  assert (cs' = cs) as ->; [|done].
  destruct Hadd as [->|[[?|?] _]]; [done| |congruence]. by destruct (qt_rfm _ _ Hquiet).
Qed.
Lemma query_bank cs r g k : chan_ok c cs → in_grid c r g k →
  (∃ v, ChannelState.OpenRow cs r g k = Ret v) ∧ (∃ v, ChannelState.RowHitCount cs r g k = Ret v).
Proof.
  intros Hok Hin. destruct (bank_at_ok c cs.(bank_states_) r g k (proj1 (ck_banks _ _ Hok)) Hin) as [b Eb].
  unfold ChannelState.OpenRow, ChannelState.RowHitCount. rewrite Eb. cbn [mbind outcome_bind]. split; by eexists.
Qed.
Lemma access_grid x : access_ok x → in_grid c (Rank x) (Bankgroup x) (Bank x).
Proof.
  intros Hx. destruct (access_bank x (ao_type _ Hx)) as [E1 E2]. destruct (ao_target _ Hx) as (H1 & H2 & H3).
  split; [done|]. split; auto.
Qed.

(** *** What the scan of a queue decides *)

(** [y] is what the bank of [req] needs next, with the address of [req] *)
Definition next_of cs req y : Prop := y.(addr) = req.(addr) ∧ y.(hex_addr) = req.(hex_addr) ∧
  ∃ b, bank_at cs.(bank_states_) (Rank req) (Bankgroup req) (Bank req) = Ret b ∧ access_next B c b req y.(cmd_type).
Lemma next_of_access sh cs req clk r : shared_ok c sh → chan_ok c cs → access_ok req →
  ChannelState.GetReadyCommand B c sh cs req clk = Ret r → r.2 = Command0 ∨ next_of cs req r.2.
Proof.
  intros Hs Hok Hx. destruct (access_bank req (ao_type _ Hx)) as [E1 E2]. unfold ChannelState.GetReadyCommand.
  rewrite E1, E2. destruct (ck_banks _ _ Hok) as [Hg Hb].
  destruct (bank_at_ok c cs.(bank_states_) _ _ _ Hg (access_grid req Hx)) as [b Eb]. rewrite Eb. cbn [mbind outcome_bind].
  destruct (GetReadyCommand_spec B c Hc sh b req clk (Hb _ _ _ _ Eb) Hs ltac:(left; apply Hx)) as ([sh' y] & -> & Hs' & Hy).
  cbn [fst snd mbind outcome_bind] in *.
  assert (y = Command0 ∨ next_of cs req y) as Hy'.
  { destruct Hy as [->|[[_ [Ha Hh] _ _] Hn]]; [by left|right]. split; [done|]. split; [done|]. exists b. split; [done|].
    unfold next_type in Hn. by rewrite (ao_type _ Hx) in Hn. }
  repeat (case_match; [intros [= <-]; by left|]). destruct (ct_eqb (cmd_type y) ACTIVATE); [|by intros [= <-]].
  destruct (ActivationWindowOk _ _ _ _) as [[|]|]; cbn [mbind outcome_bind]; [|by intros [= <-]; left|done]. by intros [= <-].
Qed.

(** a row may be closed for [req]: no request of its bank is older, and no request of the queue hits the open row, or
    four have *)
Definition precharge_due cs (prev : list Command) req (rest : list Command) : Prop :=
  (∀ x, x ∈ prev → same_bank_as req x = false) ∧
  ∃ b, bank_at cs.(bank_states_) (Rank req) (Bankgroup req) (Bank req) = Ret b ∧
    ((∀ x, x ∈ req :: rest → Row x = b.(open_row_) → same_bank_as req x = false) ∨ 4 <= b.(row_hit_count_)).
(** a write waits for the older reads of its location *)
Definition no_older_read (prev : list Command) req : Prop := ∀ x, x ∈ prev → IsRead x = true →
  ¬ (Row x = Row req ∧ Column x = Column req ∧ Bank x = Bank req ∧ Bankgroup x = Bankgroup req).
(** [y], ready for [req] between [prev] and [rest], may go *)
Definition goes cs prev req rest y : Prop :=
  (is_pre y.(cmd_type) → precharge_due cs prev req rest) ∧ (IsWrite y = true → no_older_read prev req).
(** [y] is offered for [req] *)
Definition offered clk cs prev req rest y : Prop :=
  IsValid y = true ∧ chan_ready B c cs req clk y ∧ next_of cs req y ∧ goes cs prev req rest y.
(** [req] is passed over: the channel has no command for it, or it may not go *)
Definition passed clk cs prev req rest : Prop := ∃ sh r, shared_ok c sh ∧
  ChannelState.GetReadyCommand B c sh cs req clk = Ret r ∧ (IsValid r.2 = false ∨ ¬ goes cs prev req rest r.2).

Lemma ArbitratePrecharge_spec sh cs prev x rest : shared_ok c sh → chan_ok c cs → access_ok x →
  returns (ArbitratePrecharge sh cs prev x (x :: rest)) (λ r, shared_ok c r.1 ∧ (r.2 = true ↔ precharge_due cs prev x rest)).
Proof.
  intros Hs Hok Hx. unfold ArbitratePrecharge, precharge_due.
  destruct (existsb (same_bank_as x) prev) eqn:Ep.
  { apply returns_ret. cbn [fst snd]. split; [done|]. split; [done|]. intros [Hp _].
    apply existsb_exists in Ep as (y & Hy%list_elem_of_In & E). by rewrite Hp in E. }
  destruct (ck_banks _ _ Hok) as [Hg _]. destruct (bank_at_ok c cs.(bank_states_) _ _ _ Hg (access_grid x Hx)) as [b Eb].
  unfold ChannelState.OpenRow, ChannelState.RowHitCount, BankState.OpenRow, BankState.RowHitCount. rewrite Eb. cbn [mbind outcome_bind].
  assert (∀ y, y ∈ prev → same_bank_as x y = false) as Hprev.
  { intros y Hy. destruct (same_bank_as x y) eqn:E; [|done]. rewrite <- Ep. symmetry. apply existsb_exists.
    exists y. split; [by apply list_elem_of_In|done]. }
  set (pending := existsb _ (x :: rest)).
  assert (pending = false ↔ ∀ y, y ∈ x :: rest → Row y = b.(open_row_) → same_bank_as x y = false) as Hpend.
  { unfold pending. split.
    - intros E y Hy Er. destruct (same_bank_as x y) eqn:Es; [|done]. rewrite <- E. symmetry. apply existsb_exists.
      exists y. split; [by apply list_elem_of_In|]. by rewrite Es, (proj2 (Z.eqb_eq _ _) Er).
    - intros Hy. apply not_true_is_false. intros (y & Hin%list_elem_of_In & [Er%Z.eqb_eq Es]%andb_true_iff)%existsb_exists.
      by rewrite (Hy y Hin Er) in Es. }
  destruct (negb pending || (4 <=? b.(row_hit_count_))) eqn:Eo; apply returns_ret; cbn [fst snd].
  - split; [by apply shared_stat|]. split; [intros _|done]. split; [done|]. exists b. split; [done|].
    apply orb_true_iff in Eo as [Eo|Eo]; [left; apply Hpend; by destruct pending|right; lia].
  - split; [done|]. split; [done|]. intros (_ & b' & Eb' & Hor). assert (b' = b) as -> by congruence.
    apply orb_false_iff in Eo as [Eo1 Eo2]. destruct Hor as [Hor%Hpend|?]; [by rewrite Hor in Eo1|lia].
Qed.
Lemma HasRWDependency_spec prev req : HasRWDependency prev req = false ↔ no_older_read prev req.
Proof.
  unfold HasRWDependency, no_older_read. split.
  - intros E x Hx Hr (E1 & E2 & E3 & E4). apply not_true_iff_false in E. apply E, existsb_exists. exists x.
    split; [by apply list_elem_of_In|]. by rewrite Hr, E1, E2, E3, E4, !Z.eqb_refl.
  - intros Hn. apply not_true_is_false. intros (x & Hx%list_elem_of_In & E)%existsb_exists.
    repeat (apply andb_true_iff in E as [E ?%Z.eqb_eq]). by apply (Hn x Hx E).
Qed.

(** the result of a scan: nothing, and every request of [rest] is passed over, or what is offered for the first one
    that is not *)
Definition scanned clk cs prev rest (y : Command) : Prop :=
  (y = Command0 ∧ ∀ mid req rest', rest = mid ++ req :: rest' → passed clk cs (prev ++ mid) req rest') ∨
  ∃ mid req rest', rest = mid ++ req :: rest' ∧ offered clk cs (prev ++ mid) req rest' y ∧
    ∀ m1 x m2, mid = m1 ++ x :: m2 → passed clk cs (prev ++ m1) x (m2 ++ req :: rest').
Lemma scanned_next clk cs prev x rest y : passed clk cs prev x rest → scanned clk cs (prev ++ [x]) rest y →
  scanned clk cs prev (x :: rest) y.
Proof.
  intros Hx [[-> Hall]|(mid & req & rest' & -> & Hy & Hall)]; [left|right].
  - split; [done|]. intros [|z mid] req rest' [= -> E].
    + rewrite E in Hx. by rewrite app_nil_r.
    + specialize (Hall mid req rest' E). by rewrite <- app_assoc in Hall.
  - exists (x :: mid), req, rest'. rewrite <- app_assoc in Hy. split; [done|]. split; [done|].
    intros [|z m1] w m2 [= -> E].
    + rewrite app_nil_r, <- E. done.
    + specialize (Hall m1 w m2 E). by rewrite <- app_assoc in Hall.
Qed.

Lemma first_ready_spec clk sh cs prev rest : shared_ok c sh → calm cs → Forall access_ok rest →
  returns (first_ready B c clk sh cs prev rest) (λ r, shared_ok c r.1.1 ∧ r.1.2 = cs ∧ scanned clk cs prev rest r.2).
Proof.
  intros Hs Hcalm Hall. revert sh prev Hs. induction Hall as [|x rest Hx Hall IH]; intros sh prev Hs; cbn [first_ready].
  { apply returns_ret. cbn [fst snd]. split; [done|]. split; [done|]. left. split; [done|]. by intros [|] ? ?. }
  destruct (ask_spec sh cs x clk Hs Hcalm (access_request cs x Hx)) as ([[sh1 cs1] y] & Er & Hs1 & E1 & Hy).
  pose proof (next_of_access sh cs x clk _ Hs (cm_ok _ Hcalm) Hx Er) as Hn. rewrite Er. cbn [fst snd mbind outcome_bind] in *.
  subst cs1.
  assert (∀ sh', shared_ok c sh' → (IsValid y = false ∨ ¬ goes cs prev x rest y) →
    returns (first_ready B c clk sh' cs (prev ++ [x]) rest)
      (λ r, shared_ok c r.1.1 ∧ r.1.2 = cs ∧ scanned clk cs prev (x :: rest) r.2)) as Hgo.
  { intros sh' Hs' Hp. eapply returns_mono; [by apply IH|]. intros r (H1 & H2 & H3). split; [done|]. split; [done|].
    apply scanned_next; [|done]. exists sh, (sh1, cs, y). done. }
  destruct (IsValid y) eqn:Ev; cbn [negb]; [|apply Hgo; [done|by left]].
  destruct Hy as [->|Hy]; [done|]. destruct Hn as [->|Hn]; [done|].
  assert (goes cs prev x rest y → shared_ok c sh1 ∧ cs = cs ∧ scanned clk cs prev (x :: rest) y) as Hend.
  { intros Hg. split; [done|]. split; [done|]. right. exists [], x, rest. rewrite app_nil_r. split; [done|].
    split; [done|]. by intros [|] ? ?. }
  destruct (ct_eqb y.(cmd_type) PRECHARGE || ct_eqb y.(cmd_type) PRECHARGE2) eqn:Epre.
  - assert (is_pre y.(cmd_type)) as Hpre.
    { apply orb_true_iff in Epre as [E%ct_eqb_eq|E%ct_eqb_eq]; [by left|by right]. }
    assert (IsWrite y = false) as Ew by (unfold IsWrite; by destruct Hpre as [-> | ->]).
    eapply returns_bind; [apply (ArbitratePrecharge_spec sh1 cs prev x rest Hs1); [apply Hcalm|done]|].
    intros [sh2 ok] [Hs2 Hok2]. cbn [fst snd] in *. destruct ok; cbn [negb].
    + apply returns_ret. cbn [fst snd]. split; [done|]. apply Hend. split; [intros _; by apply Hok2|]. by rewrite Ew.
    + apply Hgo; [done|]. right. intros [Hg _]. by apply Hok2 in Hg.
  - assert (¬ is_pre y.(cmd_type)) as Hpre by (intros [E|E]; by rewrite E in Epre).
    destruct (IsWrite y) eqn:Ew; cbn [andb]; [|apply returns_ret; apply Hend; split; [done|by rewrite Ew]].
    destruct (HasRWDependency prev x) eqn:Ed.
    + apply Hgo; [done|]. right. intros [_ Hg]. specialize (Hg Ew). apply HasRWDependency_spec in Hg. congruence.
    + apply returns_ret. apply Hend. split; [done|]. intros _. by apply HasRWDependency_spec.
Qed.

(** ** The command to issue *)
Definition issued cmd rd : list Z :=
  if IsReadWrite cmd && Bool.eqb (IsRead cmd) rd then [cmd.(hex_addr)] else [].
(** the queue that the [k]-th turn visits, and why queue [i] gives nothing: a refresh or an RFM keeps it out, or each
    of its requests is passed over *)
Definition turn q (k : Z) : Z := (q.(queue_idx_) + 1 + k) mod q.(num_queues_).
Definition kept_out q (i : Z) : bool :=
  (q.(is_in_ref_) && bool_decide (i ∈ q.(ref_q_indices_))) || (q.(is_in_rfm_) && bool_decide (i ∈ q.(rfm_q_indices_))).
Definition skipped cs q (i : Z) : Prop := kept_out q i = true ∨
  ∃ l, aget q.(queues_) i = Ret l ∧
    ∀ prev req rest, l = prev ++ req :: rest → passed q.(q_clk_) cs prev req rest.
(** [cmd] is offered for [req] of the [k]-th queue, and nothing before it in this order could go *)
Definition chosen cs q q' (cmd : Command) : Prop := ∃ k l prev req rest, 0 <= k < q.(num_queues_) ∧
  q'.(queue_idx_) = turn q k ∧ kept_out q (turn q k) = false ∧ aget q.(queues_) (turn q k) = Ret l ∧
  l = prev ++ req :: rest ∧ access_ok req ∧ offered q.(q_clk_) cs prev req rest cmd ∧
  (∀ m1 x m2, prev = m1 ++ x :: m2 → passed q.(q_clk_) cs m1 x (m2 ++ req :: rest)) ∧
  ∀ j, 0 <= j < k → skipped cs q (turn q j).
Definition to_issue cs q (r : Shared G * ChannelState * CommandQueue * Command) : Prop :=
  let '(sh', cs', q', cmd) := r in
  shared_ok c sh' ∧ cs' = cs ∧ queue_ok q' ∧ same_setting q q' ∧
  (∀ rd, kind_in rd q.(queues_) ≡ₚ issued cmd rd ++ kind_in rd q'.(queues_)) ∧
  ((cmd = Command0 ∧ ∀ i, 0 <= i < q.(num_queues_) → skipped cs q i) ∨ chosen cs q q' cmd).
Lemma to_issue_ready cs q r : to_issue cs q r →
  r.2 = Command0 ∨ ∃ req, access_ok req ∧ chan_ready B c cs req q.(q_clk_) r.2.
Proof.
  destruct r as [[[sh' cs'] q'] cmd]. intros (_ & _ & _ & _ & _ & [[-> _]|(k & l & prev & req & rest & Hc')]); [by left|].
  right. exists req. cbn [snd]. destruct Hc' as (_ & _ & _ & _ & _ & Hao & (_ & Hr & _) & _). done.
Qed.

Lemma same_setting_refl q : same_setting q q.
Proof. done. Qed.
Lemma GetNextQueue_spec q : queue_ok q → ∃ q' l, GetNextQueue q = Ret (q', l) ∧ queue_ok q' ∧
  q' = q <| queue_idx_ := turn q 0 |> ∧ aget q.(queues_) (turn q 0) = Ret l.
Proof.
  intros Hq. pose proof (num_queues_range q Hq). pose proof (qo_idx _ Hq) as Hi. unfold GetNextQueue, turn.
  rewrite i32_id by (unfold is_i32; lia). rewrite Z.add_0_r.
  assert ((if queue_idx_ q + 1 =? num_queues_ q then 0 else queue_idx_ q + 1) = (queue_idx_ q + 1) mod num_queues_ q) as ->.
  { destruct (Z.eqb_spec (queue_idx_ q + 1) (num_queues_ q)) as [->|]; [by rewrite Z.mod_same by lia|].
    rewrite Z.mod_small; lia. }
  pose proof (Z.mod_pos_bound (queue_idx_ q + 1) (num_queues_ q) ltac:(lia)) as Hj.
  rsimp. destruct (aget_ok q.(queues_) ((queue_idx_ q + 1) mod num_queues_ q)) as [l El]; [by rewrite (qo_len _ Hq)|].
  rewrite El. cbn [mbind outcome_bind]. do 2 eexists. split; [done|]. split; [|done].
  destruct Hq as [H1 H2 H3 H4 H5 H6]. by split.
Qed.
(** the turns visit every queue *)
Lemma turn_all q i : queue_ok q → 0 <= i < q.(num_queues_) → ∃ k, 0 <= k < q.(num_queues_) ∧ turn q k = i.
Proof.
  intros Hq Hi. pose proof (qo_idx _ Hq). exists ((i - q.(queue_idx_) - 1) mod q.(num_queues_)).
  split; [apply Z.mod_pos_bound; lia|]. unfold turn. rewrite Z.add_mod_idemp_r by lia.
  replace (_ + 1 + _) with i by lia. by apply Z.mod_small.
Qed.

Lemma GetCommandToIssue_spec sh cs q : shared_ok c sh → calm cs → queue_ok q →
  returns (GetCommandToIssue B c sh cs q) (to_issue cs q).
Proof.
  intros Hs Hcalm Hq. unfold GetCommandToIssue. pose proof (num_queues_range q Hq) as Hnum. pose proof (qo_idx _ Hq) as Hidx.
  set (Inv := λ (k : Z) (s : Shared G * ChannelState * CommandQueue), let '(sh', cs', q') := s in
    shared_ok c sh' ∧ cs' = cs ∧ queue_ok q' ∧ q' = q <| queue_idx_ := turn q (k - 1) |> ∧
    ∀ j, 0 <= j < k → skipped cs q (turn q j)).
  eapply returns_bind; [apply (for_ret_seq Inv (λ cmd s, to_issue cs q (s, cmd))); [lia| |]|].
  - split; [done|]. split; [done|]. split; [done|]. split; [|lia]. unfold turn.
    replace (_ + 1 + (0 - 1)) with q.(queue_idx_) by lia. rewrite Z.mod_small by lia. by destruct q.
  - intros [[sh1 cs1] q1] k Hk (Hs1 & -> & Hq1 & Eq1 & Hskip).
    destruct (GetNextQueue_spec q1 Hq1) as (q2 & l & -> & Hq2 & Eq2 & El). cbn [mbind outcome_bind].
    assert (turn q1 0 = turn q k) as Et.
    { rewrite Eq1. unfold turn. rsimp. rewrite Z.add_0_r, Z.add_mod_idemp_l by lia. f_equal. lia. }
    rewrite Et in Eq2, El. assert (q2 = q <| queue_idx_ := turn q k |>) as -> by (rewrite Eq2, Eq1; by rsimp).
    rewrite Eq1 in El. rsimp. change (held (q <| queue_idx_ := turn q k |>)) with (kept_out q (turn q k)).
    assert (∀ sh', shared_ok c sh' → skipped cs q (turn q k) → Inv (k + 1) (sh', cs, q <| queue_idx_ := turn q k |>)) as Hnext.
    { intros sh' Hs' Hsk. split; [done|]. split; [done|]. split; [done|]. split; [by replace (k + 1 - 1) with k by lia|].
      intros j Hj. destruct (Z.eq_dec j k) as [->|]; [done|]. apply Hskip. lia. }
    destruct (kept_out q (turn q k)) eqn:Eout; [apply returns_ret; cbn [fst snd]; apply Hnext; [done|by left]|].
    assert (Forall access_ok l) as Hl.
    { apply Forall_forall. intros x Hx. by apply (qo_cmds _ Hq2 _ _ _ El Hx). }
    eapply returns_bind; [by apply (first_ready_spec q.(q_clk_) sh1 cs [] l)|].
    intros [[sh3 cs3] cmd] (Hs3 & E3 & Hy). cbn [fst snd] in *. subst cs3.
    destruct Hy as [[-> Hall]|(prev & req & rest & -> & Hy & Hall)].
    { cbn [IsValid cmd_type Command0]. apply returns_ret. cbn [fst snd]. apply Hnext; [done|]. right. by exists l. }
    pose proof Hy as (Ev & Hr & Hn & Hg). rewrite Ev. cbn [app] in *.
    assert (req ∈ prev ++ req :: rest) as Hin by (apply elem_of_app; right; left).
    pose proof (qo_cmds _ Hq2 _ _ _ El Hin) as [Hao _].
    assert (∀ q', queue_idx_ q' = turn q k → chosen cs q q' cmd) as Hch.
    { intros q' Eq'. exists k, (prev ++ req :: rest), prev, req, rest. split_and!; try done; lia. }
    destruct (IsReadWrite cmd) eqn:Erw.
    + destruct (cr_rw _ _ _ _ _ _ Hr Erw) as (Ha & Hh & _ & Hk'). specialize (Hk' (ao_kind _ Hao)).
      destruct (EraseRWCommand_spec _ req cmd _ _ Hq2 El Hin Ha Hh Hk') as (q4 & -> & Hq4 & Hset4 & Hidx4 & Hperm).
      cbn [mbind outcome_bind]. apply returns_ret. cbn [fst snd]. unfold to_issue. split_and!; try done.
      * intros rd. unfold issued. rewrite Erw. apply Hperm.
      * right. by apply Hch.
    + cbn [mbind outcome_bind]. apply returns_ret. cbn [fst snd]. unfold to_issue. split_and!; try done.
      * intros rd. unfold issued. by rewrite Erw.
      * right. by apply Hch.
  - intros [[[sh' cs'] q'] [cmd|]] Hr; cbn [fst snd] in *; apply returns_ret; cbn [default]; [exact Hr|].
    destruct Hr as (H1 & H2 & H3 & H4 & H5). rewrite H4. split; [done|]. split; [done|]. split; [by rewrite <- H4|].
    split; [done|]. split; [done|]. left. split; [done|]. intros i Hi. destruct (turn_all q i Hq Hi) as (k & Hk & <-).
    apply H5. lia.
Qed.

(** ** New commands *)
Lemma WillAcceptCommand_spec q x : queue_ok q → access_ok x →
  ∃ b, WillAcceptCommand c q (Rank x) (Bankgroup x) (Bank x) = Ret b.
Proof.
  intros Hq Hx. unfold WillAcceptCommand. destruct (get_queue q x Hq Hx) as (l & -> & _). by eexists.
Qed.
Lemma AddCommand_spec q x : queue_ok q → access_ok x →
  WillAcceptCommand c q (Rank x) (Bankgroup x) (Bank x) = Ret true →
  ∃ q', AddCommand c q x = Ret (q', true) ∧ queue_ok q' ∧ q'.(q_clk_) = q.(q_clk_) ∧
    q'.(queue_structure_) = q.(queue_structure_) ∧
    ∀ rd, kind_in rd q'.(queues_) ≡ₚ (if Bool.eqb (IsRead x) rd then [x.(hex_addr)] else []) ++ kind_in rd q.(queues_).
Proof.
  intros Hq Hx. unfold WillAcceptCommand, AddCommand. destruct (get_queue q x Hq Hx) as (l & -> & El).
  cbn [mbind outcome_bind]. intros [= ->].
  destruct (set_queue_spec q x l (l ++ [x]) Hq El) as (q1 & -> & Hq1 & Hrest & (p & s & C1 & C2)).
  { intros y [Hy|Hy%list_elem_of_singleton]%elem_of_app; [by apply (qo_cmds _ Hq _ _ _ El)|by subst]. }
  cbn [mbind outcome_bind].
  destruct (aset_returns q1.(rank_q_empty) (Rank x) false) as [e Ee]; [rewrite (qo_empty _ Hq1); apply (ao_target _ Hx)|].
  rewrite Ee. cbn [mbind outcome_bind]. eexists. split; [done|]. split; [|rsimp; split; [by rewrite Hrest|split; [by rewrite Hrest|]]].
  - destruct Hq1 as [H1 H2 H3 H4 H5 H6]. split; rsimp; try done. by rewrite (aset_length _ _ _ _ Ee).
  - intros rd. unfold kind_in. rewrite C1, C2. rewrite !omap_app, <- !app_assoc.
    rewrite (Permutation_app_swap_app (omap _ l) (omap _ [x])), (Permutation_app_swap_app (omap _ p) (omap _ [x])).
    apply Permutation_app_tail. cbn [omap list_omap]. unfold kind_of. by destruct (Bool.eqb _ _).
Qed.

(** ** Refresh *)
Record refresh_ok q x : Prop := {
  rf_type : IsRefresh x = true;
  rf_target : target_ok c x;
  rf_sb : x.(cmd_type) = REFsb → q.(queue_structure_) = PER_BANK
}.
Lemma refresh_request q cs x : refresh_ok q x → calm cs → request_ok c cs x.
Proof.
  intros [Ht Htg _] [Hok [Hsync _] Haw _]. split; [done|]. split.
  - intros r g k b Hcov Eb. right. split; [unfold IsRefresh in Ht; by destruct (cmd_type x)|].
    intros Es. apply Hsync in Eb as [Hf _]. specialize (Hf Es). rewrite Haw in Hf; [done|].
    unfold covers in Hcov. destruct Htg. lia.
  - unfold IsRefresh in Ht. by destruct (cmd_type x).
Qed.
Lemma insert_rank_queues_spec q r s : ∃ s', insert_rank_queues c q r s = Ret s'.
Proof.
  unfold insert_rank_queues. destruct Hshape as [Hr Hbg Hbpg Hbk Hmax].
  destruct (for_inv (λ _ : gset Z, True) (seqZ 0 q.(num_queues_)) s (λ s i,
    r' ← iquot i c.(banks); Ret (if r' =? r then {[ i ]} ∪ s else s))) as (s' & E & _); [done| |by exists s'].
  intros s' i _ _. rewrite iquot_ok by nia. by apply returns_ret.
Qed.
Lemma GetRefQIndices_spec q x : refresh_ok q x → ∃ s, GetRefQIndices c q x = Ret (q <| ref_q_indices_ := s |>).
Proof.
  intros [_ _ Hsb]. unfold GetRefQIndices. destruct (ct_eqb _ REFab).
  { destruct (queue_structure_ q); [by eexists|].
    destruct (insert_rank_queues_spec q (Rank x) q.(ref_q_indices_)) as [s ->]. by eexists. }
  destruct (ct_eqb _ REFsb) eqn:E; [|by eexists]. apply ct_eqb_eq in E. rewrite (Hsb E). by eexists.
Qed.
Lemma FinishRefresh_spec sh cs q ref : shared_ok c sh → calm cs → queue_ok q →
  PendingRefCommand cs = Ret ref → refresh_ok q ref →
  returns (FinishRefresh B c sh cs q) (λ r, let '(sh', cs', q', cmd) := r in
    shared_ok c sh' ∧ cs' = cs ∧ queue_ok q' ∧ q'.(q_clk_) = q.(q_clk_) ∧ q'.(queues_) = q.(queues_) ∧
    q'.(queue_structure_) = q.(queue_structure_) ∧
    (cmd = Command0 ∨ chan_ready B c cs ref q.(q_clk_) cmd)).
Proof.
  intros Hs Hcalm Hq Eref Href. unfold FinishRefresh. rewrite (qo_rfm _ Hq), Eref. cbn [negb assert_ mbind outcome_bind].
  assert (∃ q1, (if negb (is_in_ref_ q) then q0 ← GetRefQIndices c q ref; Ret (q0 <| is_in_ref_ := true |>) else Ret q)
    = Ret q1 ∧ queue_ok q1 ∧ q1.(q_clk_) = q.(q_clk_) ∧ q1.(queues_) = q.(queues_) ∧
      q1.(queue_structure_) = q.(queue_structure_)) as (q1 & -> & Hq1 & Eclk & Eqs & Est).
  { destruct (is_in_ref_ q); cbn [negb]; [by exists q|]. destruct (GetRefQIndices_spec q ref Href) as [s ->].
    cbn [mbind outcome_bind]. eexists. split; [done|]. rsimp. split; [|done]. destruct Hq as [H1 H2 H3 H4 H5 H6]. by split. }
  cbn [mbind outcome_bind]. rewrite Eclk.
  eapply returns_bind; [apply (ask_spec sh cs ref q.(q_clk_) Hs Hcalm); by eapply refresh_request|].
  intros [[sh2 cs2] cmd] (Hs2 & E2 & Hy). cbn [fst snd] in *. subst cs2. apply returns_ret.
  split; [done|]. split; [done|]. destruct (IsRefresh cmd); rsimp; (split; [|done]); [|done].
  destruct Hq1 as [H1 H2 H3 H4 H5 H6]. by split.
Qed.
End Queue.
