(* ===== verification/ControllerSpec.v ===== *)
(** * Properties of the memory controller ([Controller])

    The invariant of a controller and its cycle: the reads it was given are held until they are
    returned, each exactly once, and the bookkeeping of pending transactions agrees with the queues, so
    that no command that is issued misses its transaction. As in [QueueSpec], RFM, self-refresh
    and the dual commands of HBM are off, and alerts cannot happen. *)
From S2P Require Import Prelude Common Config Timing Stats BankState BankSpec ChannelState ChannelSpec ChannelRun ChannelSafety.
From S2P Require Import Refresh CommandQueue QueueSpec Controller.
Open Scope Z_scope.

(** ** The refresh generator *)
Section Generator.
Context (B : Build) (c : Config) (Hshape : shape_ok c).

Record gen_ok (r : Refresh) : Prop := {
  ge_policy : r.(refresh_policy_) = c.(refresh_policy);
  ge_interval : 0 < r.(refresh_interval_) < 2147483648;
  ge_rank : 0 <= r.(next_rank_) < c.(ranks);
  ge_bg : 0 <= r.(next_bg_) < c.(bankgroups);
  ge_bank : 0 <= r.(next_bank_) < c.(banks_per_group)
}.
Lemma next_mod_range x k : 0 <= x < k → k < 2147483648 → returns (next_mod x k) (λ n, 0 <= n < k).
Proof.
  intros Hx Hk. rewrite <- (Z.mod_small x k) by lia. rewrite next_mod_spec by lia.
  apply returns_ret, Z.mod_pos_bound. lia.
Qed.
Lemma next_rank_ok r : gen_ok r → returns (next_rank c r) gen_ok.
Proof.
  intros [E Hi Hr Hg Hb]. pose proof Hshape as [Sr Sg Sb _ _]. unfold next_rank.
  eapply returns_bind; [apply next_mod_range; lia|]. intros n Hn. apply returns_ret. by split; rsimp.
Qed.
Lemma next_bank_ok r : gen_ok r → returns (next_bank c r) gen_ok.
Proof.
  intros [E Hi Hr Hg Hb]. pose proof Hshape as [Sr Sg Sb _ _]. unfold next_bank.
  eapply returns_bind; [apply next_mod_range; lia|]. intros n Hn.
  assert (gen_ok (r <| next_bank_ := n |>)) as Hok by (by split; rsimp).
  destruct (n =? 0); [by apply next_rank_ok|by apply returns_ret].
Qed.
Lemma next_bg_ok r : gen_ok r → returns (next_bg c r) gen_ok.
Proof.
  intros [E Hi Hr Hg Hb]. pose proof Hshape as [Sr Sg Sb _ _]. unfold next_bg.
  eapply returns_bind; [apply next_mod_range; lia|]. intros n Hn.
  assert (gen_ok (r <| next_bg_ := n |>)) as Hok by (by split; rsimp).
  destruct (n =? 0); [by apply next_bank_ok|by apply returns_ret].
Qed.

(** a refresh for each queue structure that it fits *)
Context (Hbs : c.(refresh_policy) = BANKSET_LEVEL_STAGGERED → c.(Config.queue_structure) = "PER_BANK"%string).
Definition fits (q : CommandQueue) : Prop :=
  c.(Config.queue_structure) = "PER_BANK"%string → q.(queue_structure_) = PER_BANK.
Definition awake cs : Prop := ∀ r, 0 <= r < c.(ranks) → aget cs.(rank_is_sref_) r = Ret false.
Definition more_refreshes q cs cs' : Prop :=
  ∃ l, cs' = cs <| refresh_q_ := cs.(refresh_q_) ++ l |> ∧ Forall (refresh_ok c q) l.
Lemma more_none q cs : more_refreshes q cs cs.
Proof. exists []. rewrite app_nil_r. split; [by destruct cs|done]. Qed.
Lemma more_one q cs x : refresh_ok c q x → more_refreshes q cs (cs <| refresh_q_ ::= λ l, l ++ [x] |>).
Proof. intros Hx. exists [x]. split; [done|by constructor]. Qed.

Lemma staggered_ok q r cs (queue : ChannelState → ChannelState) x : gen_ok r → awake cs →
  queue cs = cs <| refresh_q_ ::= λ l, l ++ [x] |> → refresh_ok c q x → returns (IterateNext c r) gen_ok →
  returns (staggered c r cs queue) (λ s, gen_ok s.1 ∧ more_refreshes q cs s.2).
Proof.
  intros Hr Haw Eq Hx Hit. unfold staggered, IsRankSelfRefreshing. rewrite Haw by apply Hr. cbn [mbind outcome_bind].
  eapply returns_bind; [exact Hit|]. intros r' Hr'. apply returns_ret. cbn [fst snd]. split; [done|].
  rewrite Eq. by apply more_one.
Qed.
Lemma gen_tick q r cs : gen_ok r → fits q → awake cs →
  returns (Refresh.ClockTick c r cs) (λ s, gen_ok s.1 ∧ more_refreshes q cs s.2).
Proof.
  intros Hr Hq Haw. pose proof Hr as [E Hi Hrk Hg Hb]. pose proof Hshape as [Sr Sg Sb _ _]. unfold Refresh.ClockTick.
  rewrite u64_id by (unfold is_u64; lia). rewrite umod_ok by lia. cbn [mbind outcome_bind].
  assert (∀ s : Refresh * ChannelState, gen_ok s.1 ∧ more_refreshes q cs s.2 →
    returns (let (r, cs) := s in Ret (r <| clk_ ::= λ n, u64 (n + 1) |>, cs))
      (λ s, gen_ok s.1 ∧ more_refreshes q cs s.2)) as Hend.
  { intros [r' cs'] [H1 H2]. apply returns_ret. split; [|done]. destruct H1. by split; rsimp. }
  destruct (_ && _); [|apply (Hend (r, cs)); split; [done|apply more_none]].
  eapply returns_bind; [|exact Hend]. unfold InsertRefresh. rewrite E.
  assert (∀ r' g k, 0 <= r' < c.(ranks) → 0 <= k < c.(banks_per_group) → 0 <= g < c.(bankgroups) →
    refresh_ok c q (maint_cmd REFab r' (-1) (-1)) ∧ refresh_ok c q (maint_cmd REFRESH_BANK r' g k)) as Hm
    by (intros r' g k ? ? ?; split; (split; [done|split; [done|by split]|by intros]; cbn)).
  destruct (refresh_policy c) eqn:Ep.
  - rewrite (seqZ_cons 0) by lia. cbn [for_ret]. unfold IsRankSelfRefreshing. rewrite Haw by lia. cbn [mbind outcome_bind fst snd].
    apply returns_ret. split; [done|]. apply more_one. apply (Hm 0 0 0); lia.
  - eapply (staggered_ok q r cs); [done..|by apply (Hm r.(next_rank_) 0 0); lia|].
    unfold IterateNext. rewrite E. by apply next_rank_ok.
  - eapply (staggered_ok q r cs); [done..| |].
    + split; [done|split; [done|by split]|]. intros _. by apply Hq, Hbs.
    + unfold IterateNext. rewrite E. eapply returns_bind; [by apply next_bank_ok|]. intros r' Hr'. by apply next_bg_ok.
  - eapply (staggered_ok q r cs); [done..|by apply (Hm r.(next_rank_) r.(next_bg_) r.(next_bank_))|].
    unfold IterateNext. rewrite E. by apply next_bg_ok.
  - apply returns_ret. split; [done|apply more_none].
Qed.
End Generator.

(** ** Configurations *)

(** what the theorems about a controller assume of the configuration and the build *)
Record ctl_config (B : Build) (c : Config) : Prop := {
  cc_bank : bank_config_ok c;
  cc_shape : shape_ok c;
  cc_quiet : quiet B c;
  cc_press : B.(ROWPRESS) && uses_mopac B = false;
  cc_kind : B.(ROWPRESS) = false ∨ c.(row_buf_policy) = OPEN_PAGE;
  cc_sref : c.(enable_self_refresh) = false;
  cc_dual : c.(enable_hbm_dual_cmd) = false;
  cc_layout : layout_ok c c c.(ranks);
  cc_map : SetAddressMapping c c c.(ranks) = Ret (c : MappingParams);
  cc_bankset : c.(refresh_policy) = BANKSET_LEVEL_STAGGERED → c.(Config.queue_structure) = "PER_BANK"%string
}.

(** an address decodes to a location of the module *)
Lemma decode_ok (B : Build) (c : Config) hex : ctl_config B c → 0 <= hex →
  ∃ a, AddressMapping c c.(mop_size) hex = Ret a ∧ 0 <= a.(channel) < 2 ^ Z.log2 c.(channels) ∧
    0 <= a.(rank) < c.(ranks) ∧ 0 <= a.(bankgroup) < c.(bankgroups) ∧
    0 <= a.(bank) < c.(banks_per_group) ∧ 0 <= a.(row) < c.(rows).
Proof.
  intros Hcc Hhex. pose proof (cc_layout _ _ Hcc) as Hl.
  destruct (AddressMapping_spec c c c.(ranks) Hl c hex (cc_map _ _ Hcc) Hhex) as (a & Ea & _ & Hf).
  exists a. split; [done|].
  assert (∀ f, f ∈ layout_fields (is_mop c) →
    0 <= addr_field (Z.log2 c.(mop_size)) a f < 2 ^ field_width c c c.(ranks) f) as Hr.
  { intros f Hff. rewrite <- (ly_fields _ _ _ Hl) in Hff. rewrite (Hf f Hff). apply digit_range.
    exact Hl. }
  destruct (cc_shape _ _ Hcc) as [Sr Sg Sb _ _]. pose proof (bc_rows _ (cc_bank _ _ Hcc)).
  assert (∀ f, f ∈ ["ch"; "ra"; "bg"; "ba"; "ro"]%string → f ∈ layout_fields (is_mop c)) as Hin
    by (intros f Hff; unfold layout_fields; apply elem_of_app; by left).
  assert (∀ n, 0 < n → 2 ^ Z.log2 n <= n) as Hlog by (intros n Hn; apply Z.log2_spec; lia).
  pose proof (Hr "ch"%string (Hin "ch"%string ltac:(set_solver))) as H1. pose proof (Hr "ra"%string (Hin "ra"%string ltac:(set_solver))) as H2.
  pose proof (Hr "bg"%string (Hin "bg"%string ltac:(set_solver))) as H3. pose proof (Hr "ba"%string (Hin "ba"%string ltac:(set_solver))) as H4.
  pose proof (Hr "ro"%string (Hin "ro"%string ltac:(set_solver))) as H5.
  change (0 <= a.(channel) < 2 ^ Z.log2 c.(channels)) in H1. change (0 <= a.(rank) < 2 ^ Z.log2 c.(ranks)) in H2.
  change (0 <= a.(bankgroup) < 2 ^ Z.log2 c.(bankgroups)) in H3.
  change (0 <= a.(bank) < 2 ^ Z.log2 c.(banks_per_group)) in H4. change (0 <= a.(row) < 2 ^ Z.log2 c.(rows)) in H5.
  pose proof (Hlog c.(ranks)). pose proof (Hlog c.(bankgroups)). pose proof (Hlog c.(banks_per_group)).
  pose proof (Hlog c.(rows)). split; [done|]. lia.
Qed.

(** ** The transactions in flight *)

(** the address of a read ([rd = true]) or of a write *)
Definition t_kind (rd : bool) (t : Transaction) : option Z :=
  if Bool.eqb (negb t.(is_write)) rd then Some t.(t_addr) else None.
Definition in_queues (ctl : Controller) : list Transaction :=
  ctl.(unified_queue_) ++ ctl.(read_queue_) ++ ctl.(write_buffer_).
Definition waiting (rd : bool) (ctl : Controller) : list Z :=
  omap (t_kind rd) (in_queues ctl) ++ kind_in rd ctl.(cmd_queue_).(queues_).
(** the transactions that the controller was given and has not returned, each its address and whether it writes:
    reads until their command is issued, then in the return queue; writes in the return queue at once *)
Definition tag (t : Transaction) : Z * bool := (t.(t_addr), t.(is_write)).
Definition in_flight (ctl : Controller) : list (Z * bool) :=
  ((λ e : Z * Transaction, tag e.2) <$> ctl.(pending_rd_q_)) ++ (tag <$> ctl.(return_queue_)).
(** the reads among them *)
Definition reads (l : list (Z * bool)) : list Z := omap (λ x : Z * bool, if x.2 then None else Some x.1) l.
Lemma reads_app l1 l2 : reads (l1 ++ l2) = reads l1 ++ reads l2.
Proof. apply omap_app. Qed.
#[export] Instance reads_proper : Proper (Permutation ==> Permutation) reads.
Proof. intros l1 l2 Hl. by apply omap_Permutation. Qed.

(** the pending transactions are those that wait, or whose command [x] is about to be issued *)
Record balanced (x : bool → list Z) (ctl : Controller) : Prop := {
  ba_once : NoDup (x true ++ waiting true ctl);
  ba_reads : ∀ a, a ∈ x true ++ waiting true ctl ↔ a ∈ ctl.(pending_rd_q_).*1;
  ba_writes : x false ++ waiting false ctl ≡ₚ ctl.(pending_wr_q_).*1;
  ba_write_once : NoDup ctl.(pending_wr_q_).*1
}.

Record base_ok (B : Build) (c : Config) (ctl : Controller) : Prop := {
  bo_calm : calm B c ctl.(channel_state_);
  bo_rfm : ctl.(channel_state_).(rfm_q_) = [];
  bo_ref : Forall (refresh_ok c ctl.(cmd_queue_)) ctl.(channel_state_).(refresh_q_);
  bo_queue : queue_ok B c ctl.(cmd_queue_);
  bo_fits : fits c ctl.(cmd_queue_);
  bo_clk : ctl.(cmd_queue_).(q_clk_) = ctl.(ctl_clk_);
  bo_gen : gen_ok c ctl.(refresh_);
  bo_policy : ctl.(row_buf_policy_) = c.(row_buf_policy);
  bo_addr : Forall (λ t, is_u64 t.(t_addr)) (in_queues ctl);
  bo_pend : Forall (λ e, e.2.(t_addr) = e.1 ∧ e.2.(is_write) = false) ctl.(pending_rd_q_)
}.
Definition none (rd : bool) : list Z := [].
Definition ctl_ok (B : Build) (c : Config) (ctl : Controller) : Prop := base_ok B c ctl ∧ balanced none ctl.

(** the counters that the next command may move are below their width, and the activation counts
    of the window are there *)
Definition bank_counted (b : BankState) : Prop :=
  b.(acts_counter_) < 130 ∧ b.(raa_ctr_) < 2147483647 ∧ b.(total_row_acts_) ≠ [].
Definition ctl_ready (ctl : Controller) : Prop :=
  ∀ r g k b, bank_at ctl.(channel_state_).(bank_states_) r g k = Ret b → bank_counted b.

(** lists of pending transactions *)
Lemma count_key_pos {A} k (m : list (Z * A)) : count_key k m = 0 ↔ k ∉ m.*1.
Proof.
  unfold count_key, zlen. induction m as [|e m IH]; cbn [List.filter fmap list_fmap]; [set_solver|].
  rewrite not_elem_of_cons. destruct (Z.eqb_spec e.1 k) as [E|E]; cbn [length]; [|naive_solver].
  split; [lia|]. intros [? _]. congruence.
Qed.
Lemma count_key_nonneg {A} k (m : list (Z * A)) : 0 <= count_key k m.
Proof. unfold count_key, zlen. lia. Qed.
Lemma take_key_spec {A} k (m : list (Z * A)) : k ∈ m.*1 →
  ∃ x rest, take_key k m = Some (x, rest) ∧ m ≡ₚ (k, x) :: rest ∧ count_key k m = count_key k rest + 1.
Proof.
  induction m as [|[k' y] m IH]; [by intros ?%elem_of_nil|]. cbn [take_key fmap list_fmap fst snd].
  destruct (Z.eqb_spec k' k) as [->|Hne].
  - intros _. exists y, m. split; [done|]. split; [done|]. unfold count_key, zlen. cbn [List.filter fst].
    rewrite Z.eqb_refl. cbn [length]. lia.
  - intros [?|Hin]%elem_of_cons; [done|]. destruct (IH Hin) as (x & rest & -> & Hp & Hc).
    exists x, ((k', y) :: rest). split; [done|]. split; [by rewrite Hp; constructor|].
    unfold count_key in *. cbn [List.filter fst]. apply Z.eqb_neq in Hne. rewrite Hne. done.
Qed.

Section Ctl.
Context {G : Type} `{Rng64 G} (B : Build) (wb_inf : bool) (c : Config) (Hcc : ctl_config B c).
Notation T := (Timing_new c).
Implicit Types (sh : Shared G) (ctl : Controller) (cmd : Command) (t : Transaction).

(** ** Scheduling *)
Lemma same_row_later_spec (a : Address) rest : Forall (λ t, is_u64 t.(t_addr)) rest →
  ∃ b, same_row_later c a rest = Ret b.
Proof.
  intros Hall. unfold same_row_later.
  destruct (for_ret_inv (λ _ : unit, True) (λ (_ : bool) _, True) rest tt (λ _ t,
    p ← AddressMapping c c.(mop_size) t.(t_addr);
    Ret (tt, if (p.(row) =? a.(row)) && (p.(rank) =? a.(rank)) && (p.(bankgroup) =? a.(bankgroup)) &&
                (p.(bank) =? a.(bank)) then Some true else None))) as (r & -> & _); [done| |by eexists].
  intros _ t Ht _. rewrite Forall_forall in Hall.
  destruct (decode_ok B c t.(t_addr) Hcc ltac:(apply Hall, Ht)) as (p & -> & _). cbn [mbind outcome_bind].
  apply returns_ret. cbn [fst snd]. by case_match.
Qed.
Lemma TransToCommand_spec ctl t rest : ctl.(row_buf_policy_) = c.(row_buf_policy) → is_u64 t.(t_addr) →
  Forall (λ t, is_u64 t.(t_addr)) rest →
  returns (TransToCommand B c ctl t rest) (λ x, access_ok B c x ∧ x.(hex_addr) = t.(t_addr) ∧
    IsRead x = negb t.(is_write) ∧ IsWrite x = t.(is_write)).
Proof.
  intros Ep Ht Hrest. unfold TransToCommand. rewrite Ep.
  destruct (decode_ok B c t.(t_addr) Hcc ltac:(apply Ht)) as (a & -> & _ & Hr & Hg & Hk & Hrow). cbn [mbind outcome_bind].
  assert (∀ y, is_access y = true → keeps_kind B y → rd_type y = negb t.(is_write) →
    returns (Ret (mkCommand y a t.(t_addr))) (λ x, access_ok B c x ∧ x.(hex_addr) = t.(t_addr) ∧
    IsRead x = negb t.(is_write) ∧ IsWrite x = t.(is_write))) as Hend.
  { intros y Hy Hkd Hrd. apply returns_ret. split; [split; [done|by split|done|done]|]. split; [done|].
    unfold IsRead, IsWrite. cbn [cmd_type]. destruct y, t.(is_write); try done. }
  assert (keeps_kind B READ ∧ keeps_kind B WRITE) as [Hkr Hkw] by (split; right; auto).
  assert (c.(row_buf_policy) ≠ OPEN_PAGE → ∀ y, keeps_kind B y) as Hno.
  { intros Hn y. left. by destruct (cc_kind _ _ Hcc). }
  destruct (row_buf_policy c) eqn:Ec.
  - cbn [mbind outcome_bind]. apply Hend; [by destruct t.(is_write)..|by destruct t.(is_write)].
  - cbn [mbind outcome_bind]. apply Hend; unfold close_type; [by repeat case_match|by apply Hno|by repeat case_match].
  - destruct (same_row_later_spec a rest Hrest) as [e ->]. cbn [mbind outcome_bind].
    apply Hend; [by repeat case_match|by apply Hno|by repeat case_match].
Qed.

Definition of_kind t rd : list Z := if Bool.eqb (negb t.(is_write)) rd then [t.(t_addr)] else [].
(** [q'] is [q] with the command of [t] added *)
Definition took t q q' : Prop :=
  queue_ok B c q' ∧ q'.(q_clk_) = q.(q_clk_) ∧ q'.(queue_structure_) = q.(queue_structure_) ∧
  ∀ rd, kind_in rd q'.(queues_) ≡ₚ of_kind t rd ++ kind_in rd q.(queues_).
Definition scheduled ctl (l : list Transaction) (r : Controller * option (list Transaction)) : Prop :=
  match r.2 with
  | None => r.1 = ctl <| write_draining_ := r.1.(write_draining_) |>
  | Some l' => ∃ t q', l ≡ₚ t :: l' ∧ took t ctl.(cmd_queue_) q' ∧
      r.1 = ctl <| write_draining_ := r.1.(write_draining_) |> <| cmd_queue_ := q' |>
  end.
Lemma schedule_spec ctl prev rest : ctl.(row_buf_policy_) = c.(row_buf_policy) →
  queue_ok B c ctl.(cmd_queue_) → Forall (λ t, is_u64 t.(t_addr)) rest →
  returns (schedule B c ctl prev rest) (scheduled ctl (prev ++ rest)).
Proof.
  intros Ep Hq Hall. pose proof (cc_shape _ _ Hcc) as Hsh. pose proof (cc_quiet _ _ Hcc) as Hqt.
  revert prev. induction Hall as [|t rest Ht Hall IH]; intros prev; cbn [schedule].
  { apply returns_ret. unfold scheduled. cbn [fst snd]. by destruct ctl. }
  eapply returns_bind; [by apply TransToCommand_spec|]. intros x (Hx & Ha & Hrd & Hw). cbn beta in *.
  destruct (WillAcceptCommand_spec B c Hsh Hqt _ _ Hq Hx) as [ok Eok]. rewrite Eok. cbn [mbind outcome_bind].
  destruct ok; [|rewrite (cons_middle t prev rest), app_assoc; apply IH].
  destruct (_ && (0 <? _)); [by apply returns_ret|].
  destruct (AddCommand_spec B c Hsh Hqt _ _ Hq Hx Eok) as (q' & Eq & Hq' & Hclk & Hst & Hk).
  set (ctl1 := if _ : bool then _ else ctl).
  assert (ctl1 = ctl <| write_draining_ := ctl1.(write_draining_) |>) as E1 by (subst ctl1; destruct (_ && _); by destruct ctl).
  rewrite E1. rsimp. rewrite Eq. cbn [mbind outcome_bind]. apply returns_ret. unfold scheduled. cbn [fst snd].
  exists t, q'. split; [by rewrite Permutation_middle|]. split; [|done]. split; [done|]. split; [done|]. split; [done|].
  intros rd. unfold of_kind. rewrite <- Hrd, <- Ha. apply Hk.
Qed.

Definition rest_same ctl ctl' : Prop :=
  ctl'.(refresh_) = ctl.(refresh_) ∧ ctl'.(channel_state_) = ctl.(channel_state_) ∧
  ctl'.(ctl_clk_) = ctl.(ctl_clk_) ∧ ctl'.(pending_rd_q_) = ctl.(pending_rd_q_) ∧
  ctl'.(pending_wr_q_) = ctl.(pending_wr_q_) ∧ ctl'.(return_queue_) = ctl.(return_queue_) ∧
  ctl'.(row_buf_policy_) = ctl.(row_buf_policy_).
Lemma refresh_ok_structure q q' l : q'.(queue_structure_) = q.(queue_structure_) →
  Forall (refresh_ok c q) l → Forall (refresh_ok c q') l.
Proof. intros E Hl. eapply Forall_impl; [exact Hl|]. intros x []. split; try done. by rewrite E. Qed.
(** the queue is replaced and transactions leave *)
Lemma base_move ctl ctl' : base_ok B c ctl → rest_same ctl ctl' → queue_ok B c ctl'.(cmd_queue_) →
  ctl'.(cmd_queue_).(q_clk_) = ctl.(cmd_queue_).(q_clk_) →
  ctl'.(cmd_queue_).(queue_structure_) = ctl.(cmd_queue_).(queue_structure_) →
  (∀ t, t ∈ in_queues ctl' → t ∈ in_queues ctl) → base_ok B c ctl'.
Proof.
  intros [A1 A2 A3 A4 A5 A6 A7 A8 A9 A10] (E1 & E2 & E3 & E4 & E5 & E6 & E7) Hq Hclk Hst Hin.
  split; rewrite ?E1, ?E2, ?E3, ?E4, ?E7; try done; try congruence.
  - by eapply refresh_ok_structure.
  - intros Hf. rewrite Hst. by apply A5.
  - rewrite Forall_forall in A9 |- *. intros t Ht. by apply A9, Hin.
Qed.

Definition moved ctl ctl' : Prop :=
  base_ok B c ctl' ∧ rest_same ctl ctl' ∧ ∀ rd, waiting rd ctl' ≡ₚ waiting rd ctl.
Lemma moved_trans ctl1 ctl2 ctl3 : moved ctl1 ctl2 → moved ctl2 ctl3 → moved ctl1 ctl3.
Proof.
  intros (_ & H1 & W1) (Hb & H2 & W2). split; [done|]. split.
  - unfold rest_same in *. destruct_and!. split_and!; congruence.
  - intros rd. by rewrite W2.
Qed.
(** a transaction goes from the transaction queues to the command queue *)
Lemma moved_took ctl ctl' t : base_ok B c ctl → rest_same ctl ctl' →
  in_queues ctl ≡ₚ t :: in_queues ctl' → took t ctl.(cmd_queue_) ctl'.(cmd_queue_) → moved ctl ctl'.
Proof.
  intros Hb Hr Hl (Hq & Hclk & Hst & Hk). split; [|split; [done|]].
  - eapply base_move; try done. intros t' Ht. rewrite Hl. by right.
  - intros rd. unfold waiting. rewrite Hk. rewrite (omap_Permutation _ _ _ Hl). cbn [omap list_omap].
    unfold of_kind. change (t_kind rd t) with (if Bool.eqb (negb t.(is_write)) rd then Some t.(t_addr) else None).
    destruct (Bool.eqb _ _); [|done]. cbn [app]. by rewrite Permutation_middle.
Qed.
(** nothing moves *)
Lemma moved_frame ctl ctl' : base_ok B c ctl → rest_same ctl ctl' → in_queues ctl' = in_queues ctl →
  ctl'.(cmd_queue_) = ctl.(cmd_queue_) → moved ctl ctl'.
Proof.
  intros Hb Hr Hl Hq. split; [|split; [done|]]; [|intros rd; unfold waiting; by rewrite Hl, Hq].
  eapply base_move; try done; rewrite ?Hq, ?Hl; try done. apply Hb.
Qed.

Lemma start_drain_spec sh ctl : shared_ok c sh → base_ok B c ctl →
  shared_ok c (start_drain wb_inf c sh ctl).1 ∧ moved ctl (start_drain wb_inf c sh ctl).2.
Proof.
  intros Hs Hb. unfold start_drain.
  repeat case_match; cbn [fst snd]; (split; [eauto 10 using shared_stat|by apply moved_frame]).
Qed.
Lemma run_queue_spec ctl l (put : list Transaction → Controller → Controller) : base_ok B c ctl →
  Forall (λ t, is_u64 t.(t_addr)) l → (∀ ctl l, rest_same ctl (put l ctl) ∧ (put l ctl).(cmd_queue_) = ctl.(cmd_queue_)) →
  (∀ n q t l', l ≡ₚ t :: l' →
     in_queues ctl ≡ₚ t :: in_queues (put l' (ctl <| write_draining_ := n |> <| cmd_queue_ := q |>))) →
  returns (schedule B c ctl [] l) (λ r, moved ctl match r.2 with Some l => put l r.1 | None => r.1 end).
Proof.
  intros Hb Hl Hput Hin. eapply returns_mono; [apply schedule_spec; [apply Hb|apply Hb|done]|].
  intros [ctl' [l'|]]; unfold scheduled; cbn [fst snd].
  - intros (t & q' & Hp & Htook & E). destruct (Hput ctl' l') as [P1 P2].
    apply (moved_took ctl (put l' ctl') t); [done|..].
    + unfold rest_same in *. destruct_and!. rewrite E in *. rsimp. split_and!; congruence.
    + rewrite E. by apply Hin.
    + rewrite P2, E. by rsimp.
  - intros ->. by apply moved_frame.
Qed.
Lemma ScheduleTransaction_spec sh ctl : shared_ok c sh → base_ok B c ctl →
  returns (ScheduleTransaction B wb_inf c sh ctl) (λ r, shared_ok c r.1 ∧ moved ctl r.2).
Proof.
  intros Hs Hb. unfold ScheduleTransaction.
  assert (∀ sh ctl0, shared_ok c sh → moved ctl ctl0 → returns
    (let run l (put : list Transaction → Controller → Controller) :=
       r ← schedule B c ctl0 [] l; Ret (sh, match r.2 with Some l => put l r.1 | None => r.1 end) in
     if ctl0.(is_unified_queue_) then run ctl0.(unified_queue_) (λ l ctl, ctl <| unified_queue_ := l |>)
     else if 0 <? ctl0.(write_draining_) then run ctl0.(write_buffer_) (λ l ctl, ctl <| write_buffer_ := l |>)
     else run ctl0.(read_queue_) (λ l ctl, ctl <| read_queue_ := l |>)) (λ r, shared_ok c r.1 ∧ moved ctl r.2)) as Hrun.
  { intros sh1 ctl1 Hs1 Hm. pose proof Hm as (Hb1 & _ & _). cbv zeta.
    pose proof (bo_addr _ _ _ Hb1) as Ha. unfold in_queues in Ha. rewrite !Forall_app in Ha. destruct Ha as (Au & Ar & Aw).
    assert (∀ l put, Forall (λ t, is_u64 t.(t_addr)) l →
      (∀ ctl l, rest_same ctl (put l ctl) ∧ (put l ctl).(cmd_queue_) = ctl.(cmd_queue_)) →
      (∀ n q t l', l ≡ₚ t :: l' →
         in_queues ctl1 ≡ₚ t :: in_queues (put l' (ctl1 <| write_draining_ := n |> <| cmd_queue_ := q |>))) →
      returns (r ← schedule B c ctl1 [] l; Ret (sh1, match r.2 with Some l => put l r.1 | None => r.1 end))
        (λ r, shared_ok c r.1 ∧ moved ctl r.2)) as Hone.
    { intros l put Hl Hput Hin. eapply returns_bind; [by apply (run_queue_spec ctl1 l put)|].
      intros [ctl2 o] Hm2. apply returns_ret. split; [done|]. exact (moved_trans _ _ _ Hm Hm2). }
    destruct (is_unified_queue_ ctl1); [|destruct (0 <? _)].
    - apply (Hone _ (λ l ctl, ctl <| unified_queue_ := l |>)); [done..|]. intros n q t l' Hp. unfold in_queues. rsimp.
      by rewrite Hp.
    - apply (Hone _ (λ l ctl, ctl <| write_buffer_ := l |>)); [done..|]. intros n q t l' Hp. unfold in_queues. rsimp.
      rewrite Hp. by rewrite !Permutation_middle.
    - apply (Hone _ (λ l ctl, ctl <| read_queue_ := l |>)); [done..|]. intros n q t l' Hp. unfold in_queues. rsimp.
      rewrite Hp. cbn [app]. by rewrite !Permutation_middle. }
  destruct (_ && _); [|by apply Hrun].
  destruct (start_drain_spec sh ctl Hs Hb) as [Hs' Hm]. destruct (start_drain wb_inf c sh ctl) as [sh' ctl']. by apply Hrun.
Qed.

(** ** Issuing a command *)
Lemma return_reads_spec n a ctl : Forall (λ e, e.2.(t_addr) = e.1 ∧ e.2.(is_write) = false) ctl.(pending_rd_q_) →
  Z.of_nat n = count_key a ctl.(pending_rd_q_) →
  returns (return_reads c n a ctl) (λ ctl',
    ctl' = ctl <| return_queue_ := ctl'.(return_queue_) |> <| pending_rd_q_ := ctl'.(pending_rd_q_) |> ∧
    in_flight ctl' ≡ₚ in_flight ctl ∧
    Forall (λ e, e.2.(t_addr) = e.1 ∧ e.2.(is_write) = false) ctl'.(pending_rd_q_) ∧
    ∀ b, b ∈ ctl'.(pending_rd_q_).*1 ↔ b ≠ a ∧ b ∈ ctl.(pending_rd_q_).*1).
Proof.
  revert ctl. induction n as [|n IH]; intros ctl Hall Hn; cbn [return_reads].
  { apply returns_ret. split; [by destruct ctl|]. split; [done|]. split; [done|]. symmetry in Hn.
    apply count_key_pos in Hn. intros b. split; [|by intros [??]]. intros Hb. split; [by intros ->|done]. }
  assert (a ∈ ctl.(pending_rd_q_).*1) as Hin.
  { destruct (decide (a ∈ ctl.(pending_rd_q_).*1)) as [|Hno]; [done|]. apply count_key_pos in Hno. lia. }
  destruct (take_key_spec a _ Hin) as (t & rest & -> & Hp & Hc). rewrite Hp in Hall. apply Forall_cons in Hall as [[Ht Hw] Hall].
  cbn [fst snd] in *.
  match goal with |- returns (return_reads c n a ?x) _ => set (ctl1 := x) end.
  eapply returns_mono; [apply (IH ctl1); [exact Hall|]; change (pending_rd_q_ ctl1) with rest; lia|].
  intros ctl' (E & Hr & Hf & Hb). split; [rewrite E; by rsimp|]. split; [|split; [done|]].
  - rewrite Hr. unfold in_flight. change (pending_rd_q_ ctl1) with rest. rewrite Hp.
    change (return_queue_ ctl1) with (return_queue_ ctl ++ [t <| complete_cycle := u64 (ctl_clk_ ctl + read_delay c) |>]).
    rewrite fmap_app. cbn [fmap list_fmap snd]. change (tag (t <| complete_cycle := _ |>)) with (tag t). solve_Permutation.
  - intros b. rewrite (Hb b). change (pending_rd_q_ ctl1) with rest. rewrite Hp. cbn [fmap list_fmap fst].
    rewrite elem_of_cons. split; [intros [??]; split; [done|by right]|intros [? [?|?]]; [done|by split]].
Qed.

Lemma UpdateCommandStats_spec sh ctl cmd : shared_ok c sh → chan_ok c ctl.(channel_state_) → target_ok c cmd →
  cmd.(cmd_type) ≠ SIZE → returns (UpdateCommandStats sh ctl cmd) (shared_ok c).
Proof.
  intros Hs Hok Ht Hsz. unfold UpdateCommandStats.
  assert (IsReadWrite cmd = true → ∃ v, ChannelState.RowHitCount ctl.(channel_state_) (Rank cmd) (Bankgroup cmd) (Bank cmd)
    = Ret v) as Hhit.
  { intros Erw. apply (query_bank c); [done|]. destruct Ht as (H1 & H2 & H3).
    assert (IsRankCMD cmd = false ∧ IsSbCMD cmd = false) as [E1 E2]
      by (unfold IsReadWrite, IsRead, IsWrite, IsRankCMD, IsSbCMD in *; by destruct (cmd_type cmd)).
    split; [done|]. split; auto. }
  unfold IsReadWrite, IsRead, IsWrite in Hhit.
  destruct (cmd_type cmd); try (apply returns_ret; eauto 10 using shared_stat); try done;
    (destruct Hhit as [v ->]; [done|]; cbn [mbind outcome_bind]; apply returns_ret; case_match; eauto 10 using shared_stat).
Qed.

(** requests that the command queues make: accesses and refreshes *)
Definition plain cmd : Prop := is_access cmd.(cmd_type) = true ∨ IsRefresh cmd = true.
Lemma erase_first_Forall {A} (P : A → Prop) (p : A → bool) l : Forall P l → Forall P (erase_first p l).
Proof. rewrite !Forall_forall. intros Hl x Hx. by eapply Hl, erase_first_incl. Qed.
Lemma calm_step cs cs' req y clk : calm B c cs → plain req → chan_ready B c cs req clk y →
  chan_step B c T y clk cs cs' → calm B c cs'.
Proof.
  intros [Hok Hsync Haw Hmu Hal] Hpl [Htgt Hsz _ _ _ Hent] Hst. split.
  - by apply (ch_ok _ _ _ _ _ _ _ Hst).
  - by eapply (sync_step B c cs cs' y clk).
  - intros r Hr. rewrite (ch_sref _ _ _ _ _ _ _ Hst).
    destruct (ct_eqb (cmd_type y) SREF_ENTER) eqn:E.
    { apply ct_eqb_eq, Hent in E. destruct Hpl as [Hp|Hp]; unfold IsRefresh in Hp; by rewrite E in Hp. }
    destruct (ct_eqb _ SREF_EXIT); [|by apply Haw]. destruct Htgt as (Htr & _).
    rewrite (aget_aset cs.(rank_is_sref_) (Rank y) r false); [|apply aset_ok; by rewrite (ck_sref _ _ Hok)].
    case_match; [done|by apply Haw].
  - by apply (ch_mute _ _ _ _ _ _ _ Hst).
  - by apply (ch_alert _ _ _ _ _ _ _ Hst).
Qed.

(** the bookkeeping of the transaction of a command *)
Definition settle sh ctl cmd : outcome (Shared G * Controller) :=
  if IsRead cmd then
    let num_reads := count_key cmd.(hex_addr) ctl.(pending_rd_q_) in
    if num_reads =? 0 then Fault (Exit 1)
    else ctl ← return_reads c (Z.to_nat num_reads) cmd.(hex_addr) ctl; Ret (sh, ctl)
  else if IsWrite cmd then
    match take_key cmd.(hex_addr) ctl.(pending_wr_q_) with
    | Some (t, rest) =>
        let wr_lat := u64 (ctl.(ctl_clk_) - t.(added_cycle) + c.(write_delay)) in
        Ret (stat (AddValue "write_latency" wr_lat) sh, ctl <| pending_wr_q_ := rest |>)
    | None => Fault (Exit 1)
    end
  else Ret (sh, ctl).
Definition settled ctl ctl' : Prop :=
  ctl' = ctl <| return_queue_ := ctl'.(return_queue_) |> <| pending_rd_q_ := ctl'.(pending_rd_q_) |>
             <| pending_wr_q_ := ctl'.(pending_wr_q_) |> ∧
  base_ok B c ctl' ∧ balanced none ctl' ∧ in_flight ctl' ≡ₚ in_flight ctl.
Lemma settle_spec sh ctl cmd : shared_ok c sh → base_ok B c ctl → balanced (issued cmd) ctl →
  returns (settle sh ctl cmd) (λ r, shared_ok c r.1 ∧ settled ctl r.2).
Proof.
  intros Hs Hb [B1 B2 B3 B4]. unfold settle. unfold issued, IsReadWrite in *.
  destruct (IsRead cmd) eqn:Er; cbn [orb andb Bool.eqb app] in *.
  - assert (cmd.(hex_addr) ∈ ctl.(pending_rd_q_).*1) as Hin by (apply B2; left).
    pose proof (count_key_nonneg cmd.(hex_addr) ctl.(pending_rd_q_)) as Hnn.
    destruct (Z.eqb_spec (count_key cmd.(hex_addr) ctl.(pending_rd_q_)) 0) as [E|_]; [by apply count_key_pos in E|].
    eapply returns_bind; [apply return_reads_spec; [apply Hb|lia]|]. intros ctl' (E & Hr & Hf & Hk). apply returns_ret.
    cbn [fst snd]. split; [done|]. apply NoDup_cons in B1 as [Hno B1].
    assert (∀ rd, waiting rd ctl' = waiting rd ctl) as Hw by (intros rd; by rewrite E).
    assert (ctl'.(pending_wr_q_) = ctl.(pending_wr_q_)) as Ew by (by rewrite E).
    split; [rewrite Ew; rewrite E at 1; by destruct ctl|]. split; [|split; [|done]].
    + destruct Hb as [A1 A2 A3 A4 A5 A6 A7 A8 A9 A10]. rewrite E. split; rsimp; try done.
    + split; rewrite ?Hw, ?Ew; cbn [none app]; try done. intros a. rewrite Hk, <- B2, elem_of_cons. split.
      * intros Ha. split; [by intros ->|by right].
      * by intros [? [?|?]].
  - destruct (IsWrite cmd) eqn:Ew; cbn [app Bool.eqb] in *.
    + assert (cmd.(hex_addr) ∈ ctl.(pending_wr_q_).*1) as Hin by (rewrite <- B3; left).
      destruct (take_key_spec _ _ Hin) as (t & rest & -> & Hp & _). apply returns_ret. cbn [fst snd].
      split; [apply shared_stat; [apply fit_AddValue|done]|].
      rewrite Hp in B3, B4. cbn [fmap list_fmap fst] in B3, B4. apply Permutation_cons_inv in B3. apply NoDup_cons in B4 as [_ B4].
      split; [by destruct ctl|]. split; [|split; [|done]].
      * destruct Hb as [A1 A2 A3 A4 A5 A6 A7 A8 A9 A10]. split; rsimp; done.
      * by split.
    + apply returns_ret. split; [done|]. split; [by destruct ctl|]. split; [done|]. split; [|done]. by split.
Qed.

Lemma IssueCommand_spec sh ctl cmd req : shared_ok c sh → base_ok B c ctl → balanced (issued cmd) ctl →
  ctl_ready ctl → plain req → request_ok c ctl.(channel_state_) req →
  chan_ready B c ctl.(channel_state_) req ctl.(ctl_clk_) cmd →
  returns (IssueCommand B c T sh ctl cmd) (λ r, shared_ok c r.1 ∧ ctl_ok B c r.2 ∧
    in_flight r.2 ≡ₚ in_flight ctl).
Proof.
  intros Hs Hb Hbal Hrdy Hpl Hreq Hcr. unfold IssueCommand.
  eapply returns_bind; [by apply settle_spec|]. intros [sh1 ctl1] (Hs1 & E & Hb1 & Hbal1 & Hr1). cbn [fst snd] in *.
  assert (ctl1.(channel_state_) = ctl.(channel_state_) ∧ ctl1.(ctl_clk_) = ctl.(ctl_clk_)) as [Ecs Eclk] by (by rewrite E).
  pose proof (bo_calm _ _ _ Hb1) as Hcalm.
  eapply returns_bind; [apply (UpdateCommandStats_spec sh1 ctl1 cmd Hs1); [apply Hcalm|apply Hcr|apply Hcr]|].
  intros sh2 Hs2. rewrite Ecs, Eclk in *.
  eapply returns_bind; [apply (chan_ready_step B c (cc_bank _ _ Hcc) (cc_shape _ _ Hcc) (cc_press _ _ Hcc) sh2 _ req);
    try done; [apply Hcalm|]|].
  { intros r g k b _ Eb. destruct (Hrdy r g k b Eb) as (C1 & C2 & C3). split; [done|]. intros _. split; [done|]. lia. }
  intros [sh3 cs3] [Hs3 Hst]. cbn [fst snd] in *. apply returns_ret. cbn [fst snd]. split; [done|].
  split; [|done]. split; [|destruct Hbal1; by split].
  pose proof Hb1 as [A1 A2 A3 A4 A5 A6 A7 A8 A9 A10]. split; rsimp; try done.
  - by apply (calm_step ctl.(channel_state_) cs3 req cmd ctl.(ctl_clk_)).
  - rewrite (ch_rfm _ _ _ _ _ _ _ Hst), <- Ecs, A2. by destruct (IsRFM cmd).
  - rewrite (ch_ref _ _ _ _ _ _ _ Hst), <- Ecs. destruct (IsRefresh cmd); [by apply erase_first_Forall|done].
Qed.

(** ** The command of a cycle *)

(** [cmd] is nothing, or can be issued for a request of the queues *)
Definition issuable ctl cmd : Prop :=
  cmd = Command0 ∨ ∃ req, plain req ∧ request_ok c ctl.(channel_state_) req ∧
    chan_ready B c ctl.(channel_state_) req ctl.(ctl_clk_) cmd.
Definition found ctl (r : Shared G * Controller * Command) : Prop :=
  let '(sh', ctl', cmd) := r in
  shared_ok c sh' ∧ ctl' = ctl <| cmd_queue_ := ctl'.(cmd_queue_) |> ∧ base_ok B c ctl' ∧
  balanced (issued cmd) ctl' ∧ issuable ctl cmd.
Lemma put_queue ctl q : base_ok B c ctl → queue_ok B c q → q.(q_clk_) = ctl.(cmd_queue_).(q_clk_) →
  q.(queue_structure_) = ctl.(cmd_queue_).(queue_structure_) → base_ok B c (ctl <| cmd_queue_ := q |>).
Proof. intros Hb Hq Hclk Hst. by eapply (base_move ctl). Qed.
Lemma put_same ctl cs q : cs = ctl.(channel_state_) →
  ctl <| channel_state_ := cs |> <| cmd_queue_ := q |> = ctl <| cmd_queue_ := q |>.
Proof. intros ->. by destruct ctl. Qed.

Lemma from_queues sh ctl : shared_ok c sh → base_ok B c ctl → balanced none ctl →
  returns (r ← GetCommandToIssue B c sh ctl.(channel_state_) ctl.(cmd_queue_);
    Ret (let '(sh, cs, q, cmd) := r : Shared G * ChannelState * CommandQueue * Command in
         (sh, ctl <| channel_state_ := cs |> <| cmd_queue_ := q |>, cmd))) (found ctl).
Proof.
  intros Hs Hb Hbal.
  eapply returns_bind; [apply (GetCommandToIssue_spec B c (cc_bank _ _ Hcc) (cc_shape _ _ Hcc) (cc_quiet _ _ Hcc));
    [exact Hs|apply Hb|apply Hb]|].
  intros [[[sh' cs'] q'] cmd] Hiss. pose proof (to_issue_ready _ _ _ _ _ Hiss) as Hy; cbn [snd] in Hy.
  destruct Hiss as (Hs' & -> & Hq & (Q1 & Q2 & Q3 & Q4 & Q5) & Hk & _). apply returns_ret.
  rewrite put_same by done. split; [done|]. split; [done|]. split; [by apply put_queue|]. split.
  - assert (∀ rd, issued cmd rd ++ waiting rd (ctl <| cmd_queue_ := q' |>) ≡ₚ waiting rd ctl) as Hw.
    { intros rd. unfold waiting. rsimp. rewrite (Hk rd), !app_assoc. apply Permutation_app_tail, Permutation_app_comm. }
    destruct Hbal as [B1 B2 B3 B4]. cbn [none app] in *. split; rsimp; try done.
    + by rewrite Hw.
    + intros a. by rewrite Hw.
    + by rewrite Hw.
  - destruct Hy as [->|(req & Hao & Hcr)]; [by left|right]. exists req. split; [left; apply Hao|].
    split; [by apply (access_request B)|]. rewrite <- (bo_clk _ _ _ Hb). done.
Qed.
Lemma find_command_spec sh ctl : shared_ok c sh → ctl_ok B c ctl →
  returns (find_command B c sh ctl) (found ctl).
Proof.
  intros Hs [Hb Hbal]. unfold find_command.
  assert (IsRFMWaiting (channel_state_ ctl) = false) as -> by (unfold IsRFMWaiting; by rewrite (bo_rfm _ _ _ Hb)).
  assert (∀ r : Shared G * Controller * Command, found ctl r → returns
    (let '(sh, ctl, cmd) := r in
     if negb (IsValid cmd) then
       r ← GetCommandToIssue B c sh ctl.(channel_state_) ctl.(cmd_queue_);
       Ret (let '(sh, cs, q, cmd) := r in (sh, ctl <| channel_state_ := cs |> <| cmd_queue_ := q |>, cmd))
     else Ret (sh, ctl, cmd)) (found ctl)) as Hgo.
  { intros [[sh1 ctl1] cmd] (Hs1 & E & Hb1 & Hbal1 & Hy). destruct (IsValid cmd) eqn:Ev; cbn [negb].
    { apply returns_ret. by split_and!. }
    assert (balanced none ctl1) as Hbal2.
    { assert (∀ rd, issued cmd rd = []) as Hi.
      { intros rd. unfold issued, IsReadWrite, IsRead, IsWrite, IsValid in *. by destruct (cmd_type cmd). }
      destruct Hbal1 as [B1 B2 B3 B4]. rewrite Hi in *. by split. }
    eapply returns_mono; [by apply from_queues|]. intros [[sh2 ctl2] cmd2] (Hs2 & E2 & Hb2 & Hbal3 & Hy2).
    split; [done|]. split; [rewrite E2; rsimp; by rewrite E|]. split; [done|]. split; [done|]. by rewrite E in Hy2. }
  destruct (IsRefreshWaiting (channel_state_ ctl)) eqn:Ew.
  - destruct (refresh_q_ (channel_state_ ctl)) as [|ref l] eqn:El; [by unfold IsRefreshWaiting in Ew; rewrite El in Ew|].
    assert (PendingRefCommand (channel_state_ ctl) = Ret ref) as Ep by (unfold PendingRefCommand; by rewrite El).
    pose proof (bo_ref _ _ _ Hb) as Href. rewrite El in Href. apply Forall_cons in Href as [Href _].
    eapply returns_bind; [|exact Hgo].
    eapply returns_bind; [apply (FinishRefresh_spec B c (cc_bank _ _ Hcc) (cc_shape _ _ Hcc) (cc_quiet _ _ Hcc));
      [exact Hs|apply Hb|apply Hb|exact Ep|exact Href]|].
    intros [[[sh' cs'] q'] cmd] (Hs' & -> & Hq & Q1 & Q2 & Q3 & Hy). apply returns_ret. rewrite put_same by done.
    split; [done|]. split; [done|]. split; [by apply put_queue|].
    assert (∀ rd, issued cmd rd = []) as Hi.
    { intros rd. unfold issued. destruct Hy as [->|Hy]; [done|]. destruct (IsReadWrite cmd) eqn:Erw; [|done].
      destruct (cr_rw _ _ _ _ _ _ Hy Erw) as (_ & _ & Ha & _). pose proof (rf_type _ _ _ Href) as Ht. unfold IsRefresh in Ht.
      by destruct (cmd_type ref). }
    split; [|destruct Hy as [->|Hy]; [by left|right]].
    + assert (∀ rd, waiting rd (ctl <| cmd_queue_ := q' |>) = waiting rd ctl) as Hw
        by (intros rd; unfold waiting; rsimp; by rewrite Q2).
      destruct Hbal as [B1 B2 B3 B4]. split; rewrite ?Hi, ?Hw; done.
    + exists ref. split; [right; apply Href|]. split; [eapply refresh_request; [exact Href|apply Hb]|]. by rewrite <- (bo_clk _ _ _ Hb).
  - cbn [mbind outcome_bind]. apply (Hgo (sh, ctl, Command0)). split; [done|]. split; [by destruct ctl|].
    split; [done|]. split; [|by left]. destruct Hbal. by split.
Qed.

(** ** Power states *)
Lemma rank_stat_spec sh n i : shared_ok c sh → n ∈ rank_vecs → 0 <= i < c.(ranks) →
  returns (stat_o (IncrementVec n i) sh) (shared_ok c).
Proof.
  intros Hs Hn Hi. apply stat_o_bins; [|done]. apply IncrementVec_fit; [apply Hs|].
  destruct Hs as [[_ Hst] _]. by rewrite (so_rank _ _ Hst n Hn).
Qed.
Lemma IsAllBankIdleInRank_spec cs i : chan_ok c cs → 0 <= i < c.(ranks) → ∃ b, IsAllBankIdleInRank c cs i = Ret b.
Proof.
  intros Hok Hi. unfold IsAllBankIdleInRank.
  destruct (for_ret_inv (λ _ : unit, True) (λ (_ : bool) _, True) (seqZ 0 c.(bankgroups)) tt (λ _ j,
    for_ret (seqZ 0 c.(banks_per_group)) tt (λ _ k,
      o ← ChannelState.IsRowOpen cs i j k; Ret (tt, if o : bool then Some false else None)))) as (r & -> & _);
    [done| |by eexists].
  intros _ j Hj%elem_of_seqZ _. apply (for_ret_inv (λ _ : unit, True) (λ (_ : bool) _, True)); [done|].
  intros _ k Hk%elem_of_seqZ _. unfold ChannelState.IsRowOpen.
  destruct (bank_at_ok c cs.(bank_states_) i j k) as [b ->]; [apply (ck_banks _ _ Hok)|unfold in_grid; lia|].
  cbn [mbind outcome_bind]. apply returns_ret. cbn [fst snd]. by case_match.
Qed.
(** what the cycle keeps of the transactions [l] *)
Definition keeps (l : list (Z * bool)) (s : Shared G * Controller) : Prop :=
  shared_ok c s.1 ∧ ctl_ok B c s.2 ∧ in_flight s.2 ≡ₚ l.
Lemma set_idle l sh ctl idle : keeps l (sh, ctl) → zlen idle = c.(ranks) →
  keeps l (sh, ctl <| channel_state_ := ctl.(channel_state_) <| rank_idle_cycles := idle |> |>).
Proof.
  intros (Hs & [[A1 A2 A3 A4 A5 A6 A7 A8 A9 A10] [B1 B2 B3 B4]] & Hr) Hl. cbn [fst snd] in *.
  split; [done|]. split; [|done]. split; [|by split]. split; rsimp; try done.
  destruct A1 as [[C1 C2 C3 C4 C5] [S1 S2] D1 D2 D3]. split; [by split|by split|done|done|done].
Qed.
Lemma rank_power_spec l s i : keeps l s → 0 <= i < c.(ranks) → returns (rank_power c s i) (keeps l).
Proof.
  intros Hk Hi. destruct s as [sh ctl]. pose proof Hk as (Hs & [Hb Hbal] & Hr). cbn [fst snd] in *.
  pose proof (bo_calm _ _ _ Hb) as [Hok Hsync Haw Hmu Hal]. unfold rank_power, IsRankSelfRefreshing.
  rewrite Haw by done. cbn [mbind outcome_bind].
  destruct (IsAllBankIdleInRank_spec _ i Hok Hi) as [idle ->]. cbn [mbind outcome_bind].
  assert (0 <= i < zlen (rank_idle_cycles (channel_state_ ctl))) as Hz by (by rewrite (ck_idle _ _ Hok)).
  assert (∀ v, returns (l ← aset (rank_idle_cycles (channel_state_ ctl)) i v; Ret l) (λ l, zlen l = c.(ranks))) as Hset.
  { intros v. rewrite aset_ok by done. apply returns_ret. unfold zlen. rewrite length_insert. apply Hok. }
  destruct idle; (eapply returns_bind; [apply rank_stat_spec; [exact Hs| |done]; set_solver|]; intros sh1 Hs1).
  - destruct (aget_ok _ _ Hz) as [n ->]. cbn [mbind outcome_bind]. destruct (Hset (i32 (n + 1))) as (v & Ev & Hv).
    apply bind_Ret in Ev as (v' & -> & [= ->]). apply returns_ret, set_idle; [by split|done].
  - destruct (Hset 0) as (v & Ev & Hv). apply bind_Ret in Ev as (v' & -> & [= ->]). apply returns_ret, set_idle; [by split|done].
Qed.

(** ** A cycle *)
Lemma ClockTick_spec sh ctl : shared_ok c sh → ctl_ok B c ctl → ctl_ready ctl →
  returns (Controller.ClockTick B wb_inf c T sh ctl) (keeps (in_flight ctl)).
Proof.
  intros Hs [Hb Hbal] Hrdy. unfold ClockTick.
  eapply returns_bind; [apply (gen_tick c (cc_shape _ _ Hcc) (cc_bankset _ _ Hcc) ctl.(cmd_queue_));
    [apply Hb|apply Hb|exact (cm_awake _ _ _ (bo_calm _ _ _ Hb))]|].
  intros [rf cs] [Hrf (lr & -> & Hlr)]. cbn [fst snd].
  set (ctl1 := ctl <| refresh_ := rf |> <| channel_state_ := _ |>).
  assert (ctl_ok B c ctl1) as Hok1.
  { pose proof Hb as [A1 A2 A3 A4 A5 A6 A7 A8 A9 A10]. split; [|destruct Hbal; by split]. split; try done; subst ctl1; rsimp.
    - destruct A1 as [[C1 C2 C3 C4 C5] [S1 S2] D1 D2 D3]. split; [by split|by split|done|done|done].
    - by apply Forall_app. }
  assert (ctl_ready ctl1) as Hrdy1 by exact Hrdy. assert (in_flight ctl1 = in_flight ctl) as Er by done.
  clearbody ctl1. rewrite <- Er. clear Er Hb Hbal Hrdy ctl rf Hrf lr Hlr.
  eapply returns_bind; [by apply find_command_spec|]. intros [[sh2 ctl2] cmd] (Hs2 & E2 & Hb2 & Hbal2 & Hy).
  assert (channel_state_ ctl2 = channel_state_ ctl1 ∧ ctl_clk_ ctl2 = ctl_clk_ ctl1 ∧ in_flight ctl2 = in_flight ctl1)
    as (Ecs & Eclk & Erd) by (by rewrite E2).
  eapply (returns_bind _ _ (keeps (in_flight ctl1))).
  { destruct (IsValid cmd) eqn:Ev.
    - destruct Hy as [->|(req & Hpl & Hreq & Hcr)]; [done|]. rewrite <- Ecs, <- ?Eclk in *. rewrite <- Erd.
      eapply returns_bind; [apply (IssueCommand_spec sh2 ctl2 cmd req); try done; unfold ctl_ready; by rewrite Ecs|].
      intros [sh3 ctl3] Hk3. unfold dual_command. rewrite (cc_dual _ _ Hcc). by apply returns_ret.
    - apply returns_ret. split; [done|]. split; [|by rewrite <- Erd]. split; [done|].
      assert (∀ rd, issued cmd rd = []) as Hi.
      { intros rd. unfold issued, IsReadWrite, IsRead, IsWrite, IsValid in *. by destruct (cmd_type cmd). }
      destruct Hbal2 as [B1 B2 B3 B4]. rewrite Hi in *. by split. }
  intros s3 Hk3.
  eapply returns_bind; [apply (for_inv (keeps (in_flight ctl1))); [exact Hk3|]|].
  { intros s i Hi%elem_of_seqZ Hk. apply rank_power_spec; [done|lia]. }
  intros s4 Hk4. rewrite (cc_sref _ _ Hcc). cbn [andb mbind outcome_bind]. destruct s4 as [sh4 ctl4].
  destruct Hk4 as (Hs4 & [Hb4 Hbal4] & Hr4). cbn [fst snd] in *.
  eapply returns_bind; [by apply ScheduleTransaction_spec|].
  intros [sh5 ctl5] (Hs5 & Hb5 & (R1 & R2 & R3 & R4 & R5 & R6 & R7) & Hw). cbn [fst snd] in *. apply returns_ret.
  split; [by apply shared_stat|]. cbn [fst snd]. split; [|unfold in_flight in *; rsimp; by rewrite R4, R6].
  split.
  - destruct Hb5 as [A1 A2 A3 A4 A5 A6 A7 A8 A9 A10]. split; rsimp; try done.
    + by eapply refresh_ok_structure; [|exact A3].
    + destruct A4. by split.
    + change (u64 (q_clk_ (cmd_queue_ ctl5) + 1) = u64 (ctl_clk_ ctl5 + 1)). by rewrite A6.
  - destruct Hbal4 as [B1 B2 B3 B4]. set (ctl6 := ctl5 <| ctl_clk_ ::= _ |> <| cmd_queue_ ::= _ |>).
    assert (∀ rd, waiting rd ctl6 ≡ₚ waiting rd ctl4) as Hw' by (intros rd; by rewrite <- Hw).
    assert (pending_rd_q_ ctl6 = pending_rd_q_ ctl4 ∧ pending_wr_q_ ctl6 = pending_wr_q_ ctl4) as [E4 E5] by done.
    clearbody ctl6. split; cbn [none app] in *; rewrite ?E4, ?E5; try done; [by rewrite Hw'| |by rewrite Hw'].
    intros a. by rewrite Hw'.
Qed.

(** ** Transactions in and out *)
Lemma count_key_snoc {A} k (m : list (Z * A)) a x :
  count_key k (m ++ [(a, x)]) = count_key k m + (if a =? k then 1 else 0).
Proof.
  unfold count_key, zlen. rewrite List.filter_app, length_app. cbn [List.filter fst]. destruct (a =? k); cbn [length]; lia.
Qed.
Definition enqueue ctl t : Controller :=
  if ctl.(is_unified_queue_) then ctl <| unified_queue_ ::= λ l, l ++ [t] |>
  else if t.(is_write) then ctl <| write_buffer_ ::= λ l, l ++ [t] |>
  else ctl <| read_queue_ ::= λ l, l ++ [t] |>.
Lemma enqueue_spec ctl t : in_queues (enqueue ctl t) ≡ₚ t :: in_queues ctl ∧
  enqueue ctl t = ctl <| unified_queue_ := (enqueue ctl t).(unified_queue_) |>
    <| read_queue_ := (enqueue ctl t).(read_queue_) |> <| write_buffer_ := (enqueue ctl t).(write_buffer_) |>.
Proof.
  unfold enqueue, in_queues. repeat case_match; rsimp; (split; [solve_Permutation|by destruct ctl]).
Qed.
Lemma base_grow ctl ctl' t : base_ok B c ctl → is_u64 t.(t_addr) → in_queues ctl' ≡ₚ t :: in_queues ctl →
  ctl'.(refresh_) = ctl.(refresh_) → ctl'.(channel_state_) = ctl.(channel_state_) →
  ctl'.(ctl_clk_) = ctl.(ctl_clk_) → ctl'.(cmd_queue_) = ctl.(cmd_queue_) →
  ctl'.(row_buf_policy_) = ctl.(row_buf_policy_) →
  Forall (λ e, e.2.(t_addr) = e.1 ∧ e.2.(is_write) = false) ctl'.(pending_rd_q_) → base_ok B c ctl'.
Proof.
  intros [A1 A2 A3 A4 A5 A6 A7 A8 A9 A10] Ht Hin E1 E2 E3 E4 E5 Hp.
  split; rewrite ?E1, ?E2, ?E3, ?E4, ?E5; try done. rewrite Hin. by constructor.
Qed.
Lemma waiting_grow ctl ctl' t rd : in_queues ctl' ≡ₚ t :: in_queues ctl → ctl'.(cmd_queue_) = ctl.(cmd_queue_) →
  waiting rd ctl' ≡ₚ of_kind t rd ++ waiting rd ctl.
Proof.
  intros Hl Hq. unfold waiting. rewrite Hq, (omap_Permutation _ _ _ Hl). cbn [omap list_omap]. unfold of_kind.
  change (t_kind rd t) with (if Bool.eqb (negb t.(is_write)) rd then Some t.(t_addr) else None).
  by destruct (Bool.eqb _ _).
Qed.
Definition added ctl t (r : Shared G * Controller) : Prop :=
  shared_ok c r.1 ∧ ctl_ok B c r.2 ∧ r.2.(channel_state_) = ctl.(channel_state_) ∧
  in_flight r.2 ≡ₚ tag t :: in_flight ctl.
(** an answer that is known at once *)
Lemma returned_spec sh ctl ctl' t u : shared_ok c sh → ctl_ok B c ctl' → in_flight ctl' = in_flight ctl →
  ctl'.(channel_state_) = ctl.(channel_state_) →
  u.(t_addr) = t.(t_addr) → u.(is_write) = t.(is_write) →
  added ctl t (sh, ctl' <| return_queue_ ::= λ l, l ++ [u] |>).
Proof.
  intros Hs [[A1 A2 A3 A4 A5 A6 A7 A8 A9 A10] [B1 B2 B3 B4]] Er Ecs Ea Ew. split; [done|].
  split; [split; split; rsimp; done|]. split; [exact Ecs|].
  change (((λ e : Z * Transaction, tag e.2) <$> pending_rd_q_ ctl') ++ (tag <$> (return_queue_ ctl' ++ [u])) ≡ₚ tag t :: in_flight ctl).
  rewrite fmap_app, app_assoc. fold (in_flight ctl'). rewrite Er. cbn [fmap list_fmap]. unfold tag at 1.
  rewrite Ea, Ew. fold (tag t). by rewrite <- Permutation_cons_append.
Qed.
(** a transaction joins a queue, with its entry in the table of pending transactions *)
Lemma enqueue_ok ctl ctl0 t (rds wrs : list (Z * Transaction)) : base_ok B c ctl → is_u64 t.(t_addr) →
  ctl0 = ctl <| pending_rd_q_ := rds |> <| pending_wr_q_ := wrs |> →
  Forall (λ e, e.2.(t_addr) = e.1 ∧ e.2.(is_write) = false) rds →
  base_ok B c (enqueue ctl0 t) ∧ (∀ rd, waiting rd (enqueue ctl0 t) ≡ₚ of_kind t rd ++ waiting rd ctl) ∧
  (enqueue ctl0 t).(pending_rd_q_) = rds ∧ (enqueue ctl0 t).(pending_wr_q_) = wrs ∧
  (enqueue ctl0 t).(return_queue_) = ctl.(return_queue_) ∧
  (enqueue ctl0 t).(channel_state_) = ctl.(channel_state_).
Proof.
  intros Hb Ht -> Hp. set (ctl0 := ctl <| pending_rd_q_ := rds |> <| pending_wr_q_ := wrs |>).
  destruct (enqueue_spec ctl0 t) as [Hq E]. change (in_queues ctl0) with (in_queues ctl) in Hq.
  set (ctl1 := enqueue ctl0 t) in *.
  split; [|split; [|by rewrite E]].
  - apply (base_grow ctl ctl1 t); try done; by rewrite E.
  - intros rd. apply waiting_grow; [done|by rewrite E].
Qed.
Lemma AddTransaction_spec sh ctl t : shared_ok c sh → ctl_ok B c ctl → is_u64 t.(t_addr) →
  added ctl t (AddTransaction sh ctl t).
Proof.
  intros Hs Hok Ht. unfold AddTransaction. set (u := t <| added_cycle := _ |>).
  set (sh1 := stat _ sh). assert (shared_ok c sh1) as Hs1 by (apply shared_stat; [apply fit_AddValue|done]). clearbody sh1.
  set (ctl1 := ctl <| last_trans_clk_ := _ |>).
  assert (ctl_ok B c ctl1 ∧ in_flight ctl1 = in_flight ctl ∧ ctl1.(channel_state_) = ctl.(channel_state_)) as (Hok1 & Er & Ecs).
  { destruct Hok as [[A1 A2 A3 A4 A5 A6 A7 A8 A9 A10] [B1 B2 B3 B4]]. split; [|done]. split; split; rsimp; done. }
  assert (u.(t_addr) = t.(t_addr) ∧ u.(is_write) = t.(is_write)) as [Ea Ew] by done. clearbody u. cbv zeta.
  unfold added. rewrite <- Er, <- Ecs. fold (added ctl1 t). rewrite <- Ea in Ht. clear Er Ecs Hok Hs. clearbody ctl1.
  pose proof Hok1 as [Hb [B1 B2 B3 B4]]. cbn [none app] in *.
  fold (enqueue (ctl1 <| pending_wr_q_ ::= λ m, m ++ [(u.(t_addr), u)] |>) u).
  fold (enqueue (ctl1 <| pending_rd_q_ ::= λ m, m ++ [(u.(t_addr), u)] |>) u).
  destruct (u.(is_write)) eqn:Euw.
  - set (ctl2 := if _ =? _ then _ else ctl1).
    assert (ctl_ok B c ctl2 ∧ in_flight ctl2 = in_flight ctl1 ∧ ctl2.(channel_state_) = ctl1.(channel_state_))
      as (Hok2 & Er2 & Ec2); [|apply returned_spec; rsimp; congruence || done].
    subst ctl2. destruct (Z.eqb_spec (count_key (t_addr u) (pending_wr_q_ ctl1)) 0) as [E|_]; [|done].
    apply count_key_pos in E.
    destruct (enqueue_ok ctl1 (ctl1 <| pending_wr_q_ ::= λ m, m ++ [(u.(t_addr), u)] |>) u (pending_rd_q_ ctl1)
      (pending_wr_q_ ctl1 ++ [(u.(t_addr), u)]) Hb) as (Hb2 & Hw & Er & Ewq & Ert & Ecs); [done|by destruct ctl1|apply Hb|].
    unfold of_kind in Hw. rewrite Euw in Hw. set (ctl2 := enqueue _ u) in *. clearbody ctl2.
    split; [split; [done|]|split; [by unfold in_flight; rewrite Er, Ert|done]].
    split; cbn [none app]; rewrite ?Er, ?Ewq, ?fmap_app; cbn [fmap list_fmap fst].
    + by rewrite (Hw true).
    + intros a. by rewrite (Hw true).
    + rewrite (Hw false). cbn [negb Bool.eqb app]. rewrite B3. apply Permutation_cons_append.
    + apply NoDup_app. split; [done|]. split; [|apply NoDup_singleton]. intros x Hx ->%list_elem_of_singleton. done.
  - destruct (Z.ltb_spec 0 (count_key (t_addr u) (pending_wr_q_ ctl1))); [apply returned_spec; rsimp; congruence || done|].
    rsimp. rewrite count_key_snoc, Z.eqb_refl. pose proof (count_key_nonneg (t_addr u) (pending_rd_q_ ctl1)).
    assert (Forall (λ e, e.2.(t_addr) = e.1 ∧ e.2.(is_write) = false) (pending_rd_q_ ctl1 ++ [(u.(t_addr), u)])) as Hp
      by (apply Forall_app; split; [apply Hb|by repeat constructor]).
    assert (∀ ctl2, ctl2.(pending_rd_q_) = pending_rd_q_ ctl1 ++ [(u.(t_addr), u)] →
      ctl2.(return_queue_) = ctl1.(return_queue_) → ctl2.(channel_state_) = ctl1.(channel_state_) →
      ctl_ok B c ctl2 → added ctl1 t (sh1, ctl2)) as Hend.
    { intros ctl2 E1 E2 E3 Hok2. split; [done|]. split; [done|]. split; [done|]. cbn [snd]. unfold in_flight. rewrite E1, E2, fmap_app.
      assert (tag t = tag u) as -> by (unfold tag; congruence).
      cbn [fmap list_fmap snd]. solve_Permutation. }
    destruct (Z.eqb_spec (count_key (t_addr u) (pending_rd_q_ ctl1) + 1) 1) as [E|E].
    + assert (count_key (t_addr u) (pending_rd_q_ ctl1) = 0) as E0%count_key_pos by lia.
      destruct (enqueue_ok ctl1 (ctl1 <| pending_rd_q_ ::= λ m, m ++ [(u.(t_addr), u)] |>) u
        (pending_rd_q_ ctl1 ++ [(u.(t_addr), u)]) (pending_wr_q_ ctl1) Hb) as (Hb2 & Hw & Er & Ewq & Ert & Ecs);
        [done|by destruct ctl1|done|].
      unfold of_kind in Hw. rewrite Euw in Hw. set (ctl2 := enqueue _ u) in *. clearbody ctl2.
      apply Hend; [done..|]. split; [done|].
      split; cbn [none app]; rewrite ?Er, ?Ewq, ?fmap_app; cbn [fmap list_fmap fst]; try done.
      * rewrite (Hw true). cbn [negb Bool.eqb app]. apply NoDup_cons. split; [by rewrite B2|done].
      * intros a. rewrite (Hw true). cbn [negb Bool.eqb app]. rewrite elem_of_cons, elem_of_app, list_elem_of_singleton, B2.
        tauto.
      * by rewrite (Hw false).
    + apply Hend; [done..|]. split.
      * destruct Hb as [A1 A2 A3 A4 A5 A6 A7 A8 A9 A10]. split; rsimp; done.
      * split; rsimp; try done. cbn [none app]. intros a. rewrite fmap_app, elem_of_app, <- B2. cbn [fmap list_fmap fst].
        rewrite list_elem_of_singleton. split; [by left|]. intros [Ha| ->]; [done|]. apply B2.
        destruct (decide (t_addr u ∈ (pending_rd_q_ ctl1).*1)) as [|Hno]; [done|]. apply count_key_pos in Hno. lia.
Qed.

Lemma take_done_spec clk (l : list Transaction) : match take_done clk l with
  | Some (t, rest) => l ≡ₚ t :: rest | None => True end.
Proof.
  induction l as [|t l IH]; cbn [take_done]; [done|]. destruct (_ <=? _); [done|].
  destruct (take_done clk l) as [[x rest]|]; [|done]. rewrite IH. apply Permutation_swap.
Qed.
(** a transaction that is done leaves *)
Definition handed ctl (r : Shared G * Controller * (Z * Z)) : Prop :=
  let '(sh', ctl', p) := r in
  shared_ok c sh' ∧ ctl_ok B c ctl' ∧ ctl'.(channel_state_) = ctl.(channel_state_) ∧
  ((∃ w : bool, p.2 = (if w then 1 else 0) ∧ in_flight ctl ≡ₚ (p.1, w) :: in_flight ctl' ∧
      length ctl.(return_queue_) = S (length ctl'.(return_queue_))) ∨
   (p.2 = -1 ∧ ctl' = ctl)).
Lemma ReturnDoneTrans_spec sh ctl clk : shared_ok c sh → ctl_ok B c ctl →
  handed ctl (ReturnDoneTrans sh ctl clk).
Proof.
  intros Hs Hok. unfold ReturnDoneTrans. pose proof (take_done_spec clk ctl.(return_queue_)) as Hd.
  destruct (take_done _ _) as [[t rest]|].
  - assert (∀ sh', shared_ok c sh' → shared_ok c sh' ∧ ctl_ok B c (ctl <| return_queue_ := rest |>)) as Hk.
    { intros sh' Hs'. split; [done|]. destruct Hok as [[A1 A2 A3 A4 A5 A6 A7 A8 A9 A10] [B1 B2 B3 B4]].
      split; split; rsimp; done. }
    assert (in_flight ctl ≡ₚ tag t :: in_flight (ctl <| return_queue_ := rest |>)) as Hr.
    { change (in_flight (ctl <| return_queue_ := rest |>)) with (((λ e : Z * Transaction, tag e.2) <$> pending_rd_q_ ctl) ++ (tag <$> rest)).
      unfold in_flight. rewrite Hd. cbn [fmap list_fmap]. solve_Permutation. }
    apply Permutation_length in Hd. unfold handed. cbn [fst snd].
    split; [destruct (t.(is_write)); eauto 10 using shared_stat|]. split; [by apply (Hk sh)|]. split; [done|].
    left. exists t.(is_write). split; [done|]. split; [exact Hr|exact Hd].
  - split; [done|]. split; [done|]. split; [done|]. by right.
Qed.

Lemma gen_new r : Refresh_new c = Ret r → 0 < r.(refresh_interval_) < 2147483648 → gen_ok c r.
Proof.
  pose proof (cc_shape _ _ Hcc) as [Sr Sg Sb _ _]. unfold Refresh_new. intros (iv & _ & [= <-])%bind_Ret Hi.
  split; cbn [refresh_policy_ refresh_interval_ next_rank_ next_bg_ next_bank_] in *; done || lia.
Qed.
Lemma CommandQueue_new_spec : c.(Config.queue_structure) = "PER_BANK"%string ∨ c.(Config.queue_structure) = "PER_RANK"%string →
  returns (CommandQueue_new c) (λ q, queue_ok B c q ∧ fits c q ∧ q.(q_clk_) = 0 ∧ ∀ rd, kind_in rd q.(queues_) = []).
Proof.
  intros Hst. pose proof (cc_shape _ _ Hcc) as [Sr Sg Sb Sk Sm]. pose proof (cc_quiet _ _ Hcc) as [_ _ Ht Hz].
  unfold CommandQueue_new. destruct (Z.ltb_spec c.(ranks) 0); [lia|].
  assert (∀ st n, 0 < n → match st with PER_BANK => n = c.(banks) * c.(ranks) | PER_RANK => n = c.(ranks) end →
    (c.(Config.queue_structure) = "PER_BANK"%string → st = PER_BANK) →
    returns (if (n <? 0) || ((0 <? n) && (c.(cmd_queue_size) <? 0)) then Fault Throw
    else Ret {| rank_q_empty := replicate (Z.to_nat c.(ranks)) true; queue_structure_ := st;
                queues_ := replicate (Z.to_nat n) []; ref_q_indices_ := ∅; is_in_ref_ := false;
                rfm_q_indices_ := ∅; is_in_rfm_ := false; num_queues_ := n;
                queue_size_ := u64 c.(cmd_queue_size); queue_idx_ := 0; q_clk_ := 0 |})
      (λ q, queue_ok B c q ∧ fits c q ∧ q.(q_clk_) = 0 ∧ ∀ rd, kind_in rd q.(queues_) = [])) as Hend.
  { intros st n Hn Hs Hf. destruct (Z.ltb_spec n 0); [lia|]. destruct (Z.ltb_spec c.(cmd_queue_size) 0); [lia|].
    rewrite andb_false_r. apply returns_ret. split; [|split; [done|split; [done|]]].
    - split; rsimp; cbn; try done; [unfold zlen; rewrite length_replicate; lia|unfold zlen; rewrite length_replicate; lia|].
      intros i l x [_ [-> _]%lookup_replicate]%aget_Ret Hx. by apply elem_of_nil in Hx.
    - intros rd. cbn [queues_]. unfold kind_in. induction (Z.to_nat n) as [|m IH]; [done|exact IH]. }
  destruct Hst as [E|E]; rewrite E in *.
  - rewrite decide_True by done. cbn [mbind outcome_bind]. rewrite i32_id by (unfold is_i32; nia). apply Hend; try done. nia.
  - rewrite decide_False by done. rewrite decide_True by done. cbn [mbind outcome_bind]. apply Hend; try done. lia.
Qed.

(** ** A new controller, and its statistics *)
Lemma new_stats_fit : stats_fit c (stats_init (Z.to_nat c.(ranks))).
Proof.
  pose proof (cc_shape _ _ Hcc) as [Sr _ _ _ _].
  pose proof (stats_init_inv c ltac:(lia)) as Hi. exact (conj (ri_geo _ _ _ _ Hi) (ri_ok _ _ _ _ Hi)).
Qed.
Record new_config : Prop := {
  nc_queue : c.(Config.queue_structure) = "PER_BANK"%string ∨ c.(Config.queue_structure) = "PER_RANK"%string;
  nc_refresh : returns (Refresh_new c) (λ r, 0 < r.(refresh_interval_) < 2147483648);
  nc_trans : 0 <= c.(trans_queue_size)
}.
Lemma Controller_new_spec sh ch : new_config →
  (sh.(pac_next_pre_cmd_is_valid) = true → sh.(pac_next_pre_cmd) = PRECHARGE ∨ sh.(pac_next_pre_cmd) = PRECHARGE2) →
  returns (Controller_new c sh ch) (λ r, shared_ok c r.1 ∧ ctl_ok B c r.2 ∧ ctl_ready r.2 ∧ in_flight r.2 = []).
Proof.
  intros [Hqs Hrf Htq] Hpac. pose proof (cc_shape _ _ Hcc) as Hsh. pose proof Hsh as [Sr _ _ _ _].
  unfold Controller_new. rewrite SimpleStats_new_eq by lia. cbn [mbind outcome_bind].
  eapply returns_bind; [apply (ChannelState_new_spec c); [apply Hcc|done|split; [apply new_stats_fit|exact Hpac]]|].
  intros [sh1 cs] [Hs1 Hf]. cbn [fst snd] in *.
  eapply returns_bind; [by apply CommandQueue_new_spec|]. intros q (Hq & Hfit & Hclk & Hk).
  destruct Hrf as (r & Er & Hi). rewrite Er. cbn [mbind outcome_bind].
  destruct (Z.ltb_spec c.(trans_queue_size) 0); [lia|]. apply returns_ret. cbn [fst snd]. split; [done|].
  pose proof (cf_ref _ _ Hf) as (F1 & F2 & F3). split; [split|split; [|done]].
  - split; cbn; try done; try (by apply gen_new); [|by rewrite F1].
    split; [apply Hf|by apply (sync_fresh c)| | |done].
    + intros i Hir. rewrite (cf_sref _ _ Hf). apply aget_Ret. split; [lia|]. apply lookup_replicate. split; [done|lia].
    + intros rk g k b Eb Ha. split; [by apply (qt_alert _ _ (cc_quiet _ _ Hcc))|]. apply (cf_banks _ _ Hf _ _ _ _ Eb).
  - split; unfold waiting; cbn; rewrite ?Hk; try done; constructor.
  - intros rk g k b Eb. destruct (cf_banks _ _ Hf _ _ _ _ Eb) as (_ & _ & _ & E1 & E2 & E3 & _).
    pose proof (bc_rows _ (cc_bank _ _ Hcc)). unfold bank_counted. rewrite E1, E2. split; [lia|]. split; [lia|].
    intros E. rewrite E in E3. unfold zlen in E3. cbn [length] in E3. lia.
Qed.
Lemma PrintEpochStats_spec sh : shared_ok c sh → returns (PrintEpochStats c sh) (shared_ok c).
Proof.
  intros Hs. unfold PrintEpochStats. apply (shared_stat c (Increment "epoch_num")) in Hs; [|apply fit_Increment].
  apply stat_o_bins; [|done]. destruct Hs as [[Hb Hst] _].
  eapply returns_mono; [by apply UpdateEpochStats_spec|]. intros st (Hst' & _ & _ & Hl).
  split; [|done]. intros n Hn. unfold zlen. rewrite Hl. by apply Hb.
Qed.
Lemma ResetStats_spec sh : shared_ok c sh → shared_ok c (ResetStats sh).
Proof.
  apply shared_stat. intros st [Hb [H1 H2 H3 H4 H5 H6 H7]]. unfold Reset.
  assert (∀ {A} (z : A) m n, length (vec (zero_vecs z m) n) = length (vec m n)) as Hz.
  { intros A z m n. unfold vec, zero_vecs. rewrite lookup_fmap. destruct (m !! n); [|done]. apply length_fmap. }
  split.
  - intros n Hn. unfold zlen. rsimp. rewrite Hz. by apply Hb.
  - split; rsimp; try done.
    + intros n. by rewrite !Hz.
    + intros n Hn. unfold zlen. rewrite Hz. by apply H5.
    + intros n Hn. unfold zlen. rewrite Hz. by apply H6.
    + intros n Hn. unfold clear_histos. rewrite !lookup_fmap. destruct (H7 n Hn) as [[? ->] [? ->]]. by split; eexists.
Qed.
End Ctl.

(** ** The properties *)

(** C17. The choice of the next command. GetCommandToIssue returns; the channel is as before, and the queues are as
    before but for a read or write that is offered, which leaves its queue, once. It visits the queues round robin from
    the one after the last visited. It offers a command [cmd] for a request [req] that waits in the [k]-th of them, a
    queue that no refresh or RFM keeps out: [cmd] has the address of [req], is what the bank of [req] needs next, and the
    channel can carry it out now; a row is closed only when no older request of the queue is for the same bank, and
    either no request of the queue hits the open row or four hits were served; a write goes only when no older
    read of the same location waits. And it offers nothing that is not first: each older request of the queue, and each
    request of the queues visited before, is passed over, as the channel has no command for it or its command may not
    go; when nothing is returned this holds of all requests that wait in queues that are not kept out. *)
Theorem queue_issue {G} `{Rng64 G} (B : Build) (c : Config) (sh : Shared G) cs q :
  bank_config_ok c → shape_ok c → quiet B c → shared_ok c sh → calm B c cs → queue_ok B c q →
  returns (GetCommandToIssue B c sh cs q) (λ r, let '(sh', cs', q', cmd) := r in
    shared_ok c sh' ∧ cs' = cs ∧ queue_ok B c q' ∧
    (∀ rd, kind_in rd q.(queues_) ≡ₚ issued cmd rd ++ kind_in rd q'.(queues_)) ∧
    ((cmd = Command0 ∧ ∀ i, 0 <= i < q.(num_queues_) → skipped (G := G) B c cs q i) ∨
     ∃ k l prev req rest, 0 <= k < q.(num_queues_) ∧
       q'.(queue_idx_) = turn q k ∧ kept_out q (turn q k) = false ∧ aget q.(queues_) (turn q k) = Ret l ∧
       l = prev ++ req :: rest ∧ access_ok B c req ∧ offered B c q.(q_clk_) cs prev req rest cmd ∧
       (∀ m1 x m2, prev = m1 ++ x :: m2 → passed (G := G) B c q.(q_clk_) cs m1 x (m2 ++ req :: rest)) ∧
       ∀ j, 0 <= j < k → skipped (G := G) B c cs q (turn q j))).
Proof.
  intros Hc Hsh Hqt Hs Hcalm Hq. eapply returns_mono; [by apply GetCommandToIssue_spec|].
  intros [[[sh' cs'] q'] cmd] (? & ? & ? & _ & ? & ?). by split_and!.
Qed.

(** C7. A cycle of the controller loses nothing: from its invariant (the pending tables agree with the queues, the
    channel and the refresh generator are well formed), when the counters of the banks are in range, ClockTick
    returns with the invariant and with exactly the transactions it held, pending or on their way back. *)
Theorem controller_cycle {G} `{Rng64 G} (B : Build) (wb_inf : bool) (c : Config) (sh : Shared G) ctl :
  ctl_config B c → shared_ok c sh → ctl_ok B c ctl → ctl_ready ctl →
  returns (Controller.ClockTick B wb_inf c (Timing_new c) sh ctl) (λ r,
    shared_ok c r.1 ∧ ctl_ok B c r.2 ∧ in_flight r.2 ≡ₚ in_flight ctl).
Proof. intros Hcc Hs Hok Hr. by apply ClockTick_spec. Qed.

(** ** Witnesses: a controller of the baseline configuration *)
Definition plain_build : Build := mkBuild 0 false.
Lemma baseline_ok : ctl_config plain_build baseline ∧ new_config baseline.
Proof.
  split; [split|split].
  - split; vm_compute; split; (reflexivity || discriminate).
  - split; vm_compute; try split; (reflexivity || discriminate).
  - split; [intros [?|?]; discriminate|intros _; by repeat split|reflexivity|split; [discriminate|reflexivity]].
  - reflexivity.
  - by left.
  - reflexivity.
  - reflexivity.
  - exact baseline_layout.
  - vm_compute. reflexivity.
  - discriminate.
  - by left.
  - eexists. split; [vm_compute; reflexivity|]. split; reflexivity.
  - discriminate.
Qed.
Definition calm_shared : Shared Z := mkShared 0 false PRECHARGE (stats_init 1).
(** a new controller that was given a read *)
Lemma calm_controller : ∃ (sh : Shared Z) ctl, shared_ok baseline sh ∧ ctl_ok plain_build baseline ctl ∧
  ctl_ready ctl ∧ in_flight ctl = [(4096, false)].
Proof.
  destruct baseline_ok as [Hcc Hnc].
  destruct (Controller_new_spec plain_build baseline Hcc calm_shared 0 Hnc) as ([sh ctl] & _ & Hs & Hok & Hr & Hh);
    [discriminate|]. cbn [fst snd] in *.
  destruct (AddTransaction_spec plain_build baseline sh ctl (Transaction_new 4096 false) Hs Hok)
    as (Hs' & Hok' & Ecs & Hh'); [by vm_compute|]. rewrite Hh in Hh'. apply Permutation_singleton_r in Hh'.
  eexists _, _. split; [exact Hs'|]. split; [exact Hok'|]. split; [|exact Hh'].
  unfold ctl_ready. by rewrite Ecs.
Qed.

Definition calm_cmd : Command := mkCommand READ (mkAddress 0 0 2 1 77 5) 4096.
Lemma calm_queue : ∃ q, queue_ok plain_build baseline q ∧ kind_in true q.(queues_) = [4096].
Proof.
  destruct baseline_ok as [Hcc Hnc].
  destruct (CommandQueue_new_spec plain_build baseline Hcc (nc_queue _ Hnc)) as (q0 & E0 & Hq0 & _ & _ & Hk0).
  assert (access_ok plain_build baseline calm_cmd) as Hx.
  { split; [reflexivity|split; [|split; intros; cbn]|by vm_compute|by left]; vm_compute; split; done. }
  assert (WillAcceptCommand baseline q0 0 2 1 = Ret true) as Hw.
  { assert ((q ← CommandQueue_new baseline; WillAcceptCommand baseline q 0 2 1) = Ret true) as Hw
      by (vm_compute; reflexivity). by rewrite E0 in Hw. }
  destruct (AddCommand_spec plain_build baseline (cc_shape _ _ Hcc) (cc_quiet _ _ Hcc) q0 calm_cmd Hq0 Hx Hw)
    as (q & _ & Hq & _ & _ & Hk). exists q. split; [done|]. specialize (Hk true). rewrite Hk0 in Hk.
  by apply Permutation_singleton_r in Hk.
Qed.
Lemma queue_issue_witness : ∃ (sh : Shared Z) cs q, kind_in true q.(queues_) = [4096] ∧
  returns (GetCommandToIssue plain_build baseline sh cs q) (λ r, let '(_, cs', q', cmd) := r in
    cs' = cs ∧ [4096] ≡ₚ issued cmd true ++ kind_in true q'.(queues_)).
Proof.
  destruct baseline_ok as [Hcc _]. destruct calm_controller as (sh & ctl & Hs & [Hb _] & _).
  destruct calm_queue as (q & Hq & Hk). exists sh, ctl.(channel_state_), q. split; [exact Hk|].
  eapply returns_mono; [apply (queue_issue plain_build baseline sh ctl.(channel_state_) q (cc_bank _ _ Hcc)
    (cc_shape _ _ Hcc) (cc_quiet _ _ Hcc) Hs (bo_calm _ _ _ Hb) Hq)|].
  intros [[[sh' cs'] q'] cmd] (_ & E & _ & Hp & _). split; [exact E|]. rewrite <- Hk. apply Hp.
Defined.
Lemma controller_cycle_witness : ∃ (sh : Shared Z) ctl, in_flight ctl = [(4096, false)] ∧
  returns (Controller.ClockTick plain_build false baseline (Timing_new baseline) sh ctl)
    (λ r, ctl_ok plain_build baseline r.2 ∧ in_flight r.2 = [(4096, false)]).
Proof.
  destruct calm_controller as (sh & ctl & Hs & Hok & Hr & Hh). exists sh, ctl. split; [exact Hh|].
  eapply returns_mono; [apply (controller_cycle plain_build false baseline sh ctl (proj1 baseline_ok) Hs Hok Hr)|].
  intros r (_ & Hok' & Hh'). split; [exact Hok'|]. rewrite Hh in Hh'. by apply Permutation_singleton_r.
Defined.
