(* ===== verification/DramSystemSpec.v ===== *)
(** * Properties of the memory system ([DramSystem])

    The channels together: a transaction goes to the controller its address names, a tick hands every read
    that is done to the callback once and loses none. With this, DRAMsim3 keeps the promises that the
    wrapper of the simulator relies on ([MemSysDramsim3.MemorySystemLaws]). *)
From S2P Require Import Prelude MemSysDramsim3 Common Config Timing Stats BankState BankSpec ChannelState ChannelSpec ChannelRun.
From S2P Require Import Controller ControllerSpec DramSystem.
Open Scope Z_scope.

(** lists with one element replaced *)
Lemma concat_update {A B} (f : A → list B) (l : list A) i x y : l !! i = Some x →
  ∃ rest, concat (f <$> l) ≡ₚ f x ++ rest ∧ concat (f <$> <[i := y]> l) ≡ₚ f y ++ rest.
Proof.
  intros Hi. exists (concat (f <$> take i l) ++ concat (f <$> drop (S i) l)). split.
  - rewrite <- (take_drop_middle l i x Hi) at 1. rewrite fmap_app, concat_app. cbn [fmap list_fmap concat].
    solve_Permutation.
  - rewrite insert_take_drop by (by eapply lookup_lt_Some). rewrite fmap_app, concat_app. cbn [fmap list_fmap concat].
    solve_Permutation.
Qed.

Section Jedec.
Context {G : Type} `{Rng64 G} (B : Build) (wb_inf : bool) (c : Config).
Notation T := (Timing_new c).
Implicit Types (s : Statics G) (d : JedecDRAMSystem G) (l : list (Controller * SimpleStats)).

Record system_config : Prop := {
  yc_ctl : ctl_config B c;
  yc_new : new_config c;
  yc_channels : 0 < c.(channels) < 2147483648;
  yc_epoch : 0 < c.(epoch_period) < 2147483648
}.
Context (Hyc : system_config).

Definition statics_ok s : Prop :=
  s.(st_pac_valid) = true → s.(st_pac_cmd) = PRECHARGE ∨ s.(st_pac_cmd) = PRECHARGE2.
Definition pair_ok (x : Controller * SimpleStats) : Prop := stats_fit c x.2 ∧ ctl_ok B c x.1.
Definition ctrls_ok s l : Prop := statics_ok s ∧ zlen l = c.(channels) ∧ Forall pair_ok l.
Definition held l : list (Z * bool) := concat ((λ x, in_flight x.1) <$> l).

Definition jedec_ok d : Prop := ctrls_ok d.(statics) d.(ctrls_).
Definition jedec_ready d : Prop := Forall (λ x, ctl_ready x.1) d.(ctrls_).

(** replacing one controller *)
Lemma set_ctrl s l i x sh ctl : ctrls_ok s l → aget l i = Ret x → shared_ok c sh → ctl_ok B c ctl →
  ∃ rest l', aset l i (ctl, sh.(sh_stats)) = Ret l' ∧ ctrls_ok (statics_of sh) l' ∧
    held l ≡ₚ in_flight x.1 ++ rest ∧ held l' ≡ₚ in_flight ctl ++ rest.
Proof.
  intros (_ & Hz & Hl) Hx [Hs Hpac] Hok. pose proof (aget_bound _ _ _ Hx) as Hb. apply aget_Ret in Hx as [_ Hx].
  destruct (concat_update (λ x, in_flight x.1) l _ x (ctl, sh.(sh_stats)) Hx) as (rest & E1 & E2).
  exists rest. eexists. split; [by apply aset_ok|]. split; [|by split].
  split; [exact Hpac|]. split; [unfold zlen; by rewrite length_insert|].
  apply Forall_insert; [done|]. by split.
Qed.
Lemma shared_with_ok s l i x : ctrls_ok s l → aget l i = Ret x → shared_ok c (shared_with s x.2) ∧ ctl_ok B c x.1.
Proof.
  intros (Hs & _ & Hl) [_ Hx]%aget_Ret. rewrite Forall_lookup in Hl. destruct (Hl _ _ Hx) as [Hst Hok].
  split; [|done]. by split.
Qed.

Lemma GetChannel_ok hex : is_u64 hex → ∃ ch, GetChannel c hex = Ret ch ∧ 0 <= ch < c.(channels).
Proof.
  intros Hh. destruct (decode_ok B c hex (yc_ctl Hyc) ltac:(apply Hh)) as (a & Ea & Hch & _).
  assert (GetChannel c hex = Ret a.(channel)) as Eg.
  { unfold AddressMapping in Ea. apply bind_Ret in Ea as (x & Ex & Ea). apply bind_Ret in Ea as (ch & Ech & Ea).
    assert (a.(channel) = ch) as ->.
    { repeat (apply bind_Ret in Ea as (? & _ & Ea)). by injection Ea as <-. }
    unfold GetChannel. rewrite Ex. exact Ech. }
  exists a.(channel). split; [done|]. pose proof (yc_channels Hyc). pose proof (Z.log2_spec c.(channels)). lia.
Qed.
Lemma channel_ctrl d hex : jedec_ok d → is_u64 hex →
  ∃ ch x, GetChannel c hex = Ret ch ∧ aget d.(ctrls_) ch = Ret x.
Proof.
  intros (_ & Hz & _) Hh. destruct (GetChannel_ok hex Hh) as (ch & Eg & Hch).
  destruct (aget_ok d.(ctrls_) ch) as [x Ex]; [lia|]. by exists ch, x.
Qed.

Lemma WillAccept_ok d hex w : jedec_ok d → is_u64 hex →
  ∃ b, WillAcceptTransaction wb_inf c d hex w = Ret b.
Proof.
  intros Hd Hh. destruct (channel_ctrl d hex Hd Hh) as (ch & x & Eg & Ex). unfold WillAcceptTransaction.
  rewrite Eg. cbn [mbind outcome_bind]. rewrite Ex. by eexists.
Qed.
(** a transaction is given to one controller *)
Lemma add_ctrl_ok d ch x hex w : jedec_ok d → is_u64 hex → aget d.(ctrls_) ch = Ret x →
  let r := Controller.AddTransaction (shared_with d.(statics) x.2) x.1 (Transaction_new hex w) in
  ∃ l, aset d.(ctrls_) ch (r.2, r.1.(sh_stats)) = Ret l ∧ jedec_ok (d <| ctrls_ := l |>) ∧
    (jedec_ready d → jedec_ready (d <| ctrls_ := l |>)) ∧ held l ≡ₚ (hex, w) :: held d.(ctrls_).
Proof.
  intros Hd Hh Ex. destruct (shared_with_ok _ _ _ _ Hd Ex) as [Hs Hok].
  pose proof (ControllerSpec.AddTransaction_spec B c (shared_with d.(statics) x.2) x.1 (Transaction_new hex w) Hs Hok Hh)
    as (Hs' & Hok' & Ecs & Hr). destruct (Controller.AddTransaction _ _ _) as [sh ctl]. cbn [fst snd] in *.
  destruct (set_ctrl _ _ _ _ sh ctl Hd Ex Hs' Hok') as (rest & l' & El & (_ & C2 & C3) & E1 & E2). exists l'.
  split; [done|]. split; [split; [apply Hd|by split]|]. split.
  - unfold jedec_ready. rsimp. intros Hrd. apply aset_Ret in El as [_ ->]. apply aget_Ret in Ex as [_ Ex].
    apply Forall_insert; [done|]. rewrite Forall_lookup in Hrd. specialize (Hrd _ _ Ex). unfold ctl_ready in *.
    cbn [fst]. by rewrite Ecs.
  - rewrite E1, E2, Hr. unfold tag. cbn [Transaction_new t_addr is_write]. solve_Permutation.
Qed.
Lemma AddTransaction_ok d hex w : jedec_ok d → is_u64 hex → WillAcceptTransaction wb_inf c d hex w = Ret true →
  ∃ d', AddTransaction wb_inf c d hex w = Ret (d', true) ∧ jedec_ok d' ∧ (jedec_ready d → jedec_ready d') ∧
    held d'.(ctrls_) ≡ₚ (hex, w) :: held d.(ctrls_).
Proof.
  intros Hd Hh Hw. destruct (channel_ctrl d hex Hd Hh) as (ch & x & Eg & Ex).
  unfold WillAcceptTransaction, AddTransaction in *. rewrite Eg in *. cbn [mbind outcome_bind] in *. rewrite Ex in *.
  cbn [mbind outcome_bind] in *. injection Hw as ->. cbn [assert_ mbind outcome_bind].
  destruct (add_ctrl_ok d ch x hex w Hd Hh Ex) as (l & El & Hok & Hrd & Hl).
  destruct (Controller.AddTransaction _ _ _) as [sh ctl]. cbn [fst snd] in *. rewrite El.
  cbn [mbind outcome_bind]. by eexists.
Qed.

(** ** A tick *)
Section Tick.
Context {W : Type} (rd wr : W → Z → outcome W) (pend : W → list (Z * bool) → Prop)
  (Hperm : ∀ w ts ts', ts ≡ₚ ts' → pend w ts → pend w ts')
  (Hrd : ∀ w a ts, pend w ((a, false) :: ts) → returns (rd w a) (λ w', pend w' ts))
  (Hwr : ∀ w a ts, pend w ((a, true) :: ts) → returns (wr w a) (λ w', pend w' ts)).

(** the transactions of one controller that are done; [rest] are those of the others *)
Lemma return_done_spec fuel (sh : Shared G) ctl clk w rest : (length ctl.(return_queue_) < fuel)%nat →
  shared_ok c sh → ctl_ok B c ctl → pend w (in_flight ctl ++ rest) →
  returns (return_done rd wr fuel sh ctl clk w) (λ r, shared_ok c r.1.1 ∧ ctl_ok B c r.1.2 ∧
    r.1.2.(channel_state_) = ctl.(channel_state_) ∧ pend r.2 (in_flight r.1.2 ++ rest)).
Proof.
  revert sh ctl w. induction fuel as [|fuel IH]; intros sh ctl w Hf Hs Hok Hp; [lia|]. cbn [return_done].
  pose proof (ReturnDoneTrans_spec B c sh ctl clk Hs Hok) as Hh.
  destruct (ReturnDoneTrans sh ctl clk) as [[sh1 ctl1] p]. destruct Hh as (Hs1 & Hok1 & Ecs & Hcase).
  assert (∀ w1, (length ctl1.(return_queue_) < fuel)%nat → pend w1 (in_flight ctl1 ++ rest) →
    returns (return_done rd wr fuel sh1 ctl1 clk w1) (λ r, shared_ok c r.1.1 ∧ ctl_ok B c r.1.2 ∧
      r.1.2.(channel_state_) = ctl.(channel_state_) ∧ pend r.2 (in_flight r.1.2 ++ rest))) as Hgo.
  { intros w1 Hlt Hp1. eapply returns_mono; [by apply IH|]. intros r (? & ? & E & ?). by rewrite E, Ecs. }
  destruct Hcase as [(wr' & Ep & Hr & Hlen)|(-> & ->)].
  - eapply (Hperm w _ ((p.1, wr') :: in_flight ctl1 ++ rest)) in Hp; [|by rewrite Hr]. rewrite Ep. destruct wr'.
    + rewrite Z.eqb_refl. eapply returns_bind; [by apply Hwr|intros w1 Hp1; apply Hgo; [lia|done]].
    + change (0 =? 1) with false. rewrite Z.eqb_refl. cbv iota.
      eapply returns_bind; [by apply Hrd|intros w1 Hp1; apply Hgo; [lia|done]].
  - change (-1 =? 1) with false. change (-1 =? 0) with false. cbv iota. by apply returns_ret.
Qed.

(** all the controllers *)
Definition ready_from (i : Z) l : Prop := ∀ j x, i <= j → aget l j = Ret x → ctl_ready x.1.
Lemma return_ctrls_spec d w : jedec_ok d → ready_from 0 d.(ctrls_) → pend w (held d.(ctrls_)) →
  returns (return_ctrls rd wr d w) (λ r, jedec_ok r.1 ∧ ready_from 0 r.1.(ctrls_) ∧ pend r.2 (held r.1.(ctrls_))).
Proof.
  intros Hd Hrdy Hp. unfold return_ctrls.
  set (I := λ x : Statics G * list (Controller * SimpleStats) * W,
    ctrls_ok x.1.1 x.1.2 ∧ ready_from 0 x.1.2 ∧ pend x.2 (held x.1.2)).
  eapply returns_bind; [apply (for_inv I); [done|]|].
  - intros [[s l] w1] i Hi%elem_of_seqZ (Hc & Hr & Hp1). cbn [fst snd] in *. unfold on_ctrl.
    assert (zlen d.(ctrls_) = zlen l) as Hz by (destruct Hc as (_ & -> & _); by destruct Hd as (_ & -> & _)).
    destruct (aget_ok l i) as [x Ex]; [lia|]. rewrite Ex. cbn [mbind outcome_bind].
    destruct (shared_with_ok _ _ _ _ Hc Ex) as [Hs Hok]. pose proof (Hr i x ltac:(lia) Ex) as Hx.
    destruct (set_ctrl s l i x (shared_with s x.2) x.1 Hc Ex Hs Hok) as (rest & _ & _ & _ & E1 & _).
    eapply returns_bind; [apply (return_done_spec _ (shared_with s x.2) x.1 d.(sys_clk_) w1 rest);
      [lia|done|done|by eapply Hperm; [|exact Hp1]]|].
    intros [[sh ctl] w2] (Hs2 & Hok2 & Ecs & Hp2). cbn [fst snd] in *.
    destruct (set_ctrl s l i x sh ctl Hc Ex Hs2 Hok2) as (rest' & l' & El & Hc' & E1' & E2'). rewrite El.
    cbn [mbind outcome_bind]. apply returns_ret. split; [done|]. cbn [fst snd]. split.
    + intros j y Hj Hy. rewrite (aget_aset l i j _ l' El) in Hy. destruct (Z.eqb_spec j i) as [->|].
      * injection Hy as <-. unfold ctl_ready. cbn [fst]. by rewrite Ecs.
      * by eapply Hr.
    + eapply Hperm; [|exact Hp2]. rewrite E2'. rewrite E1 in E1'. apply Permutation_app_inv_l in E1'. by rewrite E1'.
  - intros [[s l] w1] (Hc & Hr & Hp1). cbn [fst snd] in *. by apply returns_ret.
Qed.
End Tick.

(** a step of every controller that keeps its reads *)
Lemma each_ctrl_spec (ready : bool) d (f : Shared G → Controller → outcome (Shared G * Controller)) :
  jedec_ok d → (ready = true → ready_from 0 d.(ctrls_)) →
  (∀ sh ctl, shared_ok c sh → ctl_ok B c ctl → (ready = true → ctl_ready ctl) →
     returns (f sh ctl) (keeps B c (in_flight ctl))) →
  returns (each_ctrl d f) (λ d', jedec_ok d' ∧ held d'.(ctrls_) ≡ₚ held d.(ctrls_) ∧ d'.(sys_clk_) = d.(sys_clk_)).
Proof.
  intros Hd Hrdy Hf. unfold each_ctrl. pose proof Hd as (_ & Hz & _). pose proof (yc_channels Hyc).
  set (I := λ i (x : Statics G * list (Controller * SimpleStats)),
    ctrls_ok x.1 x.2 ∧ held x.2 ≡ₚ held d.(ctrls_) ∧ (ready = true → ready_from i x.2)).
  eapply returns_bind; [apply (for_seqZ I 0); [apply zlen_nonneg|done|]|].
  - intros [s l] i Hi (Hc & Hh & Hr). cbn [fst snd] in *. unfold on_ctrl.
    destruct (aget_ok l i) as [x Ex]; [destruct Hc as (_ & -> & _); lia|]. rewrite Ex. cbn [mbind outcome_bind].
    destruct (shared_with_ok _ _ _ _ Hc Ex) as [Hs Hok].
    destruct (Hf _ _ Hs Hok) as ([sh ctl] & -> & Hs2 & Hok2 & Hr2).
    { intros E. by apply (Hr E i x ltac:(lia)). }
    cbn [mbind outcome_bind fst snd] in *.
    destruct (set_ctrl s l i x sh ctl Hc Ex Hs2 Hok2) as (rest & l' & El & Hc' & E1 & E2). rewrite El.
    cbn [mbind outcome_bind fst snd]. apply returns_ret. split; [done|]. cbn [fst snd]. split.
    + by rewrite E2, Hr2, <- E1.
    + intros E j y Hj Hy. rewrite (aget_aset l i j _ l' El) in Hy. destruct (Z.eqb_spec j i) as [->|]; [lia|].
      apply (Hr E j y); [lia|done].
  - intros [s l] (Hc & Hh & _). by apply returns_ret.
Qed.

Lemma ClockTick_ok {W} (rd wr : W → Z → outcome W) (pend : W → list (Z * bool) → Prop) d w :
  jedec_ok d → jedec_ready d → (∀ w ls ls', ls ≡ₚ ls' → pend w ls → pend w ls') →
  (∀ w a ls, pend w ((a, false) :: ls) → returns (rd w a) (λ w', pend w' ls)) →
  (∀ w a ls, pend w ((a, true) :: ls) → returns (wr w a) (λ w', pend w' ls)) → pend w (held d.(ctrls_)) →
  returns (ClockTick B wb_inf c rd wr d w) (λ r, jedec_ok r.1 ∧ pend r.2 (held r.1.(ctrls_))).
Proof.
  intros Hd Hrdy Hperm Hrd Hwr Hp. unfold ClockTick.
  eapply returns_bind; [apply (return_ctrls_spec rd wr pend Hperm Hrd Hwr d w Hd); [|exact Hp]|].
  { intros j x _ [_ Hx]%aget_Ret. unfold jedec_ready in Hrdy. rewrite Forall_lookup in Hrdy. by apply (Hrdy _ _ Hx). }
  intros [d1 w1] (Hd1 & Hr1 & Hp1). cbn [fst snd] in *.
  eapply returns_bind; [apply (each_ctrl_spec true d1); [done|done|]|].
  { intros sh ctl Hs Hok Hr. apply (ControllerSpec.ClockTick_spec B wb_inf c (yc_ctl Hyc)); auto. }
  intros d2 (Hd2 & Hh2 & _). pose proof (yc_epoch Hyc). rsimp. rewrite (u64_id c.(epoch_period)) by (unfold is_u64; lia).
  rewrite umod_ok by lia. cbn [mbind outcome_bind]. set (d3 := d2 <| sys_clk_ ::= _ |>).
  assert (jedec_ok d3 ∧ held d3.(ctrls_) ≡ₚ held d1.(ctrls_)) as [Hd3 Hh3] by done. clearbody d3.
  eapply (returns_bind _ _ (λ d', jedec_ok d' ∧ held d'.(ctrls_) ≡ₚ held d3.(ctrls_))).
  { case_match; [|by apply returns_ret]. unfold PrintEpochStats.
    eapply returns_mono; [apply (each_ctrl_spec false d3); [done|done|]|by intros ? (? & ? & _)].
    intros sh ctl Hs Hok _. eapply returns_bind; [by apply (PrintEpochStats_spec c)|]. intros sh' Hs'.
    apply returns_ret. by split_and!. }
  intros d4 [Hd4 Hh4]. apply returns_ret. split; [done|]. eapply Hperm; [|exact Hp1]. cbn [fst]. by rewrite Hh4, Hh3.
Qed.

Lemma new_ctrls_ok s : statics_ok s → returns (new_ctrls c s) (λ d,
  jedec_ok d ∧ jedec_ready d ∧ held d.(ctrls_) = []).
Proof.
  intros Hs. unfold new_ctrls. pose proof (yc_channels Hyc).
  destruct (Z.ltb_spec c.(channels) 0); [lia|].
  set (I := λ i (x : Statics G * list (Controller * SimpleStats)), statics_ok x.1 ∧ zlen x.2 = i ∧
    Forall pair_ok x.2 ∧ Forall (λ y, ctl_ready y.1) x.2 ∧ held x.2 = []).
  eapply returns_bind; [apply (for_seqZ I 0); [lia|by split_and!|]|].
  - intros [s1 l] i Hi (Hs1 & Hz & Hp & Hr & Hh). cbn [fst snd] in *.
    eapply returns_bind; [apply (Controller_new_spec B c (yc_ctl Hyc) (shared_with s1 stats0) i (yc_new Hyc)); exact Hs1|].
    intros [sh ctl] ([Hst Hpac] & Hok & Hrd & Hnil). cbn [fst snd] in *. apply returns_ret. split; [exact Hpac|]. cbn [fst snd].
    split; [|split; [|split]].
    + unfold zlen in *. rewrite length_app. cbn [length]. lia.
    + apply Forall_app. split; [done|]. constructor; [by split|done].
    + apply Forall_app. split; [done|]. by constructor.
    + unfold held in *. rewrite fmap_app, concat_app, Hh. cbn [fmap list_fmap concat fst]. by rewrite Hnil.
  - intros [s1 l] (Hs1 & Hz & Hp & Hr & Hh). apply returns_ret. by split; [split_and!|].
Qed.

(** ** DRAMsim3 as the simulator's wrapper uses it *)
Definition jedec_memory : MemorySystem (JedecDRAMSystem G) := {|
  MemSysDramsim3.WillAcceptTransaction := WillAcceptTransaction wb_inf c;
  MemSysDramsim3.AddTransaction := AddTransaction wb_inf c;
  MemSysDramsim3.ClockTick W rd wr d w := ClockTick B wb_inf c rd wr d w
|}.
Definition jedec_laws : @MemorySystemLaws (JedecDRAMSystem G) jedec_memory.
Proof.
  refine (@Build_MemorySystemLaws (JedecDRAMSystem G) jedec_memory (λ d, reads (held d.(ctrls_))) jedec_ok jedec_ready _ _ _ _).
  - intros d a w Hd Ha. by apply WillAccept_ok.
  - intros d a Hd Ha Hw. destruct (AddTransaction_ok d a false Hd Ha Hw) as (d' & E & H1 & _ & H2). exists d', true. split; [done|]. split; [done|].
    exact (reads_proper _ _ H2).
  - intros d a Hd Ha Hw. destruct (AddTransaction_ok d a true Hd Ha Hw) as (d' & E & H1 & _ & H2). exists d', true. split; [done|]. split; [done|].
    exact (reads_proper _ _ H2).
  - intros W rd wr pend d w Hd Hr Hperm Hrd Hwr Hp. apply (ClockTick_ok rd wr (λ w ts, pend w (reads ts))); try done;
      [|intros w1 a ls; apply Hrd|intros w1 a ls; apply Hwr].
    intros w1 ls ls' Hl. apply Hperm. by rewrite Hl.
Defined.
End Jedec.

(** ** The ideal memory *)
Section Ideal.
Context {W : Type} (rd wr : W → Z → outcome W) (pend : W → list Z → Prop)
  (Hperm : ∀ w (l l' : list Z), l ≡ₚ l' → pend w l → pend w l')
  (Hrd : ∀ w a (l : list Z), pend w (a :: l) → returns (rd w a) (λ w', pend w' l))
  (Hwr : ∀ w a (l : list Z), pend w l → returns (wr w a) (λ w', pend w' l)).
Definition ideal_held (l : list Transaction) : list Z := omap (t_kind true) l.
Lemma ideal_loop_spec clk latency l w rest : pend w (ideal_held l ++ rest) →
  returns (ideal_loop rd wr clk latency l w) (λ r, pend r.2 (ideal_held r.1 ++ rest)).
Proof.
  remember (length l) as n eqn:En. revert l w rest En.
  induction n as [n IH] using (well_founded_induction lt_wf). intros l w rest En Hp.
  destruct l as [|t l]; [by apply returns_ret|]. cbn [ideal_loop length] in *.
  assert (ideal_held (t :: l) = of_kind t true ++ ideal_held l) as Et.
  { unfold ideal_held, of_kind. cbn [omap list_omap]. unfold t_kind at 1. by destruct (is_write t). }
  destruct (_ <=? _).
  - eapply (returns_bind _ _ (λ w', pend w' (ideal_held l ++ rest))).
    + rewrite Et in Hp. unfold of_kind in Hp. destruct (is_write t); [by apply Hwr|by apply Hrd].
    + intros w1 Hp1. destruct l as [|t2 l2]; [by apply returns_ret|].
      assert (ideal_held (t2 :: l2) = of_kind t2 true ++ ideal_held l2) as Et2.
      { unfold ideal_held, of_kind. cbn [omap list_omap]. unfold t_kind at 1. by destruct (is_write t2). }
      eapply returns_bind; [apply (IH (length l2) ltac:(cbn [length] in *; lia) l2 w1 (of_kind t2 true ++ rest) eq_refl)|].
      { eapply Hperm; [|exact Hp1]. rewrite Et2. solve_Permutation. }
      intros [l' w2] Hp2. apply returns_ret. cbn [fst snd] in *. eapply Hperm; [|exact Hp2].
      unfold ideal_held, of_kind. cbn [omap list_omap]. unfold t_kind at 2. destruct (is_write t2); cbn [negb Bool.eqb];
        [done|solve_Permutation].
  - eapply returns_bind; [apply (IH (length l) ltac:(lia) l w (of_kind t true ++ rest) eq_refl)|].
    { eapply Hperm; [|exact Hp]. rewrite Et. solve_Permutation. }
    intros [l' w2] Hp2. apply returns_ret. cbn [fst snd] in *. eapply Hperm; [|exact Hp2].
    unfold ideal_held, of_kind. cbn [omap list_omap]. unfold t_kind at 2. destruct (is_write t); cbn [negb Bool.eqb];
      [done|solve_Permutation].
Qed.
End Ideal.
Definition ideal_memory : MemorySystem IdealDRAMSystem := {|
  MemSysDramsim3.WillAcceptTransaction d a w := Ret (ideal_WillAcceptTransaction d a w);
  MemSysDramsim3.AddTransaction d a w := Ret (ideal_AddTransaction d a w);
  MemSysDramsim3.ClockTick W rd wr d w := ideal_ClockTick rd wr d w
|}.
Definition ideal_laws : @MemorySystemLaws IdealDRAMSystem ideal_memory.
Proof.
  refine (@Build_MemorySystemLaws IdealDRAMSystem ideal_memory (λ d, ideal_held d.(infinite_buffer_q_))
    (λ _, True) (λ _, True) _ _ _ _).
  - intros d a w _ _. by exists true.
  - intros d a _ _ _. eexists _, true. split; [done|]. split; [done|].
    change (ideal_held (infinite_buffer_q_ d ++ [Transaction_new a false <| added_cycle := ideal_clk_ d |>]) ≡ₚ
      a :: ideal_held (infinite_buffer_q_ d)). unfold ideal_held. rewrite omap_app. solve_Permutation.
  - intros d a _ _ _. eexists _, true. split; [done|]. split; [done|].
    change (ideal_held (infinite_buffer_q_ d ++ [Transaction_new a true <| added_cycle := ideal_clk_ d |>]) ≡ₚ
      ideal_held (infinite_buffer_q_ d)). unfold ideal_held. rewrite omap_app.
    change (omap (t_kind true) (infinite_buffer_q_ d) ++ [] ≡ₚ omap (t_kind true) (infinite_buffer_q_ d)). by rewrite app_nil_r.
  - intros W rd wr pend d w _ _ Hperm Hrd Hwr Hp. cbn. unfold ideal_ClockTick.
    eapply returns_bind; [apply (ideal_loop_spec rd wr pend Hperm Hrd Hwr _ _ _ w [])|]; [by rewrite app_nil_r|].
    intros [l w'] Hp'. apply returns_ret. split; [done|]. cbn [fst snd] in *. by rewrite app_nil_r in Hp'.
Defined.

(** ** The properties *)

(** C6. What DRAMsim3 promises: a new system holds nothing; a transaction of any 64-bit address is answered, and when
    it is accepted it is added and held once; a tick hands each transaction that is done to the callback of its kind, once,
    and keeps the others - whatever the callbacks do, as the predicate [pend] on their state records. *)
Theorem dramsim3_promises {G} `{Rng64 G} (B : Build) (wb_inf : bool) (c : Config) (s : Statics G) :
  system_config B c → IsHMC c = false → statics_ok s →
  returns (JedecDRAMSystem_new c s) (λ d, jedec_ok B c d ∧ jedec_ready d ∧ held d.(ctrls_) = []) ∧
  (∀ (d : JedecDRAMSystem G) a w, jedec_ok B c d → is_u64 a →
     ∃ b, WillAcceptTransaction wb_inf c d a w = Ret b ∧
       (b = true → ∃ d', AddTransaction wb_inf c d a w = Ret (d', true) ∧ jedec_ok B c d' ∧ (jedec_ready d → jedec_ready d') ∧
          held d'.(ctrls_) ≡ₚ (a, w) :: held d.(ctrls_))) ∧
  (∀ (W : Type) (rd wr : W → Z → outcome W) (pend : W → list (Z * bool) → Prop) (d : JedecDRAMSystem G) w,
     jedec_ok B c d → jedec_ready d →
     (∀ w ls ls', ls ≡ₚ ls' → pend w ls → pend w ls') →
     (∀ w a ls, pend w ((a, false) :: ls) → returns (rd w a) (λ w', pend w' ls)) →
     (∀ w a ls, pend w ((a, true) :: ls) → returns (wr w a) (λ w', pend w' ls)) →
     pend w (held d.(ctrls_)) →
     returns (ClockTick B wb_inf c rd wr d w) (λ r, jedec_ok B c r.1 ∧ pend r.2 (held r.1.(ctrls_)))).
Proof.
  intros Hyc Hh Hs. split; [|split].
  - unfold JedecDRAMSystem_new. rewrite Hh. by apply new_ctrls_ok.
  - intros d a w Hd Ha. destruct (WillAccept_ok B wb_inf c Hyc d a w Hd Ha) as [b Eb]. exists b. split; [done|].
    intros ->. by apply AddTransaction_ok.
  - intros W rd wr pend d w. by apply ClockTick_ok.
Qed.

(** ** Witness: two channels of two ranks each, a read, and a tick that records what the callback is given *)
Definition tiny_config : Config :=
  let c := baseline <| dram_ ::= λ d, d <| bankgroups := 2 |> <| banks_per_group := 4 |> <| banks := 8 |> <| rows := 16 |> |> in
  c <| mapping_ := match SetAddressMapping c c c.(ranks) with Ret m => m | Fault _ => c end |>.
Lemma tiny_config_ok : system_config plain_build tiny_config.
Proof.
  split; [split|split|..].
  - split; vm_compute; split; (reflexivity || discriminate).
  - split; vm_compute; try split; (reflexivity || discriminate).
  - split; [intros [?|?]; discriminate|intros _; by repeat split|reflexivity|split; [discriminate|reflexivity]].
  - reflexivity.
  - by left.
  - reflexivity.
  - reflexivity.
  - split.
    + exact (ly_fields _ _ _ baseline_layout).
    + by left.
    + repeat constructor; vm_compute; done.
    + vm_compute. done.
    + vm_compute. done.
    + vm_compute. done.
  - vm_compute. reflexivity.
  - discriminate.
  - by left.
  - eexists. split; [vm_compute; reflexivity|]. split; reflexivity.
  - discriminate.
  - split; reflexivity.
  - split; reflexivity.
Qed.
Definition tiny_statics : Statics Z := mkStatics 0 false PRECHARGE.
Definition record (write : bool) (w : list (Z * bool)) (a : Z) : outcome (list (Z * bool)) := Ret (w ++ [(a, write)]).
Lemma dramsim3_promises_witness : ∃ d d' : JedecDRAMSystem Z,
  JedecDRAMSystem_new tiny_config tiny_statics = Ret d ∧ AddTransaction false tiny_config d 4096 false = Ret (d', true) ∧
  held d'.(ctrls_) = [(4096, false)] ∧
  returns (ClockTick plain_build false tiny_config (record false) (record true) d' [])
    (λ r, r.2 ++ held r.1.(ctrls_) ≡ₚ [(4096, false)]).
Proof.
  destruct (dramsim3_promises plain_build false tiny_config tiny_statics tiny_config_ok) as (Hnew & Hadd & Htick);
    [reflexivity|discriminate|].
  destruct Hnew as (d & Ed & Hd & Hr & Hh). assert (is_u64 4096) as Hu by (unfold is_u64; lia).
  pose proof (Hadd d 4096 false Hd Hu) as (b & Eb & Hb).
  assert (b = true) as ->.
  { assert ((d ← JedecDRAMSystem_new tiny_config tiny_statics; WillAcceptTransaction false tiny_config d 4096 false)
      = Ret true) as Hw by (vm_compute; reflexivity). rewrite Ed in Hw. cbn [mbind outcome_bind] in Hw. congruence. }
  destruct (Hb eq_refl) as (d' & Ed' & Hd' & Hr' & Hh'). rewrite Hh in Hh'. apply Permutation_singleton_r in Hh'.
  exists d, d'. split; [exact Ed|]. split; [exact Ed'|]. split; [exact Hh'|].
  eapply returns_mono; [apply (Htick _ (record false) (record true) (λ w l, w ++ l ≡ₚ [(4096, false)]) d' [] Hd' (Hr' Hr))|].
  - intros w ls ls' Hl Hw. by rewrite <- Hl.
  - intros w a ls Hw. apply returns_ret. by rewrite <- app_assoc.
  - intros w a ls Hw. apply returns_ret. by rewrite <- app_assoc.
  - by rewrite Hh'.
  - by intros r [_ Hp].
Defined.
