(* ===== verification/Hmc.v ===== *)
(** * DRAMsim3: the hybrid memory cube (DRAMsim3/src/hmc.h, hmc.cc)

    Requests enter the queue of a link, cross a switch to the queue of one of four quadrants and go
    from there to the controller of their vault (a channel). A response waits in a table until the vault is
    done, then crosses back to the link of its request and calls the callback. The logic die has
    a clock of its own. Requests and responses are owned by one queue at a time, so the model stores them by value. *)
From S2P Require Import Prelude Common Config Timing Stats BankState ChannelState.
From S2P Require Import Controller DramSystem.
Open Scope Z_scope.

(** ** Packets *)

Inductive HMCReqType : Set :=
  | RD0 | RD16 | RD32 | RD48 | RD64 | RD80 | RD96 | RD112 | RD128 | RD256
  | WR0 | WR16 | WR32 | WR48 | WR64 | WR80 | WR96 | WR112 | WR128 | WR256
  | P_WR16 | P_WR32 | P_WR48 | P_WR64 | P_WR80 | P_WR96 | P_WR112 | P_WR128 | P_WR256
  | ADD8 | ADD16 | P_2ADD8 | P_ADD16 | ADDS8R | ADDS16R | INC8 | P_INC8
  | XOR16 | OR16 | NOR16 | AND16 | NAND16
  | CASGT8 | CASGT16 | CASLT8 | CASLT16 | CASEQ8 | CASZERO16
  | EQ8 | EQ16 | BWR | P_BWR | BWR8R | SWAP16 | REQ_SIZE.
Inductive HMCRespType : Set := NONE | RD_RS | WR_RS | ERR | RESP_SIZE.

(** [type >= HMCReqType::WR0 && type <= HMCReqType::P_WR256], in the order of the enumeration *)
Definition is_write_type (t : HMCReqType) : bool :=
  match t with
  | WR0 | WR16 | WR32 | WR48 | WR64 | WR80 | WR96 | WR112 | WR128 | WR256
  | P_WR16 | P_WR32 | P_WR48 | P_WR64 | P_WR80 | P_WR96 | P_WR112 | P_WR128 | P_WR256 => true
  | _ => false
  end.
Definition req_flits (t : HMCReqType) : outcome Z :=
  match t with
  | RD0 | WR0 => Ret 0
  | RD16 | RD32 | RD48 | RD64 | RD80 | RD96 | RD112 | RD128 | RD256 => Ret 1
  | WR16 | P_WR16 => Ret 2
  | WR32 | P_WR32 => Ret 3
  | WR48 | P_WR48 => Ret 4
  | WR64 | P_WR64 => Ret 5
  | WR80 | P_WR80 => Ret 6
  | WR96 | P_WR96 => Ret 7
  | WR112 | P_WR112 => Ret 8
  | WR128 | P_WR128 => Ret 9
  | WR256 | P_WR256 => Ret 17
  | ADD8 | ADD16 | P_2ADD8 | P_ADD16 | ADDS8R | ADDS16R => Ret 2
  | INC8 | P_INC8 => Ret 1
  | XOR16 | OR16 | NOR16 | AND16 | NAND16
  | CASGT8 | CASGT16 | CASLT8 | CASLT16 | CASEQ8 | CASZERO16 => Ret 2
  | EQ8 | EQ16 | BWR | P_BWR | BWR8R | SWAP16 => Ret 2
  | REQ_SIZE => AbruptExit
  end.
Definition resp_kind (t : HMCReqType) : outcome (HMCRespType * Z) :=
  match t with
  | RD0 => Ret (RD_RS, 0)
  | RD16 => Ret (RD_RS, 2)
  | RD32 => Ret (RD_RS, 3)
  | RD48 => Ret (RD_RS, 4)
  | RD64 => Ret (RD_RS, 5)
  | RD80 => Ret (RD_RS, 6)
  | RD96 => Ret (RD_RS, 7)
  | RD112 => Ret (RD_RS, 8)
  | RD128 => Ret (RD_RS, 9)
  | RD256 => Ret (RD_RS, 17)
  | WR0 => Ret (WR_RS, 0)
  | WR16 | WR32 | WR48 | WR64 | WR80 | WR96 | WR112 | WR128 | WR256 => Ret (WR_RS, 1)
  | P_WR16 | P_WR32 | P_WR48 | P_WR64 | P_WR80 | P_WR96 | P_WR112 | P_WR128 | P_WR256 => Ret (NONE, 0)
  | ADD8 | ADD16 => Ret (WR_RS, 1)
  | P_2ADD8 | P_ADD16 => Ret (NONE, 0)
  | ADDS8R | ADDS16R => Ret (RD_RS, 2)
  | INC8 => Ret (WR_RS, 1)
  | P_INC8 => Ret (NONE, 0)
  | XOR16 | OR16 | NOR16 | AND16 | NAND16
  | CASGT8 | CASGT16 | CASLT8 | CASLT16 | CASEQ8 | CASZERO16 => Ret (RD_RS, 2)
  | EQ8 | EQ16 | BWR => Ret (WR_RS, 1)
  | P_BWR => Ret (NONE, 0)
  | BWR8R | SWAP16 => Ret (RD_RS, 2)
  | REQ_SIZE => AbruptExit
  end.

Record HMCRequest := mkHMCRequest {
  rq_type : HMCReqType; mem_operand : Z; rq_link : Z; rq_quad : Z; vault : Z;
  rq_flits : Z; rq_is_write : bool; rq_exit_time : Z
}.
Record HMCResponse := mkHMCResponse {
  resp_id : Z; rs_type : HMCRespType; rs_link : Z; rs_quad : Z; rs_flits : Z; rs_exit_time : Z
}.
(** [link] and [exit_time] are not set by the constructors, but before they are read; 0 stands for them *)
Definition HMCRequest_new (t : HMCReqType) (hex_addr vault : Z) : outcome HMCRequest :=
  flits ← req_flits t;
  Ret {| rq_type := t; mem_operand := hex_addr; rq_link := 0; rq_quad := Z.rem vault 4; vault := vault;
         rq_flits := flits; rq_is_write := is_write_type t; rq_exit_time := 0 |}.
Definition HMCResponse_new (id : Z) (t : HMCReqType) (dest_link src_quad : Z) : outcome HMCResponse :=
  k ← resp_kind t;
  Ret {| resp_id := id; rs_type := k.1; rs_link := dest_link; rs_quad := src_quad; rs_flits := k.2; rs_exit_time := 0 |}.

(** ** State *)

(** the members that the class adds to [BaseDRAMSystem] *)
Record HMC := mkHMC {
  logic_clk_ : Z; ps_per_dram_ : Z; ps_per_logic_ : Z; logic_ps_ : Z; dram_ps_ : Z;
  next_link_ : Z; links_ : Z; queue_depth_ : Z;
  resp_lookup_table_ : list (Z * HMCResponse);
  link_req_queues_ : list (list HMCRequest);
  link_resp_queues_ : list (list HMCResponse);
  quad_req_queues_ : list (list HMCRequest);
  quad_resp_queues_ : list (list HMCResponse);
  link_busy_ : list Z; quad_busy_ : list Z;
  link_age_counter_ : list Z; quad_age_counter_ : list Z
}.
Record HMCMemorySystem {G : Type} := mkHMCMemorySystem {
  hmc_base : JedecDRAMSystem G;
  hmc : HMC
}.
Arguments HMCMemorySystem G : clear implicits.
Arguments mkHMCMemorySystem {G}.

(** [static_cast<uint64_t>(1000000 / static_cast<double>(n))]: a quotient below one million in magnitude,
    truncated; out of range the conversion is undefined *)
Definition million_over (n : Z) : outcome Z :=
  match ddiv (double_of_Z 1000000) (double_of_Z n) with
  | S754_zero _ => Ret 0
  | S754_finite s m e =>
      let v := if 0 <=? e then Z.pos m * 2 ^ e else Z.pos m / 2 ^ (- e) in
      if s then (if v =? 0 then Ret 0 else Fault Undefined)
      else if v <? 18446744073709551616 then Ret v else Fault Undefined
  | _ => Fault Undefined
  end.
(** the picoseconds of a DRAM cycle and of a logic cycle *)
Definition SetClockRatio (c : Config) : outcome (Z * Z) :=
  let ps_per_dram := 800 in
  link_cycles_per_flit ← iquot 128 c.(link_width);
  logic_speed ← iquot c.(link_speed) link_cycles_per_flit;
  ps_per_logic ← million_over logic_speed;
  Ret (ps_per_dram, if ps_per_dram <? ps_per_logic then ps_per_dram else ps_per_logic).

Section Hmc.
Context {G : Type} `{Rng64 G} (B : Build) (wb_inf : bool) (c : Config).
Implicit Types (d : HMCMemorySystem G) (h : HMC).

Definition HMCMemorySystem_new (s : Statics G) : outcome (HMCMemorySystem G) :=
  if negb (IsHMC c) then AbruptExit
  else
    ps ← SetClockRatio c;
    b ← new_ctrls c s;
    let links := c.(num_links) in
    if links <? 0 then Fault Throw
    else
      let n := Z.to_nat links in
      Ret (mkHMCMemorySystem b {|
        logic_clk_ := 0; ps_per_dram_ := ps.1; ps_per_logic_ := ps.2; logic_ps_ := 0; dram_ps_ := 0;
        next_link_ := 0; links_ := links; queue_depth_ := u64 c.(xbar_queue_depth);
        resp_lookup_table_ := [];
        link_req_queues_ := replicate n []; link_resp_queues_ := replicate n [];
        quad_req_queues_ := replicate 4 []; quad_resp_queues_ := replicate 4 [];
        link_busy_ := replicate n 0; quad_busy_ := replicate 4 0;
        link_age_counter_ := replicate n 0; quad_age_counter_ := replicate 4 0 |}).

(** ** Requests in *)

Definition IterateNextLink h : outcome HMC :=
  n ← irem (i32 (h.(next_link_) + 1)) h.(links_);
  Ret (h <| next_link_ := n |>).

Definition hmc_WillAcceptTransaction d (hex_addr : Z) (is_write : bool) : bool :=
  existsb (λ q, zlen q <? d.(hmc).(queue_depth_)) d.(hmc).(link_req_queues_).

Definition InsertReqToLink d (req : HMCRequest) (link : Z) : outcome (HMCMemorySystem G * bool) :=
  let h := d.(hmc) in
  q ← aget h.(link_req_queues_) link;
  if zlen q <? h.(queue_depth_) then
    let req := req <| rq_link := link |> in
    l ← aset h.(link_req_queues_) link (q ++ [req]);
    resp ← HMCResponse_new req.(mem_operand) req.(rq_type) link req.(rq_quad);
    a ← aset h.(link_age_counter_) link 1;
    Ret (d <| hmc := h <| link_req_queues_ := l |>
                       <| resp_lookup_table_ ::= λ m, m ++ [(resp.(resp_id), resp)] |>
                       <| link_age_counter_ := a |> |>
           <| hmc_base := d.(hmc_base) <| last_req_clk_ := d.(hmc_base).(sys_clk_) |> |>, true)
  else Ret (d, false).

Definition next_link d : outcome (HMCMemorySystem G) :=
  h ← IterateNextLink d.(hmc); Ret (d <| hmc := h |>).
(** [while (start_link != next_link_)] *)
Fixpoint try_links (fuel : nat) d (req : HMCRequest) (start_link : Z) : outcome (HMCMemorySystem G * bool) :=
  match fuel with
  | O => Fault Diverge
  | S fuel =>
      if start_link =? d.(hmc).(next_link_) then Ret (d, false)
      else
        r ← InsertReqToLink d req d.(hmc).(next_link_);
        let (d, ok) := r : HMCMemorySystem G * bool in
        d ← next_link d;
        if ok : bool then Ret (d, true) else try_links fuel d req start_link
  end.
Definition InsertHMCReq d (req : HMCRequest) : outcome (HMCMemorySystem G * bool) :=
  r ← InsertReqToLink d req d.(hmc).(next_link_);
  let (d, is_inserted) := r : HMCMemorySystem G * bool in
  if negb is_inserted then
    let start_link := d.(hmc).(next_link_) in
    d ← next_link d;
    try_links (S (Z.to_nat d.(hmc).(links_))) d req start_link
  else d ← next_link d; Ret (d, true).

Definition block_req_type (is_write : bool) : outcome HMCReqType :=
  let n := c.(block_size) in
  if n =? 0 then Ret (if is_write then WR0 else RD0)
  else if n =? 32 then Ret (if is_write then WR32 else RD32)
  else if n =? 64 then Ret (if is_write then WR64 else RD64)
  else if n =? 128 then Ret (if is_write then WR128 else RD128)
  else if n =? 256 then Ret (if is_write then WR256 else RD256)
  else AbruptExit.
Definition hmc_AddTransaction d (hex_addr : Z) (is_write : bool) : outcome (HMCMemorySystem G * bool) :=
  req_type ← block_req_type is_write;
  vault ← GetChannel c hex_addr;
  req ← HMCRequest_new req_type hex_addr vault;
  InsertHMCReq d req.

(** ** Arbitration *)

(** before the first position that is smaller than the age [v] (the code compares with the
    position where it means the age of that position) *)
Fixpoint insert_age (v pos : Z) (q : list Z) : list Z :=
  match q with
  | [] => [pos]
  | x :: q => if x <? v then pos :: x :: q else x :: insert_age v pos q
  end.
Definition BuildAgeQueue h (age_counter : list Z) : outcome (list Z) :=
  let queue_len := i32 (zlen age_counter) in
  start ← umod h.(logic_clk_) (u64 queue_len);
  let start_pos := i32 start in
  for_ (seqZ 0 queue_len) [] (λ age_queue i,
    pos ← irem (i32 (i + start_pos)) queue_len;
    v ← aget age_counter pos;
    Ret (if 0 <? v then insert_age v pos age_queue else age_queue)).

(** [if (i > 0) i -= 2] for every element *)
Definition drain_busy (l : list Z) : list Z := (λ i, if 0 <? i then i - 2 else i) <$> l.

(** ** Requests to the vaults *)

Definition InsertReqToDRAM (b : JedecDRAMSystem G) (req : HMCRequest) : outcome (JedecDRAMSystem G) :=
  x ← aget b.(ctrls_) req.(vault);
  let (sh, ctl) := Controller.AddTransaction (shared_with b.(statics) x.2) x.1
    (Transaction_new req.(mem_operand) req.(rq_is_write)) in
  l ← aset b.(ctrls_) req.(vault) (ctl, sh.(sh_stats));
  Ret (b <| ctrls_ := l |>).

(** the front of a quadrant's requests goes to its vault *)
Definition drain_quad_req d (i : Z) : outcome (HMCMemorySystem G) :=
  let h := d.(hmc) in
  q ← aget h.(quad_req_queues_) i;
  match q with
  | [] => Ret d
  | req :: rest =>
      r ← aget h.(quad_resp_queues_) i;
      if (zlen r <? h.(queue_depth_)) && (req.(rq_exit_time) <=? h.(logic_clk_)) then
        x ← aget d.(hmc_base).(ctrls_) req.(vault);
        if Controller.WillAcceptTransaction wb_inf c x.1 req.(rq_is_write) then
          b ← InsertReqToDRAM d.(hmc_base) req;
          l ← aset h.(quad_req_queues_) i rest;
          Ret (d <| hmc_base := b |> <| hmc := h <| quad_req_queues_ := l |> |>)
        else Ret d
      else Ret d
  end.
(** the front of a link's requests crosses to its quadrant, or grows older *)
Definition cross_req h (src_link : Z) : outcome HMC :=
  q ← aget h.(link_req_queues_) src_link;
  match q with
  | [] => Fault Undefined
  | req :: rest =>
      let dest_quad := req.(rq_quad) in
      dq ← aget h.(quad_req_queues_) dest_quad;
      busy ← aget h.(quad_busy_) dest_quad;
      if (zlen dq <? h.(queue_depth_)) && (busy <=? 0) then
        l ← aset h.(link_req_queues_) src_link rest;
        let req := req <| rq_exit_time := u64 (h.(logic_clk_) + req.(rq_flits)) |> in
        t ← aset h.(quad_req_queues_) dest_quad (dq ++ [req]);
        b ← aset h.(quad_busy_) dest_quad req.(rq_flits);
        a ← aset h.(link_age_counter_) src_link (if zlen rest =? 0 then 0 else 1);
        Ret (h <| link_req_queues_ := l |> <| quad_req_queues_ := t |> <| quad_busy_ := b |> <| link_age_counter_ := a |>)
      else
        v ← aget h.(link_age_counter_) src_link;
        a ← aset h.(link_age_counter_) src_link (i32 (v + 1));
        Ret (h <| link_age_counter_ := a |>)
  end.
Definition DrainRequests d : outcome (HMCMemorySystem G) :=
  d ← for_ (seqZ 0 4) d drain_quad_req;
  let h := d.(hmc) <| quad_busy_ ::= drain_busy |> in
  age_queue ← BuildAgeQueue h h.(link_age_counter_);
  h ← for_ age_queue h cross_req;
  Ret (d <| hmc := h |>).

(** ** Responses *)

(** [find] of a key that is not there gives [end()], whose element is undefined *)
Definition VaultCallback h (req_id : Z) : outcome HMC :=
  match take_key req_id h.(resp_lookup_table_) with
  | None => Fault Undefined
  | Some (resp, rest) =>
      q ← aget h.(quad_resp_queues_) resp.(rs_quad);
      l ← aset h.(quad_resp_queues_) resp.(rs_quad) (q ++ [resp]);
      a ← aset h.(quad_age_counter_) resp.(rs_quad) 1;
      Ret (h <| resp_lookup_table_ := rest |> <| quad_resp_queues_ := l |> <| quad_age_counter_ := a |>)
  end.
(** the front of a quadrant's responses crosses to its link, or grows older *)
Definition cross_resp h (src_quad : Z) : outcome HMC :=
  q ← aget h.(quad_resp_queues_) src_quad;
  match q with
  | [] => Fault Undefined
  | resp :: rest =>
      let dest_link := resp.(rs_link) in
      dq ← aget h.(link_resp_queues_) dest_link;
      busy ← aget h.(link_busy_) dest_link;
      if (zlen dq <? h.(queue_depth_)) && (busy <=? 0) then
        l ← aset h.(quad_resp_queues_) src_quad rest;
        let resp := resp <| rs_exit_time := u64 (h.(logic_clk_) + resp.(rs_flits)) |> in
        t ← aset h.(link_resp_queues_) dest_link (dq ++ [resp]);
        b ← aset h.(link_busy_) dest_link resp.(rs_flits);
        a ← aset h.(quad_age_counter_) src_quad (if zlen rest =? 0 then 0 else 1);
        Ret (h <| quad_resp_queues_ := l |> <| link_resp_queues_ := t |> <| link_busy_ := b |> <| quad_age_counter_ := a |>)
      else
        v ← aget h.(quad_age_counter_) src_quad;
        a ← aset h.(quad_age_counter_) src_quad (i32 (v + 1));
        Ret (h <| quad_age_counter_ := a |>)
  end.

Section Tick.
Context {W : Type} (read_callback_ write_callback_ : W → Z → outcome W).

(** the front of a link's responses goes to the CPU *)
Definition drain_link_resp (s : HMC * W) (i : Z) : outcome (HMC * W) :=
  let (h, w) := s in
  q ← aget h.(link_resp_queues_) i;
  match q with
  | [] => Ret (h, w)
  | resp :: rest =>
      if resp.(rs_exit_time) <=? h.(logic_clk_) then
        w ← (match resp.(rs_type) with RD_RS => read_callback_ w resp.(resp_id) | _ => write_callback_ w resp.(resp_id) end);
        l ← aset h.(link_resp_queues_) i rest;
        Ret (h <| link_resp_queues_ := l |>, w)
      else Ret (h, w)
  end.
Definition DrainResponses h (w : W) : outcome (HMC * W) :=
  r ← for_ (seqZ 0 h.(links_)) (h, w) drain_link_resp;
  let (h, w) := r : HMC * W in
  let h := h <| link_busy_ ::= drain_busy |> in
  age_queue ← BuildAgeQueue h h.(quad_age_counter_);
  h ← for_ age_queue h cross_resp;
  Ret (h, w).

(** the body of [JedecDRAMSystem::ClockTick], with both callbacks replaced *)
Definition DRAMClockTick d : outcome (HMCMemorySystem G) :=
  r ← DramSystem.ClockTick B wb_inf c VaultCallback VaultCallback d.(hmc_base) d.(hmc);
  Ret (mkHMCMemorySystem r.1 r.2).

Definition logic_step h : HMC :=
  h <| logic_ps_ := u64 (h.(logic_ps_) + h.(ps_per_logic_)) |> <| logic_clk_ := u64 (h.(logic_clk_) + 1) |>.
(** [while (logic_ps_ < dram_ps_ + ps_per_dram_)], and its body *)
Definition logic_cycle d (w : W) : outcome (HMCMemorySystem G * W) :=
  r ← DrainResponses d.(hmc) w;
  d ← DrainRequests (d <| hmc := r.1 |>);
  Ret (d <| hmc ::= logic_step |>, r.2).
Fixpoint catch_up (fuel : nat) d (w : W) : outcome (HMCMemorySystem G * W) :=
  match fuel with
  | O => Fault Diverge
  | S fuel =>
      if d.(hmc).(logic_ps_) <? u64 (d.(hmc).(dram_ps_) + d.(hmc).(ps_per_dram_)) then
        r ← logic_cycle d w; catch_up fuel r.1 r.2
      else Ret (d, w)
  end.
Definition hmc_ClockTick d (w : W) : outcome (HMCMemorySystem G * W) :=
  r ← (if d.(hmc).(dram_ps_) =? d.(hmc).(logic_ps_) then
         r ← DrainResponses d.(hmc) w;
         d ← DRAMClockTick (d <| hmc := r.1 |>);
         d ← DrainRequests d;
         Ret (d <| hmc ::= logic_step |>, r.2)
       else d ← DRAMClockTick d; Ret (d, w));
  let (d, w) := r : HMCMemorySystem G * W in
  r ← catch_up (S (Z.to_nat d.(hmc).(ps_per_dram_))) d w;
  let (d, w) := r : HMCMemorySystem G * W in
  Ret (d <| hmc ::= λ h, h <| dram_ps_ := u64 (h.(dram_ps_) + h.(ps_per_dram_)) |> |>, w).
End Tick.
End Hmc.
