(* ===== verification/HmcSpec.v ===== *)
(** * Properties of the hybrid memory cube ([Hmc])

    The invariant of the links, quadrants and the table of responses: every request that is queued or in a
    vault has its response in the table, so no lookup misses, and the responses of reads are the reads the
    cube owes. The arbitration serves each waiting queue once; the two clocks of the cube stay together. *)
From S2P Require Import Prelude MemSysDramsim3 Common Config Timing Stats BankState BankSpec ChannelState ChannelSpec ChannelRun.
From S2P Require Import QueueSpec Controller ControllerSpec DramSystem DramSystemSpec Hmc.
Open Scope Z_scope.

(** ** Vectors of queues *)

(** one queue is replaced *)
Lemma aset_concat {A} (qs : list (list A)) i l l' : aget qs i = Ret l →
  ∃ qs' p s, aset qs i l' = Ret qs' ∧ zlen qs' = zlen qs ∧ concat qs = p ++ l ++ s ∧ concat qs' = p ++ l' ++ s ∧
    ∀ j, aget qs' j = if j =? i then Ret l' else aget qs j.
Proof.
  intros Hl. pose proof (aget_bound _ _ _ Hl) as Hb. pose proof (aset_ok qs i l' Hb) as Es.
  apply aget_Ret in Hl as [_ Hl]. destruct (concat_insert qs _ l l' Hl) as (p & s & E1 & E2).
  exists (<[Z.to_nat i := l']> qs), p, s. split; [exact Es|]. split; [by eapply aset_length|]. split; [done|]. split; [done|].
  intros j. by apply aget_aset.
Qed.

(** a source with a positive age has something in its queue *)
Definition ages_ok {A} (ages : list Z) (qs : list (list A)) : Prop :=
  zlen ages = zlen qs ∧ ∀ i v, aget ages i = Ret v → 0 < v → ∃ x l, aget qs i = Ret (x :: l).
Lemma ages_set {A} (ages ages' : list Z) (qs qs' : list (list A)) i v l : ages_ok ages qs →
  aset ages i v = Ret ages' → zlen qs' = zlen qs → (∀ j, aget qs' j = if j =? i then Ret l else aget qs j) →
  (0 < v → l ≠ []) → ages_ok ages' qs'.
Proof.
  intros [Hz Ha] Es Hz' Hq Hv. split; [by rewrite (aset_length _ _ _ _ Es), Hz'|]. intros j w Hw Hpos.
  rewrite (aget_aset ages i j v ages' Es) in Hw. rewrite Hq. destruct (Z.eqb_spec j i) as [->|].
  - injection Hw as <-. destruct l as [|x l]; [by destruct (Hv Hpos)|]. by exists x, l.
  - by apply (Ha j w).
Qed.
(** the age of a waiting source grows *)
Lemma ages_grow {A} (ages ages' : list Z) (qs : list (list A)) i v x l : ages_ok ages qs →
  aset ages i v = Ret ages' → aget qs i = Ret (x :: l) → ages_ok ages' qs.
Proof.
  intros [Hz Ha] Es Hi. split; [by rewrite (aset_length _ _ _ _ Es)|]. intros j w Hw Hpos.
  rewrite (aget_aset ages i j v ages' Es) in Hw. destruct (Z.eqb_spec j i) as [->|]; [by exists x, l|]. by apply (Ha j w).
Qed.

(** ** Arbitration *)
Lemma insert_age_perm v pos q : insert_age v pos q ≡ₚ pos :: q.
Proof.
  induction q as [|x q IH]; cbn [insert_age]; [done|]. destruct (x <? v); [done|]. rewrite IH. apply Permutation_swap.
Qed.
Definition waits (ages : list Z) (i : Z) : Prop := ∃ v, aget ages i = Ret v ∧ 0 < v.
(** the queues that wait, each once *)
Lemma BuildAgeQueue_spec h ages : 0 < zlen ages < 1073741824 →
  returns (BuildAgeQueue h ages) (λ q, NoDup q ∧ ∀ i, i ∈ q ↔ waits ages i).
Proof.
  intros Hn. unfold BuildAgeQueue. set (n := zlen ages) in *. rewrite i32_id by (unfold is_i32; lia).
  rewrite u64_id by (unfold is_u64; lia). rewrite umod_ok by lia. cbn [mbind outcome_bind].
  set (s := h.(logic_clk_) mod n). assert (0 <= s < n) as Hs by (apply Z.mod_pos_bound; lia).
  rewrite (i32_id s) by (unfold is_i32; lia).
  set (at_ := λ j, (j + s) mod n).
  set (I := λ i q, NoDup q ∧ ∀ p, p ∈ q ↔ waits ages p ∧ ∃ j, 0 <= j < i ∧ p = at_ j).
  assert (∀ j j', 0 <= j < n → 0 <= j' < n → at_ j = at_ j' → j = j') as Hinj.
  { intros j j' Hj Hj' E. unfold at_ in E. pose proof (Z.div_mod (j + s) n ltac:(lia)) as D.
    pose proof (Z.div_mod (j' + s) n ltac:(lia)) as D'. rewrite E in D.
    destruct (Z.lt_total ((j + s) / n) ((j' + s) / n)) as [Hlt|[Heq|Hlt]]; [|rewrite Heq in D; lia|];
      apply Z.le_succ_l, (Z.mul_le_mono_nonneg_l _ _ n) in Hlt; rewrite ?Z.mul_succ_r in Hlt; lia. }
  eapply returns_mono; [apply (for_seqZ I 0 n); [lia| |]|].
  - split; [constructor|]. intros p. split; [by intros ?%elem_of_nil|]. intros (_ & j & ? & _). lia.
  - intros q i Hi [Hnd Hq]. rewrite (i32_id (i + s)) by (unfold is_i32; lia). rewrite irem_ok by lia.
    cbn [mbind outcome_bind]. rewrite Z.rem_mod_nonneg by lia. fold (at_ i).
    assert (0 <= at_ i < n) as Hat by (apply Z.mod_pos_bound; lia).
    destruct (aget_ok ages (at_ i) Hat) as [v Ev]. rewrite Ev. cbn [mbind outcome_bind]. apply returns_ret.
    assert (∀ p, (∃ j, 0 <= j < i + 1 ∧ p = at_ j) ↔ p = at_ i ∨ ∃ j, 0 <= j < i ∧ p = at_ j) as Hstep.
    { intros p. split.
      - intros (j & Hj & ->). destruct (decide (j = i)) as [->|]; [by left|]. right. exists j. split; [lia|done].
      - intros [->|(j & Hj & ->)]; [exists i|exists j]; (split; [lia|done]). }
    destruct (Z.ltb_spec 0 v) as [Hv|Hv].
    + split.
      * rewrite insert_age_perm. apply NoDup_cons. split; [|done]. rewrite Hq. intros (_ & j & Hj & E).
        apply Hinj in E; lia.
      * intros p. rewrite insert_age_perm, elem_of_cons, Hq, Hstep. split; [|naive_solver].
        intros [->|[? ?]]; [|by auto]. split; [by exists v|by left].
    + split; [done|]. intros p. rewrite Hq, Hstep. split; [naive_solver|]. intros [Hw [->|?]]; [|done].
      destruct Hw as (w & Ew & Hw). rewrite Ev in Ew. injection Ew as <-. lia.
  - intros q [Hnd Hq]. split; [done|]. intros p. rewrite Hq. split; [by intros [? _]|]. intros Hw. split; [done|].
    destruct Hw as (v & Ev & _). apply aget_bound in Ev. fold n in Ev. exists ((p - s) mod n).
    split; [apply Z.mod_pos_bound; lia|]. unfold at_. rewrite Zplus_mod_idemp_l, Z.sub_add, Z.mod_small; lia.
Qed.

(** ** The invariant *)

(** the addresses of the requests that are not in a vault yet; the responses that are owed *)
Definition queued (h : HMC) : list Z := mem_operand <$> (concat h.(link_req_queues_) ++ concat h.(quad_req_queues_)).
Definition resps (h : HMC) : list HMCResponse :=
  h.(resp_lookup_table_).*2 ++ concat h.(quad_resp_queues_) ++ concat h.(link_resp_queues_).
Definition is_rd (t : HMCRespType) : bool := match t with RD_RS => true | _ => false end.
Definition rd_id (r : HMCResponse) : option Z := if is_rd r.(rs_type) then Some r.(resp_id) else None.
Definition owed (h : HMC) : list Z := omap rd_id (resps h).
(** what the drains leave alone *)
Definition fixed (h : HMC) : Z * Z * Z * Z * Z * Z * Z * Z :=
  (h.(logic_clk_), h.(ps_per_dram_), h.(ps_per_logic_), h.(logic_ps_), h.(dram_ps_), h.(next_link_), h.(links_), h.(queue_depth_)).

Section Xbar.
Context (vaults : Z).
Implicit Types (h : HMC).

Definition req_ok (r : HMCRequest) : Prop :=
  0 <= r.(rq_quad) < 4 ∧ 0 <= r.(vault) < vaults ∧ is_u64 r.(mem_operand).
Definition resp_ok (n : Z) (r : HMCResponse) : Prop := 0 <= r.(rs_quad) < 4 ∧ 0 <= r.(rs_link) < n.
Record xbar_ok h : Prop := {
  xb_links : 0 < h.(links_) < 1073741824;
  xb_next : 0 <= h.(next_link_) < h.(links_);
  xb_link_req : ages_ok h.(link_age_counter_) h.(link_req_queues_) ∧ zlen h.(link_req_queues_) = h.(links_);
  xb_quad_resp : ages_ok h.(quad_age_counter_) h.(quad_resp_queues_) ∧ zlen h.(quad_resp_queues_) = 4;
  xb_quad_req : zlen h.(quad_req_queues_) = 4 ∧ zlen h.(quad_busy_) = 4;
  xb_link_resp : zlen h.(link_resp_queues_) = h.(links_) ∧ zlen h.(link_busy_) = h.(links_);
  xb_reqs : Forall req_ok (concat h.(link_req_queues_) ++ concat h.(quad_req_queues_));
  xb_resps : Forall (resp_ok h.(links_)) (resps h);
  xb_ids : Forall (λ e, e.2.(resp_id) = e.1) h.(resp_lookup_table_)
}.
(** [ts] are the addresses of the requests in the vaults: with the queued ones, those of the table *)
Definition flow (ts : list Z) h : Prop := xbar_ok h ∧ queued h ++ ts ≡ₚ h.(resp_lookup_table_).*1.
(** the request in front of a link crosses, or waits; the other links do not change *)
Lemma cross_req_spec ts h i x l : flow ts h → aget h.(link_req_queues_) i = Ret (x :: l) →
  returns (cross_req h i) (λ h', flow ts h' ∧ owed h' ≡ₚ owed h ∧ fixed h' = fixed h ∧
    ∀ j, j ≠ i → aget h'.(link_req_queues_) j = aget h.(link_req_queues_) j).
Proof.
  intros [[H1 H2 [H3 H3'] H4 [H5 H5'] H6 H7 H8 H9] Hbal] Hi. pose proof (aget_bound _ _ _ Hi) as Hb.
  unfold cross_req. rewrite Hi. cbn [mbind outcome_bind].
  destruct (aset_concat _ _ _ l Hi) as (L & p & s & EL & ZL & C1 & C2 & HL).
  assert (req_ok x) as (Hq & Hv & Ha).
  { rewrite C1, <- app_assoc in H7. apply Forall_app in H7 as [_ H7]. by apply Forall_app in H7 as [H7%Forall_inv _]. }
  destruct (aget_ok h.(quad_req_queues_) x.(rq_quad)) as [dq Edq]; [lia|]. rewrite Edq. cbn [mbind outcome_bind].
  destruct (aget_ok h.(quad_busy_) x.(rq_quad)) as [b Eb]; [lia|]. rewrite Eb. cbn [mbind outcome_bind].
  assert (0 <= i < zlen h.(link_age_counter_)) as Hai by (destruct H3 as [-> _]; lia).
  destruct (_ && _).
  - rewrite EL. cbn [mbind outcome_bind]. set (y := x <| rq_exit_time := _ |>).
    destruct (aset_concat _ _ _ (dq ++ [y]) Edq) as (Q & p' & s' & EQ & ZQ & D1 & D2 & HQ). rewrite EQ. cbn [mbind outcome_bind].
    pose proof (aset_ok h.(quad_busy_) x.(rq_quad) y.(rq_flits) ltac:(lia)) as Ebu. rewrite Ebu. cbn [mbind outcome_bind].
    pose proof (aset_ok _ i (if zlen l =? 0 then 0 else 1) Hai) as Eag. rewrite Eag. cbn [mbind outcome_bind].
    apply returns_ret. split; [|split; [done|split; [done|]]].
    2: { intros j Hj. rsimp. rewrite HL. by destruct (Z.eqb_spec j i). }
    split.
    + split; rsimp; try done.
      * split; [|by rewrite ZL]. eapply ages_set; try done. intros Hpos ->. by cbn in Hpos.
      * split; [by rewrite ZQ|]. by rewrite (aset_length _ _ _ _ Ebu).
      * rewrite C1, D1 in H7. rewrite C2, D2. rewrite !Forall_app in *. rewrite Forall_cons in H7.
        destruct_and!. split_and!; try done. apply Forall_cons; by split.
    + rsimp. rewrite <- Hbal. unfold queued. rsimp. rewrite C1, C2, D1, D2, !fmap_app. cbn [fmap list_fmap].
      change (mem_operand y) with (mem_operand x). solve_Permutation.
  - destruct (aget_ok _ i Hai) as [v ->]. cbn [mbind outcome_bind].
    pose proof (aset_ok _ i (i32 (v + 1)) Hai) as Eag. rewrite Eag. cbn [mbind outcome_bind]. apply returns_ret.
    split; [|done]. split; [|done]. split; rsimp; try done. split; [|done]. by eapply ages_grow.
Qed.
(** the response in front of a quadrant crosses, or waits *)
Lemma cross_resp_spec ts h i x l : flow ts h → aget h.(quad_resp_queues_) i = Ret (x :: l) →
  returns (cross_resp h i) (λ h', flow ts h' ∧ owed h' ≡ₚ owed h ∧ fixed h' = fixed h ∧
    ∀ j, j ≠ i → aget h'.(quad_resp_queues_) j = aget h.(quad_resp_queues_) j).
Proof.
  intros [[H1 H2 H3 [H4 H4'] H5 [H6 H6'] H7 H8 H9] Hbal] Hi. pose proof (aget_bound _ _ _ Hi) as Hb.
  unfold cross_resp. rewrite Hi. cbn [mbind outcome_bind].
  destruct (aset_concat _ _ _ l Hi) as (Q & p & s & EQ & ZQ & C1 & C2 & HQ).
  assert (resp_ok h.(links_) x) as (Hq & Hl).
  { unfold resps in H8. rewrite C1, !Forall_app in H8. by destruct H8 as (_ & (_ & H8%Forall_inv & _) & _). }
  destruct (aget_ok h.(link_resp_queues_) x.(rs_link)) as [dq Edq]; [lia|]. rewrite Edq. cbn [mbind outcome_bind].
  destruct (aget_ok h.(link_busy_) x.(rs_link)) as [b Eb]; [lia|]. rewrite Eb. cbn [mbind outcome_bind].
  assert (0 <= i < zlen h.(quad_age_counter_)) as Hai by (destruct H4 as [-> _]; lia).
  destruct (_ && _).
  - rewrite EQ. cbn [mbind outcome_bind]. set (y := x <| rs_exit_time := _ |>).
    destruct (aset_concat _ _ _ (dq ++ [y]) Edq) as (L & p' & s' & EL & ZL & D1 & D2 & HL). rewrite EL. cbn [mbind outcome_bind].
    pose proof (aset_ok h.(link_busy_) x.(rs_link) y.(rs_flits) ltac:(lia)) as Ebu. rewrite Ebu. cbn [mbind outcome_bind].
    pose proof (aset_ok _ i (if zlen l =? 0 then 0 else 1) Hai) as Eag. rewrite Eag. cbn [mbind outcome_bind].
    apply returns_ret. split; [|split; [|split; [done|]]].
    3: { intros j Hj. rsimp. rewrite HQ. by destruct (Z.eqb_spec j i). }
    + split; [|exact Hbal]. split; rsimp; try done.
      * split; [|by rewrite ZQ]. eapply ages_set; try done. intros Hpos ->. by cbn in Hpos.
      * split; [by rewrite ZL|]. by rewrite (aset_length _ _ _ _ Ebu).
      * unfold resps in *. rsimp. rewrite C1, D1 in H8. rewrite C2, D2. rewrite !Forall_app in *. rewrite Forall_cons in H8.
        destruct_and!. split_and!; try done. apply Forall_cons; by split.
    + unfold owed, resps. rsimp. rewrite C1, C2, D1, D2, !omap_app. cbn [omap list_omap].
      change (rd_id y) with (rd_id x). destruct (rd_id x); solve_Permutation.
  - destruct (aget_ok _ i Hai) as [v ->]. cbn [mbind outcome_bind].
    pose proof (aset_ok _ i (i32 (v + 1)) Hai) as Eag. rewrite Eag. cbn [mbind outcome_bind]. apply returns_ret.
    split; [|done]. split; [|exact Hbal]. split; rsimp; try done. split; [|done]. by eapply ages_grow.
Qed.
(** a vault is done with a request: its response is there, and leaves the table *)
Lemma VaultCallback_spec a ts h : flow (a :: ts) h →
  returns (VaultCallback h a) (λ h', flow ts h' ∧ owed h' ≡ₚ owed h ∧ fixed h' = fixed h).
Proof.
  intros [[H1 H2 H3 [H4 H4'] H5 H6 H7 H8 H9] Hbal]. unfold VaultCallback.
  assert (a ∈ h.(resp_lookup_table_).*1) as Hin by (rewrite <- Hbal; set_solver).
  destruct (take_key_spec a _ Hin) as (x & rest & -> & Hp & _).
  assert (resp_ok h.(links_) x ∧ x.(resp_id) = a ∧ Forall (λ e, e.2.(resp_id) = e.1) rest) as ((Hq & Hl) & Hid & Hrest).
  { unfold resps in H8. rewrite Hp in H8, H9. apply Forall_cons in H9 as [? ?].
    cbn [fmap list_fmap snd app] in H8. by apply Forall_inv in H8. }
  destruct (aget_ok h.(quad_resp_queues_) x.(rs_quad)) as [q Eq]; [lia|]. rewrite Eq. cbn [mbind outcome_bind].
  destruct (aset_concat _ _ _ (q ++ [x]) Eq) as (Q & p & s & EQ & ZQ & C1 & C2 & HQ). rewrite EQ. cbn [mbind outcome_bind].
  pose proof (aset_ok h.(quad_age_counter_) x.(rs_quad) 1 ltac:(destruct H4 as [-> _]; lia)) as Eag. rewrite Eag.
  cbn [mbind outcome_bind]. apply returns_ret.
  assert (resp_lookup_table_ h ≡ₚ (a, x) :: rest) as Hp' by done.
  split; [|split; [|done]].
  - split.
    + split; rsimp; try done.
      * split; [|by rewrite ZQ]. eapply ages_set; try done. intros _. by destruct q.
      * unfold resps in *. rsimp. rewrite Hp, C1 in H8. rewrite C2. cbn [fmap list_fmap snd app] in H8.
        rewrite Forall_cons, !Forall_app in H8. rewrite !Forall_app. destruct_and!. split_and!; try done.
        apply Forall_cons; by split.
    + change (queued h ++ ts ≡ₚ rest.*1). rewrite Hp in Hbal. cbn [fmap list_fmap fst] in Hbal.
      rewrite <- Permutation_middle in Hbal. by apply Permutation_cons_inv in Hbal.
  - unfold owed, resps. rsimp. rewrite C2, C1.
    assert (omap rd_id (resp_lookup_table_ h).*2 ≡ₚ omap rd_id (x :: rest.*2)) as E
      by (apply omap_Permutation; by rewrite Hp).
    rewrite !omap_app, E. cbn [omap list_omap]. destruct (rd_id x); solve_Permutation.
Qed.

(** serving each waiting source *)
Lemma cross_all {A} (qs : HMC → list (list A)) (step : HMC → Z → outcome HMC) ts q h :
  (∀ h i x l, flow ts h → aget (qs h) i = Ret (x :: l) → returns (step h i) (λ h', flow ts h' ∧ owed h' ≡ₚ owed h ∧
     fixed h' = fixed h ∧ ∀ j, j ≠ i → aget (qs h') j = aget (qs h) j)) →
  NoDup q → (∀ i, i ∈ q → ∃ x l, aget (qs h) i = Ret (x :: l)) → flow ts h →
  returns (for_ q h step) (λ h', flow ts h' ∧ owed h' ≡ₚ owed h ∧ fixed h' = fixed h).
Proof.
  intros Hstep Hnd. revert h. induction Hnd as [|i q Hi Hnd IH]; intros h Hq Hf; cbn [for_]; [by apply returns_ret|].
  destruct (Hq i ltac:(left)) as (x & l & Ei).
  eapply returns_bind; [by apply (Hstep h i x l)|]. intros h1 (Hf1 & Ho1 & Hx1 & Hj).
  eapply returns_mono; [apply (IH h1); [|done]|].
  - intros j Hjq. rewrite Hj by (intros ->; done). apply Hq. by right.
  - intros h2 (Hf2 & Ho2 & Hx2). split; [done|]. split; [by rewrite Ho2|congruence].
Qed.
Lemma ages_wait {A} ages (qs : list (list A)) i : ages_ok ages qs → waits ages i → ∃ x l, aget qs i = Ret (x :: l).
Proof. intros [_ Ha] (v & Ev & Hv). by apply (Ha i v). Qed.
(** the busy counters are touched only here *)
Lemma busy_quads ts h : flow ts h → flow ts (h <| quad_busy_ ::= drain_busy |>).
Proof.
  intros [[H1 H2 H3 H4 [H5 H5'] H6 H7 H8 H9] Hbal]. split; [|exact Hbal]. split; rsimp; try done.
  split; [done|]. unfold drain_busy, zlen. by rewrite length_fmap.
Qed.
Lemma busy_links ts h : flow ts h → flow ts (h <| link_busy_ ::= drain_busy |>).
Proof.
  intros [[H1 H2 H3 H4 H5 [H6 H6'] H7 H8 H9] Hbal]. split; [|exact Hbal]. split; rsimp; try done.
  split; [done|]. unfold drain_busy, zlen. by rewrite length_fmap.
Qed.

(** *** Responses to the CPU *)
Section Callbacks.
Context {W : Type} (rd wr : W → Z → outcome W) (pend : W → list Z → Prop)
  (Hperm : ∀ w (l l' : list Z), l ≡ₚ l' → pend w l → pend w l')
  (Hrd : ∀ w a (l : list Z), pend w (a :: l) → returns (rd w a) (λ w', pend w' l))
  (Hwr : ∀ w a (l : list Z), pend w l → returns (wr w a) (λ w', pend w' l)).
(** [K] is what stays, as [fixed] tells *)
Definition serving ts K (s : HMC * W) : Prop := flow ts s.1 ∧ pend s.2 (owed s.1) ∧ fixed s.1 = K.

Lemma drain_link_resp_spec ts K s i : serving ts K s → 0 <= i < s.1.(links_) →
  returns (drain_link_resp rd wr s i) (serving ts K).
Proof.
  destruct s as [h w]. intros ([[H1 H2 H3 H4 H5 [H6 H6'] H7 H8 H9] Hbal] & Hp & HK) Hi. cbn [fst snd] in *.
  unfold drain_link_resp. destruct (aget_ok h.(link_resp_queues_) i) as [q Eq]; [lia|]. rewrite Eq. cbn [mbind outcome_bind].
  assert (flow ts h) as Hf by (split; [by split|done]).
  destruct q as [|x rest]; [by apply returns_ret|]. destruct (_ <=? _); [|by apply returns_ret].
  destruct (aset_concat _ _ _ rest Eq) as (L & p & s & EL & ZL & C1 & C2 & HL).
  assert (owed h ≡ₚ (if is_rd x.(rs_type) then [x.(resp_id)] else []) ++ owed (h <| link_resp_queues_ := L |>)) as Ho.
  { unfold owed, resps. rsimp. rewrite C1, C2, !omap_app. cbn [omap list_omap]. unfold rd_id at 4.
    destruct (is_rd _); [solve_Permutation|done]. }
  eapply (returns_bind _ _ (λ w', pend w' (owed (h <| link_resp_queues_ := L |>)))).
  - apply (Hperm _ _ _ Ho) in Hp. destruct (rs_type x); cbn [is_rd app] in Hp; auto.
  - intros w' Hp'. rewrite EL. cbn [mbind outcome_bind]. apply returns_ret. split; [|by split]. cbn [fst].
    split; [|exact Hbal]. split; rsimp; try done; [by rewrite ZL|].
    unfold resps in *. rsimp. rewrite C1 in H8. rewrite C2. rewrite !Forall_app in *. rewrite Forall_cons in H8.
    destruct_and!. by split_and!.
Qed.
Lemma DrainResponses_spec ts h w : flow ts h → pend w (owed h) →
  returns (DrainResponses rd wr h w) (serving ts (fixed h)).
Proof.
  intros Hf Hp. unfold DrainResponses.
  eapply returns_bind; [apply (for_inv (serving ts (fixed h))); [done|]|].
  { intros s i Hi%elem_of_seqZ Hs. apply drain_link_resp_spec; [done|]. destruct Hs as (_ & _ & E).
    unfold fixed in E. assert (links_ s.1 = links_ h) as -> by congruence. lia. }
  intros [h1 w1] (Hf1 & Hp1 & HK1). cbn [fst snd] in *. apply busy_links in Hf1.
  set (h2 := h1 <| link_busy_ ::= drain_busy |>) in *. assert (fixed h2 = fixed h1 ∧ owed h2 = owed h1) as [EK2 EO2] by done.
  clearbody h2. pose proof Hf1 as [[_ _ _ [Ha Hz] _ _ _ _ _] _].
  eapply returns_bind; [apply BuildAgeQueue_spec; destruct Ha as [-> _]; lia|]. intros q [Hnd Hq].
  eapply returns_bind; [apply (cross_all quad_resp_queues_ cross_resp ts q h2); try done|].
  - intros; by eapply cross_resp_spec.
  - intros i Hi%Hq. by eapply ages_wait.
  - intros h3 (Hf3 & Ho3 & HK3). apply returns_ret. split; [done|]. cbn [fst snd]. split; [|congruence].
    eapply Hperm; [|exact Hp1]. by rewrite Ho3, EO2.
Qed.
End Callbacks.
End Xbar.

(** ** The whole cube *)
Section Cube.
Context {G : Type} `{Rng64 G} (B : Build) (wb_inf : bool) (c : Config).
Implicit Types (d : HMCMemorySystem G) (b : JedecDRAMSystem G).

Definition valid_block (n : Z) : Prop := n = 0 ∨ n = 32 ∨ n = 64 ∨ n = 128 ∨ n = 256.
Record hmc_config : Prop := {
  hc_system : system_config B c;
  hc_hmc : IsHMC c = true;
  hc_links : 0 < c.(num_links) < 1073741824;
  hc_block : valid_block c.(block_size);
  hc_clock : returns (SetClockRatio c) (λ ps, ps.1 = 800 ∧ 0 < ps.2 <= 800)
}.
Context (Hhc : hmc_config).
Notation flow := (flow c.(channels)).

(** the vaults hold [held], the rest of the table waits in the queues *)
Definition whole d : Prop := jedec_ok B c d.(hmc_base) ∧ flow (held d.(hmc_base).(ctrls_)).*1 d.(hmc).

Lemma flow_perm ts ts' h : ts ≡ₚ ts' → flow ts h → flow ts' h.
Proof. intros E [Hx Hb]. split; [done|]. by rewrite <- E. Qed.
(** a request goes to its vault *)
Lemma drain_quad_req_spec d i : whole d → 0 <= i < 4 →
  returns (drain_quad_req wb_inf c d i) (λ d', whole d' ∧ owed d'.(hmc) = owed d.(hmc) ∧ fixed d'.(hmc) = fixed d.(hmc)).
Proof.
  intros [Hb [[H1 H2 H3 [H4 H4'] [H5 H5'] H6 H7 H8 H9] Hbal]] Hi. unfold drain_quad_req.
  assert (whole d) as Hd by (split; [done|]; split; [by split|done]).
  destruct (aget_ok d.(hmc).(quad_req_queues_) i) as [q Eq]; [lia|]. rewrite Eq. cbn [mbind outcome_bind].
  destruct q as [|x rest]; [by apply returns_ret|].
  destruct (aget_ok d.(hmc).(quad_resp_queues_) i) as [r ->]; [lia|]. cbn [mbind outcome_bind].
  destruct (_ && _); [|by apply returns_ret].
  destruct (aset_concat _ _ _ rest Eq) as (Q & p & s & EQ & ZQ & C1 & C2 & HQ).
  assert (req_ok c.(channels) x) as (_ & Hv & Ha).
  { rewrite C1, !Forall_app in H7. by destruct H7 as (_ & _ & H7%Forall_inv & _). }
  destruct (aget_ok d.(hmc_base).(ctrls_) x.(vault)) as [y Ey]; [destruct Hb as (_ & -> & _); lia|].
  rewrite Ey. cbn [mbind outcome_bind].
  destruct (Controller.WillAcceptTransaction _ _ _ _); [|by apply returns_ret]. unfold InsertReqToDRAM. rewrite Ey. cbn [mbind outcome_bind].
  destruct (add_ctrl_ok B c d.(hmc_base) _ y x.(mem_operand) x.(rq_is_write) Hb Ha Ey) as (l & El & Hok & _ & Hl).
  destruct (Controller.AddTransaction _ _ _) as [sh ctl]. cbn [fst snd] in *. rewrite El. cbn [mbind outcome_bind].
  rewrite EQ. cbn [mbind outcome_bind]. apply returns_ret. split; [|done]. split; [exact Hok|].
  split.
  - split; rsimp; try done; [by rewrite ZQ|]. rewrite C1 in H7. rewrite C2. rewrite !Forall_app in *. rewrite Forall_cons in H7.
    destruct_and!. by split_and!.
  - rsimp. rewrite <- Hbal. unfold queued. rsimp. rewrite Hl, C1, C2, !fmap_app. cbn [fmap list_fmap fst]. solve_Permutation.
Qed.
Lemma DrainRequests_spec d : whole d →
  returns (DrainRequests wb_inf c d) (λ d', whole d' ∧ owed d'.(hmc) ≡ₚ owed d.(hmc) ∧ fixed d'.(hmc) = fixed d.(hmc)).
Proof.
  intros Hd. unfold DrainRequests.
  eapply returns_bind; [apply (for_inv (λ d', whole d' ∧ owed d'.(hmc) = owed d.(hmc) ∧ fixed d'.(hmc) = fixed d.(hmc))); [done|]|].
  { intros d1 i Hi%elem_of_seqZ (Hd1 & Ho1 & HK1). eapply returns_mono; [apply drain_quad_req_spec; [done|lia]|].
    intros d2 (? & ? & ?). split; [done|]. split; congruence. }
  intros d1 ([Hb1 Hf1] & Ho1 & HK1). apply busy_quads in Hf1.
  set (h2 := d1.(hmc) <| quad_busy_ ::= drain_busy |>) in *. assert (fixed h2 = fixed d1.(hmc) ∧ owed h2 = owed d1.(hmc)) as [EK2 EO2] by done.
  clearbody h2. pose proof Hf1 as [[Hn _ [Ha Hz] _ _ _ _ _ _] _].
  eapply returns_bind; [apply BuildAgeQueue_spec; destruct Ha as [-> _]; lia|]. intros q [Hnd Hq].
  eapply returns_bind; [apply (cross_all c.(channels) link_req_queues_ cross_req (held d1.(hmc_base).(ctrls_)).*1 q h2); try done|].
  - intros; by eapply cross_req_spec.
  - intros i Hi%Hq. by eapply ages_wait.
  - intros h3 (Hf3 & Ho3 & HK3). apply returns_ret. split; [by split|]. cbn [hmc].
    change (owed h3 ≡ₚ owed d.(hmc) ∧ fixed h3 = fixed d.(hmc)). split; [by rewrite Ho3, EO2, Ho1|congruence].
Qed.

(** ** Requests in *)
Definition clocks (h : HMC) : Z * Z * Z * Z * Z :=
  (h.(logic_clk_), h.(ps_per_dram_), h.(ps_per_logic_), h.(logic_ps_), h.(dram_ps_)).
Definition room (h : HMC) (i : Z) : Prop := ∃ q, aget h.(link_req_queues_) i = Ret q ∧ zlen q < h.(queue_depth_).
(** [d'] is [d] with the request of the address [a], which owes a read when [t] does *)
Definition inserted (t : HMCRespType) (a : Z) d d' : Prop :=
  whole d' ∧ owed d'.(hmc) ≡ₚ (if is_rd t then [a] else []) ++ owed d.(hmc) ∧ clocks d'.(hmc) = clocks d.(hmc) ∧
  (jedec_ready d.(hmc_base) → jedec_ready d'.(hmc_base)).

Lemma InsertReqToLink_spec d req i k : whole d → req_ok c.(channels) req → resp_kind req.(rq_type) = Ret k →
  0 <= i < d.(hmc).(links_) →
  returns (InsertReqToLink d req i) (λ r, (r.2 = true ∧ inserted k.1 req.(mem_operand) d r.1) ∨
    (r.2 = false ∧ r.1 = d ∧ ¬ room d.(hmc) i)).
Proof.
  intros [Hb [[H1 H2 [H3 H3'] H4 H5 H6 H7 H8 H9] Hbal]] Hreq Hk Hi. unfold InsertReqToLink.
  destruct (aget_ok d.(hmc).(link_req_queues_) i) as [q Eq]; [lia|]. rewrite Eq. cbn [mbind outcome_bind].
  destruct (Z.ltb_spec (zlen q) d.(hmc).(queue_depth_)) as [Hroom|Hfull].
  2: { apply returns_ret. right. split; [done|]. split; [done|]. intros (q' & Eq' & Hlt). ret_eq. lia. }
  set (y := req <| rq_link := i |>).
  destruct (aset_concat _ _ _ (q ++ [y]) Eq) as (L & p & s & EL & ZL & C1 & C2 & HL). rewrite EL. cbn [mbind outcome_bind].
  unfold HMCResponse_new. change (rq_type y) with (rq_type req). rewrite Hk. cbn [mbind outcome_bind].
  change (mem_operand y) with (mem_operand req). change (rq_quad y) with (rq_quad req).
  set (x := {| resp_id := _ |}).
  pose proof (aset_ok d.(hmc).(link_age_counter_) i 1 ltac:(destruct H3 as [-> _]; lia)) as Eag. rewrite Eag.
  cbn [mbind outcome_bind]. apply returns_ret. left. split; [done|]. cbn [fst]. split; [|split; [|by split]].
  - split; [exact Hb|]. split.
    + split; rsimp; try done.
      * split; [|by rewrite ZL]. eapply ages_set; try done. intros _. by destruct q.
      * rewrite C1 in H7. rewrite C2. rewrite !Forall_app in *.
        destruct_and!. split_and!; try done. apply Forall_cons; by split.
      * unfold resps in *. rsimp. rewrite fmap_app, !Forall_app in *. destruct_and!. split_and!; try done.
        apply Forall_cons. split; [|done]. split; [apply Hreq|done].
      * apply Forall_app. split; [done|]. by apply Forall_cons.
    + rsimp. rewrite fmap_app, <- Hbal. unfold queued. rsimp. rewrite C1, C2, !fmap_app. cbn [fmap list_fmap fst].
      change (mem_operand y) with (mem_operand req). change (resp_id x) with (mem_operand req). solve_Permutation.
  - unfold owed, resps. rsimp. rewrite fmap_app, !omap_app. cbn [fmap list_fmap snd omap list_omap].
    unfold rd_id at 2. change (rs_type x) with k.1. change (resp_id x) with (mem_operand req).
    destruct (is_rd k.1); solve_Permutation.
Qed.
Lemma next_link_spec d : whole d →
  let d' := d <| hmc ::= λ h, h <| next_link_ := (h.(next_link_) + 1) mod h.(links_) |> |> in
  next_link d = Ret d' ∧ whole d'.
Proof.
  intros [Hb [[H1 H2 H3 H4 H5 H6 H7 H8 H9] Hbal]]. unfold next_link, IterateNextLink.
  rewrite i32_id by (unfold is_i32; lia). rewrite irem_ok by lia. cbn [mbind outcome_bind].
  rewrite Z.rem_mod_nonneg by lia. split; [by destruct d|]. split; [exact Hb|]. split; [|exact Hbal].
  split; rsimp; try done. apply Z.mod_pos_bound. lia.
Qed.
(** the other links, in turn *)
Lemma try_links_spec fuel d req k s n : whole d → req_ok c.(channels) req → resp_kind req.(rq_type) = Ret k →
  0 <= s < d.(hmc).(links_) → 1 <= n <= d.(hmc).(links_) → d.(hmc).(next_link_) = (s + n) mod d.(hmc).(links_) →
  (∀ j, 0 <= j < n → ¬ room d.(hmc) ((s + j) mod d.(hmc).(links_))) → (∃ i, 0 <= i < d.(hmc).(links_) ∧ room d.(hmc) i) →
  d.(hmc).(links_) - n < Z.of_nat fuel →
  returns (try_links fuel d req s) (λ r, r.2 = true ∧ inserted k.1 req.(mem_operand) d r.1).
Proof.
  revert d n. induction fuel as [|fuel IH]; intros d n Hd Hreq Hk Hs Hn Hnext Hfull Hex Hfuel; [lia|]. cbn [try_links].
  pose proof Hd as [_ [[Hl Hnl _ _ _ _ _ _ _] _]].
  destruct (Z.eqb_spec s d.(hmc).(next_link_)) as [E|Hne].
  { exfalso. destruct Hex as (i & Hi & Hroom). rewrite <- E in Hnext.
    assert (n = d.(hmc).(links_)) as ->.
    { destruct (decide (n = d.(hmc).(links_))) as [|]; [done|]. exfalso. destruct (Z_lt_le_dec (s + n) d.(hmc).(links_)).
      - rewrite Z.mod_small in Hnext by lia. lia.
      - rewrite <- (Z_mod_plus_full _ (-1)), Z.mod_small in Hnext by lia. lia. }
    apply (Hfull ((i - s) mod d.(hmc).(links_))); [apply Z.mod_pos_bound; lia|].
    rewrite Zplus_mod_idemp_r, Z.mod_small by lia. by replace (s + (i - s)) with i by lia. }
  eapply returns_bind; [by apply (InsertReqToLink_spec d req _ k)|]. intros [d1 ok] Hcase; cbn [fst snd] in Hcase;
    destruct Hcase as [(-> & Hin)|(-> & -> & Hno)].
  - destruct Hin as (Hw & Ho & Hc & Hr). destruct (next_link_spec d1 Hw) as [-> Hw']. cbn [mbind outcome_bind].
    apply returns_ret. split; [done|]. by split_and!.
  - destruct (next_link_spec d Hd) as [-> Hw']. cbn [mbind outcome_bind]. set (d2 := d <| hmc ::= _ |>) in *.
    assert (n < d.(hmc).(links_)) as Hlt.
    { destruct (decide (n = d.(hmc).(links_))) as [->|]; [|lia]. rewrite Hnext, <- (Z_mod_plus_full _ (-1)), Z.mod_small in Hne; lia. }
    eapply returns_mono; [apply (IH d2 (n + 1)); try done|].
    + change (1 <= n + 1 <= d.(hmc).(links_)). lia.
    + change ((d.(hmc).(next_link_) + 1) mod d.(hmc).(links_) = (s + (n + 1)) mod d.(hmc).(links_)).
      rewrite Hnext, Zplus_mod_idemp_l. f_equal. lia.
    + intros j Hj. change (¬ room d.(hmc) ((s + j) mod d.(hmc).(links_))).
      destruct (decide (j = n)) as [->|]; [by rewrite <- Hnext|]. apply Hfull. lia.
    + change (d.(hmc).(links_) - (n + 1) < Z.of_nat fuel). lia.
    + intros r [Hr Hin]. by split.
Qed.
Lemma WillAccept_room d : whole d → hmc_WillAcceptTransaction d 0 false = true →
  ∃ i, 0 <= i < d.(hmc).(links_) ∧ room d.(hmc) i.
Proof.
  intros [_ [[_ _ [_ Hz] _ _ _ _ _ _] _]] Hw. unfold hmc_WillAcceptTransaction in Hw.
  apply existsb_exists in Hw as (q & Hq & Hlt). apply list_elem_of_In, list_elem_of_lookup in Hq as [i Hi].
  pose proof (lookup_lt_Some _ _ _ Hi). exists (Z.of_nat i). split; [unfold zlen in Hz; lia|].
  exists q. split; [|lia]. apply aget_Ret. split; [lia|]. by rewrite Nat2Z.id.
Qed.
Lemma InsertHMCReq_spec d req k : whole d → req_ok c.(channels) req → resp_kind req.(rq_type) = Ret k →
  hmc_WillAcceptTransaction d 0 false = true →
  returns (InsertHMCReq d req) (λ r, r.2 = true ∧ inserted k.1 req.(mem_operand) d r.1).
Proof.
  intros Hd Hreq Hk Hwill. pose proof (WillAccept_room d Hd Hwill) as Hex. unfold InsertHMCReq.
  pose proof Hd as [_ [[Hl Hnl _ _ _ _ _ _ _] _]].
  eapply returns_bind; [by apply (InsertReqToLink_spec d req _ k)|]. intros [d1 ok] Hcase; cbn [fst snd] in Hcase;
    destruct Hcase as [(-> & Hin)|(-> & -> & Hno)]; cbn [negb].
  - destruct Hin as (Hw & Ho & Hc & Hr). destruct (next_link_spec d1 Hw) as [-> Hw']. cbn [mbind outcome_bind].
    apply returns_ret. split; [done|]. by split_and!.
  - destruct (next_link_spec d Hd) as [-> Hw']. cbn [mbind outcome_bind]. set (d2 := d <| hmc ::= _ |>) in *.
    eapply returns_mono; [apply (try_links_spec _ d2 req k d.(hmc).(next_link_) 1); try done|].
    + change (1 <= 1 <= d.(hmc).(links_)). lia.
    + intros j Hj. assert (j = 0) as -> by lia. rewrite Z.add_0_r. change (links_ (hmc d2)) with d.(hmc).(links_).
      by rewrite Z.mod_small by lia.
    + change (links_ (hmc d2)) with d.(hmc).(links_). lia.
    + intros r [Hr Hin]. by split.
Qed.
Lemma block_type w : ∃ t fl k, block_req_type c w = Ret t ∧ req_flits t = Ret fl ∧ is_write_type t = w ∧ resp_kind t = Ret k ∧ is_rd k.1 = negb w.
Proof.
  unfold block_req_type. destruct (hc_block Hhc) as [->|[->|[->|[->| ->]]]]; destruct w; do 3 eexists; split; try done; by split_and!.
Qed.
Lemma hmc_Add_ok d a w : whole d → is_u64 a → hmc_WillAcceptTransaction d a w = true →
  ∃ d', hmc_AddTransaction c d a w = Ret (d', true) ∧ whole d' ∧ clocks d'.(hmc) = clocks d.(hmc) ∧
    (jedec_ready d.(hmc_base) → jedec_ready d'.(hmc_base)) ∧
    owed d'.(hmc) ≡ₚ (if w then [] else [a]) ++ owed d.(hmc).
Proof.
  intros Hd Ha Hw. unfold hmc_AddTransaction. destruct (block_type w) as (t & fl & k & -> & Hfl & Ht & Hk & Hrd).
  cbn [mbind outcome_bind]. destruct (GetChannel_ok B c (hc_system Hhc) a Ha) as (ch & -> & Hch). cbn [mbind outcome_bind].
  unfold HMCRequest_new. rewrite Hfl. cbn [mbind outcome_bind]. set (req := {| rq_type := t |}).
  destruct (InsertHMCReq_spec d req k Hd) as ([d' ok] & -> & Hok & Hin & Ho & Hc & Hr); [|done|done|cbn [fst snd] in *; subst ok].
  { split; [|by split]. subst req. cbn [rq_quad]. apply Z.rem_bound_pos; lia. }
  exists d'. split; [done|]. split; [done|]. split; [done|]. split; [done|]. rewrite Hrd in Ho. by destruct w.
Qed.

(** ** A tick *)

(** the clocks between two ticks: the logic clock has made [logic_clk_] cycles and is ahead of the DRAM clock
    by less than one of them *)
Record clocks_ok (h : HMC) : Prop := {
  cl_dram : h.(ps_per_dram_) = 800;
  cl_logic : 0 < h.(ps_per_logic_) <= 800;
  cl_mul : h.(logic_ps_) = h.(ps_per_logic_) * h.(logic_clk_);
  cl_range : 0 <= h.(dram_ps_) <= h.(logic_ps_) ∧ h.(logic_ps_) < h.(dram_ps_) + h.(ps_per_logic_)
}.
(** and within a tick that starts at [D] picoseconds *)
Record ticking (D : Z) (h : HMC) : Prop := {
  tk_dram : h.(ps_per_dram_) = 800;
  tk_logic : 0 < h.(ps_per_logic_) <= 800;
  tk_mul : h.(logic_ps_) = h.(ps_per_logic_) * h.(logic_clk_);
  tk_now : h.(dram_ps_) = D ∧ 0 <= D;
  tk_range : D <= h.(logic_ps_) < D + 800 + h.(ps_per_logic_)
}.
Lemma ticking_fixed D h h' : fixed h' = fixed h → ticking D h → ticking D h'.
Proof.
  unfold fixed. intros E [H1 H2 H3 H4 H5].
  assert (logic_clk_ h' = logic_clk_ h ∧ ps_per_dram_ h' = ps_per_dram_ h ∧ ps_per_logic_ h' = ps_per_logic_ h ∧
    logic_ps_ h' = logic_ps_ h ∧ dram_ps_ h' = dram_ps_ h) as (E1 & E2 & E3 & E4 & E5) by (split_and!; congruence).
  split; rewrite ?E1, ?E2, ?E3, ?E4, ?E5; done.
Qed.
Lemma ticking_step D h : D + 1600 < 18446744073709551616 → ticking D h → h.(logic_ps_) < D + 800 →
  ticking D (logic_step h) ∧ (logic_step h).(logic_ps_) = h.(logic_ps_) + h.(ps_per_logic_).
Proof.
  intros HD [H1 H2 H3 [H4 H4'] H5] Hlt. assert (0 <= h.(logic_clk_) <= h.(logic_ps_)) by nia.
  assert ((logic_step h).(logic_ps_) = h.(logic_ps_) + h.(ps_per_logic_) ∧ (logic_step h).(logic_clk_) = h.(logic_clk_) + 1) as [E1 E2].
  { unfold logic_step. rsimp. split; apply u64_id; unfold is_u64; lia. }
  split; [|done]. split; rewrite ?E1, ?E2; try done.
  - change (ps_per_logic_ (logic_step h)) with (ps_per_logic_ h). lia.
  - change (ps_per_logic_ (logic_step h)) with (ps_per_logic_ h). lia.
Qed.
Lemma whole_step d : whole d → whole (d <| hmc ::= logic_step |>) ∧ owed (d <| hmc ::= logic_step |>).(hmc) = owed d.(hmc).
Proof.
  intros [Hb [[H1 H2 H3 H4 H5 H6 H7 H8 H9] Hbal]]. split; [|done]. split; [exact Hb|]. split; [|exact Hbal]. by split.
Qed.

Section Tick.
Context {W : Type} (rd wr : W → Z → outcome W) (pend : W → list Z → Prop)
  (Hperm : ∀ w (l l' : list Z), l ≡ₚ l' → pend w l → pend w l')
  (Hrd : ∀ w a (l : list Z), pend w (a :: l) → returns (rd w a) (λ w', pend w' l))
  (Hwr : ∀ w a (l : list Z), pend w l → returns (wr w a) (λ w', pend w' l)).

Lemma DRAMClockTick_spec d : whole d → jedec_ready d.(hmc_base) →
  returns (DRAMClockTick B wb_inf c d) (λ d', whole d' ∧ owed d'.(hmc) ≡ₚ owed d.(hmc) ∧ fixed d'.(hmc) = fixed d.(hmc)).
Proof.
  intros [Hb Hf] Hr. unfold DRAMClockTick.
  set (P := λ (h : HMC) (ts : list (Z * bool)), flow ts.*1 h ∧ owed h ≡ₚ owed d.(hmc) ∧ fixed h = fixed d.(hmc)).
  assert (∀ h a (w : bool) ts, P h ((a, w) :: ts) → returns (VaultCallback h a) (λ h', P h' ts)) as Hcb.
  { intros h a w ts (Hfl & Ho & Hx). eapply returns_mono; [apply VaultCallback_spec; exact Hfl|].
    intros h' (? & Ho' & Hx'). split; [done|]. split; [by rewrite Ho'|congruence]. }
  eapply returns_bind; [apply (ClockTick_ok B wb_inf c (hc_system Hhc) VaultCallback VaultCallback P d.(hmc_base) d.(hmc) Hb Hr)|].
  - intros h ts ts' E (Hfl & Ho). split; [|done]. eapply flow_perm; [|exact Hfl]. by rewrite E.
  - intros h a ts. apply Hcb.
  - intros h a ts. apply Hcb.
  - done.
  - intros [b h] [Hb' (Hf' & Ho' & Hx')]. apply returns_ret. by split.
Qed.

(** [D] is the time of the DRAM clock *)
Definition running D (s : HMCMemorySystem G * W) : Prop :=
  whole s.1 ∧ pend s.2 (owed s.1.(hmc)) ∧ ticking D s.1.(hmc).
(** a logic cycle: responses, then requests *)
Lemma logic_cycle_spec D d w (between : HMCMemorySystem G → outcome (HMCMemorySystem G)) :
  running D (d, w) → D + 1600 < 18446744073709551616 → d.(hmc).(logic_ps_) < D + 800 →
  (∀ d1, whole d1 → d1.(hmc_base) = d.(hmc_base) → returns (between d1) (λ d2, whole d2 ∧ owed d2.(hmc) ≡ₚ owed d1.(hmc) ∧
     fixed d2.(hmc) = fixed d1.(hmc))) →
  returns (r ← DrainResponses rd wr d.(hmc) w; d ← between (d <| hmc := r.1 |>); d ← DrainRequests wb_inf c d;
           Ret (d <| hmc ::= logic_step |>, r.2))
    (λ s, running D s ∧ s.1.(hmc).(logic_ps_) = d.(hmc).(logic_ps_) + d.(hmc).(ps_per_logic_) ∧
      s.1.(hmc).(ps_per_logic_) = d.(hmc).(ps_per_logic_)).
Proof.
  intros ([Hb Hf] & Hp & Htk) HD Hlt Hbt. cbn [fst snd] in *.
  eapply returns_bind; [by apply (DrainResponses_spec c.(channels) rd wr pend Hperm Hrd Hwr _ _ _ Hf Hp)|].
  intros [h1 w1] (Hf1 & Hp1 & Hx1). cbn [fst snd] in *.
  eapply returns_bind; [apply (Hbt (d <| hmc := h1 |>)); [by split|done]|]. intros d2 (Hd2 & Ho2 & Hx2).
  change (fixed (hmc (d <| hmc := h1 |>))) with (fixed h1) in Hx2. change (owed (hmc (d <| hmc := h1 |>))) with (owed h1) in Ho2.
  eapply returns_bind; [by apply DrainRequests_spec|]. intros d3 (Hd3 & Ho3 & Hx3). apply returns_ret.
  assert (fixed d3.(hmc) = fixed d.(hmc)) as Hx by congruence.
  destruct (whole_step d3 Hd3) as [Hd4 Ho4]. pose proof (ticking_fixed D _ _ Hx Htk) as Htk3.
  assert (logic_ps_ d3.(hmc) = logic_ps_ d.(hmc) ∧ ps_per_logic_ d3.(hmc) = ps_per_logic_ d.(hmc)) as [E1 E2]
    by (unfold fixed in Hx; split; congruence).
  destruct (ticking_step D d3.(hmc) HD Htk3 ltac:(lia)) as [Htk4 E4]. split; [split; [exact Hd4|split; [|exact Htk4]]|].
  - cbn [fst snd]. rewrite Ho4. eapply Hperm; [|exact Hp1]. by rewrite Ho3, Ho2.
  - cbn [fst]. rewrite <- E1, <- E2. by split.
Qed.
Lemma catch_up_spec D fuel d w : running D (d, w) → D + 1600 < 18446744073709551616 →
  Z.max 0 (D + 800 - d.(hmc).(logic_ps_)) < Z.of_nat fuel →
  returns (catch_up wb_inf c rd wr fuel d w) (λ s, running D s ∧ D + 800 <= s.1.(hmc).(logic_ps_)).
Proof.
  revert d w. induction fuel as [|fuel IH]; intros d w Hr HD Hfuel; cbn [catch_up]; [lia|].
  pose proof Hr as (Hd & Hp & [H1 H2 H3 [H4 H4'] H5]). cbn [fst snd] in *. rewrite H4, H1, u64_id by (unfold is_u64; lia).
  destruct (Z.ltb_spec d.(hmc).(logic_ps_) (D + 800)) as [Hlt|Hge]; [|by apply returns_ret].
  eapply returns_bind; [apply (logic_cycle_spec D d w Ret Hr HD Hlt)|].
  - intros d1 Hd1 _. by apply returns_ret.
  - intros [d1 w1] (Hr1 & E1 & E2). cbn [fst snd] in *. apply IH; [done|done|]. lia.
Qed.
Lemma hmc_ClockTick_spec d w : whole d → jedec_ready d.(hmc_base) → clocks_ok d.(hmc) → pend w (owed d.(hmc)) →
  d.(hmc).(dram_ps_) + 1600 < 18446744073709551616 →
  returns (hmc_ClockTick B wb_inf c rd wr d w) (λ s, whole s.1 ∧ clocks_ok s.1.(hmc) ∧ pend s.2 (owed s.1.(hmc)) ∧
    s.1.(hmc).(dram_ps_) = d.(hmc).(dram_ps_) + 800).
Proof.
  intros Hd Hr [C1 C2 C3 C4] Hp HD. set (D := d.(hmc).(dram_ps_)) in *. unfold hmc_ClockTick.
  assert (running D (d, w)) as Hrun.
  { split; [done|]. split; [done|]. split; try done; cbn [fst]; fold D; lia. }
  eapply (returns_bind _ _ (running D)).
  { destruct (Z.eqb_spec d.(hmc).(dram_ps_) d.(hmc).(logic_ps_)) as [E|Hne].
    - eapply returns_mono; [apply (logic_cycle_spec D d w (DRAMClockTick B wb_inf c) Hrun HD); [fold D in E; lia|]|by intros s [? _]].
      intros d1 Hd1 Eb. apply DRAMClockTick_spec; [done|]. by rewrite Eb.
    - eapply returns_bind; [by apply DRAMClockTick_spec|]. intros d1 (Hd1 & Ho1 & Hx1). apply returns_ret.
      split; [done|split].
      + cbn [snd]. eapply Hperm; [|exact Hp]. cbn [fst]. by rewrite Ho1.
      + eapply ticking_fixed; [exact Hx1|]. apply Hrun. }
  intros [d1 w1] Hrun1. pose proof Hrun1 as (_ & _ & [T1 T2 T3 T4 T5]). cbn [fst] in *.
  eapply returns_bind; [apply (catch_up_spec D _ d1 w1 Hrun1 HD); rewrite T1; lia|].
  intros [d2 w2] ((Hd2 & Hp2 & [U1 U2 U3 [U4 U4'] U5]) & Hge). cbn [fst snd] in *. apply returns_ret. cbn [fst snd].
  assert (u64 (dram_ps_ d2.(hmc) + ps_per_dram_ d2.(hmc)) = D + 800) as E by (rewrite U4, U1; apply u64_id; unfold is_u64; lia).
  split; [|split; [|split; [exact Hp2|rsimp; exact E]]].
  - destruct Hd2 as [Hb [[H1 H2 H3 H4 H5 H6 H7 H8 H9] Hbal]]. split; [exact Hb|]. split; [|exact Hbal]. by split.
  - split; rsimp; rewrite ?E; try done. lia.
Qed.
End Tick.

(** ** A new cube *)
Lemma concat_nils {A} n : concat (replicate n (@nil A)) = [].
Proof. by induction n. Qed.
Lemma ages_new {A} n : ages_ok (replicate n 0) (replicate n (@nil A)).
Proof.
  split; [unfold zlen; by rewrite !length_replicate|]. intros i v [_ [-> _]%lookup_replicate]%aget_Ret. lia.
Qed.
Lemma HMCMemorySystem_new_ok (s : Statics G) : statics_ok s → returns (HMCMemorySystem_new c s) (λ d,
  whole d ∧ jedec_ready d.(hmc_base) ∧ clocks_ok d.(hmc) ∧ owed d.(hmc) = [] ∧ d.(hmc).(dram_ps_) = 0 ∧
  (0 < u64 c.(xbar_queue_depth) → ∀ a w, hmc_WillAcceptTransaction d a w = true)).
Proof.
  intros Hs. unfold HMCMemorySystem_new. rewrite (hc_hmc Hhc). cbn [negb].
  destruct (hc_clock Hhc) as ([p1 p2] & -> & E1 & Hp2). cbn [fst snd mbind outcome_bind] in *. subst p1.
  eapply returns_bind; [by apply (new_ctrls_ok B c (hc_system Hhc))|]. intros b (Hb & Hr & Hh).
  pose proof (hc_links Hhc). destruct (Z.ltb_spec c.(num_links) 0); [lia|]. apply returns_ret. cbn [hmc hmc_base].
  set (h := {| logic_clk_ := 0 |}).
  assert (owed h = [] ∧ queued h = [] ∧ resps h = []) as (Ho & Hq & Hrs).
  { unfold owed, queued, resps, h. cbn. by rewrite !concat_nils. }
  split; [split; [exact Hb|split]|split; [done|split; [|split; [done|split; [done|]]]]].
  - assert (∀ A (x : A), zlen (replicate (Z.to_nat c.(num_links)) x) = c.(num_links)) as Hz
      by (intros; unfold zlen; rewrite length_replicate; lia).
    split; rewrite ?Hrs; try done; unfold h; cbn [hmc links_ next_link_ link_age_counter_ link_req_queues_ quad_age_counter_
      quad_resp_queues_ quad_req_queues_ quad_busy_ link_resp_queues_ link_busy_ resp_lookup_table_].
    + lia.
    + split; [apply ages_new|apply Hz].
    + split; [apply (ages_new 4)|done].
    + split; apply Hz.
    + rewrite concat_nils. constructor.
    + change (Forall (resp_ok c.(num_links)) (resps h)). rewrite Hrs. constructor.
  - change (queued h ++ (held b.(ctrls_)).*1 ≡ₚ []). by rewrite Hq, Hh.
  - split; cbn; lia.
  - intros Hd a w. unfold hmc_WillAcceptTransaction, h. cbn [hmc queue_depth_ link_req_queues_].
    destruct (Z.to_nat c.(num_links)) eqn:E; [lia|]. cbn [replicate existsb]. apply orb_true_iff. left. by apply Z.ltb_lt.
Qed.
End Cube.

(** ** The cube as a memory of the simulator *)
Section Memory.
Context {G : Type} `{Rng64 G} (B : Build) (wb_inf : bool) (c : Config) (Hhc : hmc_config B c).
Definition hmc_ok (d : HMCMemorySystem G) : Prop := whole B c d ∧ clocks_ok d.(hmc).
Definition hmc_ready (d : HMCMemorySystem G) : Prop :=
  jedec_ready d.(hmc_base) ∧ d.(hmc).(dram_ps_) + 1600 < 18446744073709551616.
Definition hmc_memory : MemorySystem (HMCMemorySystem G) := {|
  MemSysDramsim3.WillAcceptTransaction d a w := Ret (hmc_WillAcceptTransaction d a w);
  MemSysDramsim3.AddTransaction := hmc_AddTransaction c;
  MemSysDramsim3.ClockTick W rd wr d w := hmc_ClockTick B wb_inf c rd wr d w
|}.
Lemma clocks_ok_eq (h h' : HMC) : clocks h' = clocks h → clocks_ok h → clocks_ok h'.
Proof.
  unfold clocks. intros E [C1 C2 C3 C4].
  assert (logic_clk_ h' = logic_clk_ h ∧ ps_per_dram_ h' = ps_per_dram_ h ∧ ps_per_logic_ h' = ps_per_logic_ h ∧
    logic_ps_ h' = logic_ps_ h ∧ dram_ps_ h' = dram_ps_ h) as (E1 & E2 & E3 & E4 & E5) by (split_and!; congruence).
  split; rewrite ?E1, ?E2, ?E3, ?E4, ?E5; done.
Qed.
Lemma hmc_Add_sound d a w : hmc_ok d → is_u64 a → hmc_WillAcceptTransaction d a w = true →
  ∃ d', hmc_AddTransaction c d a w = Ret (d', true) ∧ hmc_ok d' ∧ (hmc_ready d → hmc_ready d') ∧
    owed d'.(hmc) ≡ₚ (if w then [] else [a]) ++ owed d.(hmc).
Proof.
  intros [Hd Hc] Ha Hw. destruct (hmc_Add_ok B c Hhc d a w Hd Ha Hw) as (d' & E & Hd' & Ec & Hr & Ho).
  exists d'. split; [done|]. split; [split; [done|by eapply clocks_ok_eq]|]. split; [|done].
  intros [Hrd HD]. split; [auto|]. assert (dram_ps_ (hmc d') = dram_ps_ (hmc d)) as -> by (unfold clocks in Ec; congruence). done.
Qed.
Definition hmc_laws : @MemorySystemLaws (HMCMemorySystem G) hmc_memory.
Proof.
  refine (@Build_MemorySystemLaws (HMCMemorySystem G) hmc_memory (λ d, owed d.(hmc)) hmc_ok hmc_ready _ _ _ _).
  - intros d a w _ _. by eexists.
  - intros d a Hd Ha [= Hw]. destruct (hmc_Add_sound d a false Hd Ha Hw) as (d' & E & H1 & _ & H2). by exists d', true.
  - intros d a Hd Ha [= Hw]. destruct (hmc_Add_sound d a true Hd Ha Hw) as (d' & E & H1 & _ & H2). by exists d', true.
  - intros W rd wr pend d w [Hd Hc] [Hr HD] Hperm Hrd Hwr Hp.
    destruct (hmc_ClockTick_spec B wb_inf c Hhc rd wr pend Hperm Hrd Hwr d w Hd Hr Hc Hp HD) as (s & E & H1 & H2 & H3 & _).
    exists s. split; [exact E|]. by split; [split|].
Defined.
End Memory.

(** ** The properties *)

(** C8. The cube keeps the promises of a memory system: a new cube owes nothing; a transaction of any 64-bit address is
    accepted when some link has room, whichever link is next, and then it is queued and its read owed once; a tick hands each
    read that has crossed back to the read callback, once, and keeps the others. No response is looked up that is
    not in the table, no empty queue is served, and the loop of the logic clock ends. *)
Theorem hmc_promises {G} `{Rng64 G} (B : Build) (wb_inf : bool) (c : Config) (s : Statics G) :
  hmc_config B c → statics_ok s →
  returns (HMCMemorySystem_new c s) (λ d, hmc_ok B c d ∧ hmc_ready d ∧ owed d.(hmc) = [] ∧
    (0 < u64 c.(xbar_queue_depth) → ∀ a w, hmc_WillAcceptTransaction d a w = true)) ∧
  (∀ (d : HMCMemorySystem G) a w, hmc_ok B c d → is_u64 a → hmc_WillAcceptTransaction d a w = true →
     ∃ d', hmc_AddTransaction c d a w = Ret (d', true) ∧ hmc_ok B c d' ∧ (hmc_ready d → hmc_ready d') ∧
       owed d'.(hmc) ≡ₚ (if w then [] else [a]) ++ owed d.(hmc)) ∧
  (∀ (W : Type) (rd wr : W → Z → outcome W) (pend : W → list Z → Prop) (d : HMCMemorySystem G) w,
     hmc_ok B c d → hmc_ready d →
     (∀ w (l l' : list Z), l ≡ₚ l' → pend w l → pend w l') →
     (∀ w a (l : list Z), pend w (a :: l) → returns (rd w a) (λ w', pend w' l)) →
     (∀ w a (l : list Z), pend w l → returns (wr w a) (λ w', pend w' l)) →
     pend w (owed d.(hmc)) →
     returns (hmc_ClockTick B wb_inf c rd wr d w) (λ r, hmc_ok B c r.1 ∧ pend r.2 (owed r.1.(hmc)))).
Proof.
  intros Hhc Hs. split; [|split].
  - eapply returns_mono; [by apply (HMCMemorySystem_new_ok B c Hhc)|]. intros d (H1 & H2 & H3 & H4 & H5 & H6).
    split; [by split|]. split; [|by split]. split; [done|]. rewrite H5. lia.
  - intros d a w. by apply hmc_Add_sound.
  - intros W rd wr pend d w [Hd Hc] [Hr HD] Hperm Hrd Hwr Hp.
    eapply returns_mono; [apply (hmc_ClockTick_spec B wb_inf c Hhc rd wr pend Hperm Hrd Hwr d w Hd Hr Hc Hp HD)|].
    intros r (H1 & H2 & H3 & _). by split; [split|].
Qed.

(** The two clocks of the cube: a tick takes the DRAM clock 800 ps further, and the logic clock catches up: it has then made
    exactly the cycles that the time needs, the quotient rounded up, so the clocks never drift apart. *)
Theorem hmc_clocks {G} `{Rng64 G} (B : Build) (wb_inf : bool) (c : Config) (d : HMCMemorySystem G) :
  hmc_config B c → hmc_ok B c d → hmc_ready d →
  returns (hmc_ClockTick B wb_inf c (λ _ _, Ret tt) (λ _ _, Ret tt) d tt) (λ r,
    let h := r.1.(hmc) in
    h.(dram_ps_) = d.(hmc).(dram_ps_) + 800 ∧ clocks_ok h ∧
    h.(logic_clk_) = (h.(dram_ps_) + h.(ps_per_logic_) - 1) / h.(ps_per_logic_)).
Proof.
  intros Hhc [Hd Hc] [Hr HD].
  eapply returns_mono; [apply (hmc_ClockTick_spec B wb_inf c Hhc (λ _ _, Ret tt) (λ _ _, Ret tt) (λ _ _, True)); try done|].
  - intros [] a l _. by apply returns_ret.
  - intros [] a l _. by apply returns_ret.
  - intros r (_ & H2 & _ & E). split; [done|]. split; [done|]. destruct H2 as [C1 C2 C3 C4]. 
    apply (Z.div_unique_pos _ _ _ (dram_ps_ (hmc r.1) + ps_per_logic_ (hmc r.1) - 1 - ps_per_logic_ (hmc r.1) * logic_clk_ (hmc r.1))); lia.
Qed.

(** Arbitration: BuildAgeQueue lists every source that waits, once, and no other: in each logic cycle every
    link and every quadrant with something to send is served exactly once. (In which order is another matter:
    [age_queue_not_sorted].) *)
Theorem hmc_arbitration (h : HMC) (ages : list Z) : 0 < zlen ages < 1073741824 →
  returns (BuildAgeQueue h ages) (λ q, NoDup q ∧ ∀ i, i ∈ q ↔ ∃ v, aget ages i = Ret v ∧ 0 < v).
Proof. intros Hn. by apply BuildAgeQueue_spec. Qed.

(** the bytes of a plain read or write request *)
Definition payload (t : HMCReqType) : option (bool * bool * Z) :=
  match t with
  | RD0 => Some (false, false, 0) | RD16 => Some (false, false, 16) | RD32 => Some (false, false, 32)
  | RD48 => Some (false, false, 48) | RD64 => Some (false, false, 64) | RD80 => Some (false, false, 80)
  | RD96 => Some (false, false, 96) | RD112 => Some (false, false, 112) | RD128 => Some (false, false, 128)
  | RD256 => Some (false, false, 256)
  | WR0 => Some (true, false, 0) | WR16 => Some (true, false, 16) | WR32 => Some (true, false, 32)
  | WR48 => Some (true, false, 48) | WR64 => Some (true, false, 64) | WR80 => Some (true, false, 80)
  | WR96 => Some (true, false, 96) | WR112 => Some (true, false, 112) | WR128 => Some (true, false, 128)
  | WR256 => Some (true, false, 256)
  | P_WR16 => Some (true, true, 16) | P_WR32 => Some (true, true, 32) | P_WR48 => Some (true, true, 48)
  | P_WR64 => Some (true, true, 64) | P_WR80 => Some (true, true, 80) | P_WR96 => Some (true, true, 96)
  | P_WR112 => Some (true, true, 112) | P_WR128 => Some (true, true, 128) | P_WR256 => Some (true, true, 256)
  | _ => None
  end.
(** a header flit and one per 16 bytes of data; nothing at all for a size of 0 *)
Definition flits_of (carries : bool) (bytes : Z) : Z :=
  if bytes =? 0 then 0 else if carries then 1 + bytes / 16 else 1.
(** The packets are well typed: every request type but the end marker makes a request and a response; of the plain ones a
    request carries its data when it writes, a response when it reads, a posted write is not answered,
    and the number of flits is the header and 16 bytes each. *)
Theorem hmc_packets (t : HMCReqType) (a v link quad : Z) :
  (t = REQ_SIZE ↔ HMCRequest_new t a v = AbruptExit) ∧
  (t ≠ REQ_SIZE → returns (HMCRequest_new t a v) (λ r,
     r.(mem_operand) = a ∧ r.(rq_quad) = Z.rem v 4 ∧
     returns (HMCResponse_new a t link quad) (λ s, s.(resp_id) = a ∧ s.(rs_link) = link ∧ s.(rs_quad) = quad ∧
       match payload t with
       | Some (w, posted, n) => r.(rq_is_write) = w ∧ r.(rq_flits) = flits_of w n ∧
           s.(rs_type) = (if w then if posted then NONE else WR_RS else RD_RS) ∧
           s.(rs_flits) = (if posted then 0 else flits_of (negb w) n)
       | None => r.(rq_is_write) = false ∧ 1 <= r.(rq_flits) <= 2
       end))).
Proof.
  split; [by destruct t|]. intros Hne.
  destruct t; try done; apply returns_ret; (split; [done|split; [done|]]); apply returns_ret; cbn; by repeat split.
Qed.

(** the comment of BuildAgeQueue promises the oldest source first; here a source of age 1 goes before one of age 5 *)
Lemma age_queue_not_sorted (h : HMC) : h.(logic_clk_) = 0 → BuildAgeQueue h [5; 1] = Ret [1; 0].
Proof. intros E. unfold BuildAgeQueue. rewrite E. reflexivity. Qed.

(** ** Witnesses: the configuration configs/HMC_2GB_4Lx16.ini (real numbers are left at their defaults) *)
Definition hmc_ini : INIReader := mkINI 0 (list_to_map [
  ("hmc=num_links", "4"); ("hmc=link_width", "16"); ("hmc=link_speed", "10000"); ("hmc=block_size", "64");
  ("hmc=xbar_queue_depth", "6");
  ("dram_structure=protocol", "HMC"); ("dram_structure=bankgroups", "1"); ("dram_structure=banks_per_group", "8");
  ("dram_structure=rows", "65536"); ("dram_structure=columns", "64"); ("dram_structure=device_width", "32");
  ("dram_structure=num_dies", "4");
  ("timing=cl", "17"); ("timing=cwl", "17"); ("timing=trcd", "17"); ("timing=trp", "17"); ("timing=tras", "34");
  ("timing=trfc", "420"); ("timing=trefi", "9364"); ("timing=trrd_s", "4"); ("timing=trrd_l", "4");
  ("timing=twtr_s", "3"); ("timing=twtr_l", "3"); ("timing=tfaw", "27"); ("timing=twr", "17");
  ("timing=tccd_s", "6"); ("timing=tccd_l", "6"); ("timing=txs", "12"); ("timing=tcksre", "1"); ("timing=txp", "8");
  ("timing=trtp_l", "8"); ("timing=trtp_s", "8"); ("timing=trtrs", "0");
  ("system=channel_size", "128"); ("system=channels", "16"); ("system=bus_width", "32");
  ("system=address_mapping", "rocorabgbach"); ("system=queue_structure", "PER_BANK");
  ("system=row_buf_policy", "CLOSE_PAGE"); ("system=cmd_queue_size", "8"); ("system=trans_queue_size", "32");
  ("system=unified_queue", "True"); ("other=epoch_period", "1250000"); ("other=output_level", "1")]%string).
Definition hmc_result : outcome Config := Eval vm_compute in Config_new (λ _, true) hmc_ini "out".
Definition hmc_2gb : Config := Eval cbv in match hmc_result with Ret c => c | Fault _ => baseline end.
Lemma hmc_2gb_new : Config_new (λ _, true) hmc_ini "out" = Ret hmc_2gb.
Proof. vm_compute. reflexivity. Qed.
Lemma hmc_2gb_ok : hmc_config plain_build hmc_2gb.
Proof.
  split.
  - split; [split|split|..].
    + split; vm_compute; split; (reflexivity || discriminate).
    + split; vm_compute; try split; (reflexivity || discriminate).
    + split; [intros [?|?]; discriminate|discriminate|reflexivity|split; [discriminate|reflexivity]].
    + reflexivity.
    + by left.
    + reflexivity.
    + reflexivity.
    + split.
      * apply NoDup_Permutation; [apply (bool_decide_unpack _); vm_compute; done..|]. intros f. vm_compute. set_solver.
      * by right.
      * repeat constructor; vm_compute; done.
      * vm_compute. done.
      * vm_compute. done.
      * vm_compute. done.
    + vm_compute. reflexivity.
    + discriminate.
    + by left.
    + eexists. split; [vm_compute; reflexivity|]. split; reflexivity.
    + discriminate.
    + split; reflexivity.
    + split; reflexivity.
  - reflexivity.
  - split; reflexivity.
  - right; right; by left.
  - eexists. split; [vm_compute; reflexivity|]. split; [done|]. split; [done|discriminate].
Qed.

Definition record_read (w : list Z) (a : Z) : outcome (list Z) := Ret (w ++ [a]).
Definition ignore_write (w : list Z) (a : Z) : outcome (list Z) := Ret w.
(** a new cube that was given a read *)
Lemma cube_with_read : ∃ d d' : HMCMemorySystem Z, HMCMemorySystem_new hmc_2gb tiny_statics = Ret d ∧
  hmc_AddTransaction hmc_2gb d 4096 false = Ret (d', true) ∧
  hmc_ok plain_build hmc_2gb d' ∧ hmc_ready d' ∧ owed d'.(hmc) = [4096].
Proof.
  destruct (HMCMemorySystem_new_ok plain_build hmc_2gb hmc_2gb_ok tiny_statics) as (d & Ed & H1 & H2 & H3 & H4 & H5 & H6); [discriminate|].
  destruct (hmc_Add_sound plain_build hmc_2gb hmc_2gb_ok d 4096 false) as (d' & Ed' & Hd' & Hr' & Ho);
    [by split|unfold is_u64; lia|by apply H6|].
  exists d, d'. split; [done|]. split; [done|]. split; [done|]. rewrite H4 in Ho. split; [|by apply Permutation_singleton_r in Ho].
  apply Hr'. split; [done|]. rewrite H5. lia.
Qed.
Lemma hmc_promises_witness : ∃ d : HMCMemorySystem Z, owed d.(hmc) = [4096] ∧
  returns (hmc_ClockTick plain_build false hmc_2gb record_read ignore_write d []) (λ r, r.2 ++ owed r.1.(hmc) ≡ₚ [4096]).
Proof.
  destruct cube_with_read as (d0 & d & _ & _ & Hd & Hr & Ho). exists d. split; [exact Ho|].
  destruct (hmc_promises plain_build false hmc_2gb tiny_statics hmc_2gb_ok) as (_ & _ & Htick); [discriminate|].
  eapply returns_mono; [apply (Htick (list Z) record_read ignore_write (λ w l, w ++ l ≡ₚ [4096]) d [] Hd Hr)|].
  - intros w l l' Hl Hw. by rewrite <- Hl.
  - intros w a l Hw. apply returns_ret. by rewrite <- app_assoc.
  - intros w a l Hw. by apply returns_ret.
  - by rewrite Ho.
  - by intros r [_ Hp].
Defined.
Lemma hmc_clocks_witness : ∃ d : HMCMemorySystem Z, owed d.(hmc) = [4096] ∧
  returns (hmc_ClockTick plain_build false hmc_2gb (λ _ _, Ret tt) (λ _ _, Ret tt) d tt) (λ r,
    r.1.(hmc).(dram_ps_) = d.(hmc).(dram_ps_) + 800 ∧
    r.1.(hmc).(logic_clk_) = (r.1.(hmc).(dram_ps_) + r.1.(hmc).(ps_per_logic_) - 1) / r.1.(hmc).(ps_per_logic_)).
Proof.
  destruct cube_with_read as (d0 & d & _ & _ & Hd & Hr & Ho). exists d. split; [exact Ho|].
  eapply returns_mono; [exact (hmc_clocks plain_build false hmc_2gb d hmc_2gb_ok Hd Hr)|].
  intros r (H1 & _ & H2). by split.
Defined.
Lemma hmc_arbitration_witness : returns (BuildAgeQueue (mkHMC 7 800 800 0 0 0 4 6 [] [] [] [] [] [] [] [] []) [0; 3; 0; 1])
  (λ q, NoDup q ∧ ∀ i, i ∈ q ↔ ∃ v, aget [0; 3; 0; 1] i = Ret v ∧ 0 < v).
Proof. apply (hmc_arbitration _ [0; 3; 0; 1]). split; reflexivity. Defined.
Lemma hmc_packets_witness : returns (HMCRequest_new WR64 4096 5) (λ r, r.(rq_flits) = 5 ∧ r.(rq_quad) = 1) ∧
  returns (HMCResponse_new 4096 WR64 2 1) (λ s, s.(rs_type) = WR_RS ∧ s.(rs_flits) = 1).
Proof.
  destruct (hmc_packets WR64 4096 5 2 1) as [_ Hp]. destruct (Hp ltac:(discriminate)) as (r & Er & _ & Hq & s & Es & _ & _ & _ & _ & Hfl & Ht & Hs).
  split; [exists r|exists s]; (split; [done|]); cbn in *; by split.
Defined.
