(* ===== verification/Trace.v ===== *)
(** * DRAMsim3: transactions in a trace file (DRAMsim3/src/common.h, common.cc)

    [operator>>(std::istream &, Transaction &)] over a model of formatted extraction: what is left of the stream and the two
    flags that an extraction sets. A trace line holds an address in base 16, an operation and a cycle, as
    scripts/trace_gen.py writes them and tests/example.trace shows. *)
From S2P Require Import Prelude Common.
Open Scope Z_scope.
Open Scope list_scope.

(** ** Formatted extraction of the standard library *)
Record istream := mkIstream { s_rest : list ascii; s_eof : bool; s_fail : bool }.
Definition istream_open (text : list ascii) : istream := mkIstream text false false.
Definition good (s : istream) : bool := negb s.(s_eof) && negb s.(s_fail).

Fixpoint skip_space (l : list ascii) : list ascii :=
  match l with c :: l' => if is_space c then skip_space l' else l | [] => [] end.
(** the sentry: white space is passed over; a stream that is not good, or ends there, fails *)
Definition sentry (s : istream) : istream * bool :=
  if good s then
    match skip_space s.(s_rest) with
    | [] => (mkIstream [] true true, false)
    | l => (s <| s_rest := l |>, true)
    end
  else (s <| s_fail := true |>, false).

(** the digits in front: their value after [v], and how many *)
Fixpoint get_digits (base v n : Z) (l : list ascii) : Z * Z * list ascii :=
  match l with
  | c :: l' =>
      match digit_val c with
      | Some d => if d <? base then get_digits base (base * v + d) (n + 1) l' else (v, n, l)
      | None => (v, n, l)
      end
  | [] => (v, n, [])
  end.
Definition get_sign (l : list ascii) : bool * list ascii :=
  match l with c :: l' => if code c =? 45 then (true, l') else if code c =? 43 then (false, l') else (false, l) | [] => (false, []) end.
Definition skip_0x (base : Z) (l : list ascii) : list ascii :=
  match l with
  | c0 :: c1 :: l' => if (base =? 16) && (code c0 =? 48) && (code (tolower c1) =? 120) then l' else l
  | _ => l
  end.
(** [is >> n] for a [uint64_t]: without digits 0 is stored, out of range the maximum, and the stream fails;
    when the sentry fails the variable keeps its value *)
Definition get_u64 (base : Z) (s : istream) (old : Z) : istream * Z :=
  let (s, ok) := sentry s in
  if ok then
    let (neg, l) := get_sign s.(s_rest) in
    let '(v, n, l) := get_digits base 0 0 (skip_0x base l) in
    let s := s <| s_rest := l |> <| s_eof := match l with [] => true | _ => false end |> in
    if n =? 0 then (s <| s_fail := true |>, 0)
    else if 18446744073709551615 <? v then (s <| s_fail := true |>, 18446744073709551615)
    else (s, if neg : bool then u64 (- v) else v)
  else (s, old).

Fixpoint get_word (l : list ascii) : list ascii * list ascii :=
  match l with
  | c :: l' => if is_space c then ([], l) else let (w, r) := get_word l' in (c :: w, r)
  | [] => ([], [])
  end.
(** [is >> str] for a string that is empty before *)
Definition get_string (s : istream) : istream * list ascii :=
  let (s, ok) := sentry s in
  if ok then
    let (w, l) := get_word s.(s_rest) in
    (s <| s_rest := l |> <| s_eof := match l with [] => true | _ => false end |>, w)
  else (s, []).

(** ** [operator>>] *)
Definition chars (s : string) : list ascii := String.list_ascii_of_string s.
Definition write_types : list (list ascii) := [chars "WRITE"; chars "write"; chars "P_MEM_WR"; chars "BOFF"].
Definition get_trans (s : istream) (t : Transaction) : istream * Transaction :=
  let (s, a) := get_u64 16 s t.(t_addr) in
  let (s, mem_op) := get_string s in
  let (s, n) := get_u64 10 s t.(added_cycle) in
  (s, t <| t_addr := a |> <| added_cycle := n |> <| is_write := bool_decide (mem_op ∈ write_types) |>).

(** ** Lines of a trace, as they are written *)
Definition digit_char (d : Z) : ascii := Ascii.ascii_of_nat (Z.to_nat (if d <? 10 then 48 + d else 87 + d)).
Fixpoint digits_of (fuel : nat) (base n : Z) : list ascii :=
  match fuel with
  | O => []
  | S fuel => (if n <? base then [] else digits_of fuel base (n / base)) ++ [digit_char (n mod base)]
  end.
Definition show_u64 (base n : Z) : list ascii := digits_of 64 base n.
Record TraceLine := mkLine { l_addr : Z; l_write : bool; l_cycle : Z; l_gap1 : nat; l_gap2 : nat }.
Definition blanks (n : nat) : list ascii := replicate n (Ascii.ascii_of_nat 32).
Definition newline : ascii := Ascii.ascii_of_nat 10.
Definition line_text (x : TraceLine) : list ascii :=
  chars "0x" ++ show_u64 16 x.(l_addr) ++ blanks (S x.(l_gap1)) ++ chars (if x.(l_write) then "WRITE" else "READ") ++
  blanks (S x.(l_gap2)) ++ show_u64 10 x.(l_cycle) ++ [newline].
Definition trace_text (xs : list TraceLine) : list ascii := concat (line_text <$> xs).
Definition line_ok (x : TraceLine) : Prop := is_u64 x.(l_addr) ∧ is_u64 x.(l_cycle).
Definition line_trans (t : Transaction) (x : TraceLine) : Transaction :=
  t <| t_addr := x.(l_addr) |> <| added_cycle := x.(l_cycle) |> <| is_write := x.(l_write) |>.

(** ** Lemmas *)
Lemma digit_val_char d : 0 <= d < 16 → digit_val (digit_char d) = Some d.
Proof.
  intros Hd. assert (d = 0 ∨ d = 1 ∨ d = 2 ∨ d = 3 ∨ d = 4 ∨ d = 5 ∨ d = 6 ∨ d = 7 ∨ d = 8 ∨ d = 9 ∨ d = 10 ∨ d = 11 ∨
    d = 12 ∨ d = 13 ∨ d = 14 ∨ d = 15) as Hcase by lia. by decompose [or] Hcase; subst d.
Qed.
Lemma get_digits_char base d w j l : 0 <= d < base → base <= 16 →
  get_digits base w j (digit_char d :: l) = get_digits base (base * w + d) (j + 1) l.
Proof. intros Hd Hb. cbn [get_digits]. rewrite digit_val_char by lia. by destruct (Z.ltb_spec d base); [|lia]. Qed.
Lemma get_digits_show base fuel n w j l : 2 <= base <= 16 → 0 <= n < base ^ Z.of_nat fuel →
  ∃ p i, Z.of_nat (if decide (fuel = O) then 0 else 1) <= i ∧
    get_digits base w j (digits_of fuel base n ++ l) = get_digits base (p * w + n) (j + i) l.
Proof.
  intros Hb. revert n w j l. induction fuel as [|fuel IH]; intros n w j l Hn; cbn [digits_of].
  { exists 1, 0. cbn in Hn. split; [done|]. cbn [app]. f_equal; lia. }
  pose proof (Z.mod_pos_bound n base ltac:(lia)) as Hm. pose proof (Z.div_mod n base ltac:(lia)) as Hdm.
  rewrite <- app_assoc. destruct (Z.ltb_spec n base).
  - exists base, 1. split; [done|]. cbn [app]. rewrite get_digits_char by lia. by rewrite Z.mod_small by lia.
  - destruct (IH (n / base) w j ([digit_char (n mod base)] ++ l)) as (p & i & Hi & E).
    { rewrite Nat2Z.inj_succ, Z.pow_succ_r in Hn by lia. split; [apply Z.div_pos; lia|]. apply Z.div_lt_upper_bound; lia. }
    exists (base * p), (i + 1). split; [destruct (decide _), (decide _); lia|]. cbn [app] in *.
    rewrite E, get_digits_char by lia. f_equal; [|lia]. rewrite Z.mul_add_distr_l. lia.
Qed.

(** what follows a number: the end, or a character that is no digit of the base *)
Definition stops (base : Z) (l : list ascii) : Prop :=
  match l with [] => True | c :: _ => match digit_val c with Some d => base <= d | None => True end end.
Lemma get_digits_stop base w j l : stops base l → get_digits base w j l = (w, j, l).
Proof.
  destruct l as [|c l]; [done|]. cbn [stops get_digits]. destruct (digit_val c) as [d|]; [|done].
  intros. by destruct (Z.ltb_spec d base); [lia|].
Qed.
Lemma show_u64_get base n l : base = 10 ∨ base = 16 → is_u64 n → stops base l →
  ∃ i, 0 < i ∧ get_digits base 0 0 (show_u64 base n ++ l) = (n, i, l).
Proof.
  intros Hb Hn Hl. unfold show_u64. destruct (get_digits_show base 64 n 0 0 l) as (p & i & Hi & E); [lia| |].
  { unfold is_u64 in Hn. change (Z.of_nat 64) with 64. pose proof (Z.pow_le_mono_l 2 base 64 ltac:(lia)).
    change (2 ^ 64) with 18446744073709551616 in *. lia. }
  exists i. rewrite E, get_digits_stop by done. split; [by rewrite decide_False in Hi by done; lia|]. f_equal. f_equal. lia.
Qed.
Lemma show_head base n : base = 10 ∨ base = 16 → ∃ d l, show_u64 base n = digit_char d :: l ∧ 0 <= d < base.
Proof.
  intros Hb. unfold show_u64. generalize 63%nat as f. intros f. revert n.
  induction f as [|f IH]; intros n; cbn [digits_of].
  - exists (n mod base), []. split; [by destruct (_ <? _)|apply Z.mod_pos_bound; lia].
  - destruct (_ <? _); [exists (n mod base), []; split; [done|apply Z.mod_pos_bound; lia]|].
    destruct (IH (n / base)) as (d & l & E & Hd). cbn [digits_of] in E. rewrite E. by eexists d, _.
Qed.
Lemma digit_char_plain d : 0 <= d < 16 →
  is_space (digit_char d) = false ∧ (code (digit_char d) =? 45) = false ∧ (code (digit_char d) =? 43) = false.
Proof.
  intros Hd. assert (d = 0 ∨ d = 1 ∨ d = 2 ∨ d = 3 ∨ d = 4 ∨ d = 5 ∨ d = 6 ∨ d = 7 ∨ d = 8 ∨ d = 9 ∨ d = 10 ∨ d = 11 ∨
    d = 12 ∨ d = 13 ∨ d = 14 ∨ d = 15) as Hcase by lia. by decompose [or] Hcase; subst d.
Qed.

(** an extraction from a stream that is good passes over the blanks *)
Definition spaces (sp : list ascii) : Prop := Forall (λ c, is_space c = true) sp.
Lemma blanks_spaces n : spaces (blanks n).
Proof. by apply Forall_replicate. Qed.
Lemma skip_spaces sp l : spaces sp → skip_space (sp ++ l) = skip_space l.
Proof. intros Hs. induction Hs as [|x sp Hx Hs IH]; cbn; [done|]. by rewrite Hx. Qed.
Lemma sentry_spaces sp c l : spaces sp → is_space c = false →
  sentry (mkIstream (sp ++ c :: l) false false) = (mkIstream (c :: l) false false, true).
Proof.
  intros Hs Hc. unfold sentry. cbn [good negb andb s_rest s_eof s_fail]. rewrite skip_spaces by done. cbn. by rewrite Hc.
Qed.

Lemma get_hex sp x l old : spaces sp → is_u64 x → l ≠ [] → stops 16 l →
  get_u64 16 (mkIstream (sp ++ chars "0x" ++ show_u64 16 x ++ l) false false) old = (mkIstream l false false, x).
Proof.
  intros Hs Hx Hne Hl. unfold get_u64. change (chars "0x" ++ ?r) with (Ascii.ascii_of_nat 48 :: Ascii.ascii_of_nat 120 :: r).
  rewrite sentry_spaces by done. cbn [s_rest]. cbn [get_sign]. change (code (Ascii.ascii_of_nat 48)) with 48. cbn [Z.eqb Pos.eqb].
  unfold skip_0x. change (tolower (Ascii.ascii_of_nat 120)) with (Ascii.ascii_of_nat 120).
  change (code (Ascii.ascii_of_nat 48)) with 48. change (code (Ascii.ascii_of_nat 120)) with 120. cbn [Z.eqb Pos.eqb andb].
  destruct (show_u64_get 16 x l (or_intror eq_refl) Hx Hl) as (i & Hi & ->).
  destruct (Z.eqb_spec i 0); [lia|]. unfold is_u64 in Hx. destruct (Z.ltb_spec 18446744073709551615 x); [lia|].
  by destruct l.
Qed.
Lemma get_dec sp x l old : spaces sp → is_u64 x → l ≠ [] → stops 10 l →
  get_u64 10 (mkIstream (sp ++ show_u64 10 x ++ l) false false) old = (mkIstream l false false, x).
Proof.
  intros Hs Hx Hne Hl. unfold get_u64. destruct (show_u64_get 10 x l (or_introl eq_refl) Hx Hl) as (i & Hi & E).
  destruct (show_head 10 x) as (d & r & Er & Hd); [by left|]. rewrite Er in *. cbn [app] in *.
  destruct (digit_char_plain d) as (H1 & H2 & H3); [lia|]. rewrite sentry_spaces by done. cbn [s_rest get_sign].
  rewrite H2, H3. assert (skip_0x 10 (digit_char d :: r ++ l) = digit_char d :: r ++ l) as ->.
  { unfold skip_0x. by destruct (r ++ l). }
  rewrite E. destruct (Z.eqb_spec i 0); [lia|]. unfold is_u64 in Hx. destruct (Z.ltb_spec 18446744073709551615 x); [lia|].
  by destruct l.
Qed.
Lemma get_word_app w c l : Forall (λ x, is_space x = false) w → is_space c = true → get_word (w ++ c :: l) = (w, c :: l).
Proof. intros Hw Hc. induction Hw as [|x w Hx Hw IH]; cbn; [by rewrite Hc|]. by rewrite Hx, IH. Qed.
Lemma get_op sp m (b : bool) l : spaces sp →
  get_string (mkIstream (sp ++ chars (if b then "WRITE" else "READ") ++ blanks (S m) ++ l) false false) =
    (mkIstream (blanks (S m) ++ l) false false, chars (if b then "WRITE" else "READ")).
Proof.
  intros Hs. unfold get_string. cbn [blanks replicate]. rewrite <- (app_comm_cons (replicate m _)).
  destruct b; [change (chars "WRITE") with ([Ascii.ascii_of_nat 87] ++ chars "RITE")|
               change (chars "READ") with ([Ascii.ascii_of_nat 82] ++ chars "EAD")];
    rewrite <- app_assoc; cbn [app]; rewrite sentry_spaces by done; cbn [s_rest];
    rewrite app_comm_cons, get_word_app; try done; repeat constructor.
Qed.

Lemma get_line sp x l t : spaces sp → line_ok x →
  get_trans (mkIstream (sp ++ line_text x ++ l) false false) t = (mkIstream (newline :: l) false false, line_trans t x).
Proof.
  intros Hs [Ha Hc]. unfold get_trans, line_text. rewrite <- !app_assoc. cbn [app].
  rewrite get_hex; [|done|done|done|done]. rewrite get_op by apply blanks_spaces.
  rewrite get_dec; [|apply blanks_spaces|done|done|done]. unfold line_trans. by destruct (l_write x).
Qed.

(** ** Whole files *)
Fixpoint get_many (n : nat) (s : istream) (t : Transaction) : istream * list Transaction :=
  match n with
  | O => (s, [])
  | S n => let (s, t) := get_trans s t in let (s, l) := get_many n s t in (s, t :: l)
  end.
(** what the stream holds after some lines: the line ends of the last one, and the lines that follow *)
Definition after_lines (xs : list TraceLine) : istream := mkIstream (newline :: trace_text xs) false false.
Lemma trace_text_cons x xs : trace_text (x :: xs) = line_text x ++ trace_text xs.
Proof. done. Qed.
Lemma newline_space : spaces [newline].
Proof. by repeat constructor. Qed.
Lemma get_next_line x xs t : line_ok x → get_trans (after_lines (x :: xs)) t = (after_lines xs, line_trans t x).
Proof.
  intros Hx. unfold after_lines. rewrite trace_text_cons. apply (get_line [newline]); [apply newline_space|done].
Qed.
Lemma get_first_line x xs t : line_ok x →
  get_trans (istream_open (trace_text (x :: xs))) t = (after_lines xs, line_trans t x).
Proof. intros Hx. rewrite trace_text_cons. apply (get_line [] x); [constructor|done]. Qed.
(** at the end of the file an extraction fails: address and cycle keep their values, and the empty operation is a read *)
Lemma get_past_end t : get_trans (after_lines []) t = (mkIstream [] true true, t <| is_write := false |>).
Proof. destruct t. reflexivity. Qed.

(** C27. Writing and reading a trace agree: the lines that scripts/trace_gen.py prints - an address in base 16, READ or WRITE,
    a cycle, blanks between - are read back in order, every 64-bit value exactly. The line end of the last line
    keeps the file from being at its end: the extraction after it fails, leaves the address and the cycle of the last line in
    place and makes it a read. *)
Theorem trace_roundtrip (xs : list TraceLine) (t : Transaction) : Forall line_ok xs →
  let (s, l) := get_many (length xs) (istream_open (trace_text xs)) t in
  l = line_trans t <$> xs ∧ s.(s_eof) = false ∧ s.(s_fail) = false ∧
  get_trans s (default t (last l)) = (mkIstream [] true true, default t (last l) <| is_write := false |>).
Proof.
  intros Hxs. destruct Hxs as [|x xs Hx Hxs]; [by repeat (split; [done|])|]. cbn [length get_many]. rewrite get_first_line by done.
  assert (∀ xs t, Forall line_ok xs → get_many (length xs) (after_lines xs) t = (after_lines [], line_trans t <$> xs)) as Hmany.
  { clear. intros xs. induction xs as [|x xs IH]; intros t Hxs; [done|]. apply Forall_cons in Hxs as [Hx Hxs].
    cbn [length get_many]. by rewrite get_next_line, IH by done. }
  rewrite Hmany by done. split; [done|]. split; [done|]. split; [done|]. apply get_past_end.
Qed.
(** the first lines of tests/example.trace, with lower-case digits *)
Definition example_trace : list TraceLine :=
  [mkLine 536925632 false 30 0 1; mkLine 536440768 true 160 0 2; mkLine 536925696 false 165 0 0].
Lemma trace_roundtrip_witness :
  let (s, l) := get_many 3 (istream_open (trace_text example_trace)) (Transaction_new 0 false) in
  t_addr <$> l = [536925632; 536440768; 536925696] ∧ (get_trans s (default (Transaction_new 0 false) (last l))).2 =
    mkTransaction 536925696 165 0 false.
Proof.
  pose proof (trace_roundtrip example_trace (Transaction_new 0 false)) as Ht.
  assert (Forall line_ok example_trace) as Hok by (repeat (apply Forall_cons; split; [by repeat split|]); apply Forall_nil; done).
  specialize (Ht Hok). change (length example_trace) with 3%nat in Ht.
  destruct (get_many 3 _ _) as [s l]. destruct Ht as (-> & _ & _ & Hlast). by rewrite Hlast.
Defined.
