(* ===== verification/Dramsim3.v ===== *)
(** * DRAMsim3: the interface to a CPU (DRAMsim3/src/memory_system.h, memory_system.cc)

    [MemorySystem] reads its configuration and runs the memory that it names: the hybrid memory cube or a JEDEC
    system. The library header dramsim3.h shows the same methods to the simulator, which sees them through the class of
    [MemSysDramsim3]; here are the record behind it, the dispatch, and the proof that every
    configuration keeps the laws of that class. *)
From S2P Require Import Prelude Params MCache MCore MemSys MemSysDramsim3.
From S2P Require Import Common Config Timing Stats BankState ChannelState Controller DramSystem.
From S2P Require Import QueueSpec ControllerSpec DramSystemSpec Hmc HmcSpec.
Open Scope Z_scope.

(** ** State: the virtual calls of [BaseDRAMSystem] go to one of two subclasses *)
Inductive BaseDRAMSystem {G : Type} : Type :=
  | Jedec (d : JedecDRAMSystem G)
  | Cube (d : HMCMemorySystem G).
Arguments BaseDRAMSystem G : clear implicits.
Record DRAMsim3 {G : Type} := mkDRAMsim3 {
  config_ : Config;
  dram_system_ : BaseDRAMSystem G
}.
Arguments DRAMsim3 G : clear implicits.
Arguments mkDRAMsim3 {G}.

Section Ops.
Context {G : Type} `{Rng64 G} (B : Build) (wb_inf : bool).
Implicit Types (m : DRAMsim3 G) (s : Statics G).

(** [MemorySystem(config_file, output_dir, ...)]: a configuration, and the memory it asks for *)
Definition MemorySystem_of (c : Config) s : outcome (DRAMsim3 G) :=
  if IsHMC c then d ← HMCMemorySystem_new c s; Ret (mkDRAMsim3 c (Cube d))
  else d ← JedecDRAMSystem_new c s; Ret (mkDRAMsim3 c (Jedec d)).
Definition MemorySystem_new `{Strtod} (DirExist : string → bool) (r : INIReader) (output_dir : string) s :
    outcome (DRAMsim3 G) :=
  c ← Config_new DirExist r output_dir;
  MemorySystem_of c s.

Definition ms_WillAcceptTransaction m (hex_addr : Z) (is_write : bool) : outcome bool :=
  match m.(dram_system_) with
  | Jedec d => DramSystem.WillAcceptTransaction wb_inf m.(config_) d hex_addr is_write
  | Cube d => Ret (hmc_WillAcceptTransaction d hex_addr is_write)
  end.
Definition ms_AddTransaction m (hex_addr : Z) (is_write : bool) : outcome (DRAMsim3 G * bool) :=
  match m.(dram_system_) with
  | Jedec d =>
      r ← DramSystem.AddTransaction wb_inf m.(config_) d hex_addr is_write;
      Ret (m <| dram_system_ := Jedec r.1 |>, r.2)
  | Cube d =>
      r ← hmc_AddTransaction m.(config_) d hex_addr is_write;
      Ret (m <| dram_system_ := Cube r.1 |>, r.2)
  end.
Definition ms_ClockTick {W} (rd wr : W → Z → outcome W) m (w : W) : outcome (DRAMsim3 G * W) :=
  match m.(dram_system_) with
  | Jedec d =>
      r ← DramSystem.ClockTick B wb_inf m.(config_) rd wr d w;
      Ret (m <| dram_system_ := Jedec r.1 |>, r.2)
  | Cube d =>
      r ← hmc_ClockTick B wb_inf m.(config_) rd wr d w;
      Ret (m <| dram_system_ := Cube r.1 |>, r.2)
  end.

(** [ResetStats] and [PrintStats] are methods of the base class: they reach every controller; of the report only the
    final update of the statistics is modelled *)
Definition on_base m (f : JedecDRAMSystem G → outcome (JedecDRAMSystem G)) : outcome (DRAMsim3 G) :=
  match m.(dram_system_) with
  | Jedec d => d ← f d; Ret (m <| dram_system_ := Jedec d |>)
  | Cube d => b ← f d.(hmc_base); Ret (m <| dram_system_ := Cube (d <| hmc_base := b |>) |>)
  end.
Definition ms_ResetStats m : outcome (DRAMsim3 G) := on_base m DramSystem.ResetStats.
Definition PrintStats (c : Config) (d : JedecDRAMSystem G) : outcome (JedecDRAMSystem G) :=
  each_ctrl d (λ sh ctl, sh ← PrintFinalStats c sh; Ret (sh, ctl)).
Definition ms_PrintStats m : outcome (DRAMsim3 G) := on_base m (PrintStats m.(config_)).

Definition GetConfig m : Config := m.(config_).
Definition GetTCK m : double := m.(config_).(tCK).
Definition GetBusBits m : Z := m.(config_).(bus_width).
Definition GetBurstLength m : Z := m.(config_).(BL).
Definition GetQueueSize m : Z := m.(config_).(trans_queue_size).

Definition dramsim3_memory : MemorySystem (DRAMsim3 G) := {|
  MemSysDramsim3.WillAcceptTransaction := ms_WillAcceptTransaction;
  MemSysDramsim3.AddTransaction := ms_AddTransaction;
  MemSysDramsim3.ClockTick W rd wr m w := ms_ClockTick rd wr m w
|}.

(** ** Specification *)

(** a configuration that one of the two memories can run *)
Definition memory_config (c : Config) : Prop := if IsHMC c then hmc_config B c else system_config B c.
Record ms_ok m : Prop := {
  ms_config : memory_config m.(config_);
  ms_system : match m.(dram_system_) with
    | Jedec d => IsHMC m.(config_) = false ∧ jedec_ok B m.(config_) d
    | Cube d => IsHMC m.(config_) = true ∧ hmc_ok B m.(config_) d
    end
}.
Definition ms_ready m : Prop :=
  match m.(dram_system_) with Jedec d => jedec_ready d | Cube d => hmc_ready d end.
(** the reads that the callback still has to see *)
Definition ms_reads m : list Z :=
  match m.(dram_system_) with Jedec d => reads (held d.(ctrls_)) | Cube d => owed d.(hmc) end.

Lemma memory_config_system c : memory_config c → system_config B c.
Proof. unfold memory_config. destruct (IsHMC c); [by intros []|done]. Qed.
Lemma memory_config_case c b : memory_config c → IsHMC c = b → if b then hmc_config B c else system_config B c.
Proof. by intros ? <-. Qed.

Lemma MemorySystem_of_ok (c : Config) s : memory_config c → statics_ok s →
  returns (MemorySystem_of c s) (λ m, m.(config_) = c ∧ ms_ok m ∧ ms_ready m ∧ ms_reads m = []).
Proof.
  intros Hc Hs. unfold MemorySystem_of. pose proof (memory_config_case c _ Hc eq_refl) as Hc'.
  destruct (IsHMC c) eqn:Eh.
  - eapply returns_bind; [by apply (HMCMemorySystem_new_ok B c Hc')|]. intros d (H1 & H2 & H3 & H4 & H5 & _).
    apply returns_ret. split; [done|]. split; [split; [done|by split]|]. split; [|done]. split; [done|]. rewrite H5. lia.
  - unfold JedecDRAMSystem_new. rewrite Eh.
    eapply returns_bind; [by apply (new_ctrls_ok B c Hc')|]. intros d (H1 & H2 & H3).
    apply returns_ret. split; [done|]. split; [split; [done|by split]|]. split; [done|]. unfold ms_reads. cbn. by rewrite H3.
Qed.

Lemma ms_Add_ok m a w : ms_ok m → is_u64 a → ms_WillAcceptTransaction m a w = Ret true →
  ∃ m', ms_AddTransaction m a w = Ret (m', true) ∧ m'.(config_) = m.(config_) ∧ ms_ok m' ∧ (ms_ready m → ms_ready m') ∧
    ms_reads m' ≡ₚ (if w then [] else [a]) ++ ms_reads m.
Proof.
  destruct m as [c [d|d]]; intros [Hc [Eh Hd]] Ha Hw; cbn [config_ dram_system_] in *;
    unfold ms_AddTransaction, ms_WillAcceptTransaction, ms_ready, ms_reads in *; cbn [config_ dram_system_] in *;
    pose proof (memory_config_case _ _ Hc Eh) as Hcc; cbn iota in Hcc.
  - destruct (AddTransaction_ok B wb_inf c Hcc d a w Hd Ha Hw) as (d' & -> & H1 & H2 & H3).
    eexists. split; [done|]. split; [done|]. split; [by split|]. split; [done|].
    change (reads (held (ctrls_ d')) ≡ₚ (if w then [] else [a]) ++ reads (held (ctrls_ d))). rewrite H3. by destruct w.
  - injection Hw as Hw. destruct (hmc_Add_sound B c Hcc d a w Hd Ha Hw) as (d' & -> & H1 & H2 & H3).
    eexists. split; [done|]. split; [done|]. split; [by split|]. by split.
Qed.

Lemma ms_tick_ok {W} (rd wr : W → Z → outcome W) (pend : W → list Z → Prop) m w :
  ms_ok m → ms_ready m → (∀ w (l l' : list Z), l ≡ₚ l' → pend w l → pend w l') →
  (∀ w a (l : list Z), pend w (a :: l) → returns (rd w a) (λ w', pend w' l)) →
  (∀ w a (l : list Z), pend w l → returns (wr w a) (λ w', pend w' l)) → pend w (ms_reads m) →
  returns (ms_ClockTick rd wr m w) (λ r, r.1.(config_) = m.(config_) ∧ ms_ok r.1 ∧ pend r.2 (ms_reads r.1)).
Proof.
  destruct m as [c [d|d]]; intros [Hc [Eh Hd]] Hr Hperm Hrd Hwr Hp; cbn [config_ dram_system_] in *;
    unfold ms_ClockTick, ms_ready, ms_reads in *; cbn [config_ dram_system_] in *;
    pose proof (memory_config_case _ _ Hc Eh) as Hcc; cbn iota in Hcc.
  - eapply returns_bind.
    { apply (ClockTick_ok B wb_inf c Hcc rd wr (λ w ts, pend w (reads ts))); try done;
        [|intros w1 a l; apply Hrd|intros w1 a l; apply Hwr]. intros w1 l l' Hl. apply Hperm. by rewrite Hl. }
    intros [d' w'] [H1 H2]. apply returns_ret. split; [done|]. by split; [split|].
  - destruct Hd as [Hd Hcl], Hr as [Hr HD].
    eapply returns_bind; [apply (hmc_ClockTick_spec B wb_inf c Hcc rd wr pend Hperm Hrd Hwr d w Hd Hr Hcl Hp HD)|].
    intros [d' w'] (H1 & H2 & H3 & _). apply returns_ret. split; [done|]. by split; [split|].
Qed.

Definition dramsim3_laws : @MemorySystemLaws (DRAMsim3 G) dramsim3_memory.
Proof.
  refine (@Build_MemorySystemLaws (DRAMsim3 G) dramsim3_memory ms_reads ms_ok ms_ready _ _ _ _).
  - intros [c [d|d]] a w [Hc [Eh Hd]] Ha; [|by eexists]. by apply (WillAccept_ok B wb_inf c (memory_config_system _ Hc)).
  - intros m a Hm Ha Hw. destruct (ms_Add_ok m a false Hm Ha Hw) as (m' & E & _ & H1 & _ & H2). by exists m', true.
  - intros m a Hm Ha Hw. destruct (ms_Add_ok m a true Hm Ha Hw) as (m' & E & _ & H1 & _ & H2). by exists m', true.
  - intros W rd wr pend m w Hm Hr Hperm Hrd Hwr Hp.
    destruct (ms_tick_ok rd wr pend m w Hm Hr Hperm Hrd Hwr Hp) as (r & E & _ & H1 & H2). exists r. by split; [exact E|].
Defined.

(** the statistics change nothing else *)
Lemma on_base_ok m (f : JedecDRAMSystem G → outcome (JedecDRAMSystem G)) : ms_ok m →
  (∀ d, jedec_ok B m.(config_) d → returns (f d) (λ d', jedec_ok B m.(config_) d' ∧ held d'.(ctrls_) ≡ₚ held d.(ctrls_))) →
  returns (on_base m f) (λ m', ms_ok m' ∧ ms_reads m' ≡ₚ ms_reads m).
Proof.
  destruct m as [c [d|d]]; intros [Hc [Eh Hd]] Hf; cbn [config_ dram_system_] in *; unfold on_base; cbn [dram_system_].
  - eapply returns_bind; [by apply Hf|]. intros d' [H1 H2]. apply returns_ret. split; [by split|].
    change (reads (held (ctrls_ d')) ≡ₚ reads (held (ctrls_ d))). by rewrite H2.
  - destruct Hd as [[Hb Hfl] Hcl]. eapply returns_bind; [by apply Hf|]. intros b [H1 H2]. apply returns_ret.
    split; [|done]. split; [done|]. split; [done|]. split; [|done]. split; [done|].
    eapply flow_perm; [|exact Hfl]. change ((held (ctrls_ (hmc_base d))).*1 ≡ₚ (held (ctrls_ b)).*1). by rewrite H2.
Qed.
End Ops.

(** ** The simulator's memory over the real DRAMsim3 *)
Section Stack.
Context {G : Type} `{Rng64 G} (B : Build) (wb_inf : bool).
#[local] Instance stack_memory : MemorySystem (DRAMsim3 G) := dramsim3_memory B wb_inf.
#[local] Instance stack_laws : MemorySystemLaws (DRAMsim3 G) := dramsim3_laws B wb_inf.
Definition stack_ok {F} (P : Params) (m : MemSys3 (DRAMsim3 G)) (cores : list (MCore F)) : Prop := memsys3_ok P m cores.
Definition stack_new (P : Params) (c : Config) (s : Statics G) : outcome (MemSys3 (DRAMsim3 G)) :=
  mem ← MemorySystem_of c s; memsys3_new P mem.

(** C9. The whole stack, over a JEDEC memory or a cube whose configuration [memory_config] admits: without RFM,
    self-refresh and HBM dual commands, with alerts off or in a build that tracks no rows, row-press closing only with
    open pages and without MOPAC, staggered refreshes of bank sets only with a queue for each bank, sizes within their
    integers and an address layout that covers them. There the
    simulator's memory system over a new DRAMsim3 is constructed, consistent, ready for a cycle and without misses. From
    every consistent state, an access returns and is entered in the table of misses exactly when DRAMsim3 takes it; a
    cycle of a memory that is ready ([ms_ready]: every bank has its counters in range, [bank_counted], and the picosecond
    clock of a cube does not wrap in this cycle) returns and wakes the reorder-buffer entry of every read that leaves the table, and no other entry appears; a reset of the statistics
    returns and changes neither; and all of them keep the state consistent: the table holds exactly the reads
    that DRAMsim3 has not answered. *)
Theorem dramsim3_stack {F : Type} (P : Params) (c : Config) (s : Statics G) (cores : list (MCore F)) :
  0 < P.(LINESIZE) → memory_config B c → statics_ok s →
  returns (stack_new P c s) (λ m, stack_ok P m cores ∧ ms_ready m.(mainmem3) ∧ m.(mshr3) = ∅) ∧
  ∀ m cores, stack_ok P m cores →
    (∀ a ci ri ii wb, 0 <= a → a * P.(LINESIZE) < 18446744073709551616 → m.(mshr3) !! a = None →
       rob_ref cores (mkMshr ci ri ii) →
       ∃ m' ok, memsys3_access P m a ci ri ii wb = Ret (m', ok) ∧ stack_ok P m' cores ∧
         m'.(mshr3) = if ok : bool then <[a := mkMshr ci ri ii]> m.(mshr3) else m.(mshr3)) ∧
    (ms_ready m.(mainmem3) → ∃ m' (cores' : list (MCore F)), memsys3_cycle P m cores = Ret (m', cores') ∧
       stack_ok P m' cores' ∧ m'.(mshr3) ⊆ m.(mshr3) ∧
       ∀ a e, m.(mshr3) !! a = Some e → m'.(mshr3) !! a = None → rob_woken cores' e) ∧
    returns (ms_ResetStats m.(mainmem3)) (λ d, stack_ok P (m <| mainmem3 := d |>) cores).
Proof.
  intros HL Hc Hs. split.
  - unfold stack_new. eapply returns_bind; [by apply (MemorySystem_of_ok B c s Hc Hs)|]. intros mem (_ & H1 & H2 & H3).
    unfold memsys3_new. rewrite udiv_ok by lia. cbn [mbind outcome_bind]. apply returns_ret. split; [|done].
    split; cbn [mainmem3 mshr3]; [done|exact H1| |intros a e He; by rewrite lookup_empty in He].
    change (ms_reads mem ≡ₚ (λ a, a * LINESIZE P) <$> keys ∅). by rewrite H3.
  - intros m cs Hm. split; [|split].
    + intros a ci ri ii wb. by apply memsys3_access_ok.
    + intros Hr. by apply (memsys3_cycle_ok P m cs Hm).
    + destruct Hm as [M1 M2 M3 M4]. eapply returns_mono.
      { apply (on_base_ok B m.(mainmem3) DramSystem.ResetStats M2). intros d Hd.
        eapply returns_mono; [apply (each_ctrl_spec B _ (memory_config_system B _ (ms_config B _ M2)) false d)|].
        - done.
        - done.
        - intros sh ctl Hsh Hok _. apply returns_ret. split; [by apply ResetStats_spec|done].
        - by intros d' (H1 & H2 & _). }
      intros d [H1 H2]. split; [done|exact H1| |exact M4].
      change (ms_reads d ≡ₚ (λ a, a * LINESIZE P) <$> keys m.(mshr3)). by rewrite H2.
Qed.
End Stack.

Definition tiny_stack : outcome (MemSys3 (DRAMsim3 Z)) := stack_new default_params tiny_config tiny_statics.
Definition tiny_access (m : MemSys3 (DRAMsim3 Z)) : outcome (MemSys3 (DRAMsim3 Z) * bool) :=
  @memsys3_access _ (stack_memory plain_build false) default_params m 77 0 0 0 0.
Lemma tiny_access_taken : (m ← tiny_stack; r ← tiny_access m; Ret r.2) = Ret true.
Proof. vm_compute. reflexivity. Qed.
Lemma taken_inv {A R} (x : outcome A) (f : A → outcome (R * bool)) a r ok :
  (a ← x; r ← f a; Ret r.2) = Ret true → x = Ret a → f a = Ret (r, ok) → ok = true.
Proof. intros Hv -> E. cbn [mbind outcome_bind] in Hv. rewrite E in Hv. by injection Hv. Qed.
Lemma tiny_memory_config : memory_config plain_build tiny_config.
Proof. exact tiny_config_ok. Qed.
Lemma dramsim3_stack_witness : ∃ m m', tiny_stack = Ret m ∧ tiny_access m = Ret (m', true) ∧
  stack_ok plain_build false default_params m' [demo_core] ∧ m'.(mshr3) !! 77 = Some (mkMshr 0 0 0).
Proof.
  destruct (dramsim3_stack plain_build false default_params tiny_config tiny_statics [demo_core]) as [Hnew Hrun];
    [reflexivity|exact tiny_memory_config|discriminate|].
  destruct Hnew as (m & Em & Hm & _ & Ht). destruct (Hrun m [demo_core] Hm) as (Hacc & _).
  destruct (Hacc 77 0 0 0 0) as (m' & ok & E & Hm' & Et);
    [discriminate|reflexivity|rewrite Ht; apply lookup_empty|exact demo_rob_ref|].
  assert (ok = true) as -> by exact (taken_inv tiny_stack tiny_access m m' ok tiny_access_taken Em E).
  exists m, m'. split; [exact Em|]. split; [exact E|]. split; [exact Hm'|].
  rewrite Et, Ht. apply lookup_insert_eq.
Defined.
