(* ===== verification/Cpu.v ===== *)
(** * DRAMsim3: the stand-alone driver (DRAMsim3/src/cpu.h, cpu.cc, main.cc, covert_channel.cc)

    The four processors that drive a memory system on their own - random requests, a stream over three arrays, a trace, and the
    two ends of a covert channel - and the loops of the two programs. The callbacks of a CPU do nothing. Members that a
    constructor leaves without a value are given 0 where they are set before they are read, and are a parameter otherwise. *)
From S2P Require Import Prelude Params MCache MCore MemSys MemSysDramsim3.
From S2P Require Import Common Trace Config Timing Stats BankState ChannelState Controller DramSystem.
From S2P Require Import QueueSpec ControllerSpec DramSystemSpec Hmc HmcSpec Dramsim3.
Open Scope Z_scope.

(** ** The processors *)
Record CPU {D : Type} := mkCPU { memory_system_ : D; clk_ : Z }.
Arguments CPU D : clear implicits.
Arguments mkCPU {D}.
Record RandomCPU {D G : Type} := mkRandomCPU {
  random_cpu : CPU D; last_addr_ : Z; last_write_ : bool; random_gen : G; random_next_ : bool
}.
Arguments RandomCPU D G : clear implicits.
Record StreamCPU {D G : Type} := mkStreamCPU {
  stream_cpu : CPU D; addr_a_ : Z; addr_b_ : Z; addr_c_ : Z; offset_ : Z; stream_gen : G;
  inserted_a_ : bool; inserted_b_ : bool; inserted_c_ : bool
}.
Arguments StreamCPU D G : clear implicits.
Record TraceBasedCPU {D : Type} := mkTraceBasedCPU {
  trace_cpu : CPU D; trace_file_ : istream; trans_ : Transaction; get_next_ : bool
}.
Arguments TraceBasedCPU D : clear implicits.
Record CovChCPU {D G : Type} := mkCovChCPU {
  cov_cpu : CPU D; cov_gen : G;
  ref_window_ : Z; ref_window_idx_ : Z; prev_window_idx_ : Z;
  send_init_ : bool; send_addr_ : Z; send_row_idx_ : Z; send_window_reqs_ : Z; last_send_req_clk_ : Z;
  send_limit_ : Z; send_req_dist_ : Z; send0_limit_ : Z; send0_req_dist_ : Z; send1_limit_ : Z; send1_req_dist_ : Z;
  recv_addr_ : Z; recv_row_idx_ : Z; recv_window_reqs_ : Z; last_recv_req_clk_ : Z; recv_limit_ : Z; recv_req_dist_ : Z
}.
Arguments CovChCPU D G : clear implicits.

Definition array_size_ : Z := 2097152.
Definition stride_ : Z := 64.
Definition send_init_reqs_ : list Z := [70; 42; 48; 16; 16].
Definition warmup_idx_ : Z := 2.
Definition spill_buffer_ : Z := 300.
Definition recv_footer_ : Z := 150.
Definition row_offset_ : Z := 524288.
Definition max_rows_ : Z := 100.

Section Cpu.
Context {D : Type} `{HD : MemorySystem D} {G : Type} `{HG : Rng64 G}.
Implicit Types (m : D).

Definition CPU_new m : CPU D := mkCPU m 0.
Definition ReadCallBack (w : unit) (addr : Z) : outcome unit := Ret w.
Definition WriteCallBack (w : unit) (addr : Z) : outcome unit := Ret w.
Definition memory_tick m : outcome D := r ← MemSysDramsim3.ClockTick ReadCallBack WriteCallBack m tt; Ret r.1.
(** [if (WillAcceptTransaction(a, w)) AddTransaction(a, w);] and whether it was *)
Definition offer m (a : Z) (w : bool) : outcome (D * bool) :=
  ok ← MemSysDramsim3.WillAcceptTransaction m a w;
  if ok : bool then r ← MemSysDramsim3.AddTransaction m a w; Ret (r.1, true) else Ret (m, false).
(** [clk_++] *)
Definition next_clk (c : CPU D) m : CPU D := mkCPU m (u64 (c.(clk_) + 1)).

(** *** Random requests *)
Definition RandomCPU_new m (g : G) : RandomCPU D G := mkRandomCPU _ _ (CPU_new m) 0 false g true.
Definition RandomCPU_ClockTick (r : RandomCPU D G) : outcome (RandomCPU D G) :=
  m ← memory_tick r.(random_cpu).(memory_system_);
  let r := if r.(random_next_) then
             let (a, g) := rng r.(random_gen) in
             let (x, g) := rng g in
             r <| last_addr_ := a |> <| last_write_ := x mod 3 =? 0 |> <| random_gen := g |>
           else r in
  o ← offer m r.(last_addr_) r.(last_write_);
  Ret (r <| random_next_ := o.2 |> <| random_cpu := next_clk r.(random_cpu) o.1 |>).

(** *** A stream: read a and b, write c *)
Definition StreamCPU_new m (g : G) : StreamCPU D G := mkStreamCPU _ _ (CPU_new m) 0 0 0 0 g false false false.
Definition new_arrays (r : StreamCPU D G) : StreamCPU D G :=
  let (a, g) := rng r.(stream_gen) in
  let (b, g) := rng g in
  let (c, g) := rng g in
  r <| addr_a_ := a |> <| addr_b_ := b |> <| addr_c_ := c |> <| stream_gen := g |> <| offset_ := 0 |>.
Definition insert_once m (inserted : bool) (a : Z) (w : bool) : outcome (D * bool) :=
  if inserted then Ret (m, true) else offer m a w.
Definition StreamCPU_ClockTick (r : StreamCPU D G) : outcome (StreamCPU D G) :=
  m ← memory_tick r.(stream_cpu).(memory_system_);
  let r := if (array_size_ <=? r.(offset_)) || (r.(stream_cpu).(clk_) =? 0) then new_arrays r else r in
  a ← insert_once m r.(inserted_a_) (u64 (r.(addr_a_) + r.(offset_))) false;
  b ← insert_once a.1 r.(inserted_b_) (u64 (r.(addr_b_) + r.(offset_))) false;
  c ← insert_once b.1 r.(inserted_c_) (u64 (r.(addr_c_) + r.(offset_))) true;
  let r := r <| stream_cpu := next_clk r.(stream_cpu) c.1 |> in
  Ret (if a.2 && b.2 && c.2 then
         r <| offset_ ::= λ o, u64 (o + stride_) |> <| inserted_a_ := false |> <| inserted_b_ := false |> <| inserted_c_ := false |>
       else r <| inserted_a_ := a.2 |> <| inserted_b_ := b.2 |> <| inserted_c_ := c.2 |>).

(** *** A trace; [t0] is the transaction before anything is read *)
Definition TraceBasedCPU_new m (file : option (list ascii)) (t0 : Transaction) : outcome (TraceBasedCPU D) :=
  match file with
  | None => AbruptExit
  | Some text => Ret (mkTraceBasedCPU _ (CPU_new m) (istream_open text) t0 true)
  end.
Definition TraceBasedCPU_ClockTick (r : TraceBasedCPU D) : outcome (TraceBasedCPU D) :=
  m ← memory_tick r.(trace_cpu).(memory_system_);
  let clk := r.(trace_cpu).(clk_) in
  if negb r.(trace_file_).(s_eof) then
    let r := if r.(get_next_) then
               let (s, t) := get_trans r.(trace_file_) r.(trans_) in
               r <| trace_file_ := s |> <| trans_ := t |> <| get_next_ := false |>
             else r in
    if r.(trans_).(added_cycle) <=? clk then
      o ← offer m r.(trans_).(t_addr) r.(trans_).(is_write);
      Ret (r <| get_next_ := o.2 |> <| trace_cpu := next_clk r.(trace_cpu) o.1 |>)
    else Ret (r <| trace_cpu := next_clk r.(trace_cpu) m |>)
  else Ret (r <| trace_cpu := next_clk r.(trace_cpu) m |>).

(** *** The covert channel; [c] is the configuration of the memory system *)
Section CovCh.
Context (c : Config).
Implicit Types (r : CovChCPU D G).

Definition CovChCPU_new m (g : G) : CovChCPU D G :=
  mkCovChCPU _ _ (CPU_new m) g 0 0 18446744073709551615 false 0 0 0 0 0 0 0 0 0 0 0 0 0 0 0 0.
Definition clear_bits (n : Z) : Z := Z.lxor n 18446744073709551615.
(** the cycles of a window that are left after [used] of them, shared among [limit] requests *)
Definition request_distance (used limit : Z) : outcome Z :=
  udiv (u64 (u64 (i32 (c.(tREFI) - c.(tRFC)) - spill_buffer_) - used)) limit.
Definition CovChCPU_Init r : outcome (CovChCPU D G) :=
  let ch_mask := clear_bits 8192 in
  let size_mask := 34359738367 in
  let (x, g) := rng r.(cov_gen) in
  let base_addr := Z.land (Z.land x ch_mask) size_mask in
  let recv_addr := Z.land base_addr (clear_bits 507904) in
  AddressMapping c c.(mop_size) recv_addr;;
  let recv_limit := u64 c.(ref_raa_decrement) in
  recv_dist ← request_distance recv_footer_ recv_limit;
  let send_addr := Z.land base_addr (clear_bits 245760) in
  AddressMapping c c.(mop_size) send_addr;;
  let send0_limit := u64 c.(ref_raa_decrement) in
  send0_dist ← request_distance 0 send0_limit;
  let send1_limit := u64 (i32 (c.(rfm_raa_decrement) + c.(ref_raa_decrement))) in
  send1_dist ← request_distance (recv_footer_ + u64 (recv_dist * 2)) send1_limit;
  Ret (r <| cov_gen := g |> <| recv_addr_ := recv_addr |> <| recv_limit_ := recv_limit |> <| recv_req_dist_ := recv_dist |>
         <| send_init_ := false |> <| send_addr_ := send_addr |> <| send0_limit_ := send0_limit |>
         <| send0_req_dist_ := send0_dist |> <| send1_limit_ := send1_limit |> <| send1_req_dist_ := send1_dist |>).

(** [prev_window_idx_ != ref_window_idx_]: the first tick of a window *)
Definition new_window r : bool := negb (r.(prev_window_idx_) =? r.(ref_window_idx_)).
Definition before_spill r : bool := r.(ref_window_) <? u64 (spill_buffer_ + u64 c.(tRFC)).
Definition too_early r (last dist : Z) : bool := u64 (r.(cov_cpu).(clk_) - last) <? dist.

(** the requests of the first windows, before [send_init_]: [inl] goes on, [inr] returns *)
Definition send_warmup r : outcome (CovChCPU D G + CovChCPU D G) :=
  if r.(send_init_) then Ret (inl r)
  else
    let w := u64 (r.(ref_window_idx_) - warmup_idx_) in
    if zlen send_init_reqs_ <=? w then Ret (inl (r <| send_init_ := true |>))
    else n ← aget send_init_reqs_ w; Ret (if n <=? r.(send_window_reqs_) then inr r else inl r).
(** a random bit for each window *)
Definition send_bit r : CovChCPU D G :=
  if new_window r then
    let (x, g) := rng r.(cov_gen) in
    if x mod 2 =? 0 then r <| cov_gen := g |> <| send_limit_ := r.(send0_limit_) |> <| send_req_dist_ := r.(send0_req_dist_) |>
    else r <| cov_gen := g |> <| send_limit_ := r.(send1_limit_) |> <| send_req_dist_ := r.(send1_req_dist_) |>
  else r.
Definition send_request r : outcome (CovChCPU D G) :=
  o ← offer r.(cov_cpu).(memory_system_) (u64 (r.(send_addr_) + u64 (r.(send_row_idx_) * row_offset_))) false;
  if o.2 : bool then
    row ← umod (u64 (r.(send_row_idx_) + 1)) max_rows_;
    Ret (r <| cov_cpu := mkCPU o.1 r.(cov_cpu).(clk_) |> <| send_row_idx_ := row |>
           <| send_window_reqs_ ::= λ n, u64 (n + 1) |> <| last_send_req_clk_ := r.(cov_cpu).(clk_) |>)
  else Ret r.
Definition TickSend r : outcome (CovChCPU D G) :=
  let r := if new_window r then r <| send_window_reqs_ := 0 |> else r in
  s ← send_warmup r;
  match s with
  | inr r => Ret r
  | inl r =>
      if r.(send_init_) then
        let r := send_bit r in
        if (r.(send_limit_) <=? r.(send_window_reqs_)) || before_spill r ||
           too_early r r.(last_send_req_clk_) r.(send_req_dist_) then Ret r
        else send_request r
      else send_request r
  end.
Definition recv_request r : outcome (CovChCPU D G) :=
  o ← offer r.(cov_cpu).(memory_system_) (u64 (r.(recv_addr_) + u64 (r.(recv_row_idx_) * row_offset_))) false;
  if o.2 : bool then
    row ← umod (u64 (r.(recv_row_idx_) + 1)) max_rows_;
    Ret (r <| cov_cpu := mkCPU o.1 r.(cov_cpu).(clk_) |> <| recv_row_idx_ := row |>
           <| recv_window_reqs_ ::= λ n, u64 (n + 1) |> <| last_recv_req_clk_ := r.(cov_cpu).(clk_) |>)
  else Ret r.
Definition TickRecv r : outcome (CovChCPU D G) :=
  let r := if new_window r then r <| recv_window_reqs_ := 0 |> else r in
  if negb r.(send_init_) || before_spill r || too_early r r.(last_recv_req_clk_) r.(recv_req_dist_) ||
     (u64 c.(ref_raa_decrement) <=? r.(recv_window_reqs_)) then Ret r
  else recv_request r.
Definition CovChCPU_ClockTick r : outcome (CovChCPU D G) :=
  m ← memory_tick r.(cov_cpu).(memory_system_);
  let clk := r.(cov_cpu).(clk_) in
  window ← umod clk (u64 c.(tREFI));
  idx ← udiv clk (u64 c.(tREFI));
  let r := r <| cov_cpu := mkCPU m clk |> <| ref_window_ := window |> <| ref_window_idx_ := idx |> in
  r ← (if clk <? u64 (u64 c.(tREFI) * warmup_idx_) then Ret r else r ← TickSend r; TickRecv r);
  Ret (r <| prev_window_idx_ := r.(ref_window_idx_) |> <| cov_cpu := next_clk r.(cov_cpu) r.(cov_cpu).(memory_system_) |>).
End CovCh.

(** [for (clk = 0; clk < cycles; clk++) cpu->ClockTick();] *)
Definition run {S} (cycles : Z) (tick : S → outcome S) (s : S) : outcome S := for_ (seqZ 0 cycles) s (λ s _, tick s).
End Cpu.

(** ** The two programs, from the values of their arguments *)
Record Args := mkArgs { a_cycles : Z; a_output_dir : string; a_stream_type : string; a_trace_file : string; a_config : string }.
Section Main.
Context {G : Type} `{HG : Rng64 G} (B : Build) (wb_inf : bool) `{Strtod} (DirExist : string → bool).
(** the files: an INI file as the reader sees it, a text or nothing *)
Context (ReadIni : string → INIReader) (ReadFile : string → option (list ascii)).
Notation tick_memory := (@dramsim3_memory G HG B wb_inf).

(** the memory system of a run, after [PrintStats] *)
Definition report (c : CPU (DRAMsim3 G)) : outcome (DRAMsim3 G) := ms_PrintStats c.(memory_system_).
Definition dramsim3main (a : Args) (s : Statics G) (g : G) (t0 : Transaction) : outcome (DRAMsim3 G) :=
  if decide (a.(a_config) = ""%string) then Fault (Exit 1)
  else
    m ← MemorySystem_new DirExist (ReadIni a.(a_config)) a.(a_output_dir) s;
    if negb (bool_decide (a.(a_trace_file) = ""%string)) then
      r ← TraceBasedCPU_new m (ReadFile a.(a_trace_file)) t0;
      r ← run a.(a_cycles) (@TraceBasedCPU_ClockTick _ tick_memory) r;
      report r.(trace_cpu)
    else if bool_decide (a.(a_stream_type) = "stream"%string) || bool_decide (a.(a_stream_type) = "s"%string) then
      r ← run a.(a_cycles) (@StreamCPU_ClockTick _ tick_memory G HG) (StreamCPU_new m g);
      report r.(stream_cpu)
    else
      r ← run a.(a_cycles) (@RandomCPU_ClockTick _ tick_memory G HG) (RandomCPU_new m g);
      report r.(random_cpu).
Definition covert_channel (a : Args) (s : Statics G) (g : G) : outcome (DRAMsim3 G) :=
  if decide (a.(a_config) = ""%string) then Fault (Exit 1)
  else
    m ← MemorySystem_new DirExist (ReadIni a.(a_config)) a.(a_output_dir) s;
    let c := GetConfig m in
    r ← CovChCPU_Init c (CovChCPU_new m g);
    r ← run a.(a_cycles) (@CovChCPU_ClockTick _ tick_memory G HG c) r;
    report r.(cov_cpu).
End Main.
