(* ===== verification/CpuSpec.v ===== *)
(** * What the processors of the stand-alone driver ask of their memory ([Cpu])

    A memory that also records every transaction it is given, with the tick, stands for any memory with the laws of
    [MemSysDramsim3]; the theorems describe the record of a run, over every run in which the memory is ready for its ticks. *)
From S2P Require Import Prelude Params MCache MCore MemSys MemSysDramsim3.
From S2P Require Import Common Trace Config Timing Stats BankState ChannelState Controller DramSystem.
From S2P Require Import QueueSpec ControllerSpec DramSystemSpec Hmc HmcSpec Dramsim3 Cpu.
Open Scope Z_scope.

(** ** A memory that records *)
Record Recorded {D : Type} := mkRecorded { r_mem : D; r_log : list (Z * (Z * bool)); r_now : Z }.
Arguments Recorded D : clear implicits.
Arguments mkRecorded {D}.
(** the first tick has number 0, as [clk_] *)
Definition record_of {D} (m : D) : Recorded D := mkRecorded m [] (-1).

Section Recorder.
Context {D : Type} `{HD : MemorySystem D}.
#[export] Instance recorded_memory : MemorySystem (Recorded D) := {|
  MemSysDramsim3.WillAcceptTransaction d a w := MemSysDramsim3.WillAcceptTransaction d.(r_mem) a w;
  MemSysDramsim3.AddTransaction d a w :=
    r ← MemSysDramsim3.AddTransaction d.(r_mem) a w;
    Ret (mkRecorded r.1 (d.(r_log) ++ [(d.(r_now), (a, w))]) d.(r_now), r.2);
  MemSysDramsim3.ClockTick W rd wr d w :=
    r ← MemSysDramsim3.ClockTick rd wr d.(r_mem) w;
    Ret (mkRecorded r.1 d.(r_log) (d.(r_now) + 1), r.2)
|}.
Context `{HL : !MemorySystemLaws D}.
Implicit Types (d : Recorded D).

Lemma memory_tick_ok d : sound d.(r_mem) → ready d.(r_mem) →
  returns (memory_tick d) (λ d', sound d'.(r_mem) ∧ d'.(r_log) = d.(r_log) ∧ d'.(r_now) = d.(r_now) + 1).
Proof.
  intros Hs Hr. unfold memory_tick. cbn [MemSysDramsim3.ClockTick recorded_memory].
  destruct (ClockTick_callbacks unit ReadCallBack WriteCallBack (λ _ _, True) d.(r_mem) tt Hs Hr) as ([m w] & -> & Hs' & _);
    try done; [intros; by apply returns_ret|intros; by apply returns_ret|].
  cbn [mbind outcome_bind fst snd] in *. by apply returns_ret.
Qed.
(** a request is recorded exactly when the memory takes it *)
Definition offered d (a : Z) (w : bool) (o : Recorded D * bool) : Prop :=
  sound o.1.(r_mem) ∧ o.1.(r_now) = d.(r_now) ∧
  o.1.(r_log) = (if o.2 then d.(r_log) ++ [(d.(r_now), (a, w))] else d.(r_log)) ∧
  MemSysDramsim3.WillAcceptTransaction d.(r_mem) a w = Ret o.2.
Lemma offer_ok d a w : sound d.(r_mem) → is_u64 a → returns (offer d a w) (offered d a w).
Proof.
  intros Hs Ha. unfold offer, offered. cbn [MemSysDramsim3.WillAcceptTransaction MemSysDramsim3.AddTransaction recorded_memory].
  destruct (WillAccept_answers d.(r_mem) a w Hs Ha) as [[] E]; rewrite E; cbn [mbind outcome_bind]; [|by apply returns_ret].
  assert (∃ m b, MemSysDramsim3.AddTransaction d.(r_mem) a w = Ret (m, b) ∧ sound m) as (m & b & -> & Hm).
  { destruct w; [destruct (AddTransaction_write _ _ Hs Ha E) as (m & b & ? & ? & _)|
      destruct (AddTransaction_read _ _ Hs Ha E) as (m & b & ? & ? & _)]; by exists m, b. }
  cbn [mbind outcome_bind fst snd]. by apply returns_ret.
Qed.
End Recorder.

(** ** Runs: the memory is ready at the start of each tick *)
Section Runs.
Context {S : Type} (tick : S → outcome S) (rdy : S → Prop).
Inductive runs (s : S) : nat → S → Prop :=
  | runs_0 : runs s 0 s
  | runs_S n s1 s2 : runs s n s1 → rdy s1 → tick s1 = Ret s2 → runs s (Datatypes.S n) s2.
(** an invariant of the ticks holds in every state of a run, and the run can go on wherever the memory is ready *)
Lemma runs_inv (N : Z) (I : Z → S → Prop) s n s' : runs s n s' → I 0 s →
  (∀ k s, 0 <= k < N → I k s → rdy s → returns (tick s) (I (k + 1))) → Z.of_nat n < N → I (Z.of_nat n) s' ∧ (rdy s' → returns (tick s') (λ _, True)).
Proof.
  intros Hr H0 Hstep Hn. assert (I (Z.of_nat n) s') as HI.
  { induction Hr as [|n s1 s2 Hr IH Hrdy E]; [done|]. rewrite Nat2Z.inj_succ in *.
    apply (returns_inv _ _ _ (Hstep (Z.of_nat n) s1 ltac:(lia) (IH ltac:(lia)) Hrdy) E). }
  split; [done|]. intros Hrdy. eapply returns_mono; [by apply (Hstep (Z.of_nat n)); [lia|..]|done].
Qed.
End Runs.
Arguments runs {S} tick rdy s n s'.
Definition ready_cpu {D} `{MemorySystemLaws D} (c : CPU (Recorded D)) : Prop := ready c.(memory_system_).(r_mem).

(** ** Random requests *)
Section Random.
Context {D : Type} `{HL : MemorySystemLaws D} {G : Type} `{HG : Rng64 G}.
(** the first [n] requests of a generator, and what is left of it *)
Definition next_request (g : G) : (Z * bool) * G :=
  let (a, g) := rng g in let (x, g) := rng g in ((a, x mod 3 =? 0), g).
Fixpoint requests (n : nat) (g : G) : list (Z * bool) :=
  match n with O => [] | S n => let (q, g) := next_request g in q :: requests n g end.
Fixpoint after_requests (n : nat) (g : G) : G :=
  match n with O => g | S n => after_requests n (next_request g).2 end.
Lemma requests_snoc n g : requests (S n) g = requests n g ++ [(next_request (after_requests n g)).1] ∧
  after_requests (S n) g = (next_request (after_requests n g)).2.
Proof.
  revert g. induction n as [|n IH]; intros g; cbn; [by destruct (next_request g)|].
  destruct (next_request g) as [q g1] eqn:E. cbn. destruct (IH g1) as [E1 E2]. cbn in E1, E2. split; [|exact E2].
  by rewrite E1.
Qed.
Definition issued (d : Recorded D) : list (Z * bool) := snd <$> d.(r_log).

Definition random_inv (g : G) (n : Z) (r : RandomCPU (Recorded D) G) : Prop :=
  let d := r.(random_cpu).(memory_system_) in
  sound d.(r_mem) ∧ ∃ k, r.(random_gen) = after_requests k g ∧ zlen d.(r_log) <= n ∧
    (r.(random_next_) = false → is_u64 r.(last_addr_)) ∧
    requests k g = issued d ++ (if r.(random_next_) then [] else [(r.(last_addr_), r.(last_write_))]).
Lemma issued_snoc (d d' : Recorded D) e : d'.(r_log) = d.(r_log) ++ [e] → issued d' = issued d ++ [e.2].
Proof. unfold issued. intros ->. by rewrite fmap_app. Qed.

Lemma random_tick g n r : random_inv g n r → ready_cpu r.(random_cpu) → returns (RandomCPU_ClockTick r) (random_inv g (n + 1)).
Proof.
  intros (Hs & k & Hg & Hn & Ha & Hq) Hr. unfold RandomCPU_ClockTick.
  eapply returns_bind; [by apply memory_tick_ok|]. intros d (Hs1 & Hl1 & _).
  set (r1 := if random_next_ r then _ else r).
  assert (∃ k1, r1.(random_gen) = after_requests k1 g ∧ is_u64 r1.(last_addr_) ∧ r1.(random_cpu) = r.(random_cpu) ∧
    requests k1 g = issued d ++ [(r1.(last_addr_), r1.(last_write_))]) as (k1 & Hg1 & Ha1 & Hc1 & Hq1).
  { unfold issued. rewrite Hl1. fold (issued r.(random_cpu).(memory_system_)). subst r1. destruct (random_next_ r) eqn:En.
    - destruct (requests_snoc k g) as [E1 E2]. rewrite Hq, app_nil_r, <- Hg in E1. rewrite <- Hg in E2.
      unfold next_request in E1, E2. pose proof (rng_range (random_gen r)) as Hx.
      destruct (rng (random_gen r)) as [a g1] eqn:Ea. destruct (rng g1) as [x g2]. cbn [fst snd] in *.
      exists (S k). split; [done|]. split; [exact Hx|]. by split.
    - exists k. split; [done|]. split; [by apply Ha|]. by split. }
  clearbody r1. eapply returns_bind; [by apply offer_ok|]. intros [d2 ok] (Hs2 & _ & Hl2 & _). cbn [fst snd] in *.
  apply returns_ret. split; [exact Hs2|]. exists k1. split; [exact Hg1|]. rewrite Hc1.
  change (zlen (r_log d2) <= n + 1 ∧ (ok = false → is_u64 (last_addr_ r1)) ∧
    requests k1 g = issued d2 ++ (if ok then [] else [(last_addr_ r1, last_write_ r1)])).
  assert (zlen d2.(r_log) <= n + 1) as Hz.
  { rewrite Hl2, Hl1. destruct ok; [unfold zlen in *; rewrite length_app; cbn [length]; lia|lia]. }
  split; [done|]. split; [done|]. destruct ok.
  - rewrite app_nil_r, Hq1. symmetry. by apply (issued_snoc d d2 _ Hl2).
  - unfold issued in *. by rewrite Hl2.
Qed.
End Random.

(** ** The stream *)
Section Stream.
Context {D : Type} `{HL : MemorySystemLaws D} {G : Type} `{HG : Rng64 G}.
Implicit Types (r : StreamCPU (Recorded D) G).

(** the bases of the arrays after [q] draws, and what each element asks for: 32768 elements of 64 bytes in a round of arrays *)
Definition draw (g : G) : (Z * Z * Z) * G :=
  let (a, g) := rng g in let (b, g) := rng g in let (c, g) := rng g in (a, b, c, g).
Definition after_draws (q : Z) (g : G) : G := Nat.iter (Z.to_nat q) (λ g, (draw g).2) g.
Definition element_at (bases : Z * Z * Z) (i : Z) : list (Z * bool) :=
  let '(a, b, c) := bases in [(u64 (a + 64 * i), false); (u64 (b + 64 * i), false); (u64 (c + 64 * i), true)].
Definition element (g : G) (k : Z) : list (Z * bool) :=
  element_at (draw (after_draws (k / 32768) g)).1 (k mod 32768).

(** the part of an element that the flags say is done *)
Definition pick (fs : list bool) (e : list (Z * bool)) : list (Z * bool) := concat (zip_with (λ (f : bool) x, if f then [x] else []) fs e).
Definition flags r : list bool := [r.(inserted_a_); r.(inserted_b_); r.(inserted_c_)].
Record streaming (g : G) (k : Z) (part : list (Z * bool)) (log : list (Z * bool)) : Prop := {
  sg_pos : 0 <= k;
  sg_log : ∃ ls, log = concat ls ++ part ∧ Forall2 (≡ₚ) ls (element g <$> seqZ 0 k)
}.
(** the arrays of round [q - 1], at its element [i] *)
Record stream_at (g : G) (k q i : Z) r : Prop := {
  sa_round : 1 <= q ∧ 0 <= i <= 32768 ∧ k = 32768 * (q - 1) + i;
  sa_gen : r.(stream_gen) = after_draws q g;
  sa_bases : (r.(addr_a_), r.(addr_b_), r.(addr_c_)) = (draw (after_draws (q - 1) g)).1;
  sa_offset : r.(offset_) = 64 * i;
  sa_flags : i = 32768 → flags r = [false; false; false]
}.
Definition stream_inv (g : G) (n : Z) r : Prop :=
  let d := r.(stream_cpu).(memory_system_) in
  sound d.(r_mem) ∧ r.(stream_cpu).(clk_) = n ∧
  ∃ k part, streaming g k part (issued d) ∧ part ≡ₚ pick (flags r) (element g k) ∧
    if n =? 0 then k = 0 ∧ r.(stream_gen) = g ∧ flags r = [false; false; false] else ∃ q i, stream_at g k q i r.

Lemma after_draws_S q g : 0 <= q → after_draws (q + 1) g = (draw (after_draws q g)).2.
Proof. intros Hq. unfold after_draws. by rewrite Z2Nat.inj_add, Nat.add_comm by lia. Qed.
Lemma draw_u64 g a b c : (draw g).1 = (a, b, c) → is_u64 a ∧ is_u64 b ∧ is_u64 c.
Proof.
  unfold draw. pose proof (rng_range g). destruct (rng g) as [x g1]. pose proof (rng_range g1). destruct (rng g1) as [y g2].
  pose proof (rng_range g2). destruct (rng g2) as [z g3]. cbn in *. by intros [= <- <- <-].
Qed.
Lemma new_arrays_spec r : (addr_a_ (new_arrays r), addr_b_ (new_arrays r), addr_c_ (new_arrays r)) = (draw (stream_gen r)).1 ∧
  stream_gen (new_arrays r) = (draw (stream_gen r)).2 ∧ offset_ (new_arrays r) = 0 ∧ flags (new_arrays r) = flags r ∧
  stream_cpu (new_arrays r) = stream_cpu r.
Proof.
  unfold new_arrays, draw. destruct (rng (stream_gen r)) as [a g1]. destruct (rng g1) as [b g2]. by destruct (rng g2) as [c g3].
Qed.

(** at the start of a cycle: arrays are drawn when a round is over, and at clock 0 *)
Lemma stream_draw g n r : 0 <= n → stream_inv g n r →
  let r1 := if (array_size_ <=? r.(offset_)) || (r.(stream_cpu).(clk_) =? 0) then new_arrays r else r in
  ∃ k q i part, streaming g k part (issued r.(stream_cpu).(memory_system_)) ∧ part ≡ₚ pick (flags r1) (element g k) ∧
    stream_at g k q i r1 ∧ i < 32768 ∧ r1.(stream_cpu) = r.(stream_cpu).
Proof.
  intros Hn (_ & Hclk & k & part & Hst & Hpart & Hpos). rewrite Hclk.
  destruct (new_arrays_spec r) as (E1 & E2 & E3 & E4 & E5). destruct (Z.eqb_spec n 0) as [->|Hn0].
  - rewrite orb_true_r. cbn zeta. destruct Hpos as (-> & Hg & Hf). exists 0, 1, 0, part. rewrite E4. split; [done|].
    split; [done|]. split; [|done]. split; [lia| | |by rewrite E3|lia].
    + rewrite E2, Hg. by rewrite (after_draws_S 0).
    + rewrite E1, Hg. done.
  - rewrite orb_false_r. destruct Hpos as (q & i & [(Hq & Hi & Ek) Hg Hb Ho Hf]). rewrite Ho. unfold array_size_.
    destruct (Z.leb_spec 2097152 (64 * i)); cbn zeta.
    + assert (i = 32768) as -> by lia. exists k, (q + 1), 0, part. rewrite E4. split; [done|]. split; [done|]. split; [|done].
      split; [lia| | |by rewrite E3|lia].
      * rewrite E2, Hg. by rewrite after_draws_S by lia.
      * rewrite E1, Hg. by replace (q + 1 - 1) with q by lia.
    + exists k, q, i, part. split; [done|]. split; [done|]. split; [by split|]. split; [lia|done].
Qed.
Lemma stream_element g k q i r : stream_at g k q i r → i < 32768 →
  element g k = [(u64 (r.(addr_a_) + r.(offset_)), false); (u64 (r.(addr_b_) + r.(offset_)), false);
    (u64 (r.(addr_c_) + r.(offset_)), true)].
Proof.
  intros [(Hq & Hi & ->) _ Hb Ho _] Hlt. unfold element.
  replace (32768 * (q - 1) + i) with (i + (q - 1) * 32768) by lia.
  rewrite Z.div_add, Z.mod_add, Z.div_small, Z.mod_small, Z.add_0_l by lia. rewrite <- Hb, Ho. done.
Qed.

Lemma insert_once_ok (d : Recorded D) (f : bool) a w : sound d.(r_mem) → is_u64 a →
  returns (insert_once d f a w) (λ o, sound o.1.(r_mem) ∧ (f = true → o.2 = true) ∧
    issued o.1 = issued d ++ (if negb f && o.2 then [(a, w)] else [])).
Proof.
  intros Hs Ha. unfold insert_once. destruct f; [apply returns_ret; cbn; by rewrite app_nil_r|].
  eapply returns_mono; [by apply offer_ok|]. intros [d' ok] (H1 & _ & H2 & _). cbn [fst snd negb andb] in *.
  split; [done|]. split; [done|]. destruct ok; [exact (issued_snoc d d' (r_now d, (a, w)) H2)|]. unfold issued. by rewrite H2, app_nil_r.
Qed.
(** a step over one flag extends the part that is done *)
Lemma pick_step (fa fb fc oa ob oc : bool) x y z : (fa = true → oa = true) → (fb = true → ob = true) → (fc = true → oc = true) →
  pick [fa; fb; fc] [x; y; z] ++ (if negb fa && oa then [x] else []) ++ (if negb fb && ob then [y] else []) ++
    (if negb fc && oc then [z] else []) ≡ₚ pick [oa; ob; oc] [x; y; z].
Proof.
  intros Ha Hb Hc. unfold pick. cbn [zip_with concat].
  destruct fa; [rewrite Ha by done|destruct oa]; (destruct fb; [rewrite Hb by done|destruct ob]);
    (destruct fc; [rewrite Hc by done|destruct oc]); cbn; solve_Permutation.
Qed.
Lemma pick_none e : pick [false; false; false] e = [].
Proof. by destruct e as [|? [|? [|? ?]]]. Qed.
Lemma pick_all x y z : pick [true; true; true] [x; y; z] = [x; y; z].
Proof. done. Qed.
Lemma streaming_next g k part log : streaming g k part log → part ≡ₚ element g k → streaming g (k + 1) [] log.
Proof.
  intros [Hk (ls & El & Hls)] Hp. split; [lia|]. exists (ls ++ [part]). rewrite concat_app, app_nil_r. cbn [concat].
  rewrite app_nil_r. split; [done|]. rewrite seqZ_app, fmap_app by lia. apply Forall2_app; [done|]. by constructor.
Qed.

Lemma stream_tick g n r : 0 <= n < 18446744073709551615 → stream_inv g n r → ready_cpu r.(stream_cpu) →
  returns (StreamCPU_ClockTick r) (stream_inv g (n + 1)).
Proof.
  intros Hn Hi Hr. pose proof Hi as (Hs & Hclk & _). destruct (stream_draw g n r ltac:(lia) Hi) as
    (k & q & i & part & Hst & Hpart & Hat & Hlt & Hcpu). unfold StreamCPU_ClockTick.
  eapply returns_bind; [by apply memory_tick_ok|]. intros d (Hs1 & Hl1 & _).
  set (r1 := if (_ <=? _) || _ then _ else r) in *. clearbody r1.
  assert (issued d = issued r.(stream_cpu).(memory_system_)) as Hid by (unfold issued; by rewrite Hl1).
  rewrite <- Hid in Hst. pose proof (stream_element g k q i r1 Hat Hlt) as He.
  eapply returns_bind; [apply insert_once_ok; [done|apply u64_is]|]. intros [da oa] (Hsa & Hfa & Hia). cbn [fst snd] in *.
  eapply returns_bind; [apply insert_once_ok; [done|apply u64_is]|]. intros [db ob] (Hsb & Hfb & Hib). cbn [fst snd] in *.
  eapply returns_bind; [apply insert_once_ok; [done|apply u64_is]|]. intros [dc oc] (Hsc & Hfc & Hic). cbn [fst snd] in *.
  pose proof (pick_step _ _ _ oa ob oc (u64 (addr_a_ r1 + offset_ r1), false) (u64 (addr_b_ r1 + offset_ r1), false)
    (u64 (addr_c_ r1 + offset_ r1), true) Hfa Hfb Hfc) as Hpick. rewrite <- He in Hpick. fold (flags r1) in Hpick.
  assert (∃ part', streaming g k part' (issued dc) ∧ part' ≡ₚ pick [oa; ob; oc] (element g k)) as (part' & Hst' & Hpart').
  { eexists. split; [|rewrite <- Hpick, <- Hpart; reflexivity]. destruct Hst as [Hk (ls & El & Hls)]. split; [done|].
    exists ls. split; [|done]. rewrite Hic, Hib, Hia, El. by rewrite !app_assoc. }
  clear Hpick Hpart Hst Hia Hib Hic. apply returns_ret. unfold stream_inv. destruct (Z.eqb_spec (n + 1) 0); [lia|].
  rewrite Hcpu. destruct Hat as [(Hq & Hii & Ek) Hg Hb Ho _]. destruct (oa && ob && oc) eqn:Eall.
  - apply andb_true_iff in Eall as [[-> ->]%andb_true_iff ->]. split; [exact Hsc|]. split; [change (u64 (clk_ (stream_cpu r) + 1) = n + 1); rewrite Hclk; apply u64_id; unfold is_u64; lia|].
    exists (k + 1), []. split; [apply (streaming_next g k part' _ Hst'); by rewrite Hpart', He, pick_all|].
    split; [change (pick _ _) with (pick [false; false; false] (element g (k + 1))); by rewrite pick_none|]. exists q, (i + 1).
    split; rsimp; try done; [lia|]. rewrite Ho. unfold stride_. rewrite u64_id by (unfold is_u64; lia). lia.
  - split; [exact Hsc|]. split; [change (u64 (clk_ (stream_cpu r) + 1) = n + 1); rewrite Hclk; apply u64_id; unfold is_u64; lia|].
    exists k, part'. split; [done|]. split; [done|]. exists q, i. split; rsimp; try done. lia.
Qed.
End Stream.

(** ** A trace *)
Section TraceFile.
Context {D : Type} `{HL : MemorySystemLaws D}.
Implicit Types (r : TraceBasedCPU (Recorded D)).
Notation mem r := r.(trace_cpu).(memory_system_) (only parsing).

(** what the next tick looks at: the transaction that is read, or the one that waits *)
Definition fetched r : istream * Transaction :=
  if r.(get_next_) then get_trans r.(trace_file_) r.(trans_) else (r.(trace_file_), r.(trans_)).
Record on_time (n : Z) r : Prop := {
  ot_sound : sound (mem r).(r_mem);
  ot_clk : r.(trace_cpu).(clk_) = n;
  ot_now : (mem r).(r_now) = n - 1
}.
(** a tick before the end of the file: its transaction is offered when its cycle has come, and waits while it is refused *)
Definition ticked (n : Z) r r' : Prop :=
  let (s, t) := fetched r in
  on_time (n + 1) r' ∧ r'.(trace_file_) = s ∧ r'.(trans_) = t ∧
  (mem r').(r_log) = (mem r).(r_log) ++ (if r'.(get_next_) then [(n, (t.(t_addr), t.(is_write)))] else []) ∧
  (r'.(get_next_) = true → t.(added_cycle) <= n) ∧
  (t.(added_cycle) <= n → ∃ m : D, sound m ∧ MemSysDramsim3.WillAcceptTransaction m t.(t_addr) t.(is_write) = Ret r'.(get_next_)).
Lemma trace_tick n r : 0 <= n < 18446744073709551615 → on_time n r → ready_cpu r.(trace_cpu) →
  r.(trace_file_).(s_eof) = false → is_u64 (fetched r).2.(t_addr) → returns (TraceBasedCPU_ClockTick r) (ticked n r).
Proof.
  intros Hn [Hs Hc Hnow] Hr He Ha. unfold TraceBasedCPU_ClockTick, ticked.
  eapply returns_bind; [by apply memory_tick_ok|]. intros d (Hs1 & Hl1 & Hn1). rewrite He. cbn [negb].
  set (r1 := if get_next_ r then _ else r).
  assert (∃ s t, fetched r = (s, t) ∧ r1.(trace_file_) = s ∧ r1.(trans_) = t ∧ r1.(trace_cpu) = r.(trace_cpu) ∧
    r1.(get_next_) = false) as (s & t & Ef & E1 & E2 & E3 & E4).
  { subst r1. unfold fetched. destruct (get_next_ r) eqn:E; [|by eexists _, _].
    destruct (get_trans _ _) as [s t]. by exists s, t. }
  clearbody r1. rewrite Ef in *. cbn [fst snd] in *. rewrite E2, E3, Hc.
  assert (∀ d', sound d'.(r_mem) → d'.(r_now) = d.(r_now) → ∀ r', r'.(trace_cpu) = next_clk r.(trace_cpu) d' → on_time (n + 1) r') as Hot.
  { intros d' Hd Hd' r' Er. split; rewrite Er; unfold next_clk; cbn [memory_system_ clk_]; [done| |lia].
    rewrite Hc. apply u64_id. unfold is_u64. lia. }
  destruct (Z.leb_spec t.(added_cycle) n).
  - eapply returns_bind; [by apply offer_ok|]. intros [d2 ok] (Hs2 & Hn2 & Hl2 & Hw). cbn [fst snd] in *. apply returns_ret.
    split; [by apply (Hot d2)|]. split; [done|]. split; [done|]. split; [|split; [done|intros _; by exists d.(r_mem)]].
    change (r_log d2 = r_log (memory_system_ (trace_cpu r)) ++ (if ok then [(n, (t_addr t, is_write t))] else [])).
    rewrite Hl2, Hl1, Hn1, Hnow. replace (n - 1 + 1) with n by lia. destruct ok; [done|by rewrite app_nil_r].
  - apply returns_ret. split; [by apply (Hot d)|]. split; [done|]. split; [done|]. rsimp. rewrite E4. cbn [next_clk memory_system_].
    rewrite app_nil_r. split; [done|]. split; [done|lia].
Qed.
(** at the end of the file only the memory goes on *)
Lemma trace_tick_eof n r : 0 <= n < 18446744073709551615 → on_time n r → ready_cpu r.(trace_cpu) →
  r.(trace_file_).(s_eof) = true → returns (TraceBasedCPU_ClockTick r) (λ r', on_time (n + 1) r' ∧
    r'.(trace_file_) = r.(trace_file_) ∧ (mem r').(r_log) = (mem r).(r_log)).
Proof.
  intros Hn [Hs Hc Hnow] Hr He. unfold TraceBasedCPU_ClockTick.
  eapply returns_bind; [by apply memory_tick_ok|]. intros d (Hs1 & Hl1 & Hn1). rewrite He. cbn [negb]. apply returns_ret.
  split; [|by split]. split; rsimp; unfold next_clk; cbn [memory_system_ clk_]; [done| |lia].
  rewrite Hc. apply u64_id. unfold is_u64. lia.
Qed.

Context (xs : list TraceLine) (t0 : Transaction) (Hxs : Forall line_ok xs) (Ht0 : is_u64 t0.(t_addr)).
Definition stream_after (k : nat) : istream :=
  match k with O => istream_open (trace_text xs) | _ => after_lines (drop k xs) end.
Definition trans_after (k : nat) : Transaction := default t0 (line_trans t0 <$> last (take k xs)).
Definition past_end : istream := mkIstream [] true true.

Lemma trans_after_S k x : xs !! k = Some x → trans_after (S k) = line_trans t0 x.
Proof. intros Hx. unfold trans_after. by rewrite (take_S_r _ _ _ Hx), last_snoc. Qed.
Lemma trans_after_u64 k : is_u64 (trans_after k).(t_addr).
Proof.
  unfold trans_after. destruct (last (take k xs)) as [x|] eqn:E; [|done]. apply last_Some in E as [l E].
  pose proof (Forall_take line_ok k xs Hxs) as Hk. rewrite E in Hk. apply Forall_app in Hk as [_ [Hx _]%Forall_cons]. apply Hx.
Qed.
Lemma fetch_line k t x : xs !! k = Some x → (∃ y, t = line_trans t0 y) ∨ t = t0 →
  get_trans (stream_after k) t = (stream_after (S k), line_trans t0 x).
Proof.
  intros Hx Ht. assert (line_ok x) as Hok by (rewrite Forall_lookup in Hxs; by eapply Hxs).
  assert (line_trans t x = line_trans t0 x) as <- by (by destruct Ht as [(y & ->)| ->]).
  unfold stream_after. destruct k as [|k].
  - destruct xs as [|y l] eqn:E; [done|]. injection Hx as ->. by rewrite get_first_line by done.
  - rewrite (drop_S _ _ _ Hx). by apply get_next_line.
Qed.
Lemma fetch_end t : get_trans (stream_after (length xs)) t = (past_end, t <| is_write := false |>).
Proof.
  unfold stream_after. destruct (length xs) as [|n] eqn:E.
  - apply nil_length_inv in E. rewrite E. by destruct t.
  - rewrite drop_ge by lia. apply get_past_end.
Qed.
Lemma trans_after_shape k : (∃ y, trans_after k = line_trans t0 y) ∨ trans_after k = t0.
Proof. unfold trans_after. destruct (last _) as [x|]; [left; by exists x|by right]. Qed.
Lemma stream_after_open k : (stream_after k).(s_eof) = false.
Proof. by destruct k. Qed.

(** *** Every run: the lines in order, none before its cycle, and one read more at the end of the file *)
Definition issue (x : TraceLine) (e : Z * (Z * bool)) : Prop := e.2 = (x.(l_addr), x.(l_write)) ∧ x.(l_cycle) <= e.1.
Definition extra_read (l : list (Z * (Z * bool))) : Prop := l = [] ∨ ∃ t, l = [(t, ((trans_after (length xs)).(t_addr), false))].
(** [k] lines are issued; the next is still to be read, or is read and waits *)
Definition between (k : nat) r : Prop :=
  (k <= length xs)%nat ∧ r.(trace_file_) = stream_after k ∧ r.(trans_) = trans_after k ∧ r.(get_next_) = true.
Definition waiting (k : nat) (x : TraceLine) r : Prop :=
  xs !! k = Some x ∧ r.(trace_file_) = stream_after (S k) ∧ r.(trans_) = line_trans t0 x ∧ r.(get_next_) = false.
Definition trace_inv (n : Z) r : Prop :=
  on_time n r ∧
  ((∃ k, (between k r ∨ ∃ x, waiting k x r) ∧ Forall2 issue (take k xs) (mem r).(r_log)) ∨
   (r.(trace_file_) = past_end ∧ ∃ log extra, (mem r).(r_log) = log ++ extra ∧ Forall2 issue xs log ∧ extra_read extra)).

(** the line a tick offers *)
Lemma fetched_line k r : between k r ∨ (∃ x, waiting k x r) →
  (∃ x, xs !! k = Some x ∧ r.(trace_file_).(s_eof) = false ∧ fetched r = (stream_after (S k), line_trans t0 x)) ∨
  (k = length xs ∧ r.(trace_file_).(s_eof) = false ∧
     fetched r = (past_end, trans_after k <| is_write := false |>)).
Proof.
  unfold fetched. intros [(Hk & Ef & Et & ->)|(x & Hx & Ef & Et & ->)].
  - rewrite Ef, Et. destruct (xs !! k) as [x|] eqn:Hx.
    + left. exists x. split; [done|]. split; [apply stream_after_open|]. apply fetch_line; [done|apply trans_after_shape].
    + right. apply lookup_ge_None in Hx. assert (k = length xs) as -> by lia. split; [done|].
      split; [apply stream_after_open|apply fetch_end].
  - left. exists x. split; [done|]. rewrite Ef, Et. split; [apply stream_after_open|done].
Qed.
Lemma fetched_next n k x r r' : fetched r = (stream_after (S k), line_trans t0 x) → xs !! k = Some x → ticked n r r' →
  on_time (n + 1) r' ∧ (mem r').(r_log) = (mem r).(r_log) ++ (if r'.(get_next_) then [(n, (x.(l_addr), x.(l_write)))] else []) ∧
  (r'.(get_next_) = true → x.(l_cycle) <= n) ∧
  if r'.(get_next_) then between (S k) r' else waiting k x r'.
Proof.
  unfold ticked. intros -> Hx (Hot & Ef & Et & El & Hc & _). split; [done|]. split; [done|]. split; [done|].
  apply lookup_lt_Some in Hx as Hlt. destruct (get_next_ r') eqn:En; [|done].
  split; [lia|]. split; [done|]. split; [|done]. by rewrite (trans_after_S k x).
Qed.
Lemma trace_inv_tick n r : 0 <= n < 18446744073709551615 → trace_inv n r → ready_cpu r.(trace_cpu) →
  returns (TraceBasedCPU_ClockTick r) (trace_inv (n + 1)).
Proof.
  intros Hn [Hot Hst] Hr. destruct Hst as [(k & Hk & Hlog)|(Ef & log & extra & El & Hlog & Hex)].
  - destruct (fetched_line k r Hk) as [(x & Hx & He & Efe)|(-> & He & Efe)].
    + eapply returns_mono; [apply trace_tick; try done; rewrite Efe|].
      { rewrite Forall_lookup in Hxs. by apply (Hxs _ _ Hx). }
      intros r' Ht. apply (fetched_next n k x) in Ht as (Hot' & El & Hc & Hnext); [|done|done].
      split; [done|]. left. rewrite El. destruct (get_next_ r').
      * exists (S k). split; [by left|]. rewrite (take_S_r _ _ _ Hx). apply Forall2_app; [done|]. constructor; [by split; [|apply Hc]|done].
      * exists k. rewrite app_nil_r. split; [right; by exists x|done].
    + rewrite firstn_all in Hlog. eapply returns_mono; [apply trace_tick; try done; rewrite Efe; apply trans_after_u64|].
      unfold ticked. rewrite Efe. intros r' (Hot' & Ef & Et & El & _). split; [done|]. right. split; [done|].
      eexists _, _. split; [exact El|]. split; [done|]. destruct (get_next_ r'); [right; by eexists|by left].
  - eapply returns_mono; [apply (trace_tick_eof n); try done; by rewrite Ef|]. intros r' (Hot' & Ef' & El').
    split; [done|]. right. rewrite Ef', El'. split; [done|]. by exists log, extra.
Qed.

(** *** A memory that takes everything: the exact times *)
Fixpoint schedule (now a : Z) (l : list TraceLine) : list (Z * (Z * bool)) :=
  match l with
  | [] => [(now, (a, false))]
  | x :: l => let t := Z.max now x.(l_cycle) in (t, (x.(l_addr), x.(l_write))) :: schedule (t + 1) x.(l_addr) l
  end.
Lemma schedule_later now a l : Forall (λ e, now <= e.1) (schedule now a l).
Proof.
  revert now a. induction l as [|x l IH]; intros now a; cbn [schedule]; [by repeat constructor|].
  constructor; [cbn; lia|]. eapply Forall_impl; [apply IH|]. cbn. intros e. lia.
Qed.
(** what has been recorded and what is still to come make up the whole *)
Definition on_schedule (n : Z) r : Prop :=
  on_time n r ∧ Forall (λ e, e.1 < n) (mem r).(r_log) ∧
  ((∃ k, (between k r ∨ ∃ x, waiting k x r) ∧ ((0 < k)%nat → (trans_after k).(added_cycle) <= n) ∧
      schedule 0 0 xs = (mem r).(r_log) ++ schedule n (trans_after k).(t_addr) (drop k xs)) ∨
   (r.(trace_file_) = past_end ∧ (mem r).(r_log) = schedule 0 0 xs)).

Lemma on_schedule_tick n r : (0 < length xs)%nat → (∀ (m : D) a w, sound m → MemSysDramsim3.WillAcceptTransaction m a w = Ret true) →
  0 <= n < 18446744073709551615 → on_schedule n r → ready_cpu r.(trace_cpu) →
  returns (TraceBasedCPU_ClockTick r) (on_schedule (n + 1)).
Proof.
  intros Hne Hacc Hn (Hot & Hlt & Hst) Hr.
  assert (∀ l e, Forall (λ e : Z * (Z * bool), e.1 < n) l → e.1 <= n → Forall (λ e, e.1 < n + 1) (l ++ [e])) as Hsnoc.
  { intros l e Hl He. apply Forall_app. split; [|constructor; [lia|done]]. eapply Forall_impl; [exact Hl|]. cbn. intros e'. lia. }
  destruct Hst as [(k & Hk & Hcyc & Hsch)|(Ef & El)].
  - destruct (fetched_line k r Hk) as [(x & Hx & He & Efe)|(-> & He & Efe)].
    + eapply returns_mono; [apply trace_tick; try done; rewrite Efe|].
      { rewrite Forall_lookup in Hxs. by apply (Hxs _ _ Hx). }
      intros r' Ht. assert (x.(l_cycle) <= n → get_next_ r' = true) as Hok.
      { intros Hc. unfold ticked in Ht. rewrite Efe in Ht. destruct Ht as (_ & _ & _ & _ & _ & Hw).
        destruct (Hw Hc) as (m & Hm & Ew). rewrite Hacc in Ew by done. congruence. }
      apply (fetched_next n k x) in Ht as (Hot' & El & Hc & Hnext); [|done|done].
      split; [done|]. rewrite (drop_S _ _ _ Hx) in Hsch. cbn [schedule] in Hsch. rewrite El. destruct (get_next_ r').
      * rewrite Z.max_l in Hsch by (by apply Hc). split; [by apply Hsnoc|]. left. exists (S k). split; [by left|].
        rewrite (trans_after_S k x Hx). split; [intros _; change (x.(l_cycle) <= n + 1); specialize (Hc eq_refl); lia|]. by rewrite <- app_assoc.
      * assert (n < x.(l_cycle)) as Hw by (destruct (Z.leb_spec x.(l_cycle) n) as [Hle|]; [by specialize (Hok Hle)|lia]).
        rewrite app_nil_r. split; [eapply Forall_impl; [exact Hlt|]; cbn; intros; lia|]. left. exists k.
        split; [right; by exists x|]. split; [intros; specialize (Hcyc ltac:(done)); lia|].
        rewrite (drop_S _ _ _ Hx). cbn [schedule]. rewrite Z.max_r in Hsch by lia. by rewrite Z.max_r by lia.
    + specialize (Hcyc Hne). rewrite drop_ge in Hsch by lia.
      eapply returns_mono; [apply trace_tick; try done; rewrite Efe; apply trans_after_u64|].
      unfold ticked. rewrite Efe. intros r' (Hot' & Ef & Et & El & _ & Hw). destruct (Hw Hcyc) as (m & Hm & Ew).
      rewrite Hacc in Ew by done. injection Ew as Ew. rewrite <- Ew in El. split; [done|]. rewrite El. split; [by apply Hsnoc|].
      right. split; [done|]. by rewrite Hsch.
  - eapply returns_mono; [apply (trace_tick_eof n); try done; by rewrite Ef|]. intros r' (Hot' & Ef' & El').
    split; [done|]. rewrite Ef', El'. split; [eapply Forall_impl; [exact Hlt|]; cbn; intros; lia|]. by right.
Qed.
Lemma on_schedule_log n r : on_schedule n r → (mem r).(r_log) = filter (λ e, e.1 < n) (schedule 0 0 xs).
Proof.
  intros (_ & Hlt & Hst).
  assert (∀ l, Forall (λ e : Z * (Z * bool), n <= e.1) l → filter (λ e, e.1 < n) l = []) as Hnil.
  { intros l Hl. induction Hl as [|e l He Hl IH]; [done|]. rewrite filter_cons_False; [done|lia]. }
  assert (filter (λ e, e.1 < n) (mem r).(r_log) = (mem r).(r_log)) as Hall.
  { clear Hst. induction Hlt as [|e l He Hl IH]; [done|]. rewrite filter_cons_True by done. by rewrite IH. }
  destruct Hst as [(k & _ & _ & E)|(_ & E)]; [|by rewrite <- E, Hall].
  rewrite E, filter_app, Hall, Hnil; [by rewrite app_nil_r|apply schedule_later].
Qed.
End TraceFile.

(** ** The covert channel *)
Section Covert.
Context {D : Type} `{HL : MemorySystemLaws D} {G : Type} `{HG : Rng64 G} (c : Config).
Context (HT : 0 < c.(tREFI) < 2147483648) (HF : 0 <= c.(tRFC) < 2147483648) (L0 L1 : Z).
Implicit Types (r : CovChCPU (Recorded D) G) (log : list (Z * (Z * bool))).
Notation mem r := r.(cov_cpu).(memory_system_) (only parsing).
Notation T := c.(tREFI).
Notation R := (u64 c.(ref_raa_decrement)).

(** the requests that the sender may make in window [w]: five windows of warm-up, then the larger of its limits *)
Definition send_budget (w : Z) : Z :=
  if w <? 7 then default 0 (send_init_reqs_ !! Z.to_nat (w - 2)) else Z.max L0 L1.
(** a request of cycle [n]: a read, and after the warm-up not in the first cycles of its window *)
Definition request_ok (n : Z) (e : Z * (Z * bool)) : Prop :=
  e.1 = n ∧ e.2.2 = false ∧ (7 <= n / T → spill_buffer_ + c.(tRFC) <= n mod T).
Record in_cycle (n : Z) r : Prop := {
  ic_sound : sound (mem r).(r_mem);
  ic_clk : r.(cov_cpu).(clk_) = n;
  ic_now : (mem r).(r_now) = n;
  ic_window : r.(ref_window_) = n mod T;
  ic_idx : r.(ref_window_idx_) = n / T;
  ic_limits : r.(send0_limit_) = L0 ∧ r.(send1_limit_) = L1
}.
Definition log_of r : list (Z * (Z * bool)) := (mem r).(r_log).
(** [s] requests become [s'] while the record grows *)
Definition grows (n s s' : Z) log log' : Prop := ∃ l, log' = log ++ l ∧ Forall (request_ok n) l ∧ s' = s + zlen l.
Lemma grows_refl n s log : grows n s s log log.
Proof. exists []. rewrite app_nil_r. split; [done|]. split; [done|]. unfold zlen. cbn [length]. lia. Qed.

Lemma send_request_ok n r : in_cycle n r → (7 <= n / T → spill_buffer_ + c.(tRFC) <= n mod T) →
  0 <= r.(send_window_reqs_) < 18446744073709551615 →
  returns (send_request r) (λ r', in_cycle n r' ∧ r'.(prev_window_idx_) = r.(prev_window_idx_) ∧
    r'.(send_init_) = r.(send_init_) ∧ r'.(send_limit_) = r.(send_limit_) ∧ r'.(recv_window_reqs_) = r.(recv_window_reqs_) ∧
    r'.(send_window_reqs_) <= r.(send_window_reqs_) + 1 ∧
    grows n r.(send_window_reqs_) r'.(send_window_reqs_) (log_of r) (log_of r')).
Proof.
  intros [I1 I2 I3 I4 I5 I6] Hlate Hs. unfold send_request.
  eapply returns_bind; [apply offer_ok; [done|apply u64_is]|]. intros [d ok] (H1 & H2 & H3 & _). cbn [fst snd] in *.
  destruct ok.
  - rewrite umod_ok by done. cbn [mbind outcome_bind]. apply returns_ret.
    assert (u64 (send_window_reqs_ r + 1) = send_window_reqs_ r + 1) as E by (apply u64_id; unfold is_u64; lia).
    split; [split; rsimp; cbn [memory_system_ clk_]; try done; congruence|]. do 4 (split; [done|]). rsimp. rewrite E. split; [lia|].
    exists [(n, (u64 (send_addr_ r + u64 (send_row_idx_ r * row_offset_)), false))]. unfold log_of. rsimp. cbn [memory_system_].
    split; [by rewrite H3, I3|]. split; [|done]. constructor; [by split|done].
  - apply returns_ret. split; [by split|]. do 4 (split; [done|]). split; [lia|apply grows_refl].
Qed.
Lemma recv_request_ok n r : in_cycle n r → (7 <= n / T → spill_buffer_ + c.(tRFC) <= n mod T) →
  0 <= r.(recv_window_reqs_) < 18446744073709551615 →
  returns (recv_request r) (λ r', in_cycle n r' ∧ r'.(prev_window_idx_) = r.(prev_window_idx_) ∧
    r'.(send_init_) = r.(send_init_) ∧ r'.(send_limit_) = r.(send_limit_) ∧ r'.(send_window_reqs_) = r.(send_window_reqs_) ∧
    r'.(recv_window_reqs_) <= r.(recv_window_reqs_) + 1 ∧
    grows n r.(recv_window_reqs_) r'.(recv_window_reqs_) (log_of r) (log_of r')).
Proof.
  intros [I1 I2 I3 I4 I5 I6] Hlate Hs. unfold recv_request.
  eapply returns_bind; [apply offer_ok; [done|apply u64_is]|]. intros [d ok] (H1 & H2 & H3 & _). cbn [fst snd] in *.
  destruct ok.
  - rewrite umod_ok by done. cbn [mbind outcome_bind]. apply returns_ret.
    assert (u64 (recv_window_reqs_ r + 1) = recv_window_reqs_ r + 1) as E by (apply u64_id; unfold is_u64; lia).
    split; [split; rsimp; cbn [memory_system_ clk_]; try done; congruence|]. do 4 (split; [done|]). rsimp. rewrite E. split; [lia|].
    exists [(n, (u64 (recv_addr_ r + u64 (recv_row_idx_ r * row_offset_)), false))]. unfold log_of. rsimp. cbn [memory_system_].
    split; [by rewrite H3, I3|]. split; [|done]. constructor; [by split|done].
  - apply returns_ret. split; [by split|]. do 4 (split; [done|]). split; [lia|apply grows_refl].
Qed.
Lemma after_spill n r : in_cycle n r → before_spill c r = false → spill_buffer_ + c.(tRFC) <= n mod T.
Proof.
  intros [_ _ _ Hw _ _] Hb. unfold before_spill in Hb. rewrite Hw in Hb. apply Z.ltb_ge in Hb.
  rewrite (u64_id c.(tRFC)), u64_id in Hb by (unfold is_u64, spill_buffer_; lia). done.
Qed.

Context (HL0 : is_u64 L0) (HL1 : is_u64 L1).
Lemma send_budget_range w : 0 <= send_budget w < 18446744073709551616.
Proof.
  unfold send_budget. destruct (Z.ltb_spec w 7); [|unfold is_u64 in *; lia].
  destruct (Z.to_nat (w - 2)) as [|[|[|[|[|k]]]]]; by split.
Qed.
(** what a sender's tick leaves; [s] is the number of requests it has made in the window before *)
Definition sent (n s : Z) r r' : Prop :=
  in_cycle n r' ∧ r'.(prev_window_idx_) = r.(prev_window_idx_) ∧ r'.(recv_window_reqs_) = r.(recv_window_reqs_) ∧
  r'.(send_init_) = bool_decide (7 <= n / T) ∧ (r'.(send_init_) = true → r'.(send_limit_) <= Z.max L0 L1) ∧
  0 <= r'.(send_window_reqs_) <= send_budget (n / T) ∧ grows n s r'.(send_window_reqs_) (log_of r) (log_of r').
Lemma grows_nonneg n s s' log log' : grows n s s' log log' → s <= s'.
Proof. intros (l & _ & _ & ->). unfold zlen. lia. Qed.

Lemma send_bit_spec n r : in_cycle n r → (new_window r = false → r.(send_limit_) <= Z.max L0 L1) →
  let r' := send_bit r in
  in_cycle n r' ∧ r'.(send_limit_) <= Z.max L0 L1 ∧ r'.(prev_window_idx_) = r.(prev_window_idx_) ∧
  r'.(recv_window_reqs_) = r.(recv_window_reqs_) ∧ r'.(send_init_) = r.(send_init_) ∧
  r'.(send_window_reqs_) = r.(send_window_reqs_) ∧ log_of r' = log_of r.
Proof.
  intros [I1 I2 I3 I4 I5 [I6 I7]] Hl. unfold send_bit. destruct (new_window r); [|split; [by split|by auto 10]].
  destruct (rng _) as [x g]. destruct (_ =? _); (split; [by split|]); rsimp; (split; [lia|done]).
Qed.
Definition send_in_window r : outcome (CovChCPU (Recorded D) G) :=
  let r := send_bit r in
  if (r.(send_limit_) <=? r.(send_window_reqs_)) || before_spill c r || too_early r r.(last_send_req_clk_) r.(send_req_dist_)
  then Ret r else send_request r.
Lemma send_in_window_ok n r : in_cycle n r → 7 <= n / T → r.(send_init_) = true →
  (new_window r = false → r.(send_limit_) <= Z.max L0 L1) → 0 <= r.(send_window_reqs_) <= send_budget (n / T) →
  returns (send_in_window r) (sent n r.(send_window_reqs_) r).
Proof.
  intros Hi Hw Hinit Hlim Hs. destruct (send_bit_spec n r Hi Hlim) as (Hi' & Hlim' & E1 & E2 & E3 & E4 & E5).
  unfold send_in_window. set (r1 := send_bit r) in *. clearbody r1.
  assert (bool_decide (7 <= n / T) = true) as Hb by (by apply bool_decide_eq_true_2).
  pose proof (send_budget_range (n / T)). destruct ((_ <=? _) || _ || _) eqn:Eg.
  - apply returns_ret. split; [done|]. split; [done|]. split; [done|]. rewrite Hb, E3, E4, E5. split; [done|]. split; [done|].
    split; [done|apply grows_refl].
  - apply orb_false_iff in Eg as [[Hg1 Hg2]%orb_false_iff _]. apply Z.leb_gt in Hg1.
    assert (send_budget (n / T) = Z.max L0 L1) as Eb by (unfold send_budget; by destruct (Z.ltb_spec (n / T) 7); [lia|]).
    eapply returns_mono; [apply (send_request_ok n); [done|intros _; by apply (after_spill n r1)|lia]|].
    intros r' (H1 & H2 & H3 & H4 & H5 & H6 & H7). pose proof (grows_nonneg _ _ _ _ _ H7).
    split; [done|]. split; [congruence|]. split; [congruence|]. split; [congruence|]. split; [rewrite H4; done|].
    split; [lia|]. by rewrite <- E4, <- E5.
Qed.
Lemma TickSend_ok n r : is_u64 n → in_cycle n r → 2 <= n / T →
  r.(send_init_) = bool_decide (7 <= (if new_window r then n / T - 1 else n / T)) →
  (new_window r = false → 0 <= r.(send_window_reqs_) <= send_budget (n / T) ∧
     (r.(send_init_) = true → r.(send_limit_) <= Z.max L0 L1)) →
  returns (TickSend c r) (sent n (if new_window r then 0 else r.(send_window_reqs_)) r).
Proof.
  intros Hn Hi Hw Hinit Hold. unfold TickSend. pose proof (send_budget_range (n / T)) as Hbud.
  set (r1 := if new_window r then r <| send_window_reqs_ := 0 |> else r).
  assert (in_cycle n r1 ∧ new_window r1 = new_window r ∧ r1.(send_init_) = r.(send_init_) ∧ r1.(send_limit_) = r.(send_limit_) ∧
    r1.(prev_window_idx_) = r.(prev_window_idx_) ∧ r1.(recv_window_reqs_) = r.(recv_window_reqs_) ∧ log_of r1 = log_of r ∧
    r1.(send_window_reqs_) = (if new_window r then 0 else r.(send_window_reqs_)) ∧
    0 <= r1.(send_window_reqs_) <= send_budget (n / T)) as (Hi1 & E1 & E2 & E3 & E4 & E5 & E6 & E7 & Hs1).
  { subst r1. destruct (new_window r) eqn:En; [|by destruct (Hold eq_refl)]. destruct Hi as [I1 I2 I3 I4 I5 I6].
    split; [by split|]. split; [exact En|]. do 6 (split; [done|]). rsimp. lia. }
  clearbody r1. rewrite <- E7.
  assert (∀ r', sent n r1.(send_window_reqs_) r1 r' → sent n r1.(send_window_reqs_) r r') as Hsent.
  { unfold sent. rewrite E4, E5, E6. done. }
  unfold send_warmup. rewrite E2. destruct (r.(send_init_)) eqn:Ei; symmetry in Hinit.
  - apply bool_decide_eq_true in Hinit as Hc. cbn [mbind outcome_bind]. rewrite E2.
    eapply returns_mono; [apply (send_in_window_ok n r1); [done|destruct (new_window r); lia|done| |done]|done].
    rewrite E1, E3. intros En. by apply (Hold En).
  - apply bool_decide_eq_false in Hinit as Hc. rewrite (ic_idx _ _ Hi1).
    assert (0 <= n / T < 18446744073709551616) as Hq.
    { pose proof (Z.div_le_upper_bound n T n ltac:(lia)). assert (0 <= n < 18446744073709551616) by exact Hn. nia. }
    rewrite (u64_id (n / T - warmup_idx_)) by (unfold is_u64, warmup_idx_; lia). unfold warmup_idx_.
    change (zlen send_init_reqs_) with 5. destruct (Z.leb_spec 5 (n / T - 2)) as [H5|H5].
    + assert (new_window r = true) as En by (destruct (new_window r); [done|lia]).
      cbn [mbind outcome_bind]. change (send_init_ (r1 <| send_init_ := true |>)) with true. cbn iota.
      set (r2 := r1 <| send_init_ := true |>). destruct Hi1 as [I1 I2 I3 I4 I5 I6].
      eapply returns_mono; [apply (send_in_window_ok n r2); [by split|lia|done| |done]|].
      * change (new_window r2) with (new_window r1). rewrite E1, En. done.
      * intros r' Hr'. apply Hsent. exact Hr'.
    + destruct (aget_ok send_init_reqs_ (n / T - 2)) as [m Em]; [change (zlen send_init_reqs_) with 5; lia|].
      rewrite Em. cbn [mbind outcome_bind]. apply aget_Ret in Em as [_ Em].
      assert (send_budget (n / T) = m) as Eb by (unfold send_budget; destruct (Z.ltb_spec (n / T) 7); [by rewrite Em|lia]).
      assert (bool_decide (7 <= n / T) = false) as Hb by (apply bool_decide_eq_false; lia).
      destruct (Z.leb_spec m r1.(send_window_reqs_)).
      * apply returns_ret. apply Hsent. split; [done|]. do 2 (split; [done|]). rewrite E2, Hb. do 3 (split; [done|]). apply grows_refl.
      * rewrite E2. eapply returns_mono; [apply (send_request_ok n); [done|lia|lia]|].
        intros r' (H1 & H2 & H3 & H4 & H6 & H7 & H8). pose proof (grows_nonneg _ _ _ _ _ H8). apply Hsent.
        split; [done|]. split; [done|]. split; [done|]. rewrite H3, E2, Hb. split; [done|]. split; [done|]. split; [lia|done].
Qed.

Definition recv_budget (w : Z) : Z := if w <? 7 then 0 else R.
Lemma TickRecv_ok n r : in_cycle n r → r.(send_init_) = bool_decide (7 <= n / T) →
  (new_window r = false → 0 <= r.(recv_window_reqs_) <= recv_budget (n / T)) →
  returns (TickRecv c r) (λ r', in_cycle n r' ∧ r'.(prev_window_idx_) = r.(prev_window_idx_) ∧ r'.(send_init_) = r.(send_init_) ∧
    r'.(send_limit_) = r.(send_limit_) ∧ r'.(send_window_reqs_) = r.(send_window_reqs_) ∧
    0 <= r'.(recv_window_reqs_) <= recv_budget (n / T) ∧
    grows n (if new_window r then 0 else r.(recv_window_reqs_)) r'.(recv_window_reqs_) (log_of r) (log_of r')).
Proof.
  intros Hi Hinit Hold. unfold TickRecv. pose proof (u64_is c.(ref_raa_decrement)) as HR. unfold is_u64 in HR.
  set (r1 := if new_window r then r <| recv_window_reqs_ := 0 |> else r).
  assert (in_cycle n r1 ∧ r1.(send_init_) = r.(send_init_) ∧ r1.(send_limit_) = r.(send_limit_) ∧
    r1.(prev_window_idx_) = r.(prev_window_idx_) ∧ r1.(send_window_reqs_) = r.(send_window_reqs_) ∧ log_of r1 = log_of r ∧
    r1.(recv_window_reqs_) = (if new_window r then 0 else r.(recv_window_reqs_)) ∧
    0 <= r1.(recv_window_reqs_) <= recv_budget (n / T)) as (Hi1 & E2 & E3 & E4 & E5 & E6 & E7 & Hs1).
  { subst r1. destruct (new_window r) eqn:En; [|by auto 10]. destruct Hi as [I1 I2 I3 I4 I5 I6].
    split; [by split|]. do 6 (split; [done|]). rsimp. unfold recv_budget. destruct (_ <? _); lia. }
  clearbody r1. rewrite <- E7, <- E2, <- E3, <- E4, <- E5, <- E6. rewrite <- E2 in Hinit.
  destruct (_ || _ || _ || _) eqn:Eg.
  - apply returns_ret. split; [done|]. do 4 (split; [done|]). split; [done|apply grows_refl].
  - apply orb_false_iff in Eg as [[[Hg1 Hg2]%orb_false_iff Hg3]%orb_false_iff Hg4]. apply negb_false_iff in Hg1.
    apply Z.leb_gt in Hg4. rewrite Hg1 in Hinit. symmetry in Hinit. apply bool_decide_eq_true in Hinit.
    assert (recv_budget (n / T) = R) as Eb by (unfold recv_budget; by destruct (Z.ltb_spec (n / T) 7); [lia|]).
    eapply returns_mono; [apply (recv_request_ok n); [done|intros _; by apply (after_spill n r1)|lia]|].
    intros r' (H1 & H2 & H3 & H4 & H5 & H6 & H7). pose proof (grows_nonneg _ _ _ _ _ H7).
    split; [done|]. do 4 (split; [done|]). split; [lia|done].
Qed.

(** the requests of window [w] in a record *)
Definition in_window (w : Z) log : Z := zlen (filter (λ e, e.1 / T = w) log).
Lemma in_window_app w l1 l2 : in_window w (l1 ++ l2) = in_window w l1 + in_window w l2.
Proof. unfold in_window, zlen. rewrite filter_app, length_app. lia. Qed.
Lemma in_window_cycle w n l : Forall (request_ok n) l → in_window w l = if w =? n / T then zlen l else 0.
Proof.
  intros Hl. induction Hl as [|e l (He & _) Hl IH]; [by destruct (_ =? _)|]. change (e :: l) with ([e] ++ l).
  rewrite in_window_app, IH. unfold in_window. destruct (Z.eqb_spec w (n / T)) as [->|Hne].
  - rewrite filter_cons_True by (by rewrite He). unfold zlen. cbn [length app filter list_filter]. lia.
  - rewrite filter_cons_False by (by rewrite He; congruence). done.
Qed.
Lemma in_window_none w log : Forall (λ e, e.1 / T ≠ w) log → in_window w log = 0.
Proof. intros Hl. unfold in_window. induction Hl as [|e l He Hl IH]; [done|]. by rewrite filter_cons_False. Qed.
Lemma window_next n : 0 < n → n / T = (n - 1) / T ∨ n / T = (n - 1) / T + 1.
Proof.
  intros Hn. pose proof (Z.div_mod n T ltac:(lia)). pose proof (Z.mod_pos_bound n T ltac:(lia)).
  pose proof (Z.div_mod (n - 1) T ltac:(lia)). pose proof (Z.mod_pos_bound (n - 1) T ltac:(lia)). nia.
Qed.

(** after [n] ticks *)
Record cov_inv (n : Z) r : Prop := {
  cv_sound : sound (mem r).(r_mem);
  cv_clk : r.(cov_cpu).(clk_) = n;
  cv_now : (mem r).(r_now) = n - 1;
  cv_limits : r.(send0_limit_) = L0 ∧ r.(send1_limit_) = L1;
  cv_prev : 0 < n → r.(prev_window_idx_) = (n - 1) / T;
  cv_log : Forall (λ e, 2 * T <= e.1 < n ∧ request_ok e.1 e) (log_of r);
  cv_budget : ∀ w, in_window w (log_of r) <= send_budget w + recv_budget w;
  cv_init : r.(send_init_) = bool_decide (2 * T < n ∧ 7 <= (n - 1) / T);
  cv_window : 2 * T < n → (r.(send_init_) = true → r.(send_limit_) <= Z.max L0 L1) ∧
    0 <= r.(send_window_reqs_) <= send_budget ((n - 1) / T) ∧ 0 <= r.(recv_window_reqs_) <= recv_budget ((n - 1) / T) ∧
    in_window ((n - 1) / T) (log_of r) = r.(send_window_reqs_) + r.(recv_window_reqs_)
}.

Lemma cov_base n r : 2 * T <= n → cov_inv n r →
  let new := negb ((n - 1) / T =? n / T) in
  in_window (n / T) (log_of r) = (if new then 0 else r.(send_window_reqs_)) + (if new then 0 else r.(recv_window_reqs_)) ∧
  r.(send_init_) = bool_decide (7 <= (if new then n / T - 1 else n / T)) ∧ 2 <= n / T ∧
  (new = false → 2 * T < n ∧ (n - 1) / T = n / T).
Proof.
  intros Hn [H1 H2 H3 H4 H5 H6 H7 H8 H9]. cbn zeta. pose proof (window_next n ltac:(lia)) as Hstep.
  assert (2 <= n / T) as Hw by (apply Z.div_le_lower_bound; lia).
  destruct (Z.eqb_spec ((n - 1) / T) (n / T)) as [E|E]; cbn [negb].
  - assert (2 * T < n) as Hlt.
    { pose proof (Z.mul_div_le (n - 1) T ltac:(lia)). nia. }
    destruct (H9 Hlt) as (_ & _ & _ & Ec). rewrite E in *. split; [done|]. split; [|done]. rewrite H8.
    apply bool_decide_ext. naive_solver.
  - split; [|split; [|done]].
    + apply in_window_none. eapply Forall_impl; [exact H6|]. cbn. intros e [He _] Ew.
      pose proof (Z.div_le_mono e.1 (n - 1) T ltac:(lia) ltac:(lia)). lia.
    + rewrite H8. apply bool_decide_ext. replace (n / T - 1) with ((n - 1) / T) by lia.
      split; [by intros [_ ?]|]. intros H7'. split; [|done].
      pose proof (Z.mul_div_le (n - 1) T ltac:(lia)). nia.
Qed.
Lemma cov_next n r r' : 0 <= n < 18446744073709551615 → in_cycle n r' →
  (∃ l, log_of r' = log_of r ++ l ∧ Forall (request_ok n) l ∧ (l = [] ∨ 2 * T <= n) ∧
     (2 * T <= n → (r'.(send_init_) = true → r'.(send_limit_) <= Z.max L0 L1) ∧
       0 <= r'.(send_window_reqs_) <= send_budget (n / T) ∧ 0 <= r'.(recv_window_reqs_) <= recv_budget (n / T) ∧
       in_window (n / T) (log_of r) + zlen l = r'.(send_window_reqs_) + r'.(recv_window_reqs_))) →
  r'.(send_init_) = bool_decide (2 * T <= n ∧ 7 <= n / T) → cov_inv n r →
  cov_inv (n + 1) (r' <| prev_window_idx_ := r'.(ref_window_idx_) |>
    <| cov_cpu := next_clk r'.(cov_cpu) r'.(cov_cpu).(memory_system_) |>).
Proof.
  intros Hn [I1 I2 I3 I4 I5 I6] (l & El & Hl & Hlate & Hwin) Hinit [H1 H2 H3 H4 H5 H6 H7 H8 H9].
  set (r4 := r' <| prev_window_idx_ := _ |> <| cov_cpu := _ |>).
  assert (log_of r4 = log_of r ++ l) as E4 by exact El.
  split.
  - exact I1.
  - change (u64 (clk_ (cov_cpu r') + 1) = n + 1). rewrite I2. apply u64_id. unfold is_u64. lia.
  - change (r_now (memory_system_ (cov_cpu r')) = n + 1 - 1). lia.
  - exact I6.
  - intros _. change (ref_window_idx_ r' = (n + 1 - 1) / T). rewrite I5. f_equal. lia.
  - rewrite E4. apply Forall_app. split.
    + eapply Forall_impl; [exact H6|]. cbn. intros e [He Hr]. split; [lia|done].
    + destruct Hlate as [->|Hlate]; [done|]. eapply Forall_impl; [exact Hl|]. cbn. intros e He.
      pose proof He as (En & _). rewrite En. split; [lia|done].
  - intros w. rewrite E4, in_window_app, (in_window_cycle w n l Hl). destruct (Z.eqb_spec w (n / T)) as [->|]; [|by rewrite Z.add_0_r].
    destruct Hlate as [->|Hlate]; [unfold zlen; cbn [length]; by rewrite Z.add_0_r|]. destruct (Hwin Hlate) as (_ & ? & ? & ?). lia.
  - change (send_init_ r' = bool_decide (2 * T < n + 1 ∧ 7 <= (n + 1 - 1) / T)). rewrite Hinit. replace (n + 1 - 1) with n by lia.
    apply bool_decide_ext. split; intros [? ?]; split; lia.
  - intros Hlt. replace (n + 1 - 1) with n by lia. destruct (Hwin ltac:(lia)) as (W1 & W2 & W3 & W4).
    split; [exact W1|]. split; [exact W2|]. split; [exact W3|]. rewrite E4, in_window_app, (in_window_cycle _ n l Hl), Z.eqb_refl.
    exact W4.
Qed.
Lemma covert_tick n r : 0 <= n < 18446744073709551615 → cov_inv n r → ready_cpu r.(cov_cpu) →
  returns (CovChCPU_ClockTick c r) (cov_inv (n + 1)).
Proof.
  intros Hn Hi Hr. pose proof Hi as [H1 H2 H3 H4 H5 H6 H7 H8 H9]. unfold CovChCPU_ClockTick.
  eapply returns_bind; [by apply memory_tick_ok|]. intros d (Hs1 & Hl1 & Hn1).
  rewrite H2, (u64_id T) by (unfold is_u64; lia). rewrite umod_ok, udiv_ok by lia. cbn [mbind outcome_bind].
  rewrite (u64_id (T * warmup_idx_)) by (unfold is_u64, warmup_idx_; lia).
  set (r1 := r <| cov_cpu := _ |> <| ref_window_ := _ |> <| ref_window_idx_ := _ |>).
  assert (in_cycle n r1) as Hi1.
  { split; [exact Hs1|done| |done|done|exact H4]. change (r_now d = n). lia. }
  assert (log_of r1 = log_of r) as E1 by exact Hl1.
  assert (new_window r1 = negb (prev_window_idx_ r =? n / T)) as En by done.
  assert (r1.(send_init_) = r.(send_init_) ∧ r1.(send_window_reqs_) = r.(send_window_reqs_) ∧ r1.(recv_window_reqs_) = r.(recv_window_reqs_) ∧
    r1.(send_limit_) = r.(send_limit_)) as (E2 & E3 & E4 & E5) by done.
  clearbody r1. destruct (Z.ltb_spec n (T * warmup_idx_)) as [Hw|Hw]; unfold warmup_idx_ in Hw.
  - cbn [mbind outcome_bind]. apply returns_ret. apply (cov_next n r r1); [done|done| | |done].
    + exists []. rewrite app_nil_r. split; [done|]. split; [done|]. split; [by left|]. lia.
    + rewrite E2, H8. apply bool_decide_ext. lia.
  - rewrite (H5 ltac:(lia)) in En. destruct (cov_base n r ltac:(lia) Hi) as (B1 & B2 & B3 & B4).
    rewrite <- En in B1, B2, B4. rewrite <- E3, <- E4 in B1. rewrite <- E2 in B2.
    eapply (returns_bind _ _ (λ r3, ∃ r2, sent n (if new_window r1 then 0 else r1.(send_window_reqs_)) r1 r2 ∧
      in_cycle n r3 ∧ r3.(send_init_) = r2.(send_init_) ∧ r3.(send_limit_) = r2.(send_limit_) ∧
      r3.(send_window_reqs_) = r2.(send_window_reqs_) ∧ 0 <= r3.(recv_window_reqs_) <= recv_budget (n / T) ∧
      grows n (if new_window r1 then 0 else r1.(recv_window_reqs_)) r3.(recv_window_reqs_) (log_of r2) (log_of r3))).
    + eapply returns_bind; [apply (TickSend_ok n r1); [unfold is_u64; lia|done|done|done|]|].
      { intros Enf. destruct (B4 Enf) as [Hlt Ew]. destruct (H9 Hlt) as (W1 & W2 & _). rewrite Ew in W2. by rewrite E2, E3, E5. }
      intros r2 Hr2. pose proof Hr2 as (S1 & S2 & S3 & S4 & S5 & S6 & S7).
      assert (new_window r2 = new_window r1) as En2 by (unfold new_window; by rewrite S2, (ic_idx _ _ S1), (ic_idx _ _ Hi1)).
      eapply returns_mono; [apply (TickRecv_ok n r2); [done|done|]|].
      { rewrite En2, S3. intros Enf. destruct (B4 Enf) as [Hlt Ew]. destruct (H9 Hlt) as (_ & _ & W3 & _). rewrite Ew in W3. by rewrite E4. }
      intros r3 (V1 & _ & V3 & V4 & V5 & V6 & V7). rewrite En2, S3 in V7. by exists r2.
    + intros r3 (r2 & (S1 & S2 & S3 & S4 & S5 & S6 & (l1 & G1 & G2 & G3)) & V1 & V3 & V4 & V5 & V6 & (l2 & K1 & K2 & K3)).
      apply returns_ret. apply (cov_next n r r3); [done|done| | |done].
      * exists (l1 ++ l2). split; [by rewrite K1, G1, E1, app_assoc|]. split; [by apply Forall_app|]. split; [right; lia|].
        intros _. rewrite V3, V4, V5. split; [done|]. split; [done|]. split; [done|].
        rewrite B1. unfold zlen in *. rewrite length_app. lia.
      * rewrite V3, S4. apply bool_decide_ext. split; [|by intros [_ ?]]. intros ?. split; [lia|done].
Qed.
End Covert.

(** ** The properties *)

(** A refused request is not lost and an accepted one not repeated: in every run of the random processor the requests the
    memory has taken, with the one that waits if there is one, are exactly the first requests of the generator, in
    order; at most one is taken in a cycle, and the run goes on whenever the memory is ready. *)
Theorem random_cpu_requests {D} `{HL : MemorySystemLaws D} {G} `{HG : Rng64 G} (m : D) (g : G) n r :
  sound m → runs RandomCPU_ClockTick (λ r, ready_cpu r.(random_cpu)) (RandomCPU_new (record_of m) g) n r →
  let d := r.(random_cpu).(memory_system_) in
  (∃ k, requests k g = issued d ++ (if r.(random_next_) then [] else [(r.(last_addr_), r.(last_write_))])) ∧
  (length d.(r_log) <= n)%nat ∧ (ready_cpu r.(random_cpu) → returns (RandomCPU_ClockTick r) (λ _, True)).
Proof.
  intros Hm Hr.
  destruct (runs_inv _ _ (Z.of_nat n + 1) (random_inv g) _ _ _ Hr) as [(_ & k & _ & Hz & _ & Hq) Hgo];
    [split; [exact Hm|by exists O]|intros; by apply random_tick|lia|].
  split; [by exists k|]. split; [unfold zlen in Hz; lia|done].
Qed.

(** The stream asks for its elements one after the other, each array of an element exactly once: what the memory has taken
    is a sequence of whole elements, each in some order of its three requests, and then the part of the next element that
    is done. The elements are those of the arrays that the generator draws, 32768 in a round. *)
Theorem stream_cpu_elements {D} `{HL : MemorySystemLaws D} {G} `{HG : Rng64 G} (m : D) (g : G) n r :
  sound m → Z.of_nat n < 18446744073709551615 →
  runs StreamCPU_ClockTick (λ r, ready_cpu r.(stream_cpu)) (StreamCPU_new (record_of m) g) n r →
  (∃ k ls part, issued r.(stream_cpu).(memory_system_) = concat ls ++ part ∧
     Forall2 (≡ₚ) ls (element g <$> seqZ 0 k) ∧ part ≡ₚ pick (flags r) (element g k)) ∧
  (ready_cpu r.(stream_cpu) → returns (StreamCPU_ClockTick r) (λ _, True)).
Proof.
  intros Hm Hn Hr.
  destruct (runs_inv _ _ 18446744073709551615 (stream_inv g) _ _ _ Hr) as [(_ & _ & k & part & [_ (ls & El & Hls)] & Hp & _) Hgo];
    [|intros; by apply stream_tick|lia|].
  - split; [exact Hm|]. split; [done|]. exists 0, []. split; [split; [done|by exists []]|].
    split; [|done]. change (flags _) with [false; false; false]. by rewrite pick_none.
  - split; [by exists k, ls, part|done].
Qed.

(** A trace is played in order: over any memory, the transactions that are taken are the first lines of the file, each
    no earlier than its cycle; after the last line the only thing that may follow is one read of the last address, which no
    line asks for. *)
Theorem trace_cpu_order {D} `{HL : MemorySystemLaws D} (m : D) (xs : list TraceLine) (t0 : Transaction) r0 n r :
  sound m → Forall line_ok xs → is_u64 t0.(t_addr) → Z.of_nat n < 18446744073709551615 →
  TraceBasedCPU_new (record_of m) (Some (trace_text xs)) t0 = Ret r0 →
  runs TraceBasedCPU_ClockTick (λ r, ready_cpu r.(trace_cpu)) r0 n r →
  (∃ k log extra, r.(trace_cpu).(memory_system_).(r_log) = log ++ extra ∧ Forall2 issue (take k xs) log ∧
     (extra = [] ∨ (length xs <= k)%nat ∧ ∃ t, extra = [(t, ((trans_after xs t0 (length xs)).(t_addr), false))])) ∧
  (ready_cpu r.(trace_cpu) → returns (TraceBasedCPU_ClockTick r) (λ _, True)).
Proof.
  intros Hm Hxs Ht0 Hn [= <-] Hr.
  destruct (runs_inv _ _ 18446744073709551615 (trace_inv xs t0) _ _ _ Hr) as [[_ Hst] Hgo];
    [|intros; by apply trace_inv_tick|lia|].
  { split; [by split|]. left. exists O. split; [|by constructor]. left. split; [lia|done]. }
  split; [|done]. destruct Hst as [(k & _ & Hlog)|(_ & log & extra & El & Hlog & Hex)].
  - exists k, (r_log (memory_system_ (trace_cpu r))), []. rewrite app_nil_r. split; [done|]. split; [done|by left].
  - exists (length xs), log, extra. rewrite firstn_all. split; [done|]. split; [done|]. destruct Hex; [by left|by right].
Qed.

(** C25. The times of a trace, and a transaction that is not in it: over a memory that takes everything, after [N] cycles
    exactly the requests of the schedule before [N] have been made. The schedule gives each line the first cycle that
    is free and not before its own, and ends with a read of the last address: the line end of the last line hides the end of
    the file from [eof()], the extraction fails, and its result is offered all the same. *)
Theorem trace_cpu_schedule {D} `{HL : MemorySystemLaws D} (m : D) (xs : list TraceLine) (t0 : Transaction) (N : Z) :
  sound m → (∀ d : D, sound d → ready d) → (∀ (d : D) a w, sound d → MemSysDramsim3.WillAcceptTransaction d a w = Ret true) →
  Forall line_ok xs → xs ≠ [] → is_u64 t0.(t_addr) → 0 <= N < 18446744073709551615 →
  returns (r ← TraceBasedCPU_new (record_of m) (Some (trace_text xs)) t0; run N TraceBasedCPU_ClockTick r)
    (λ r, r.(trace_cpu).(memory_system_).(r_log) = filter (λ e, e.1 < N) (schedule 0 0 xs)).
Proof.
  intros Hm Hrdy Hacc Hxs Hne Ht0 HN. cbn [TraceBasedCPU_new mbind outcome_bind]. unfold run.
  assert (0 < length xs)%nat as Hlen by (destruct xs; [done|cbn; lia]).
  eapply returns_mono; [apply (for_seqZ (on_schedule xs t0) 0); [lia| |]|].
  - split; [by split|]. split; [done|]. left. exists O. split; [left; split; [lia|done]|]. split; [lia|]. cbn [drop].
    destruct xs; [done|]. reflexivity.
  - intros r i Hi Hs. apply on_schedule_tick; [done|done|done|done|lia|done|]. apply Hrdy. by destruct Hs as [[Hs _ _] _].
  - intros r Hr. rewrite Z.add_0_l in Hr. by apply (on_schedule_log xs t0).
Qed.

(** C26. The budget of the covert channel: after a successful Init, in every run all requests are reads, none comes in the first
    two windows, and no window holds more than the sender's limit for it (the five warm-up counts, then the larger of the two
    limits) and the receiver's; after the warm-up none comes before the refresh of its window and the spill buffer
    are over. *)
Theorem covert_channel_budget {D} `{HL : MemorySystemLaws D} {G} `{HG : Rng64 G} (c : Config) (m : D) (g : G) r0 n r :
  sound m → 0 < c.(tREFI) < 2147483648 → 0 <= c.(tRFC) < 2147483648 →
  CovChCPU_Init c (CovChCPU_new (record_of m) g) = Ret r0 → Z.of_nat n < 18446744073709551615 →
  runs (CovChCPU_ClockTick c) (λ r, ready_cpu r.(cov_cpu)) r0 n r →
  Forall (λ e, 2 * c.(tREFI) <= e.1 ∧ e.2.2 = false ∧ (7 <= e.1 / c.(tREFI) → 300 + c.(tRFC) <= e.1 mod c.(tREFI))) (log_of r) ∧
  (∀ w, in_window c w (log_of r) <=
     send_budget (u64 c.(ref_raa_decrement)) (u64 (i32 (c.(rfm_raa_decrement) + c.(ref_raa_decrement)))) w + recv_budget c w) ∧
  (ready_cpu r.(cov_cpu) → returns (CovChCPU_ClockTick c r) (λ _, True)).
Proof.
  intros Hm HT HF Hinit Hn Hr. set (L0 := u64 c.(ref_raa_decrement)). set (L1 := u64 (i32 _)).
  assert (cov_inv c L0 L1 0 r0) as H0.
  { unfold CovChCPU_Init in Hinit. destruct (rng _) as [x g1].
    apply bind_Ret in Hinit as (? & _ & (rd & _ & (? & _ & (d0 & _ & (d1 & _ & [= <-])%bind_Ret)%bind_Ret)%bind_Ret)%bind_Ret).
    split; [exact Hm|done|done|done|lia|by constructor| | |lia].
    2: { symmetry. apply bool_decide_eq_false. lia. }
    intros w. change (0 <= send_budget L0 L1 w + recv_budget c w).
    pose proof (send_budget_range L0 L1 (u64_is _) (u64_is _) w). unfold recv_budget.
    destruct (_ <? _); [lia|]. pose proof (u64_is c.(ref_raa_decrement)) as HR. unfold is_u64 in HR. lia. }
  destruct (runs_inv _ _ 18446744073709551615 (cov_inv c L0 L1) _ _ _ Hr H0) as [[_ _ _ _ _ H6 H7 _ _] Hgo];
    [intros; apply covert_tick; try done; apply u64_is|lia|].
  split; [|by split]. eapply Forall_impl; [exact H6|]. cbn. intros e [He (_ & Hw & Hlate)]. split; [lia|]. by split.
Qed.

(** ** Witnesses: the list memory, which takes everything and completes one read a tick *)
Fixpoint tick_n {S} (tick : S → outcome S) (n : nat) (s : S) : outcome S :=
  match n with O => Ret s | S n => s ← tick_n tick n s; tick s end.
Lemma runs_tick_n {S} (tick : S → outcome S) rdy n s s' : (∀ s, rdy s) → tick_n tick n s = Ret s' → runs tick rdy s n s'.
Proof.
  intros Hr. revert s'. induction n as [|n IH]; intros s'; cbn [tick_n]; [intros [= <-]; constructor|].
  intros (s1 & E1 & E2)%bind_Ret. eapply runs_S; [by apply IH|apply Hr|done].
Qed.
Definition of_result {A} (o : outcome A) (d : A) : A := match o with Ret a => a | Fault _ => d end.
Lemma of_result_ok {A} (o : outcome A) (d : A) : (match o with Ret _ => true | Fault _ => false end) = true → o = Ret (of_result o d).
Proof. by destruct o. Qed.

Definition demo_random : RandomCPU (Recorded (list Z)) Z := RandomCPU_new (record_of []) 5.
Definition demo_random_3 := of_result (tick_n RandomCPU_ClockTick 3 demo_random) demo_random.
Lemma random_cpu_requests_witness : zlen demo_random_3.(random_cpu).(memory_system_).(r_log) = 3 ∧
  ∃ k, requests k 5 = issued demo_random_3.(random_cpu).(memory_system_).
Proof.
  destruct (random_cpu_requests (D := list Z) [] 5 3 demo_random_3) as ((k & Hk) & _); [done| |].
  - apply runs_tick_n; [done|]. by apply of_result_ok.
  - split; [vm_compute; reflexivity|]. exists k. rewrite Hk. vm_compute. reflexivity.
Defined.

Definition demo_stream : StreamCPU (Recorded (list Z)) Z := StreamCPU_new (record_of []) 5.
Definition demo_stream_2 := of_result (tick_n StreamCPU_ClockTick 2 demo_stream) demo_stream.
Lemma stream_cpu_elements_witness : issued demo_stream_2.(stream_cpu).(memory_system_) = element 5 0 ++ element 5 1 ∧
  ∃ k ls part, issued demo_stream_2.(stream_cpu).(memory_system_) = concat ls ++ part ∧ Forall2 (≡ₚ) ls (element 5 <$> seqZ 0 k) ∧
    part ≡ₚ pick (flags demo_stream_2) (element 5 k).
Proof.
  destruct (stream_cpu_elements (D := list Z) [] 5 2 demo_stream_2) as [Hex _]; [done|done| |].
  - apply runs_tick_n; [done|]. by apply of_result_ok.
  - split; [vm_compute; reflexivity|exact Hex].
Defined.

Lemma example_trace_ok : Forall line_ok example_trace.
Proof. repeat (apply Forall_cons; split; [by repeat split|]). by apply Forall_nil. Qed.
Definition demo_trace : TraceBasedCPU (Recorded (list Z)) :=
  mkTraceBasedCPU _ (CPU_new (record_of [])) (istream_open (trace_text example_trace)) (Transaction_new 0 false) true.
Definition demo_trace_40 := of_result (tick_n TraceBasedCPU_ClockTick 40 demo_trace) demo_trace.
Lemma trace_cpu_order_witness : demo_trace_40.(trace_cpu).(memory_system_).(r_log) = [(30, (536925632, false))] ∧
  ∃ k log extra, demo_trace_40.(trace_cpu).(memory_system_).(r_log) = log ++ extra ∧ Forall2 issue (take k example_trace) log.
Proof.
  destruct (trace_cpu_order (D := list Z) [] example_trace (Transaction_new 0 false) demo_trace 40 demo_trace_40)
    as ((k & log & extra & E & Hlog & _) & _); [done|exact example_trace_ok|by split|done|reflexivity| |].
  - apply runs_tick_n; [done|]. apply of_result_ok. vm_compute. reflexivity.
  - split; [vm_compute; reflexivity|]. exists k, log, extra. split; [exact E|exact Hlog].
Defined.
(** three lines, four requests *)
Lemma trace_cpu_schedule_witness :
  returns (r ← TraceBasedCPU_new (record_of (D := list Z) []) (Some (trace_text example_trace)) (Transaction_new 0 false);
           run 200 TraceBasedCPU_ClockTick r)
    (λ r, r.(trace_cpu).(memory_system_).(r_log) =
       [(30, (536925632, false)); (160, (536440768, true)); (165, (536925696, false)); (166, (536925696, false))]).
Proof.
  eapply returns_mono; [apply (trace_cpu_schedule (D := list Z) [] example_trace (Transaction_new 0 false) 200)|].
  - done.
  - done.
  - intros d a w _. reflexivity.
  - exact example_trace_ok.
  - discriminate.
  - by split.
  - split; [discriminate|reflexivity].
  - intros r ->. vm_compute. reflexivity.
Defined.

(** the covert channel with windows of 600 cycles, in its third window: 70 requests of the sender fit the first warm-up count *)
Definition covert_config : Config := baseline <| timing_ ::= λ t, t <| tREFI := 600 |> <| tRFC := 100 |> |>.
Definition covert_new : CovChCPU (Recorded (list Z)) Z := CovChCPU_new (record_of []) 5.
Definition demo_covert : CovChCPU (Recorded (list Z)) Z := of_result (CovChCPU_Init covert_config covert_new) covert_new.
Definition demo_covert_end := of_result (tick_n (CovChCPU_ClockTick covert_config) 1300 demo_covert) demo_covert.
Lemma demo_covert_init : CovChCPU_Init covert_config covert_new = Ret demo_covert.
Proof. apply of_result_ok. vm_compute. reflexivity. Qed.
Lemma demo_covert_run : tick_n (CovChCPU_ClockTick covert_config) 1300 demo_covert = Ret demo_covert_end.
Proof. apply of_result_ok. vm_compute. reflexivity. Qed.
Lemma demo_covert_log : in_window covert_config 2 (log_of demo_covert_end) = 70 ∧ send_budget 16 32 2 + recv_budget covert_config 2 = 70.
Proof. vm_compute. by split. Qed.
Lemma covert_channel_budget_witness : in_window covert_config 2 (log_of demo_covert_end) = 70 ∧
  in_window covert_config 2 (log_of demo_covert_end) <= send_budget (u64 covert_config.(ref_raa_decrement))
    (u64 (i32 (covert_config.(rfm_raa_decrement) + covert_config.(ref_raa_decrement)))) 2 + recv_budget covert_config 2.
Proof.
  destruct (covert_channel_budget (D := list Z) covert_config [] 5 demo_covert 1300 demo_covert_end) as (_ & Hb & _).
  - exact I.
  - split; reflexivity.
  - split; [discriminate|reflexivity].
  - exact demo_covert_init.
  - reflexivity.
  - apply runs_tick_n; [intros; exact I|exact demo_covert_run].
  - split; [apply demo_covert_log|exact (Hb 2)].
Defined.

(** ** Files that trace_gen.py does not write: two behaviours of the extraction *)
Definition play (text : list ascii) (N : Z) : outcome (list (Z * (Z * bool))) :=
  r ← TraceBasedCPU_new (record_of (D := list Z) []) (Some text) (Transaction_new 0 false);
  r ← run N TraceBasedCPU_ClockTick r; Ret r.(trace_cpu).(memory_system_).(r_log).
(** without a line end at the end of the file the last transaction is lost unless it can be made in the cycle it is read *)
Lemma last_line_lost : play (chars "0x40 READ 2 0x80 READ 9") 30 = Ret [(2, (64, false))].
Proof. vm_compute. reflexivity. Qed.
(** a field that is no number stops the stream but not the processor: it reads address 0 in every cycle from then on *)
Lemma bad_line_repeats : play (chars "0x40 READ 2 # READ 9") 7 = Ret ((2, (64, false)) :: ((λ n, (n, (0, false))) <$> [3; 4; 5; 6])).
Proof. vm_compute. reflexivity. Qed.
