(* ===== verification/ThermalSolver.v ===== *)
(** * DRAMsim3: the solver of the thermal model (DRAMsim3/src/thermal_solver.c, thermal_config.h)

    A stack of [numP] dies over a heat sink is cut into [3 * numP + 1] layers of [dimX * dimZ] nodes.
    [calculate_Midx_array] lists the non-zero entries of the matrix of heat conductances, [calculate_Cap_array] the heat
    capacity of a node of each layer. [steady_thermal_solver] hands the matrix to SuperLU, whose [pdgssv] is a
    parameter; [transient_thermal_solver] makes Euler steps.

    The computations use an arithmetic of the class [Arith]. The program is the instance [double_arith]; exact
    rationals are another instance, for what the numerical method computes but for rounding. An entry of [Midx] is an
    array of three [double]s of which the first two are node numbers: an [int] is exact as a [double], so they are
    kept as integers, and [(int)(x + 0.01)] reads them back. *)
From S2P Require Import Prelude.

(** ** Arithmetic *)

(** [dec m k] is the literal [m * 10^-k] *)
Class Arith (D : Type) := {
  of_int : Z → D; dec : Z → Z → D;
  aadd : D → D → D; asub : D → D → D; amul : D → D → D; adiv : D → D → D;
  altb : D → D → bool
}.
Infix "⊕" := aadd (at level 50, left associativity) : mds_scope.
Infix "⊖" := asub (at level 50, left associativity) : mds_scope.
Infix "⊗" := amul (at level 40, left associativity) : mds_scope.
Infix "⊘" := adiv (at level 40, left associativity) : mds_scope.

(** the [double] nearest to [m * 10^-k]: one correctly rounded division *)
Definition double_lit (m k : Z) : double :=
  match m, 10 ^ k with
  | Zpos m, Zpos p => SFdiv 53 1024 (S754_finite false m 0) (S754_finite false p 0)
  | Zneg m, Zpos p => SFdiv 53 1024 (S754_finite true m 0) (S754_finite false p 0)
  | _, _ => S754_zero false
  end.
#[export] Instance double_arith : Arith double := {|
  of_int := double_of_Z; dec := double_lit;
  aadd := dadd; asub := dsub; amul := dmul; adiv := ddiv; altb := dltb
|}.

(** ** Constants (thermal_config.h) *)
Section Constants.
Context {D : Type} `{Arith D}.
Definition M_PI : D := dec 314159265358979323846 20.
Definition T0 : D := dec 27315 2.
Definition R_TSV : D := dec 5 6.
(** conductance, capacitance and height of silicon, copper and insulator, by [i % 3], and of the heat sink *)
Definition layerK (i : Z) : D :=
  if i mod 3 =? 0 then dec 1480 1 else if i mod 3 =? 1 then dec 4010 1 else dec 15 1.
Definition Kcu : D := dec 4010 1.
Definition Khs : D := dec 40 1.
Definition layerC (i : Z) : D :=
  if i mod 3 =? 0 then of_int 1660000 else if i mod 3 =? 1 then of_int 3200000 else of_int 1650000.
Definition Chs : D := of_int 2420000.
Definition layerH (i : Z) : D :=
  if i mod 3 =? 0 then dec 400 6 else if i mod 3 =? 1 then dec 5 6 else dec 20 6.
Definition Hhs : D := dec 1000 6.
Definition layerP (l : Z) : Z := l * 3.
End Constants.

(** entry of [Midx]: row, column, value *)
Record Entry (D : Type) := mkEntry { e_row : Z; e_col : Z; e_val : D }.
Arguments mkEntry {D} _ _ _.
Arguments e_row {D} _.
Arguments e_col {D} _.
Arguments e_val {D} _.

Section Solver.
Context {D : Type} `{Arith D}.
(** the arguments that every function takes *)
Context (W Lc : D) (numP dimX dimZ : Z) (Tamb : D).

Definition numLayer : Z := numP * 3.
Definition gridX : D := W ⊘ of_int dimX.
Definition gridZ : D := Lc ⊘ of_int dimZ.
(** number of the node [(i, j)] of layer [l] *)
Definition node (l j i : Z) : Z := l * dimX * dimZ + j * dimX + i.
Definition T_size : Z := dimX * dimZ * (numLayer + 1).

(** [doubleMalloc] and the loop that fills it *)
Definition initialize_Temperature : list D := replicate (Z.to_nat T_size) Tamb.

Definition calculate_Cap_array : list D :=
  (λ i, if i =? 0 then Chs ⊗ Hhs ⊗ gridX ⊗ gridZ
        else layerC (i - 1) ⊗ layerH (i - 1) ⊗ gridX ⊗ gridZ) <$> seqZ 0 (numLayer + 1).

(** ** Resistances *)

(** [mapTSV]: the interface between dies that a layer belongs to, 0 for none *)
Definition mapTSV (i : Z) : Z :=
  if i =? numLayer - 2 then numP - 1
  else if (i =? 0) || (i =? numLayer - 1) then 0 else Z.quot (i - 1) 3 + 1.
(** the array [TSV] is set to zero and never written again *)
Definition TSV (i j k : Z) : Z := 0.

Definition Rsinkx : D := gridX ⊘ Khs ⊘ gridZ ⊘ Hhs.
Definition Rsinky : D := Hhs ⊘ Khs ⊘ gridX ⊘ gridZ.
Definition Rsinkz : D := gridZ ⊘ Khs ⊘ gridX ⊘ Hhs.
Definition Ramb : D := Rsinky ⊘ of_int 2.

(** vertical resistance of node [(i, j)] of layer [l]; layer 0 is the sink *)
Definition Rvert (i j l : Z) : D :=
  if l =? 0 then Rsinky
  else
    let l := l - 1 in
    let tier := mapTSV l in
    let area := M_PI ⊗ R_TSV ⊗ R_TSV ⊗ of_int (TSV i j (tier - 1)) in
    if negb (tier =? 0) then
      of_int 1 ⊘ (of_int 1 ⊘ (layerH l ⊘ layerK l ⊘ (gridX ⊗ gridZ ⊖ area)) ⊕
                  of_int 1 ⊘ (layerH l ⊘ Kcu ⊘ area))
    else layerH l ⊘ layerK l ⊘ (gridX ⊗ gridZ).

(** horizontal resistances of layer [l]: along x and along z *)
Definition Rhori0 (l : Z) : D :=
  if l =? 0 then Rsinkx else gridX ⊘ layerK (l - 1) ⊘ gridZ ⊘ layerH (l - 1) ⊗ of_int 10.
Definition Rhori1 (l : Z) : D :=
  if l =? 0 then Rsinkz else gridZ ⊘ layerK (l - 1) ⊘ gridZ ⊘ layerH (l - 1) ⊗ of_int 10.

(** ** [calculate_Midx_array] *)

Definition minus_over (r : D) : D := of_int (-1) ⊘ r.
Definition vertical (i j l l' : Z) : D := minus_over (Rvert i j l ⊘ of_int 2 ⊕ Rvert i j l' ⊘ of_int 2).

(** the first pass: the size of the array *)
Definition count_node (count : Z) (n : Z * Z * Z) : Z :=
  let '(l, i, j) := n in
  let count := if i - 1 >=? 0 then count + 1 else count in
  let count := if i + 1 <? dimX then count + 1 else count in
  let count := if j - 1 >=? 0 then count + 1 else count in
  let count := if j + 1 <? dimZ then count + 1 else count in
  let count := if l <? numLayer then count + 1 else count in
  if l >? 0 then count + 1 else count.
(** [for (l) for (b) for (a)] over layers, then two inner ranges *)
Definition nodes_of (outer inner : Z) : list (Z * Z * Z) :=
  l ← seqZ 0 (numLayer + 1); b ← seqZ 0 outer; a ← seqZ 0 inner; [(l, b, a)].
Definition MidxSize : Z := foldl count_node 0 (nodes_of dimX dimZ) + dimX * dimZ * (numLayer + 1).

(** [Midx[idx] = ...; idx++] *)
Definition emit (b : bool) (e : Entry D) (s : list (Entry D) * Z) : outcome (list (Entry D) * Z) :=
  if b then M ← aset s.1 s.2 e; Ret (M, s.2 + 1) else Ret s.

(** the entries beside the diagonal *)
Definition neighbours (l j i : Z) (s : list (Entry D) * Z) : outcome (list (Entry D) * Z) :=
  let r := node l j i in
  s ← emit (l >? 0) (mkEntry r (node (l - 1) j i) (vertical i j l (l - 1))) s;
  s ← emit (j - 1 >=? 0) (mkEntry r (node l (j - 1) i) (minus_over (Rhori1 l))) s;
  s ← emit (i - 1 >=? 0) (mkEntry r (node l j i - 1) (minus_over (Rhori0 l))) s;
  s ← emit (i + 1 <? dimX) (mkEntry r (node l j i + 1) (minus_over (Rhori0 l))) s;
  s ← emit (j + 1 <? dimZ) (mkEntry r (node l (j + 1) i) (minus_over (Rhori1 l))) s;
  emit (l <? numLayer) (mkEntry r (node (l + 1) j i) (vertical i j l (l + 1))) s.

(** the value on the diagonal: the array was set to zero before *)
Definition diagonal (l j i idx_re : Z) (s : list (Entry D) * Z) : outcome (list (Entry D) * Z) :=
  let '(M, idx) := s in
  let r := node l j i in
  e ← aget M idx;
  M ← aset M idx (mkEntry r r e.(e_val));
  M ← for_ (seqZ idx_re (idx - idx_re)) M (λ M k,
         d ← aget M idx; e ← aget M k;
         aset M idx (mkEntry d.(e_row) d.(e_col) (d.(e_val) ⊖ e.(e_val))));
  M ← (if r <? dimX * dimZ then
         d ← aget M idx;
         aset M idx (mkEntry d.(e_row) d.(e_col) (d.(e_val) ⊕ of_int 1 ⊘ Ramb))
       else Ret M);
  Ret (M, idx + 1).

(** [for (k = idx - 2; k >= idx_re; k--) if (...) swap; else break;] *)
Definition sort_row (idx_re : Z) (s : list (Entry D) * Z) : outcome (list (Entry D) * Z) :=
  let '(M, idx) := s in
  r ← for_ret (reverse (seqZ idx_re (idx - 1 - idx_re))) M (λ M k,
        x ← aget M k; y ← aget M (k + 1);
        if x.(e_col) >? y.(e_col) then
          M ← aset M k y; M ← aset M (k + 1) x; Ret (M, None)
        else Ret (M, Some tt));
  Ret (r.1, idx).

Definition fill_node (s : list (Entry D) * Z) (n : Z * Z * Z) : outcome (list (Entry D) * Z) :=
  let '(l, j, i) := n in
  let idx_re := s.2 in
  s ← neighbours l j i s;
  s ← diagonal l j i idx_re s;
  sort_row idx_re s.

Definition calculate_Midx_array : outcome (list (Entry D)) :=
  s ← for_ (nodes_of dimZ dimX)
        (replicate (Z.to_nat MidxSize) (mkEntry 0 0 (of_int 0)), 0) fill_node;
  Ret s.1.

(** ** The steady solver *)

(** the arrays of SuperLU's compressed matrix; [xa] is not initialised *)
Record CompCol := mkCompCol { nzval : list D; asub_ : list Z; xa : list (option Z) }.

(** one turn of the loop over the entries; [row] is the last row seen *)
Definition compress_entry (Midx : list (Entry D)) (s : list D * list Z * list (option Z) * Z) (i : Z) :
    outcome (list D * list Z * list (option Z) * Z) :=
  let '(a, asub, xa, row) := s in
  e ← aget Midx i;
  r ← (if e.(e_row) >? row then x ← aset xa e.(e_row) (Some i); Ret (x, e.(e_row)) else Ret (xa, row));
  a ← aset a i e.(e_val);
  asub ← aset asub i e.(e_col);
  Ret (a, asub, r.1, r.2).
(** [count] entries, [n] rows *)
Definition compress (Midx : list (Entry D)) (count n : Z) : outcome CompCol :=
  s ← for_ (seqZ 0 count)
        (replicate (Z.to_nat count) (of_int 0), replicate (Z.to_nat count) 0,
         replicate (Z.to_nat (n + 1)) None, -1) (compress_entry Midx);
  let '(a, asub, xa, row) := s in
  xa ← aset xa (row + 1) (Some count);
  Ret (mkCompCol a asub xa).

(** power of the cell [(i, j)] of die [l] *)
Definition power_at (powerM : list (list (list D))) (i j l : Z) : outcome D :=
  r ← aget powerM i; c ← aget r j; aget c l.

(** [rhs[i] = 0], then the sink *)
Definition sources : outcome (list D) :=
  for_ (seqZ 0 (dimX * dimZ)) (replicate (Z.to_nat T_size) (of_int 0)) (λ v i, aset v i (Tamb ⊘ Ramb)).
(** [for (l) for (b) for (a)] over the dies *)
Definition cells_of (outer inner : Z) : list (Z * Z * Z) :=
  l ← seqZ 0 numP; b ← seqZ 0 outer; a ← seqZ 0 inner; [(l, b, a)].
Definition steady_rhs (powerM : list (list (list D))) : outcome (list D) :=
  v ← sources;
  for_ (cells_of dimX dimZ) v (λ v n,
    let '(l, i, j) := n in
    p ← power_at powerM i j l;
    aset v (dimX * dimZ * (layerP l + 1) + j * dimX + i) p).

(** [pdgssv] of SuperLU overwrites the right-hand side with the solution *)
Definition steady_thermal_solver (pdgssv : CompCol → list D → list D) (powerM : list (list (list D)))
    (Midx : list (Entry D)) (count : Z) : outcome (list D) :=
  A ← compress Midx count T_size;
  rhs ← steady_rhs powerM;
  Ret ((λ t, t ⊖ T0) <$> pdgssv A rhs).

(** ** The transient solver *)

Definition transient_power (powerM : list (list (list D))) : outcome (list D) :=
  v ← sources;
  for_ (cells_of dimZ dimX) v (λ v n,
    let '(l, j, i) := n in
    p ← power_at powerM i j l;
    aset v (dimX * dimZ * (layerP l + 1) + i * dimZ + j) p).

(** the contribution of entry [b] to the next temperatures *)
Definition euler_entry (Midx : list (Entry D)) (Cap P : list D) (dt : D) (Tp T : list D) (b : Z) :
    outcome (list D) :=
  e ← aget Midx b;
  let idx0 := e.(e_row) in
  let idx1 := e.(e_col) in
  let tmp_c := e.(e_val) in
  idxC ← iquot idx0 (dimX * dimZ);
  c ← aget Cap idxC;
  old ← aget Tp idx1;
  t ← aget T idx0;
  if idx0 =? idx1 then
    p ← aget P idx0;
    let tmp_a := of_int 1 ⊖ tmp_c ⊗ dt ⊘ c in
    let tmp_b := tmp_a ⊗ old ⊕ p ⊗ dt ⊘ c in
    aset T idx0 (t ⊕ tmp_b)
  else
    let tmp_a := tmp_c ⊗ old ⊗ dt ⊘ c in
    aset T idx0 (t ⊖ tmp_a).

Definition block_size : Z := 8.
(** [for (j = 0; j < size; j += block_size)] *)
Definition blocks (size : Z) : list Z :=
  (λ k, block_size * k) <$> seqZ 0 ((size + block_size - 1) / block_size).
Definition euler_step (Midx : list (Entry D)) (MidxSize : Z) (Cap P : list D) (dt : D) (Tp : list D) :
    outcome (list D) :=
  for_ (blocks MidxSize) (replicate (Z.to_nat T_size) (of_int 0)) (λ T j,
    let bound := if j + block_size <? MidxSize then j + block_size else MidxSize in
    for_ (seqZ j (bound - j)) T (euler_entry Midx Cap P dt Tp)).

(** [T] and [Tp] are exchanged after each step and [T] is cleared *)
Definition transient_thermal_solver (powerM : list (list (list D))) (Midx : list (Entry D)) (MidxSize : Z)
    (Cap : list D) (time : D) (iter : Z) (T_trans : list D) : outcome (list D) :=
  P ← transient_power powerM;
  let dt := time ⊘ of_int iter in
  for_ (seqZ 0 iter) T_trans (λ Tp _, euler_step Midx MidxSize Cap P dt Tp).

End Solver.
Arguments CompCol D : clear implicits.
