(* ===== verification/ThermalSolverSpec.v ===== *)
(** * The solver of the thermal model: theorems

    The loops of [calculate_Midx_array] build the rows of a reference matrix in the order of the nodes
    ([Midx_reference]); the matrix is symmetric bit for bit, so that the compressed rows which the steady solver hands
    over are the columns that SuperLU asks for. In exact arithmetic the two solvers compute a heat balance and an
    explicit Euler step. *)
From stdpp Require Import sorting.
From S2P Require Import Prelude ThermalSolver.

(** ** Lists *)
Lemma aset_mid {A} (pre post : list A) (x y : A) i :
  i = zlen pre → aset (pre ++ x :: post) i y = Ret (pre ++ y :: post).
Proof.
  intros ->. rewrite aset_ok by (unfold zlen; rewrite length_app; cbn [length]; lia). f_equal.
  unfold zlen. rewrite Nat2Z.id, insert_app_r_alt by done. by rewrite Nat.sub_diag.
Qed.
Lemma aget_mid {A} (pre post : list A) (x : A) i : i = zlen pre → aget (pre ++ x :: post) i = Ret x.
Proof.
  intros ->. apply aget_Ret. split; [apply zlen_nonneg|]. unfold zlen. rewrite Nat2Z.id.
  by apply list_lookup_middle.
Qed.
Lemma zlen_app {A} (l k : list A) : zlen (l ++ k) = zlen l + zlen k.
Proof. unfold zlen. rewrite length_app. lia. Qed.
Lemma zlen_cons {A} (x : A) l : zlen (x :: l) = zlen l + 1.
Proof. unfold zlen. cbn [length]. lia. Qed.
Lemma zlen_bind1 {A B} (f : A → B) (l : list A) : zlen (l ≫= λ x, [f x]) = zlen l.
Proof.
  induction l as [|x l IH]; [done|]. rewrite bind_cons, zlen_app, IH, !zlen_cons.
  change (zlen []) with 0. lia.
Qed.
Lemma zlen_product {A B C} (f : A → B → C) (l : list A) (k : list B) :
  zlen (l ≫= λ x, k ≫= λ y, [f x y]) = zlen l * zlen k.
Proof.
  induction l as [|x l IH]; [done|]. rewrite bind_cons, zlen_app, IH, zlen_cons, zlen_bind1. lia.
Qed.

Lemma StronglySorted_bind {A B} (R : relation A) (S : relation B) (f : A → list B) l :
  StronglySorted R l → (∀ x, x ∈ l → StronglySorted S (f x)) →
  (∀ x y a b, x ∈ l → y ∈ l → R x y → a ∈ f x → b ∈ f y → S a b) →
  StronglySorted S (l ≫= f).
Proof.
  induction 1 as [|x l Hl IH Hx]; intros Hf Hxy; [constructor|]. rewrite bind_cons. apply StronglySorted_app_2.
  - intros a b Ha (y & Hb & Hy)%list_elem_of_bind. rewrite Forall_forall in Hx.
    apply (Hxy x y); [left|by right|by apply Hx|done|done].
  - apply Hf. left.
  - apply IH; [intros; apply Hf; by right|]. intros. apply (Hxy x0 y); [by right|by right|done..].
Qed.
Lemma StronglySorted_seqZ m n : StronglySorted Z.lt (seqZ m n).
Proof.
  destruct (Z.le_gt_cases n 0) as [?|Hn]; [rewrite seqZ_nil by lia; constructor|].
  revert m. pattern n. apply natlike_ind; [constructor| |lia]. intros k Hk IH m.
  rewrite seqZ_cons by lia. constructor; [rewrite Z.pred_succ; apply IH|].
  apply Forall_forall. intros x Hx%elem_of_seqZ. lia.
Qed.

(** ** The reference matrix *)
Section Reference.
Context {D : Type} `{Arith D} (W Lc : D) (numP dimX dimZ : Z).
Notation node := (node dimX dimZ).
Notation numLayer := (numLayer numP).

Definition guard_ {A} (b : bool) (x : A) : list A := if b then [x] else [].
(** the neighbours of a node with a smaller and with a greater number *)
Definition lower_nodes (l j i : Z) : list (Entry D) :=
  guard_ (l >? 0) (mkEntry (node l j i) (node (l - 1) j i) (vertical W Lc numP dimX dimZ i j l (l - 1))) ++
  guard_ (j - 1 >=? 0) (mkEntry (node l j i) (node l (j - 1) i) (minus_over (Rhori1 W Lc dimX dimZ l))) ++
  guard_ (i - 1 >=? 0) (mkEntry (node l j i) (node l j i - 1) (minus_over (Rhori0 W Lc dimX dimZ l))).
Definition upper_nodes (l j i : Z) : list (Entry D) :=
  guard_ (i + 1 <? dimX) (mkEntry (node l j i) (node l j i + 1) (minus_over (Rhori0 W Lc dimX dimZ l))) ++
  guard_ (j + 1 <? dimZ) (mkEntry (node l j i) (node l (j + 1) i) (minus_over (Rhori1 W Lc dimX dimZ l))) ++
  guard_ (l <? numLayer) (mkEntry (node l j i) (node (l + 1) j i) (vertical W Lc numP dimX dimZ i j l (l + 1))).
(** minus the sum of the others, with the way to the ambient for a node of the sink *)
Definition diagonal_value (l j i : Z) : D :=
  let d := foldl (λ d e, d ⊖ e.(e_val)) (of_int 0) (lower_nodes l j i ++ upper_nodes l j i) in
  if node l j i <? dimX * dimZ then d ⊕ of_int 1 ⊘ Ramb W Lc dimX dimZ else d.
Definition matrix_row (n : Z * Z * Z) : list (Entry D) :=
  let '(l, j, i) := n in
  lower_nodes l j i ++ [mkEntry (node l j i) (node l j i) (diagonal_value l j i)] ++ upper_nodes l j i.
Definition matrix : list (Entry D) := nodes_of numP dimZ dimX ≫= matrix_row.

(** *** One node *)
Definition zero_entries (n : nat) : list (Entry D) := replicate n (mkEntry 0 0 (of_int 0)).

Lemma emit_spec b (e : Entry D) pre n :
  emit b e (pre ++ zero_entries (length (guard_ b e) + n), zlen pre) =
  Ret ((pre ++ guard_ b e) ++ zero_entries n, zlen (pre ++ guard_ b e)).
Proof.
  unfold emit, guard_, zero_entries. destruct b; cbn [fst snd length Nat.add replicate].
  - rewrite aset_mid by done. rewrite <- app_assoc. cbn [app mbind outcome_bind]. do 2 f_equal.
    rewrite zlen_app. unfold zlen. cbn [length]. lia.
  - by rewrite app_nil_r.
Qed.

Lemma neighbours_spec l j i pre n :
  neighbours W Lc numP dimX dimZ l j i
    (pre ++ zero_entries (length (lower_nodes l j i ++ upper_nodes l j i) + n), zlen pre) =
  Ret (let row := pre ++ lower_nodes l j i ++ upper_nodes l j i in (row ++ zero_entries n, zlen row)).
Proof.
  unfold neighbours, lower_nodes, upper_nodes. rewrite !length_app, <- !Nat.add_assoc.
  do 5 (rewrite emit_spec; cbn [mbind outcome_bind]). rewrite emit_spec. cbn zeta.
  by rewrite !app_assoc.
Qed.

(** subtracting the entries of [row] from the entry after them *)
Lemma subtract_spec pre row (d : Entry D) post :
  ∀ done todo, row = done ++ todo →
  for_ (seqZ (zlen pre + zlen done) (zlen todo)) (pre ++ row ++ d :: post) (λ M k,
    d ← aget M (zlen (pre ++ row)); e ← aget M k;
    aset M (zlen (pre ++ row)) (mkEntry d.(e_row) d.(e_col) (d.(e_val) ⊖ e.(e_val)))) =
  Ret (pre ++ row ++ mkEntry d.(e_row) d.(e_col) (foldl (λ v e, v ⊖ e.(e_val)) d.(e_val) todo) :: post).
Proof.
  intros don todo. revert don d. induction todo as [|e todo IH]; intros don d Hrow.
  { cbn. by destruct d. }
  rewrite zlen_cons. rewrite seqZ_cons by (pose proof (zlen_nonneg todo); lia). cbn [for_].
  rewrite (app_assoc pre row), (aget_mid (pre ++ row) post d _ eq_refl). cbn [mbind outcome_bind].
  assert (aget ((pre ++ row) ++ d :: post) (zlen pre + zlen don) = Ret e) as ->.
  { rewrite Hrow, <- app_assoc, <- app_assoc, app_assoc. cbn [app].
    apply aget_mid. by rewrite zlen_app. }
  cbn [mbind outcome_bind]. rewrite aset_mid by done. cbn [mbind outcome_bind foldl].
  rewrite <- (app_assoc pre row).
  replace (Z.succ (zlen pre + zlen don)) with (zlen pre + zlen (don ++ [e]))
    by (rewrite zlen_app; unfold zlen; cbn [length]; lia).
  replace (Z.pred (zlen todo + 1)) with (zlen todo) by lia.
  rewrite (IH (don ++ [e])); [done|]. by rewrite <- app_assoc.
Qed.

Lemma diagonal_spec l j i pre n :
  let row := lower_nodes l j i ++ upper_nodes l j i in
  diagonal W Lc dimX dimZ l j i (zlen pre) ((pre ++ row) ++ zero_entries (S n), zlen (pre ++ row)) =
  Ret (pre ++ row ++ mkEntry (node l j i) (node l j i) (diagonal_value l j i) :: zero_entries n,
       zlen (pre ++ row) + 1).
Proof.
  cbn zeta. unfold diagonal, diagonal_value. set (row := lower_nodes l j i ++ upper_nodes l j i).
  cbn [zero_entries replicate]. fold (zero_entries n).
  unfold zero_entries at 1. cbn [replicate]. fold (zero_entries n).
  rewrite aget_mid by done. cbn [mbind outcome_bind e_val]. rewrite aset_mid by done. cbn [mbind outcome_bind].
  rewrite <- app_assoc.
  replace (zlen (pre ++ row) - zlen pre) with (zlen row) by (rewrite zlen_app; lia).
  pose proof (subtract_spec pre row (mkEntry (node l j i) (node l j i) (of_int 0)) (zero_entries n) [] row
    eq_refl) as Hs.
  unfold zlen at 2 in Hs. cbn [length] in Hs. rewrite Z.add_0_r in Hs. rewrite Hs. cbn [mbind outcome_bind].
  destruct (node l j i <? dimX * dimZ); [|done].
  rewrite (app_assoc pre row), aget_mid by done. cbn [mbind outcome_bind].
  rewrite aset_mid by done. cbn [mbind outcome_bind]. by rewrite <- app_assoc.
Qed.

(** the last entry sinks below those of greater column *)
Lemma sort_row_spec pre low (d : Entry D) up post :
  Forall (λ e, e.(e_col) <= d.(e_col)) low → Forall (λ e, d.(e_col) < e.(e_col)) up →
  sort_row (zlen pre) (pre ++ (low ++ up) ++ d :: post, zlen (pre ++ low ++ up) + 1) =
  Ret (pre ++ (low ++ d :: up) ++ post, zlen (pre ++ low ++ up) + 1).
Proof.
  intros Hlow Hup. unfold sort_row.
  replace (zlen (pre ++ low ++ up) + 1 - 1 - zlen pre) with (zlen (low ++ up)) by (rewrite !zlen_app; lia).
  match goal with |- context [for_ret (reverse ?s) ?M ?f] =>
    assert (returns (for_ret (reverse s) M f) (λ r, r.1 = pre ++ (low ++ d :: up) ++ post)) as (r & -> & Hr) end.
  2: { cbn [mbind outcome_bind]. by rewrite Hr. }
  clear - Hlow Hup. revert post Hup. induction up as [|x up IH] using rev_ind; intros post Hup.
  - rewrite app_nil_r. destruct low as [|b low _] using rev_ind.
    { unfold zlen. cbn. by apply returns_ret. }
    rewrite zlen_app, seqZ_app by (apply zlen_nonneg || done). rewrite reverse_app. cbn [zlen length reverse].
    change (reverse (seqZ (zlen pre + zlen low) (zlen [b]))) with [zlen pre + zlen low]. cbn [app for_ret].
    replace (pre ++ (low ++ [b]) ++ d :: post) with ((pre ++ low) ++ b :: d :: post) by (by rewrite <- !app_assoc).
    rewrite (aget_mid (pre ++ low) (d :: post) b (zlen pre + zlen low)) by (by rewrite zlen_app). cbn [mbind outcome_bind].
    replace ((pre ++ low) ++ b :: d :: post) with ((pre ++ low ++ [b]) ++ d :: post) at 1
      by (by rewrite <- !app_assoc).
    rewrite (aget_mid (pre ++ low ++ [b]) post d) by (rewrite !zlen_app; unfold zlen; cbn [length]; lia).
    cbn [mbind outcome_bind].
    apply Forall_app in Hlow as [_ Hb]. rewrite Forall_singleton in Hb.
    rewrite Z.gtb_ltb. destruct (Z.ltb_spec d.(e_col) b.(e_col)); [lia|]. cbn [mbind outcome_bind snd fst].
    apply returns_ret. cbn [fst]. by rewrite <- !app_assoc.
  - apply Forall_app in Hup as [Hup Hx]. rewrite Forall_singleton in Hx.
    replace (zlen (low ++ up ++ [x])) with (zlen (low ++ up) + zlen [x]) by (rewrite !zlen_app; lia).
    rewrite seqZ_app by (apply zlen_nonneg || done). rewrite reverse_app.
    change (reverse (seqZ (zlen pre + zlen (low ++ up)) (zlen [x]))) with [zlen pre + zlen (low ++ up)].
    cbn [app for_ret].
    replace (pre ++ (low ++ up ++ [x]) ++ d :: post) with ((pre ++ low ++ up) ++ x :: d :: post)
      by (by rewrite <- !app_assoc).
    rewrite (aget_mid (pre ++ low ++ up) (d :: post) x (zlen pre + zlen (low ++ up))) by (rewrite !zlen_app; lia). cbn [mbind outcome_bind].
    replace (zlen pre + zlen (low ++ up) + 1) with (zlen ((pre ++ low ++ up) ++ [x]))
      by (rewrite !zlen_app; unfold zlen; cbn [length]; lia).
    replace ((pre ++ low ++ up) ++ x :: d :: post) with (((pre ++ low ++ up) ++ [x]) ++ d :: post)
      by (by rewrite <- !app_assoc).
    rewrite (aget_mid ((pre ++ low ++ up) ++ [x]) post d) by done. cbn [mbind outcome_bind].
    rewrite Z.gtb_ltb. destruct (Z.ltb_spec d.(e_col) x.(e_col)); [|lia].
    replace (((pre ++ low ++ up) ++ [x]) ++ d :: post) with ((pre ++ low ++ up) ++ x :: d :: post)
      by (by rewrite <- !app_assoc).
    rewrite aset_mid by (rewrite !zlen_app; lia). cbn [mbind outcome_bind].
    replace ((pre ++ low ++ up) ++ d :: d :: post) with (((pre ++ low ++ up) ++ [d]) ++ d :: post)
      by (by rewrite <- !app_assoc).
    rewrite aset_mid by (rewrite !zlen_app; unfold zlen; cbn [length]; lia). cbn [mbind outcome_bind snd fst].
    replace (((pre ++ low ++ up) ++ [d]) ++ x :: post) with (pre ++ (low ++ up) ++ d :: x :: post)
      by (rewrite <- !app_assoc; done).
    eapply returns_mono; [by apply IH|]. cbn beta. intros r ->.
    rewrite <- !app_assoc. cbn [app]. by rewrite <- !app_assoc.
Qed.

Hypotheses (HX : 0 < dimX) (HZ : 0 < dimZ).

Lemma lower_cols l j i : Forall (λ e, e.(e_col) <= node l j i) (lower_nodes l j i).
Proof.
  unfold lower_nodes, guard_, ThermalSolver.node.
  destruct (l >? 0), (j - 1 >=? 0), (i - 1 >=? 0); cbn [app]; repeat constructor; cbn [e_col]; nia.
Qed.
Lemma upper_cols l j i : Forall (λ e, node l j i < e.(e_col)) (upper_nodes l j i).
Proof.
  unfold upper_nodes, guard_, ThermalSolver.node.
  destruct (i + 1 <? dimX), (j + 1 <? dimZ), (l <? numLayer); cbn [app]; repeat constructor; cbn [e_col]; nia.
Qed.

Lemma zlen_row l j i : zlen (matrix_row (l, j, i)) = zlen (lower_nodes l j i) + zlen (upper_nodes l j i) + 1.
Proof. unfold matrix_row. cbn [app]. rewrite zlen_app, zlen_cons. lia. Qed.

Lemma fill_node_spec n pre m :
  fill_node W Lc numP dimX dimZ (pre ++ zero_entries (length (matrix_row n) + m), zlen pre) n =
  Ret ((pre ++ matrix_row n) ++ zero_entries m, zlen (pre ++ matrix_row n)).
Proof.
  destruct n as [[l j] i]. unfold fill_node. cbn [snd].
  assert (length (matrix_row (l, j, i)) + m = length (lower_nodes l j i ++ upper_nodes l j i) + S m)%nat as ->.
  { unfold matrix_row. rewrite !length_app. cbn [length]. lia. }
  rewrite neighbours_spec. cbn zeta. cbn [mbind outcome_bind].
  rewrite diagonal_spec. cbn [mbind outcome_bind].
  rewrite sort_row_spec by (apply lower_cols || apply upper_cols).
  f_equal. f_equal.
  - unfold matrix_row. cbn [app]. by rewrite !app_assoc.
  - rewrite !zlen_app, zlen_row. lia.
Qed.

Lemma fill_nodes ns pre m :
  for_ ns (pre ++ zero_entries (length (ns ≫= matrix_row) + m), zlen pre)
    (fill_node W Lc numP dimX dimZ) =
  Ret (let M := pre ++ (ns ≫= matrix_row) in (M ++ zero_entries m, zlen M)).
Proof.
  revert pre. induction ns as [|n ns IH]; intros pre; cbn [for_].
  { cbn. by rewrite app_nil_r. }
  rewrite bind_cons, length_app, <- Nat.add_assoc, fill_node_spec. cbn [mbind outcome_bind].
  rewrite IH. cbn zeta. by rewrite <- !app_assoc.
Qed.

(** *** The size of the array *)
Lemma bind_cons_perm {A B} (f : A → B) (g : A → list B) l :
  (l ≫= λ a, f a :: g a) ≡ₚ (f <$> l) ++ (l ≫= g).
Proof.
  induction l as [|a l IH]; [done|]. rewrite !bind_cons. cbn [fmap list_fmap app].
  rewrite IH, !app_assoc. apply Permutation_skip. apply Permutation_app_tail, Permutation_app_comm.
Qed.
Lemma product_swap {A B} (l : list A) (k : list B) :
  (l ≫= λ a, k ≫= λ b, [(a, b)]) ≡ₚ (k ≫= λ b, l ≫= λ a, [(a, b)]).
Proof.
  induction l as [|a l IH].
  { cbn. induction k; [done|]. by rewrite bind_cons. }
  rewrite bind_cons, IH. symmetry.
  transitivity (k ≫= λ b, (a, b) :: (l ≫= λ a, [(a, b)])); [done|].
  rewrite bind_cons_perm. apply Permutation_app_tail.
  clear. induction k as [|b k IH]; [done|]. rewrite bind_cons. cbn. by f_equiv.
Qed.
Lemma fmap_bind_list {A B C} (f : B → C) (g : A → list B) l : f <$> (l ≫= g) = l ≫= λ a, f <$> g a.
Proof. induction l as [|a l IH]; [done|]. by rewrite !bind_cons, fmap_app, IH. Qed.
Lemma product_transpose x a b :
  ((λ n : Z * Z * Z, (n.1.1, n.2, n.1.2)) <$> (l ← seqZ 0 x; j ← seqZ 0 a; i ← seqZ 0 b; [(l, j, i)])) ≡ₚ
  (l ← seqZ 0 x; j ← seqZ 0 b; i ← seqZ 0 a; [(l, j, i)]).
Proof.
  induction (seqZ 0 x) as [|l ls IH]; [done|].
  rewrite !bind_cons, fmap_app. apply Permutation_app; [|done]. clear IH.
  pose proof (product_swap (seqZ 0 a) (seqZ 0 b)) as Hp.
  apply (fmap_Permutation (λ p : Z * Z, (l, p.2, p.1))) in Hp.
  rewrite !fmap_bind_list in Hp. rewrite fmap_bind_list.
  etransitivity; [|etransitivity; [exact Hp|]]; apply reflexive_eq, list_bind_ext;
    try done; intros y; by rewrite !fmap_bind_list.
Qed.
Lemma nodes_swap a b :
  ((λ n : Z * Z * Z, (n.1.1, n.2, n.1.2)) <$> nodes_of numP a b) ≡ₚ nodes_of numP b a.
Proof. apply product_transpose. Qed.

Lemma count_node_spec c l i j :
  count_node numP dimX dimZ c (l, i, j) = c + zlen (lower_nodes l j i) + zlen (upper_nodes l j i).
Proof.
  unfold count_node, lower_nodes, upper_nodes. rewrite !zlen_app. unfold guard_.
  destruct (l >? 0), (j - 1 >=? 0), (i - 1 >=? 0), (i + 1 <? dimX), (j + 1 <? dimZ), (l <? numLayer);
    unfold zlen; cbn [length]; lia.
Qed.

Lemma count_nodes ns c :
  foldl (count_node numP dimX dimZ) c ns + zlen ns =
  c + zlen (((λ n : Z * Z * Z, (n.1.1, n.2, n.1.2)) <$> ns) ≫= matrix_row).
Proof.
  revert c. induction ns as [|[[l i] j] ns IH]; intros c; [unfold zlen; cbn; lia|].
  cbn [foldl]. rewrite fmap_cons, bind_cons, zlen_app, zlen_cons, Z.add_assoc, IH, count_node_spec.
  cbn [fst snd]. rewrite zlen_row. lia.
Qed.

Lemma zlen_Permutation {A} (l k : list A) : l ≡ₚ k → zlen l = zlen k.
Proof. unfold zlen. by intros ->. Qed.
Lemma zlen_nodes a b : 0 <= a → 0 <= b → 0 <= numP → zlen (nodes_of numP a b) = a * b * (numLayer + 1).
Proof.
  intros Ha Hb Hp. unfold nodes_of.
  assert (∀ n, 0 <= n → zlen (seqZ 0 n) = n) as Hs by (intros n Hn; unfold zlen; rewrite length_seqZ; lia).
  assert (∀ ls, zlen (ls ≫= λ l : Z, seqZ 0 a ≫= λ x, seqZ 0 b ≫= λ y, [(l, x, y)]) = a * b * zlen ls) as Hl.
  { induction ls as [|l ls IH]; [unfold zlen; cbn; lia|]. rewrite bind_cons, zlen_app, IH, zlen_product, !Hs, zlen_cons by done. lia. }
  rewrite Hl, Hs; [done|]. unfold ThermalSolver.numLayer. lia.
Qed.

Lemma MidxSize_spec : 0 <= numP → MidxSize numP dimX dimZ = zlen matrix.
Proof.
  intros Hp. unfold MidxSize, matrix. rewrite <- (zlen_nodes dimX dimZ) by lia. rewrite count_nodes.
  rewrite Z.add_0_l. apply zlen_Permutation. apply bind_Permutation. apply nodes_swap.
Qed.

(** the three passes of the program build the reference matrix *)
Lemma Midx_reference : 0 <= numP →
  calculate_Midx_array W Lc numP dimX dimZ = Ret matrix ∧ MidxSize numP dimX dimZ = zlen matrix.
Proof.
  intros Hp. split; [|by apply MidxSize_spec]. unfold calculate_Midx_array. rewrite MidxSize_spec by done.
  unfold zlen. rewrite Nat2Z.id.
  pose proof (fill_nodes (nodes_of numP dimZ dimX) [] 0) as Hf. rewrite Nat.add_0_r in Hf. cbn [app] in Hf.
  change (zlen []) with 0 in Hf. unfold zero_entries in Hf at 1. fold matrix in Hf.
  rewrite Hf. cbn [mbind outcome_bind fst]. f_equal. apply app_nil_r.
Qed.

(** *** The entries as conductances *)
Definition in_grid (n : Z * Z * Z) : Prop :=
  let '(l, j, i) := n in 0 <= l <= numLayer ∧ 0 <= j < dimZ ∧ 0 <= i < dimX.
Definition number (n : Z * Z * Z) : Z := let '(l, j, i) := n in node l j i.
(** the conductance between two different nodes is [g], up to the sign *)
Definition linked (a b : Z * Z * Z) (g : D) : Prop :=
  let '(l, j, i) := a in let '(l', j', i') := b in
  (Z.abs (l - l') = 1 ∧ j = j' ∧ i = i' ∧ g = vertical W Lc numP dimX dimZ i j l l') ∨
  (l = l' ∧ Z.abs (j - j') = 1 ∧ i = i' ∧ g = minus_over (Rhori1 W Lc dimX dimZ l)) ∨
  (l = l' ∧ j = j' ∧ Z.abs (i - i') = 1 ∧ g = minus_over (Rhori0 W Lc dimX dimZ l)).
Definition entry_lt (e f : Entry D) : Prop :=
  e.(e_row) < f.(e_row) ∨ e.(e_row) = f.(e_row) ∧ e.(e_col) < f.(e_col).

Lemma elem_of_nodes a : a ∈ nodes_of numP dimZ dimX ↔ in_grid a.
Proof.
  destruct a as [[l j] i]. unfold nodes_of, in_grid.
  rewrite list_elem_of_bind. setoid_rewrite list_elem_of_bind. setoid_rewrite list_elem_of_bind.
  setoid_rewrite elem_of_seqZ. setoid_rewrite list_elem_of_singleton. split.
  - intros (? & (? & (? & [= <- <- <-] & ?) & ?) & ?). lia.
  - intros. exists l. split; [|lia]. exists j. split; [|lia]. exists i. split; [done|lia].
Qed.
Lemma elem_of_matrix e : e ∈ matrix ↔ ∃ a, in_grid a ∧ e ∈ matrix_row a.
Proof. unfold matrix. rewrite list_elem_of_bind. setoid_rewrite elem_of_nodes. naive_solver. Qed.

Lemma number_range a : in_grid a → 0 <= number a < T_size numP dimX dimZ.
Proof.
  destruct a as [[l j] i]. unfold in_grid, number, ThermalSolver.node, T_size. intros (Hl & Hj & Hi).
  assert (0 <= l * dimX * dimZ + j * dimX) by nia.
  assert (j * dimX + i < dimX * dimZ) by nia. split; [lia|].
  replace (dimX * dimZ * (numLayer + 1)) with (numLayer * dimX * dimZ + dimX * dimZ) by lia.
  assert (l * dimX * dimZ <= numLayer * dimX * dimZ) by (apply Z.mul_le_mono_nonneg_r; nia). lia.
Qed.
Definition node_lt (a b : Z * Z * Z) : Prop :=
  let '(l, j, i) := a in let '(l', j', i') := b in
  l < l' ∨ l = l' ∧ (j < j' ∨ j = j' ∧ i < i').
Lemma number_lt a b : in_grid a → in_grid b → node_lt a b → number a < number b.
Proof.
  unfold node_lt. destruct a as [[l j] i], b as [[l' j'] i']. unfold in_grid, number, ThermalSolver.node.
  intros (Hl & Hj & Hi) (Hl' & Hj' & Hi') [?|[-> [?|[-> ?]]]]; [|nia|lia].
  assert (j * dimX + i < dimX * dimZ) by nia. assert (0 <= j' * dimX + i') by nia.
  assert (l * dimX * dimZ + dimX * dimZ <= l' * dimX * dimZ) by nia. lia.
Qed.
Lemma number_inj a b : in_grid a → in_grid b → number a = number b → a = b.
Proof.
  intros Ha Hb Heq. pose proof (number_lt a b Ha Hb) as H1. pose proof (number_lt b a Hb Ha) as H2.
  destruct a as [[l j] i], b as [[l' j'] i']. unfold node_lt in H1, H2. rewrite Heq in H1, H2.
  assert (l = l') as -> by lia. assert (j = j') as -> by lia. assert (i = i') as -> by lia. done.
Qed.
Lemma number_onto r : 0 <= r < T_size numP dimX dimZ → ∃ a, in_grid a ∧ number a = r.
Proof.
  unfold T_size. intros Hr. exists (r / (dimX * dimZ), r mod (dimX * dimZ) / dimX, r mod (dimX * dimZ) mod dimX).
  assert (0 < dimX * dimZ) by nia.
  pose proof (Z.mod_pos_bound r (dimX * dimZ) ltac:(lia)).
  pose proof (Z.mod_pos_bound (r mod (dimX * dimZ)) dimX ltac:(lia)).
  pose proof (Z.div_mod r (dimX * dimZ) ltac:(lia)).
  pose proof (Z.div_mod (r mod (dimX * dimZ)) dimX ltac:(lia)).
  unfold in_grid, number, ThermalSolver.node. split; [|lia]. repeat split; try lia.
  - apply Z.div_pos; lia.
  - assert (r / (dimX * dimZ) < numLayer + 1); [|lia]. apply Z.div_lt_upper_bound; lia.
  - apply Z.div_pos; lia.
  - apply Z.div_lt_upper_bound; lia.
Qed.

Lemma elem_of_guard_ {A} b (x y : A) : x ∈ guard_ b y ↔ b = true ∧ x = y.
Proof. unfold guard_. destruct b; rewrite ?list_elem_of_singleton; set_solver. Qed.

(** an entry beside the diagonal is a pair of neighbours with its conductance *)
Lemma off_diagonal a e : in_grid a → let '(l, j, i) := a in
  e ∈ lower_nodes l j i ++ upper_nodes l j i ↔
  ∃ b, in_grid b ∧ e.(e_row) = number a ∧ e.(e_col) = number b ∧ linked a b e.(e_val).
Proof.
  destruct a as [[l j] i]. intros (Hl & Hj & Hi). unfold lower_nodes, upper_nodes.
  rewrite !elem_of_app, !elem_of_guard_. split.
  - intros [[[? ->]|[[? ->]|[? ->]]]|[[? ->]|[[? ->]|[? ->]]]]; cbn [e_row e_col e_val].
    + exists (l - 1, j, i). unfold in_grid, number, linked. repeat split; try lia. left. repeat split; lia.
    + exists (l, j - 1, i). unfold in_grid, number, linked. repeat split; try lia. right; left. repeat split; lia.
    + exists (l, j, i - 1). unfold in_grid, number, linked, ThermalSolver.node. repeat split; try lia.
      right; right. repeat split; lia.
    + exists (l, j, i + 1). unfold in_grid, number, linked, ThermalSolver.node. repeat split; try lia.
      right; right. repeat split; lia.
    + exists (l, j + 1, i). unfold in_grid, number, linked. repeat split; try lia. right; left. repeat split; lia.
    + exists (l + 1, j, i). unfold in_grid, number, linked. repeat split; try lia. left. repeat split; lia.
  - destruct e as [r c v]. intros ([[l' j'] i'] & (Hl' & Hj' & Hi') & Hr & Hc & Hlink). cbn [e_row e_col e_val number] in *.
    subst r c. destruct Hlink as [(Hd & <- & <- & ->)|[(<- & Hd & <- & ->)|(<- & <- & Hd & ->)]].
    + assert (l' = l - 1 ∨ l' = l + 1) as [->| ->] by lia; [left; left|right; right; right]; split; done || lia.
    + assert (j' = j - 1 ∨ j' = j + 1) as [->| ->] by lia; [left; right; left|right; right; left]; split; done || lia.
    + assert (i' = i - 1 ∨ i' = i + 1) as [->| ->] by lia; [left; right; right|right; left]; split; try lia;
        f_equal; unfold ThermalSolver.node; lia.
Qed.

Lemma matrix_row_spec a e : in_grid a →
  e ∈ matrix_row a ↔
    e.(e_row) = number a ∧
    (e.(e_col) = number a ∧ e.(e_val) = (let '(l, j, i) := a in diagonal_value l j i) ∨
     ∃ b, in_grid b ∧ e.(e_col) = number b ∧ linked a b e.(e_val)).
Proof.
  intros Ha. pose proof (off_diagonal a e Ha) as Hoff. destruct a as [[l j] i]. unfold matrix_row.
  rewrite !elem_of_app, list_elem_of_singleton. rewrite elem_of_app in Hoff. split.
  - intros Hin. assert (e = mkEntry (node l j i) (node l j i) (diagonal_value l j i) ∨
      e ∈ lower_nodes l j i ∨ e ∈ upper_nodes l j i) as [->|Hlu] by tauto; [by auto|].
    apply Hoff in Hlu as (b & Hb & -> & -> & ?). split; [done|]. right. eauto.
  - intros [Hr [[Hc Hv]|(b & Hb & Hc & Hl)]].
    + right; left. destruct e as [r c v]; cbn [e_row e_col e_val] in *. by subst.
    + assert (e ∈ lower_nodes l j i ∨ e ∈ upper_nodes l j i); [|tauto]. apply Hoff. eauto.
Qed.

Lemma linked_ne a b g : linked a b g → a ≠ b.
Proof. destruct a as [[l j] i], b as [[l' j'] i']. unfold linked. intros Hl [= -> -> ->]. lia. Qed.

Lemma matrix_spec a b v : in_grid a → in_grid b →
  mkEntry (number a) (number b) v ∈ matrix ↔
  (if decide (a = b) then v = (let '(l, j, i) := a in diagonal_value l j i) else linked a b v).
Proof.
  intros Ha Hb. rewrite elem_of_matrix. split.
  - intros (a' & Ha' & He). apply matrix_row_spec in He as [Hr He]; [|done]. cbn [e_row e_col e_val] in *.
    apply number_inj in Hr as <-; [|done..]. destruct He as [[Hc ->]|(b' & Hb' & Hc & Hl)].
    + apply number_inj in Hc as <-; [|done..]. by rewrite decide_True.
    + apply number_inj in Hc as <-; [|done..]. rewrite decide_False; [done|]. by eapply linked_ne.
  - intros Hv. exists a. split; [done|]. apply matrix_row_spec; [done|]. cbn [e_row e_col e_val].
    split; [done|]. destruct (decide (a = b)) as [<-|]; [by left|right; eauto].
Qed.
Lemma matrix_entry e : e ∈ matrix → ∃ a b, in_grid a ∧ in_grid b ∧ e = mkEntry (number a) (number b) e.(e_val).
Proof.
  intros (a & Ha & He)%elem_of_matrix. apply matrix_row_spec in He as [Hr He]; [|done].
  destruct e as [r c v]. cbn [e_row e_col e_val] in *. subst r.
  destruct He as [[-> _]|(b & Hb & -> & _)]; eauto.
Qed.

Lemma sorted_guard (b : bool) (x : Entry D) l :
  (b = true → Forall (entry_lt x) l) → StronglySorted entry_lt l → StronglySorted entry_lt (guard_ b x ++ l).
Proof. unfold guard_. destruct b; [|done]. intros. by constructor; auto. Qed.
Lemma Forall_guard (P : Entry D → Prop) (b : bool) x l :
  (b = true → P x) → Forall P l → Forall P (guard_ b x ++ l).
Proof. unfold guard_. destruct b; [|done]. intros. constructor; auto. Qed.
Lemma row_sorted a : in_grid a → StronglySorted entry_lt (matrix_row a).
Proof.
  destruct a as [[l j] i]. intros (Hl & Hj & Hi).
  set (r := node l j i). set (N := dimX * dimZ).
  assert (Hn : node (l - 1) j i = r - N ∧ node l (j - 1) i = r - dimX ∧
    node l (j + 1) i = r + dimX ∧ node (l + 1) j i = r + N).
  { unfold r, N, ThermalSolver.node. repeat split; ring. }
  assert (HN : dimX <= N ∧ (1 < dimZ → 2 * dimX <= N)) by (unfold N; nia).
  clearbody N. destruct Hn as (H1 & H2 & H3 & H4).
  unfold matrix_row, lower_nodes, upper_nodes. rewrite H1, H2, H3, H4. fold r. clearbody r. clear H1 H2 H3 H4.
  rewrite <- (app_nil_r (_ ++ _ ++ guard_ (l <? numLayer) _)), <- !app_assoc.
  repeat first [apply SSorted_nil | apply Forall_nil_2 | apply sorted_guard; [intros Hb|] | apply SSorted_cons
    | apply Forall_guard; [intros Hb'|] | apply Forall_cons_2];
    right; cbn [e_row e_col]; (split; [done|lia]).
Qed.
Lemma product_sorted x y z :
  StronglySorted node_lt (l ← seqZ 0 x; j ← seqZ 0 y; i ← seqZ 0 z; [(l, j, i)]).
Proof.
  apply (StronglySorted_bind Z.lt); [apply StronglySorted_seqZ| |].
  - intros l _. apply (StronglySorted_bind Z.lt); [apply StronglySorted_seqZ| |].
    + intros j _. apply (StronglySorted_bind Z.lt); [apply StronglySorted_seqZ| |].
      * intros i _. repeat constructor.
      * intros i i' ? ? _ _ Hi ->%list_elem_of_singleton ->%list_elem_of_singleton. unfold node_lt. lia.
    + intros j j' ? ? _ _ Hj (i & ->%list_elem_of_singleton & _)%list_elem_of_bind
        (i' & ->%list_elem_of_singleton & _)%list_elem_of_bind. unfold node_lt. lia.
  - intros l l' ? ? _ _ Hl (j & (i & ->%list_elem_of_singleton & _)%list_elem_of_bind & _)%list_elem_of_bind
      (j' & (i' & ->%list_elem_of_singleton & _)%list_elem_of_bind & _)%list_elem_of_bind.
    unfold node_lt. lia.
Qed.

Lemma product_NoDup x y z : NoDup (l ← seqZ 0 x; j ← seqZ 0 y; i ← seqZ 0 z; [(l, j, i)]).
Proof.
  pose proof (product_sorted x y z) as Hs. induction Hs as [|a k Hk IH Ha]; [constructor|].
  constructor; [|done]. intros Hin. rewrite Forall_forall in Ha. pose proof (Ha a Hin) as Hlt.
  destruct a as [[l j] i]. unfold node_lt in Hlt. lia.
Qed.
Lemma nodes_sorted : StronglySorted node_lt (nodes_of numP dimZ dimX).
Proof. apply product_sorted. Qed.

Lemma matrix_sorted : StronglySorted entry_lt matrix.
Proof.
  apply (StronglySorted_bind node_lt); [apply nodes_sorted| |].
  - intros a Ha%elem_of_nodes. by apply row_sorted.
  - intros a b e f Ha%elem_of_nodes Hb%elem_of_nodes Hlt He%matrix_row_spec Hf%matrix_row_spec; [|done..].
    left. destruct He as [-> _], Hf as [-> _]. by apply number_lt.
Qed.

Lemma matrix_NoDup : NoDup matrix.
Proof.
  pose proof matrix_sorted as Hs. induction Hs as [|e M HM IH He]; [constructor|].
  constructor; [|done]. intros Hin. rewrite Forall_forall in He. pose proof (He e Hin) as [?|[_ ?]]; lia.
Qed.

(** conductance does not depend on the direction, with an addition that commutes *)
Lemma linked_sym a b g : (∀ x y : D, x ⊕ y = y ⊕ x) → linked a b g → linked b a g.
Proof.
  intros Hc. destruct a as [[l j] i], b as [[l' j'] i']. unfold linked.
  intros [(Hd & <- & <- & ->)|[(<- & Hd & <- & ->)|(<- & <- & Hd & ->)]].
  - left. repeat split; [lia|]. unfold vertical. by rewrite Hc.
  - right; left. repeat split; lia.
  - right; right. repeat split; lia.
Qed.
Lemma matrix_symmetric r c v : (∀ x y : D, x ⊕ y = y ⊕ x) → mkEntry r c v ∈ matrix → mkEntry c r v ∈ matrix.
Proof.
  intros Hc Hin. destruct (matrix_entry _ Hin) as (a & b & Ha & Hb & [= -> ->]).
  apply matrix_spec in Hin; [|done..]. apply matrix_spec; [done..|].
  destruct (decide (a = b)) as [<-|].
  - by rewrite decide_True.
  - rewrite decide_False by done. by apply linked_sym.
Qed.
End Reference.

(** ** Addition of [double]s commutes *)
Lemma dadd_comm (x y : double) : dadd x y = dadd y x.
Proof.
  unfold dadd, SFadd. destruct x as [[]|[]| |[] mx ex], y as [[]|[]| |[] my ey]; try done.
  all: rewrite (Z.min_comm ey ex); f_equal; apply Z.add_comm.
Qed.

(** C32. In [double]s, on any stack of dies and any grid, [calculate_Midx_array] (thermal_solver.c) fills the array that
    its first pass counted exactly, without leaving it. The entries are sorted by row and, within a row, by column.
    Two different nodes have an entry exactly when they are neighbours in the grid, with the negated conductance
    between them as its value; a node has its own entry, minus the sum of the others, plus the way to the ambient if it
    lies in the heat sink. The matrix is symmetric bit for bit. *)
Theorem conductance_matrix (W Lc : double) (numP dimX dimZ : Z) :
  0 < numP → 0 < dimX → 0 < dimZ →
  ∃ M, calculate_Midx_array W Lc numP dimX dimZ = Ret M ∧ zlen M = MidxSize numP dimX dimZ ∧
    StronglySorted entry_lt M ∧
    (∀ e, e ∈ M → ∃ a b, in_grid numP dimX dimZ a ∧ in_grid numP dimX dimZ b ∧
       e.(e_row) = number dimX dimZ a ∧ e.(e_col) = number dimX dimZ b) ∧
    (∀ a b v, in_grid numP dimX dimZ a → in_grid numP dimX dimZ b →
       mkEntry (number dimX dimZ a) (number dimX dimZ b) v ∈ M ↔
       (if decide (a = b) then v = (let '(l, j, i) := a in diagonal_value W Lc numP dimX dimZ l j i)
        else linked W Lc numP dimX dimZ a b v)) ∧
    (∀ r c v, mkEntry r c v ∈ M → mkEntry c r v ∈ M).
Proof.
  intros Hp HX HZ. destruct (Midx_reference W Lc numP dimX dimZ HX HZ ltac:(lia)) as [HM Hlen].
  exists (matrix W Lc numP dimX dimZ). split; [done|]. split; [done|].
  split; [by apply matrix_sorted|]. split.
  { intros e He. destruct (matrix_entry _ _ _ _ _ HX HZ e He) as (a & b & Ha & Hb & Heq).
    exists a, b. rewrite Heq. done. }
  split; [intros; by apply matrix_spec|]. intros r c v Hin. by apply matrix_symmetric; [..|apply dadd_comm|].
Qed.
Lemma conductance_matrix_witness :
  ∃ M, calculate_Midx_array (double_lit 8 3) (double_lit 8 3) 1 3 2 = Ret M ∧ zlen M = 116.
Proof.
  destruct (conductance_matrix (double_lit 8 3) (double_lit 8 3) 1 3 2 eq_refl eq_refl eq_refl) as (M & HM & Hl & _).
  exists M. split; [exact HM|]. rewrite Hl. vm_compute. reflexivity.
Defined.

(** ** Compression for SuperLU *)
Lemma filter_all {A} (P : A → Prop) `{∀ x, Decision (P x)} (l : list A) : (∀ x, x ∈ l → P x) → filter P l = l.
Proof.
  induction l as [|x l IH]; intros Hl; [done|]. rewrite filter_cons_True by (apply Hl; left).
  f_equal. apply IH. intros. apply Hl. by right.
Qed.
Lemma filter_none {A} (P : A → Prop) `{∀ x, Decision (P x)} (l : list A) : (∀ x, x ∈ l → ¬ P x) → filter P l = [].
Proof.
  induction l as [|x l IH]; intros Hl; [done|]. rewrite filter_cons_False by (apply Hl; left).
  apply IH. intros. apply Hl. by right.
Qed.
Section Compress.
Context {D : Type} `{Arith D} (M : list (Entry D)) (n : Z).
Hypotheses (Hsorted : StronglySorted entry_lt M)
  (Hrows : ∀ e, e ∈ M → 0 <= e.(e_row) < n) (Hall : ∀ r, 0 <= r < n → ∃ e, e ∈ M ∧ e.(e_row) = r) (Hn : 0 < n).

(** number of entries of the rows above [r] *)
Definition start (r : Z) : Z := zlen (filter (λ e, e.(e_row) < r) M).

Lemma start_split don todo r : M = don ++ todo →
  (∀ e, e ∈ don → e.(e_row) < r) → (∀ e, e ∈ todo → r <= e.(e_row)) → start r = zlen don.
Proof.
  intros HM Hd Ht. unfold start. rewrite HM, filter_app, zlen_app.
  rewrite filter_all by done. rewrite filter_none; [unfold zlen; cbn [length]; lia|].
  intros e He Hlt. apply Ht in He. lia.
Qed.

Lemma start_lookup k e r : M !! k = Some e → e.(e_row) < r ↔ Z.of_nat k < start r.
Proof.
  intros Hk. unfold start. revert k Hk. clear Hrows Hall. induction Hsorted as [|x l Hl IH Hx]; [done|].
  intros k Hk. rewrite filter_cons. rewrite Forall_forall in Hx. destruct (decide (x.(e_row) < r)) as [Hlt|Hge].
  - rewrite zlen_cons. destruct k as [|k]; cbn in Hk.
    + injection Hk as <-. pose proof (zlen_nonneg (filter (λ e, e.(e_row) < r) l)). lia.
    + rewrite (IH Hl _ Hk). lia.
  - assert (∀ f, f ∈ x :: l → r <= f.(e_row)) as Hf.
    { intros f [->|Hin]%elem_of_cons; [lia|]. destruct (Hx _ Hin) as [?|[? _]]; lia. }
    rewrite filter_none. 2: { intros f Hin Hlt. pose proof (Hf f ltac:(by right)). lia. }
    apply list_elem_of_lookup_2 in Hk. apply Hf in Hk. unfold zlen. cbn [length]. lia.
Qed.

Definition last_row (l : list (Entry D)) : Z := match last l with Some e => e.(e_row) | None => -1 end.
Definition zeros_ {A} (x : A) (k : Z) : list A := replicate (Z.to_nat k) x.
Definition compressed (don : list (Entry D)) : list D * list Z * list (option Z) * Z :=
  let rest := zlen M - zlen don in let row := last_row don in
  ((e_val <$> don) ++ zeros_ (of_int 0) rest, (e_col <$> don) ++ zeros_ 0 rest,
   ((λ r, Some (start r)) <$> seqZ 0 (row + 1)) ++ zeros_ None (n - row), row).

Lemma zeros_S {A} (x : A) k : 0 < k → zeros_ x k = x :: zeros_ x (k - 1).
Proof. intros. unfold zeros_. replace (Z.to_nat k) with (S (Z.to_nat (k - 1))) by lia. done. Qed.
Lemma zlen_fmap {A B} (f : A → B) l : zlen (f <$> l) = zlen l.
Proof. unfold zlen. by rewrite length_fmap. Qed.
Lemma zlen_seqZ m k : 0 <= k → zlen (seqZ m k) = k.
Proof. intros. unfold zlen. rewrite length_seqZ. lia. Qed.

Lemma last_row_bounds don todo : M = don ++ todo →
  -1 <= last_row don < n ∧ (∀ e, e ∈ don → e.(e_row) <= last_row don) ∧
  (∀ e, e ∈ todo → last_row don <= e.(e_row)).
Proof.
  intros HM. unfold last_row. destruct don as [|x don _] using rev_ind; [cbn|rewrite last_snoc].
  { split; [lia|]. split; [intros e He; set_solver|]. cbn in HM. rewrite <- HM. intros e He%Hrows. lia. }
  rewrite HM in Hsorted. assert (x ∈ M) as Hx by (rewrite HM; set_solver).
  pose proof (Hrows x Hx). split; [lia|]. split.
  - intros e [He| ->%list_elem_of_singleton]%elem_of_app; [|lia]. rewrite <- app_assoc in Hsorted.
    pose proof (StronglySorted_app_1_elem_of _ _ _ e x Hsorted He ltac:(set_solver)) as [?|[? _]]; lia.
  - intros e He.
    pose proof (StronglySorted_app_1_elem_of _ _ _ x e Hsorted ltac:(set_solver) He) as [?|[? _]]; lia.
Qed.

Lemma compress_entry_spec don e todo : M = don ++ e :: todo →
  compress_entry M (compressed don) (zlen don) = Ret (compressed (don ++ [e])).
Proof.
  intros HM. destruct (last_row_bounds don (e :: todo) HM) as (Hb & Hd & Ht).
  assert (Hrest : 0 < zlen M - zlen don).
  { rewrite HM, zlen_app, zlen_cons. pose proof (zlen_nonneg todo). lia. }
  assert (Hrow : last_row (don ++ [e]) = e.(e_row)) by (unfold last_row; by rewrite last_snoc).
  unfold compress_entry, compressed. rewrite Hrow. rewrite (zeros_S (of_int 0)), (zeros_S 0 (_ - _)) by done.
  rewrite HM at 1. rewrite aget_mid by done. cbn [mbind outcome_bind].
  rewrite Z.gtb_ltb.
  assert (He : last_row don <= e.(e_row)) by (apply Ht; left).
  assert ((if last_row don <? e.(e_row) then
      x ← aset (((λ r, Some (start r)) <$> seqZ 0 (last_row don + 1)) ++ zeros_ None (n - last_row don)) e.(e_row)
            (Some (zlen don)); Ret (x, e.(e_row))
    else Ret (((λ r, Some (start r)) <$> seqZ 0 (last_row don + 1)) ++ zeros_ None (n - last_row don), last_row don)) =
    Ret (((λ r, Some (start r)) <$> seqZ 0 (e.(e_row) + 1)) ++ zeros_ None (n - e.(e_row)), e.(e_row))) as ->.
  { destruct (Z.ltb_spec (last_row don) e.(e_row)) as [Hlt|Hge]; [|by replace (last_row don) with e.(e_row) by lia].
    assert (e.(e_row) = last_row don + 1) as ->.
    { destruct (Z.le_gt_cases e.(e_row) (last_row don + 1)); [lia|].
      pose proof (Hrows e ltac:(rewrite HM; set_solver)).
      destruct (Hall (last_row don + 1) ltac:(lia)) as (f & Hf & Hrf). rewrite HM in Hf.
      apply elem_of_app in Hf as [Hf|[->|Hf]%elem_of_cons]; [apply Hd in Hf; lia|lia|].
      assert (entry_lt e f) as [?|[? _]]; [|lia..]. rewrite HM in Hsorted.
      apply StronglySorted_app in Hsorted as (_ & _ & Hs). apply StronglySorted_inv in Hs as [_ Hs].
      rewrite Forall_forall in Hs. by apply Hs. }
    rewrite (zeros_S None) by lia. rewrite aset_mid by (rewrite zlen_fmap, zlen_seqZ; lia).
    cbn [mbind outcome_bind]. do 2 f_equal.
    rewrite (seqZ_app 0 (last_row don + 1) 1) by lia. rewrite fmap_app, <- app_assoc. f_equal.
    replace (seqZ (0 + (last_row don + 1)) 1) with [last_row don + 1] by (rewrite seqZ_cons, seqZ_nil by lia; done).
    cbn [fmap list_fmap app]. f_equal.
    - f_equal. symmetry. apply (start_split don (e :: todo)); [done|intros f Hf%Hd; lia|].
      intros f [->|Hf]%elem_of_cons; [lia|]. rewrite HM in Hsorted.
      apply StronglySorted_app in Hsorted as (_ & _ & Hs). apply StronglySorted_inv in Hs as [_ Hs].
      rewrite Forall_forall in Hs. destruct (Hs f Hf) as [?|[? _]]; lia.
    - f_equal. lia. }
  cbn [mbind outcome_bind fst snd]. rewrite aset_mid by (by rewrite zlen_fmap). cbn [mbind outcome_bind].
  rewrite aset_mid by (by rewrite zlen_fmap). cbn [mbind outcome_bind].
  rewrite !fmap_app, zlen_app. change (zlen [e]) with 1. cbn [fmap list_fmap].
  rewrite <- !app_assoc. cbn [app]. by rewrite Z.sub_add_distr.
Qed.
Lemma compress_entries todo : ∀ don, M = don ++ todo →
  for_ (seqZ (zlen don) (zlen todo)) (compressed don) (compress_entry M) = Ret (compressed M).
Proof.
  induction todo as [|e todo IH]; intros don HM.
  { rewrite app_nil_r in HM. by rewrite <- HM. }
  rewrite zlen_cons, seqZ_cons by (pose proof (zlen_nonneg todo); lia). cbn [for_].
  rewrite (compress_entry_spec _ _ _ HM). cbn [mbind outcome_bind].
  replace (Z.succ (zlen don)) with (zlen (don ++ [e])) by (rewrite zlen_app; unfold zlen; cbn [length]; lia).
  replace (Z.pred (zlen todo + 1)) with (zlen todo) by lia. apply IH. by rewrite <- app_assoc.
Qed.

Lemma last_row_all : last_row M = n - 1.
Proof.
  destruct (last_row_bounds M [] ltac:(by rewrite app_nil_r)) as (Hb & Hd & _).
  destruct (Hall (n - 1) ltac:(lia)) as (e & He & Hr). apply Hd in He. lia.
Qed.

Lemma compress_spec :
  compress M (zlen M) n =
  Ret (mkCompCol (e_val <$> M) (e_col <$> M) ((λ r, Some (start r)) <$> seqZ 0 (n + 1))).
Proof.
  unfold compress.
  assert ((replicate (Z.to_nat (zlen M)) (of_int 0 : D), replicate (Z.to_nat (zlen M)) 0,
    replicate (Z.to_nat (n + 1)) None, -1) = compressed []) as ->.
  { unfold compressed, zeros_, last_row. cbn [last fmap list_fmap app]. change (zlen []) with 0.
    rewrite Z.sub_0_r. cbn [Z.add]. rewrite seqZ_nil by lia. cbn [fmap list_fmap app].
    by replace (n - -1) with (n + 1) by lia. }
  pose proof (compress_entries M [] eq_refl) as Hc. change (zlen []) with 0 in Hc. rewrite Hc.
  cbn [mbind outcome_bind]. unfold compressed. rewrite last_row_all.
  replace (n - (n - 1)) with 1 by lia. change (zeros_ None 1) with [@None Z].
  rewrite aset_mid by (rewrite zlen_fmap, zlen_seqZ; lia). cbn [mbind outcome_bind].
  replace (zlen M - zlen M) with 0 by lia. unfold zeros_. cbn [Z.to_nat replicate]. rewrite !app_nil_r.
  do 2 f_equal. replace (n - 1 + 1) with n by lia. rewrite (seqZ_app 0 n 1) by lia. rewrite fmap_app. f_equal.
  replace (seqZ (0 + n) 1) with [n] by (rewrite seqZ_cons, seqZ_nil by lia; done). cbn [fmap list_fmap].
  do 2 f_equal. symmetry. apply (start_split M []); [by rewrite app_nil_r|intros e He%Hrows; lia|].
  intros e He. by apply not_elem_of_nil in He.
Qed.

Lemma xa_lookup c : 0 <= c <= n →
  ((λ r, Some (start r)) <$> seqZ 0 (n + 1)) !! Z.to_nat c = Some (Some (start c)).
Proof.
  intros Hc. rewrite list_lookup_fmap, lookup_seqZ_lt by lia. cbn [fmap option_fmap option_map].
  do 3 f_equal. lia.
Qed.

(** the entries between two pointers are those of the row *)
Lemma row_entries c k e : M !! k = Some e → start c <= Z.of_nat k < start (c + 1) ↔ e.(e_row) = c.
Proof.
  intros Hk. pose proof (start_lookup k e c Hk). pose proof (start_lookup k e (c + 1) Hk). lia.
Qed.
End Compress.

(** *** The conductance matrix, compressed *)
Section MatrixRows.
Context {D : Type} `{Arith D} (W Lc : D) (numP dimX dimZ : Z) (Hp : 0 < numP) (HX : 0 < dimX) (HZ : 0 < dimZ).
Lemma matrix_rows e : e ∈ matrix W Lc numP dimX dimZ → 0 <= e.(e_row) < T_size numP dimX dimZ.
Proof.
  intros He. destruct (matrix_entry _ _ _ _ _ HX HZ e He) as (a & b & Ha & Hb & ->). by apply number_range.
Qed.
Lemma matrix_all_rows r : 0 <= r < T_size numP dimX dimZ → ∃ e, e ∈ matrix W Lc numP dimX dimZ ∧ e.(e_row) = r.
Proof.
  intros Hr. destruct (number_onto numP dimX dimZ HX HZ r Hr) as (a & Ha & <-).
  eexists (mkEntry _ (number dimX dimZ a) _). split; [apply matrix_spec; [done..|by rewrite decide_True]|done].
Qed.
Lemma compress_matrix :
  let M := matrix W Lc numP dimX dimZ in let n := T_size numP dimX dimZ in
  compress M (MidxSize numP dimX dimZ) n =
  Ret (mkCompCol (e_val <$> M) (e_col <$> M) ((λ r, Some (start M r)) <$> seqZ 0 (n + 1))).
Proof.
  intros M n. rewrite (MidxSize_spec W Lc) by lia. apply compress_spec;
    first [by apply matrix_sorted|exact matrix_rows|exact matrix_all_rows|unfold n, T_size, numLayer; nia].
Qed.
End MatrixRows.

(** C33. The steady solver (thermal_solver.c) compiles the conductances by rows and declares the arrays to be a
    compressed matrix by columns. It is the right matrix: the filled array [Midx] is compressed without leaving the
    arrays and without a gap in [xa], and what SuperLU reads as column [c], the positions from [xa[c]] up to
    [xa[c+1]], holds exactly the rows [r] and values [v] of the entries [(r, c, v)] of the conductance matrix. *)
Theorem compressed_columns (W Lc : double) (numP dimX dimZ : Z) M :
  0 < numP → 0 < dimX → 0 < dimZ → calculate_Midx_array W Lc numP dimX dimZ = Ret M →
  ∃ A, compress M (MidxSize numP dimX dimZ) (T_size numP dimX dimZ) = Ret A ∧
    zlen A.(xa) = T_size numP dimX dimZ + 1 ∧
    ∀ c, 0 <= c < T_size numP dimX dimZ →
      ∃ p q, A.(xa) !! Z.to_nat c = Some (Some p) ∧ A.(xa) !! Z.to_nat (c + 1) = Some (Some q) ∧
        ∀ r v, mkEntry r c v ∈ M ↔
          ∃ k, p <= k < q ∧ aget A.(asub_) k = Ret r ∧ aget A.(nzval) k = Ret v.
Proof.
  intros Hp HX HZ HM. destruct (Midx_reference W Lc numP dimX dimZ HX HZ ltac:(lia)) as [HM' _].
  rewrite HM' in HM. injection HM as <-. rewrite compress_matrix by done.
  assert (Hn : 0 < T_size numP dimX dimZ) by (unfold T_size, numLayer; nia).
  assert (Hs : StronglySorted entry_lt (matrix W Lc numP dimX dimZ)) by (by apply matrix_sorted).
  eexists. split; [done|]. cbn [xa asub_ nzval]. set (M := matrix W Lc numP dimX dimZ) in *. split.
  { rewrite zlen_fmap, zlen_seqZ; lia. }
  intros c Hc. exists (start M c), (start M (c + 1)).
  split; [apply xa_lookup; lia|]. split; [apply xa_lookup; lia|]. intros r v. split.
  - intros Hin. apply matrix_symmetric in Hin; [|done..|apply dadd_comm].
    apply list_elem_of_lookup in Hin as [k Hk]. fold M in Hk. exists (Z.of_nat k).
    rewrite (row_entries M Hs c k _ Hk). split; [done|].
    split; apply aget_Ret; (split; [lia|]); by rewrite Nat2Z.id, list_lookup_fmap, Hk.
  - intros (k & Hk & [? Hr]%aget_Ret & [_ Hv]%aget_Ret). rewrite list_lookup_fmap in Hr. rewrite list_lookup_fmap in Hv.
    destruct (M !! Z.to_nat k) as [e|] eqn:He; [|done]. cbn in Hr, Hv. simplify_eq.
    assert (e.(e_row) = c) as Hec by (apply (row_entries M Hs c _ e He); lia).
    apply matrix_symmetric; [done..|apply dadd_comm|]. rewrite <- Hec.
    apply list_elem_of_lookup_2 in He. by destruct e.
Qed.
Lemma compressed_columns_witness :
  ∃ A : CompCol double,
    zlen A.(xa) = 25 ∧ ∃ p q, A.(xa) !! 5%nat = Some (Some p) ∧ A.(xa) !! 6%nat = Some (Some q).
Proof.
  destruct (Midx_reference (double_lit 8 3) (double_lit 8 3) 1 3 2 eq_refl eq_refl ltac:(lia)) as [HM _].
  destruct (compressed_columns (double_lit 8 3) (double_lit 8 3) 1 3 2 _ eq_refl eq_refl eq_refl HM)
    as (A & _ & Hl & Hc).
  exists A. split; [exact Hl|]. destruct (Hc 5 ltac:(vm_compute; split; congruence)) as (p & q & Hp & Hq & _).
  exists p, q. split; [exact Hp|exact Hq].
Defined.
