(* ===== verification/ThermalHeat.v ===== *)
(** * The solver of the thermal model: heat

    The Euler step without its blocks ([euler_step_reference]), in any arithmetic; and what the two solvers compute in
    exact arithmetic: the heat that leaves through the sink is the power put in ([steady_heat_balance]). *)
From Stdlib Require Import Qcanon.
From S2P Require Import Prelude ThermalSolver ThermalSolverSpec.
Open Scope Z_scope.

(** ** Blocks *)
Lemma for_app {S X} (l k : list X) (s : S) f : for_ (l ++ k) s f = (s ← for_ l s f; for_ k s f).
Proof.
  revert s. induction l as [|x l IH]; intros s; cbn [for_ app]; [done|].
  destruct (f s x); cbn [mbind outcome_bind]; [apply IH|done].
Qed.
Lemma for_bind {S X Y} (l : list X) (g : X → list Y) (s : S) f :
  for_ l s (λ s x, for_ (g x) s f) = for_ (l ≫= g) s f.
Proof.
  revert s. induction l as [|x l IH]; intros s; [done|]. cbn [for_]. rewrite bind_cons, for_app.
  destruct (for_ (g x) s f); cbn [mbind outcome_bind]; [apply IH|done].
Qed.
Lemma for_ext {S X} (l : list X) (s : S) f g : (∀ s x, f s x = g s x) → for_ l s f = for_ l s g.
Proof.
  intros Hfg. revert s. induction l as [|x l IH]; intros s; [done|]. cbn [for_]. rewrite Hfg.
  destruct (g s x); [apply IH|done].
Qed.
Definition block_range (size j : Z) : list Z :=
  seqZ j ((if j + block_size <? size then j + block_size else size) - j).
Lemma seqZ_snoc m k : 0 <= k → seqZ m (Z.succ k) = seqZ m k ++ [m + k].
Proof.
  intros. rewrite <- Z.add_1_r, seqZ_app by lia. done.
Qed.
Lemma blocks_flat size : 0 <= size → blocks size ≫= block_range size = seqZ 0 size.
Proof.
  intros Hs. unfold blocks, block_size.
  assert (∀ k, 0 <= k → 8 * (k - 1) < size →
    ((λ k, 8 * k) <$> seqZ 0 k) ≫= block_range size = seqZ 0 (Z.min (8 * k) size)) as Hk.
  { intros k. apply (natlike_ind (λ k, 8 * (k - 1) < size →
      ((λ k, 8 * k) <$> seqZ 0 k) ≫= block_range size = seqZ 0 (Z.min (8 * k) size))).
    { intros _. rewrite (seqZ_nil _ (Z.min _ _)) by lia. done. }
    clear k. intros k Hk IH Hlt. rewrite seqZ_snoc, fmap_app, bind_app, IH by lia.
    cbn [fmap list_fmap]. rewrite bind_cons. cbn [mbind list_bind]. rewrite app_nil_r, Z.add_0_l.
    unfold block_range, block_size. replace (Z.min (8 * k) size) with (8 * k) by lia.
    replace (Z.min (8 * Z.succ k) size) with (8 * k + (Z.min (8 * Z.succ k) size - 8 * k)) by lia.
    rewrite seqZ_app by lia. do 2 f_equal. destruct (Z.ltb_spec (8 * k + 8) size); lia. }
  assert (0 <= (size + 8 - 1) / 8) by (apply Z.div_pos; lia).
  rewrite Hk by dmlia. f_equal. dmlia.
Qed.

(** ** The Euler step as a sum over the row of each node *)
Section Euler.
Context {D : Type} `{Arith D} (numP dimX dimZ : Z) (M : list (Entry D)) (Cap P : list D) (dt : D) (Tp : list D).
Notation n := (T_size numP dimX dimZ).
Definition at_index (l : list D) (i : Z) : D := default (of_int 0) (l !! Z.to_nat i).
(** what entry [e] adds to the temperature [t] of its row *)
Definition contribution (t : D) (e : Entry D) : D :=
  let c := at_index Cap (Z.quot e.(e_row) (dimX * dimZ)) in
  let old := at_index Tp e.(e_col) in
  if e.(e_row) =? e.(e_col) then
    t ⊕ ((of_int 1 ⊖ e.(e_val) ⊗ dt ⊘ c) ⊗ old ⊕ at_index P e.(e_row) ⊗ dt ⊘ c)
  else t ⊖ e.(e_val) ⊗ old ⊗ dt ⊘ c.
Definition row_of (r : Z) (l : list (Entry D)) : list (Entry D) := filter (λ e, e.(e_row) = r) l.
Definition next_temperatures (l : list (Entry D)) : list D :=
  (λ r, foldl contribution (of_int 0) (row_of r l)) <$> seqZ 0 n.

Hypotheses (HP : 0 < numP) (HX : 0 < dimX) (HZ : 0 < dimZ)
  (Hin : ∀ e, e ∈ M → 0 <= e.(e_row) < n ∧ 0 <= e.(e_col) < n)
  (HC : zlen Cap = numLayer numP + 1) (HPl : zlen P = n) (HT : zlen Tp = n).

Lemma aget_index l i : 0 <= i < zlen l → aget l i = Ret (at_index l i).
Proof. intros Hi. destruct (aget_ok l i Hi) as [x Hx]. apply aget_Ret in Hx as [? Hx].
  apply aget_Ret. split; [lia|]. unfold at_index. by rewrite Hx.
Qed.
Lemma aget_next l r : 0 <= r < n → aget (next_temperatures l) r = Ret (foldl contribution (of_int 0) (row_of r l)).
Proof.
  intros Hr. apply aget_Ret. split; [lia|]. unfold next_temperatures.
  rewrite list_lookup_fmap, lookup_seqZ_lt by lia. cbn [fmap option_fmap option_map]. do 3 f_equal; lia.
Qed.

Lemma euler_entry_spec don e todo : M = don ++ e :: todo →
  euler_entry dimX dimZ M Cap P dt Tp (next_temperatures don) (zlen don) = Ret (next_temperatures (don ++ [e])).
Proof.
  intros HM. destruct (Hin e ltac:(rewrite HM; set_solver)) as [Hr Hc].
  unfold euler_entry. rewrite HM, aget_mid by done. cbn [mbind outcome_bind].
  rewrite iquot_ok by nia. cbn [mbind outcome_bind].
  assert (0 <= Z.quot e.(e_row) (dimX * dimZ) < numLayer numP + 1).
  { rewrite Z.quot_div_nonneg by nia. split; [apply Z.div_pos; nia|]. apply Z.div_lt_upper_bound; [nia|].
    unfold T_size in Hr. lia. }
  rewrite (aget_index Cap) by lia. cbn [mbind outcome_bind].
  rewrite (aget_index Tp) by lia. cbn [mbind outcome_bind]. rewrite aget_next by done. cbn [mbind outcome_bind].
  rewrite (aget_index P) by lia. cbn [mbind outcome_bind].
  assert (∀ t, aset (next_temperatures don) e.(e_row) t = Ret (<[Z.to_nat e.(e_row) := t]> (next_temperatures don))) as Hset.
  { intros t. apply aset_ok. unfold next_temperatures. rewrite zlen_fmap, zlen_seqZ; lia. }
  assert (∀ t, t = contribution (foldl contribution (of_int 0) (row_of e.(e_row) don)) e →
    <[Z.to_nat e.(e_row) := t]> (next_temperatures don) = next_temperatures (don ++ [e])) as Hnext.
  { intros t ->. apply list_eq. intros k. unfold next_temperatures.
    destruct (decide (k < Z.to_nat n)%nat) as [Hk|Hk].
    2: { rewrite !lookup_ge_None_2; [done|rewrite length_fmap, length_seqZ; lia|].
         rewrite length_insert, length_fmap, length_seqZ; lia. }
    rewrite (list_lookup_fmap _ (seqZ 0 n)), lookup_seqZ_lt by lia. cbn [fmap option_fmap option_map].
    assert (row_of (0 + Z.of_nat k) (don ++ [e]) = row_of (0 + Z.of_nat k) don ++ (if decide (e.(e_row) = 0 + Z.of_nat k) then [e] else [])) as ->.
    { unfold row_of. rewrite filter_app, filter_cons, filter_nil. done. }
    rewrite foldl_app. destruct (decide (e.(e_row) = 0 + Z.of_nat k)) as [Heq|Hne].
    - replace (Z.to_nat e.(e_row)) with k by lia. rewrite list_lookup_insert_eq.
      2: { rewrite length_fmap, length_seqZ. lia. }
      rewrite <- Heq. done.
    - rewrite list_lookup_insert_ne by lia. rewrite list_lookup_fmap, lookup_seqZ_lt by lia. done. }
  unfold contribution in Hnext at 1. destruct (e.(e_row) =? e.(e_col)); rewrite Hset; f_equal; by apply Hnext.
Qed.

Lemma euler_entries todo : ∀ don, M = don ++ todo →
  for_ (seqZ (zlen don) (zlen todo)) (next_temperatures don) (euler_entry dimX dimZ M Cap P dt Tp) =
  Ret (next_temperatures M).
Proof.
  induction todo as [|e todo IH]; intros don HM.
  { rewrite app_nil_r in HM. by rewrite <- HM. }
  rewrite zlen_cons, seqZ_cons by (pose proof (zlen_nonneg todo); lia). cbn [for_].
  rewrite (euler_entry_spec _ _ _ HM). cbn [mbind outcome_bind].
  replace (Z.succ (zlen don)) with (zlen (don ++ [e])) by (rewrite zlen_app; unfold zlen; cbn [length]; lia).
  replace (Z.pred (zlen todo + 1)) with (zlen todo) by lia. apply IH. by rewrite <- app_assoc.
Qed.

(** the blocks of eight visit every entry once, in order *)
Lemma euler_step_spec : euler_step numP dimX dimZ M (zlen M) Cap P dt Tp = Ret (next_temperatures M).
Proof.
  unfold euler_step. rewrite (for_bind (blocks (zlen M)) (block_range (zlen M))).
  rewrite blocks_flat by apply zlen_nonneg.
  pose proof (euler_entries M [] eq_refl) as He. change (zlen []) with 0 in He. rewrite <- He. f_equal.
  unfold next_temperatures, row_of. cbn [filter list_filter foldl].
  clear. apply list_eq. intros k. destruct (decide (k < Z.to_nat n)%nat) as [Hk|Hk].
  - rewrite lookup_replicate_2 by done. by rewrite list_lookup_fmap, lookup_seqZ_lt by lia.
  - rewrite !lookup_ge_None_2; [done|rewrite length_fmap, length_seqZ; lia|rewrite length_replicate; lia].
Qed.
End Euler.

(** ** Exact arithmetic *)

(** a commutative ring in which a division is a product with the inverse of its divisor *)
Class ExactArith (D : Type) `{Arith D} : Prop := {
  exact_ring : ring_theory (of_int 0 : D) (of_int 1) aadd amul asub (λ x, of_int 0 ⊖ x) eq;
  exact_div : ∀ x y : D, x ⊘ y = x ⊗ (of_int 1 ⊘ y)
}.
#[export] Instance Qc_arith : Arith Qc := {|
  of_int n := Q2Qc (QArith_base.inject_Z n);
  dec m k := Q2Qc (QArith_base.Qmake m (Z.to_pos (10 ^ k)));
  aadd := Qcplus; asub := Qcminus; amul := Qcmult; adiv := Qcdiv;
  altb x y := match Qccompare x y with Lt => true | _ => false end
|}.
#[export] Instance Qc_exact : ExactArith Qc.
Proof.
  split.
  - destruct Qcrt as [A B C E F G I J K]. split; try done.
    + intros x y. cbn. unfold Qcminus. by rewrite Qcplus_0_l.
    + intros x. cbn. unfold Qcminus. rewrite Qcplus_0_l. apply Qcplus_opp_r.
  - intros x y. cbn. unfold Qcdiv. by rewrite Qcmult_1_l.
Qed.

(** sum from the right *)
Definition asum {D} `{Arith D} (l : list D) : D := foldr aadd (of_int 0) l.

Section Exact.
Context {D : Type} `{ExactArith D}.
Add Ring D_ring : (exact_ring (D := D)).
Implicit Types (x y : D) (l v : list D).


Lemma asum_cons x l : asum (x :: l) = x ⊕ asum l.
Proof. done. Qed.
Lemma asum_nil : asum [] = of_int 0.
Proof. done. Qed.
Lemma asum_app l k : asum (l ++ k) = asum l ⊕ asum k.
Proof. induction l as [|x l IH]; cbn [app]; rewrite ?asum_cons, ?asum_nil; [ring|]. rewrite IH. ring. Qed.
Lemma asum_Permutation l k : l ≡ₚ k → asum l = asum k.
Proof. induction 1; rewrite ?asum_cons; [done|congruence|ring|congruence]. Qed.
#[export] Instance asum_Proper : Proper ((≡ₚ) ==> eq) asum.
Proof. intros l k. apply asum_Permutation. Qed.
Lemma asum_insert l i x y : l !! i = Some y → asum (<[i := x]> l) = asum l ⊖ y ⊕ x.
Proof.
  revert i. induction l as [|z l IH]; intros i Hi; [done|]. destruct i as [|i]; cbn in Hi.
  - injection Hi as ->. change (<[0%nat := x]> (y :: l)) with (x :: l). rewrite !asum_cons. ring.
  - change (<[S i := x]> (z :: l)) with (z :: <[i := x]> l). rewrite !asum_cons, (IH _ Hi). ring.
Qed.
Lemma asum_map_add {A} (f g : A → D) (k : list A) :
  asum ((λ a, f a ⊕ g a) <$> k) = asum (f <$> k) ⊕ asum (g <$> k).
Proof. induction k as [|a k IH]; cbn [fmap list_fmap]; rewrite ?asum_cons, ?asum_nil; [ring|]. rewrite IH. ring. Qed.
Lemma asum_map_scale {A} c (f : A → D) (k : list A) : asum ((λ a, c ⊗ f a) <$> k) = c ⊗ asum (f <$> k).
Proof. induction k as [|a k IH]; cbn [fmap list_fmap]; rewrite ?asum_cons, ?asum_nil; [ring|]. rewrite IH. ring. Qed.
Lemma asum_zero {A} (f : A → D) (k : list A) : (∀ a, a ∈ k → f a = of_int 0) → asum (f <$> k) = of_int 0.
Proof.
  induction k as [|a k IH]; intros Hf; cbn [fmap list_fmap]; rewrite ?asum_cons; [done|].
  rewrite IH by (intros; apply Hf; by right). rewrite Hf by left. ring.
Qed.
Lemma asum_replicate_zero k : asum (replicate k (of_int 0)) = of_int 0.
Proof. induction k as [|k IH]; [done|]. cbn [replicate]. rewrite asum_cons, IH. ring. Qed.
(** a term at one place *)
Lemma asum_single (k : list Z) r x : NoDup k → r ∈ k →
  asum ((λ s, if decide (r = s) then x else of_int 0) <$> k) = x.
Proof.
  induction 1 as [|s k Hs Hk IH]; intros Hin; [set_solver|]. cbn [fmap list_fmap]. rewrite asum_cons.
  destruct (decide (r = s)) as [->|Hne].
  - rewrite asum_zero; [ring|]. intros t Ht. rewrite decide_False; [done|]. by intros ->.
  - rewrite IH by set_solver. ring.
Qed.

(** summing rows is summing entries *)
Lemma asum_rows (f : Entry D → D) (M : list (Entry D)) n :
  (∀ e, e ∈ M → 0 <= e.(e_row) < n) →
  asum ((λ r, asum (f <$> row_of r M)) <$> seqZ 0 n) = asum (f <$> M).
Proof.
  induction M as [|e M IH]; intros Hin; [by apply asum_zero|].
  transitivity (asum ((λ r, (if decide (e.(e_row) = r) then f e else of_int 0) ⊕ asum (f <$> row_of r M)) <$> seqZ 0 n)).
  - f_equal. apply list_fmap_ext. intros _ r _. unfold row_of. rewrite filter_cons.
    destruct (decide (e.(e_row) = r)); [done|]. ring.
  - rewrite (asum_map_add (λ r, if decide (e.(e_row) = r) then f e else of_int 0)).
    rewrite IH by (intros; apply Hin; by right). cbn [fmap list_fmap]. rewrite asum_cons. f_equal.
    apply asum_single; [apply NoDup_seqZ|]. apply elem_of_seqZ. pose proof (Hin e ltac:(left)). lia.
Qed.

Lemma asum_insert_zero l i x y : l !! i = Some (of_int 0) → asum (<[i := x]> l) ⊕ y = asum l ⊕ (x ⊕ y).
Proof. intros Hi. rewrite (asum_insert _ _ _ _ Hi). ring. Qed.
Lemma asum_cancel x y z : z ⊕ x = y ⊕ z → x = y.
Proof. intros Heq. transitivity ((z ⊕ x) ⊖ z); [ring|]. rewrite Heq. ring. Qed.
Lemma asum_map_sub {A} (f g : A → D) (k : list A) :
  asum ((λ a, f a ⊖ g a) <$> k) = asum (f <$> k) ⊖ asum (g <$> k).
Proof. induction k as [|a k IH]; cbn [fmap list_fmap]; rewrite ?asum_cons, ?asum_nil; [ring|]. rewrite IH. ring. Qed.
Lemma asum_sub_sum x y z : (x ⊕ y) ⊖ (z ⊕ x) = y ⊖ z.
Proof. ring. Qed.
Lemma euler_stored c t dt w : c ⊗ (of_int 1 ⊘ c) = of_int 1 → c ⊗ ((t ⊕ (dt ⊘ c) ⊗ w) ⊖ t) = dt ⊗ w.
Proof.
  intros Hc. rewrite exact_div. transitivity (dt ⊗ w ⊗ (c ⊗ (of_int 1 ⊘ c))); [ring|]. rewrite Hc. ring.
Qed.
Lemma asum_add_nil l k : asum k = of_int 0 → asum l = asum l ⊕ asum k.
Proof. intros ->. ring. Qed.
Lemma asum_replicate_add k l : asum (replicate k (of_int 0)) ⊕ asum l = asum l.
Proof. rewrite asum_replicate_zero. ring. Qed.
End Exact.

(** ** Powers in the right-hand side

    The sums of these lemmas are those of an exact arithmetic. *)
Section Power.
Context {D : Type} `{Arith D}.

(** *** Writing into distinct cells *)
Lemma place_powers {A} (idx : A → Z) (g : A → D) (pw : A → outcome D) (cells : list A) (v : list D) :
  NoDup cells → (∀ a, a ∈ cells → pw a = Ret (g a)) →
  (∀ a b, a ∈ cells → b ∈ cells → idx a = idx b → a = b) →
  (∀ a, a ∈ cells → aget v (idx a) = Ret (of_int 0)) →
  returns (for_ cells v (λ v a, p ← pw a; aset v (idx a) p))
    (λ v', zlen v' = zlen v ∧ (ExactArith D → asum v' = asum v ⊕ asum (g <$> cells)) ∧
       (∀ a, a ∈ cells → aget v' (idx a) = Ret (g a)) ∧
       (∀ k, (∀ a, a ∈ cells → idx a ≠ k) → aget v' k = aget v k)).
Proof.
  intros Hnd. revert v. induction Hnd as [|a cells Ha Hnd IH]; intros v Hpw Hinj Hz; cbn [for_].
  { apply returns_ret. split; [done|]. split; [intros; by apply asum_add_nil|].
    split; [intros; set_solver|done]. }
  rewrite Hpw by left. cbn [mbind outcome_bind].
  pose proof (Hz a ltac:(left)) as Hza. pose proof (aget_bound _ _ _ Hza) as Hb.
  rewrite aset_ok by done. cbn [mbind outcome_bind].
  set (w := <[Z.to_nat (idx a) := g a]> v).
  assert (Hw : aset v (idx a) (g a) = Ret w) by (by apply aset_ok).
  eapply returns_mono.
  { apply (IH w); [intros; apply Hpw; by right|intros; apply Hinj; [by right|by right|done]|].
    intros b Hb'. rewrite (aget_aset _ _ _ _ _ Hw). destruct (Z.eqb_spec (idx b) (idx a)) as [Heq|_].
    - apply Hinj in Heq; [by subst|by right|by left].
    - apply Hz. by right. }
  intros v' (Hl & Hs & Hin & Hout). split; [by rewrite Hl, (aset_length _ _ _ _ Hw)|]. split; [|split].
  - intros HE. rewrite (Hs HE). unfold w. apply aget_Ret in Hza as [_ Hza]. by apply asum_insert_zero.
  - intros b [->|Hbin]%elem_of_cons; [|by apply Hin]. rewrite Hout.
    + by rewrite (aget_aset _ _ _ _ _ Hw), Z.eqb_refl.
    + intros c Hc Heq. apply Hinj in Heq; [by subst|by right|by left].
  - intros k Hk. rewrite Hout by (intros; apply Hk; by right). rewrite (aget_aset _ _ _ _ _ Hw).
    destruct (Z.eqb_spec k (idx a)) as [->|]; [|done]. by destruct (Hk a ltac:(left)).
Qed.

Lemma digits_range (X Y a b : Z) : 0 <= a < X → 0 <= b < Y → 0 <= b * X + a < X * Y.
Proof. nia. Qed.
Lemma digits_inj (X a b a' b' : Z) : 0 <= a < X → 0 <= a' < X → b * X + a = b' * X + a' → a = a' ∧ b = b'.
Proof. intros Ha Ha' Heq. assert (b = b') as <- by (destruct (Z.lt_total b b') as [?|[?|?]]; nia). lia. Qed.

(** *** The right-hand side *)
Context (W Lc : D) (numP dimX dimZ : Z) (Tamb : D).
Hypotheses (Hp : 0 < numP) (HX : 0 < dimX) (HZ : 0 < dimZ).
Notation N := (dimX * dimZ).
Notation n := (T_size numP dimX dimZ).
Notation Ra := (Ramb W Lc dimX dimZ).

(** an array [dimX][dimZ][numP] *)
Definition power_shape (powerM : list (list (list D))) : Prop :=
  zlen powerM = dimX ∧ ∀ i, 0 <= i < dimX → ∃ r, aget powerM i = Ret r ∧ zlen r = dimZ ∧
    ∀ j, 0 <= j < dimZ → ∃ c, aget r j = Ret c ∧ zlen c = numP.
Definition power_of (powerM : list (list (list D))) (a : Z * Z * Z) : D :=
  let '(l, i, j) := a in match power_at powerM i j l with Ret p => p | Fault _ => of_int 0 end.
Definition total_power (powerM : list (list (list D))) : D :=
  asum (power_of powerM <$> cells_of numP dimX dimZ).

Lemma power_at_ok powerM (l i j : Z) : power_shape powerM → 0 <= l < numP → 0 <= i < dimX → 0 <= j < dimZ →
  power_at powerM i j l = Ret (power_of powerM (l, i, j)).
Proof.
  intros [_ Hs] Hl Hi Hj. unfold power_of, power_at.
  destruct (Hs i Hi) as (r & -> & _ & Hr). cbn [mbind outcome_bind].
  destruct (Hr j Hj) as (c & -> & Hc). cbn [mbind outcome_bind].
  destruct (aget_ok c l ltac:(lia)) as [x Hx]. by rewrite Hx.
Qed.
Lemma elem_of_cells (a b c l x y : Z) :
  (l, x, y) ∈ (l ← seqZ 0 a; x ← seqZ 0 b; y ← seqZ 0 c; [(l, x, y)]) ↔
  0 <= l < a ∧ 0 <= x < b ∧ 0 <= y < c.
Proof.
  rewrite list_elem_of_bind. setoid_rewrite list_elem_of_bind. setoid_rewrite list_elem_of_bind.
  setoid_rewrite elem_of_seqZ. setoid_rewrite list_elem_of_singleton. split.
  - intros (? & (? & (? & [= <- <- <-] & ?) & ?) & ?). lia.
  - intros. exists l. split; [|lia]. exists x. split; [|lia]. exists y. split; [done|lia].
Qed.

Lemma N_pos : 0 < N.
Proof. nia. Qed.
Lemma aget_fill (x : D) k i : 0 <= i < k → aget (replicate (Z.to_nat k) x) i = Ret x.
Proof. intros. apply aget_Ret. split; [lia|]. apply lookup_replicate_2. lia. Qed.

Lemma sources_spec : returns (sources W Lc numP dimX dimZ Tamb) (λ v,
  zlen v = n ∧ (ExactArith D → asum v = asum ((λ _, Tamb ⊘ Ra) <$> seqZ 0 N)) ∧
  (∀ r, 0 <= r < N → aget v r = Ret (Tamb ⊘ Ra)) ∧ (∀ r, N <= r < n → aget v r = Ret (of_int 0))).
Proof.
  pose proof N_pos. assert (N <= n) by (unfold T_size, numLayer; nia).
  eapply returns_mono.
  { apply (place_powers (λ i, i) (λ _, Tamb ⊘ Ra) (λ _, Ret (Tamb ⊘ Ra)) (seqZ 0 N)
      (replicate (Z.to_nat n) (of_int 0))); [apply NoDup_seqZ|done|done|].
    intros a Ha%elem_of_seqZ. apply aget_fill. lia. }
  intros v (Hl & Hs & Hin & Hout). split; [|split; [|split]].
  - rewrite Hl. unfold zlen. rewrite length_replicate. lia.
  - intros HE. rewrite (Hs HE). apply asum_replicate_add.
  - intros r Hr. apply Hin, elem_of_seqZ. lia.
  - intros r Hr. rewrite Hout; [apply aget_fill; lia|]. intros a Ha%elem_of_seqZ. lia.
Qed.

(** powers put at [N * (3 * l + 1) + off i j], in any order of the cells *)
Lemma power_rhs powerM (off : Z → Z → Z) (swap : bool) :
  power_shape powerM →
  (∀ i j, 0 <= i < dimX → 0 <= j < dimZ → 0 <= off i j < N) →
  (∀ i j i' j', 0 <= i < dimX → 0 <= j < dimZ → 0 <= i' < dimX → 0 <= j' < dimZ →
     off i j = off i' j' → i = i' ∧ j = j') →
  let cells := if swap then cells_of numP dimZ dimX else cells_of numP dimX dimZ in
  let ij (a : Z * Z * Z) := if swap then (a.1.1, a.2, a.1.2) else a in
  returns (v ← sources W Lc numP dimX dimZ Tamb;
    for_ cells v (λ v a, p ← (let '(l, i, j) := ij a in power_at powerM i j l);
      aset v (let '(l, i, j) := ij a in N * (layerP l + 1) + off i j) p))
    (λ v, zlen v = n ∧
      (ExactArith D →
         asum v = asum ((λ _, Tamb ⊘ Ra) <$> seqZ 0 N) ⊕ asum ((λ a, power_of powerM (ij a)) <$> cells)) ∧
      (∀ (l i j : Z), 0 <= l < numP → 0 <= i < dimX → 0 <= j < dimZ →
         aget v (N * (layerP l + 1) + off i j) = Ret (power_of powerM (l, i, j)))).
Proof.
  intros Hsh Hoff Hinj cells ij. pose proof N_pos as HN.
  assert (Hcell : ∀ a, a ∈ cells → ∃ l i j : Z, ij a = (l, i, j) ∧ 0 <= l < numP ∧ 0 <= i < dimX ∧ 0 <= j < dimZ).
  { intros [[l x] y]. unfold cells, ij, cells_of. destruct swap; rewrite elem_of_cells; cbn [fst snd]; intros Ha.
    - exists l, y, x. split; [done|lia].
    - exists l, x, y. split; [done|lia]. }
  eapply returns_bind; [apply sources_spec|]. intros v (Hl & Hs & _ & Hz). eapply returns_mono.
  { apply (place_powers (λ a, let '(l, i, j) := ij a in N * (layerP l + 1) + off i j)
      (λ a, power_of powerM (ij a)) (λ a, let '(l, i, j) := ij a in power_at powerM i j l) cells v).
    - unfold cells, cells_of. destruct swap; apply product_NoDup.
    - intros a (l & i & j & -> & Hll & Hi & Hj)%Hcell. by apply power_at_ok.
    - intros a b Ha Hb. destruct (Hcell a Ha) as (l & i & j & Hea & Hll & Hi & Hj).
      destruct (Hcell b Hb) as (l' & i' & j' & Heb & Hll' & Hi' & Hj'). rewrite Hea, Heb.
      pose proof (Hoff i j Hi Hj). pose proof (Hoff i' j' Hi' Hj'). unfold layerP. intros Heq.
      assert (l = l') as <- by nia. destruct (Hinj i j i' j' Hi Hj Hi' Hj' ltac:(lia)) as [<- <-].
      rewrite <- Hea in Heb. destruct a as [[? ?] ?], b as [[? ?] ?]. unfold ij in Heb.
      destruct swap; cbn [fst snd] in Heb; congruence.
    - intros a (l & i & j & -> & Hll & Hi & Hj)%Hcell. pose proof (Hoff i j Hi Hj). apply Hz.
      unfold layerP, T_size, numLayer. nia. }
  cbn beta. intros v' (Hl' & Hs' & Hin & _). split; [lia|]. split; [intros HE; by rewrite (Hs' HE), (Hs HE)|].
  intros l i j Hll Hi Hj. pose proof (Hin (ij (l, i, j))) as H1.
  assert (ij (ij (l, i, j)) = (l, i, j)) as Heq by (unfold ij; by destruct swap). rewrite Heq in H1. apply H1.
  unfold cells, cells_of, ij. destruct swap; cbn [fst snd]; apply elem_of_cells; lia.
Qed.

Lemma steady_rhs_spec powerM : power_shape powerM →
  returns (steady_rhs W Lc numP dimX dimZ Tamb powerM) (λ v, zlen v = n ∧
    (ExactArith D → asum v = asum ((λ _, Tamb ⊘ Ra) <$> seqZ 0 N) ⊕ total_power powerM) ∧
    (∀ (l i j : Z), 0 <= l < numP → 0 <= i < dimX → 0 <= j < dimZ →
       aget v (number dimX dimZ (layerP l + 1, j, i)) = Ret (power_of powerM (l, i, j)))).
Proof.
  intros Hsh. eapply returns_mono.
  - unfold steady_rhs. pose proof (power_rhs powerM (λ i j, j * dimX + i) false Hsh) as Hr. cbn zeta in Hr.
    match goal with |- returns ?e _ => match type of Hr with _ → _ → returns ?e' _ => assert (e = e') as -> end end.
    2: { apply Hr; [intros; by apply digits_range|intros i j i' j' ? ? ? ? Heq; by apply (digits_inj dimX)]. }
    destruct (sources _ _ _ _ _ _); [|done]. cbn [mbind outcome_bind]. apply for_ext. intros v [[l i] j].
    cbn iota. by rewrite Z.add_assoc.
  - cbn beta. intros v (Hl & Hs & Hin). split; [done|]. split; [exact Hs|]. intros l i j Hll Hi Hj.
    rewrite <- Hin by done. f_equal. unfold number, node. lia.
Qed.
Lemma transient_power_spec powerM : power_shape powerM →
  returns (transient_power W Lc numP dimX dimZ Tamb powerM) (λ v, zlen v = n ∧
    (ExactArith D → asum v = asum ((λ _, Tamb ⊘ Ra) <$> seqZ 0 N) ⊕ total_power powerM) ∧
    (∀ (l i j : Z), 0 <= l < numP → 0 <= i < dimX → 0 <= j < dimZ →
       aget v (N * (layerP l + 1) + i * dimZ + j) = Ret (power_of powerM (l, i, j)))).
Proof.
  intros Hsh. eapply returns_mono.
  - unfold transient_power. pose proof (power_rhs powerM (λ i j, i * dimZ + j) true Hsh) as Hr. cbn zeta in Hr.
    match goal with |- returns ?e _ => match type of Hr with _ → _ → returns ?e' _ => assert (e = e') as -> end end.
    2: { apply Hr; [intros; rewrite (Z.mul_comm dimX); by apply digits_range|].
      intros i j i' j' ? ? ? ? Heq. apply (digits_inj dimZ) in Heq; [tauto|done..]. }
    destruct (sources _ _ _ _ _ _); [|done]. cbn [mbind outcome_bind]. apply for_ext. intros v [[l i] j].
    cbn [fst snd]. by rewrite Z.add_assoc.
  - cbn beta. intros v (Hl & Hs & Hin). split; [done|]. split.
    + intros HE. rewrite (Hs HE). f_equal. unfold total_power.
      transitivity (asum (power_of powerM <$> ((λ a : Z * Z * Z, (a.1.1, a.2, a.1.2)) <$> cells_of numP dimZ dimX))).
      { by rewrite <- list_fmap_compose. }
      apply asum_Permutation, fmap_Permutation. unfold cells_of. apply product_transpose.
    + intros l i j Hll Hi Hj. rewrite <- Hin by done. f_equal. lia.
Qed.

End Power.

(** ** Heat in exact arithmetic *)
Section Heat.
Context {D : Type} `{ExactArith D}.
Add Ring D_ring' : (exact_ring (D := D)).
Context (W Lc : D) (numP dimX dimZ : Z) (Tamb : D).
Hypotheses (Hp : 0 < numP) (HX : 0 < dimX) (HZ : 0 < dimZ).
Notation N := (dimX * dimZ).
Notation n := (T_size numP dimX dimZ).
Notation Ra := (Ramb W Lc dimX dimZ).
Implicit Types (x y : D) (l v : list D).

(** *** The rows of the matrix *)
Notation matrix := (matrix W Lc numP dimX dimZ).
Notation matrix_row := (matrix_row W Lc numP dimX dimZ).

Lemma row_of_matrix a : in_grid numP dimX dimZ a → row_of (number dimX dimZ a) matrix = matrix_row a.
Proof.
  intros Ha. unfold ThermalSolverSpec.matrix, row_of.
  assert (∀ ns, NoDup ns → (∀ b, b ∈ ns → in_grid numP dimX dimZ b) →
    filter (λ e, e.(e_row) = number dimX dimZ a) (ns ≫= matrix_row) = if decide (a ∈ ns) then matrix_row a else []) as Hns.
  { induction 1 as [|b ns Hb Hnd IH]; intros Hin; [done|].
    rewrite bind_cons, filter_app, IH by (intros; apply Hin; by right).
    assert (Hbr : ∀ e, e ∈ matrix_row b → e.(e_row) = number dimX dimZ b).
    { intros e He. apply matrix_row_spec in He as [? _]; [done..|apply Hin; left]. }
    destruct (decide (a = b)) as [<-|Hne].
    - rewrite filter_all by done. rewrite (decide_True (P := a ∈ a :: ns)) by left.
      rewrite decide_False by done. apply app_nil_r.
    - rewrite filter_none. 2: { intros e He%Hbr. rewrite He. intros Heq. apply Hne. symmetry.
        apply (number_inj numP dimX dimZ HX HZ); [apply Hin; left|done|done]. }
      cbn [app]. destruct (decide (a ∈ ns)), (decide (a ∈ b :: ns)); set_solver. }
  rewrite Hns; [|apply product_NoDup|intros b; by apply elem_of_nodes].
  rewrite decide_True; [done|by apply elem_of_nodes].
Qed.

Lemma foldl_sub (f : Entry D → D) (l : list (Entry D)) x : foldl (λ d e, d ⊖ f e) x l = x ⊖ asum (f <$> l).
Proof.
  revert x. induction l as [|e l IH]; intros x; cbn [foldl fmap list_fmap]; rewrite ?asum_cons, ?asum_nil; [ring|].
  rewrite IH. ring.
Qed.
(** the conductances of a row cancel, except for the way to the ambient *)
Lemma row_sum a : asum (e_val <$> matrix_row a) =
  if number dimX dimZ a <? N then of_int 1 ⊘ Ra else of_int 0.
Proof.
  destruct a as [[l j] i]. unfold ThermalSolverSpec.matrix_row. rewrite !fmap_app, !asum_app.
  cbn [fmap list_fmap e_val]. rewrite asum_cons, asum_nil. unfold diagonal_value.
  rewrite (foldl_sub e_val), fmap_app, asum_app. cbn [number].
  destruct (node dimX dimZ l j i <? N); ring.
Qed.
(** the matrix applied to the temperatures [T], at row [r] *)
Definition matrix_times (M : list (Entry D)) (T : list D) (r : Z) : D :=
  asum ((λ e, e.(e_val) ⊗ at_index T e.(e_col)) <$> row_of r M).

Lemma aadd_comm x y : x ⊕ y = y ⊕ x.
Proof. ring. Qed.

Lemma asum_at_index v : asum v = asum ((λ r, at_index v r) <$> seqZ 0 (zlen v)).
Proof.
  f_equal. apply list_eq. intros k. rewrite list_lookup_fmap. destruct (v !! k) as [x|] eqn:Hk.
  - pose proof (lookup_lt_Some _ _ _ Hk). rewrite lookup_seqZ_lt by (unfold zlen; lia).
    cbn [fmap option_fmap option_map]. unfold at_index. rewrite Z.add_0_l, Nat2Z.id, Hk. done.
  - apply lookup_ge_None_1 in Hk. rewrite lookup_seqZ_ge; [done|]. unfold zlen. lia.
Qed.
Lemma asum_ext {A} (f g : A → D) (k : list A) : (∀ a, a ∈ k → f a = g a) → asum (f <$> k) = asum (g <$> k).
Proof. intros Hfg. f_equal. apply list_fmap_ext. intros i a Ha. apply Hfg. by eapply list_elem_of_lookup_2. Qed.

Lemma matrix_in e : e ∈ matrix → 0 <= e.(e_row) < n ∧ 0 <= e.(e_col) < n.
Proof.
  intros He. destruct (matrix_entry _ _ _ _ _ HX HZ e He) as (a & b & Ha & Hb & ->).
  split; by apply number_range.
Qed.
Lemma matrix_transposed : matrix ≡ₚ (λ e, mkEntry e.(e_col) e.(e_row) e.(e_val)) <$> matrix.
Proof.
  pose proof (matrix_NoDup W Lc numP dimX dimZ HX HZ) as Hnd. apply NoDup_Permutation.
  - done.
  - apply NoDup_fmap_2; [|done]. intros [r c v] [r' c' v'] Heq. cbn [e_row e_col e_val] in Heq. congruence.
  - intros [r c v]. rewrite list_elem_of_fmap. split.
    + intros He. exists (mkEntry c r v). split; [done|]. by apply matrix_symmetric; [..|apply aadd_comm|].
    + intros ([r' c' v'] & Heq & He). cbn [e_row e_col e_val] in Heq. injection Heq as -> -> ->.
      by apply matrix_symmetric; [..|apply aadd_comm|].
Qed.

(** all the heat of the nodes leaves through the sink *)
Lemma heat_out T :
  asum (matrix_times matrix T <$> seqZ 0 n) = asum ((λ r, at_index T r ⊗ (of_int 1 ⊘ Ra)) <$> seqZ 0 N).
Proof.
  pose proof N_pos. assert (Hn : n = N + N * numLayer numP) by (unfold T_size; lia).
  assert (0 <= N * numLayer numP) by (unfold numLayer; nia).
  unfold matrix_times. rewrite (asum_rows (λ e, e.(e_val) ⊗ at_index T e.(e_col))) by (intros e He; by apply matrix_in).
  transitivity (asum ((λ e, e.(e_val) ⊗ at_index T e.(e_row)) <$> matrix)).
  { rewrite matrix_transposed at 1. rewrite <- list_fmap_compose. done. }
  rewrite <- (asum_rows (λ e, e.(e_val) ⊗ at_index T e.(e_row)) matrix n) by (intros e He; by apply matrix_in).
  transitivity (asum ((λ r, if r <? N then at_index T r ⊗ (of_int 1 ⊘ Ra) else of_int 0) <$> seqZ 0 n)).
  - apply asum_ext. intros r Hr%elem_of_seqZ.
    destruct (number_onto numP dimX dimZ HX HZ r ltac:(lia)) as (a & Ha & <-).
    rewrite row_of_matrix by done.
    transitivity (at_index T (number dimX dimZ a) ⊗ asum (e_val <$> matrix_row a)).
    + rewrite <- asum_map_scale. apply asum_ext. intros e He. apply matrix_row_spec in He as [-> _]; [ring|done..].
    + rewrite row_sum. destruct (number dimX dimZ a <? N); ring.
  - rewrite Hn, seqZ_app, fmap_app, asum_app by lia.
    rewrite (asum_zero _ (seqZ (0 + N) _)). 2: { intros r Hr%elem_of_seqZ. destruct (Z.ltb_spec r N); [lia|done]. }
    rewrite (asum_ext _ (λ r, at_index T r ⊗ (of_int 1 ⊘ Ra))); [ring|].
    intros r Hr%elem_of_seqZ. by rewrite (proj2 (Z.ltb_lt _ _)) by lia.
Qed.

(** heat lost to the ambient at temperatures [T] *)
Definition heat_lost (T : list D) : D := asum ((λ r, (at_index T r ⊖ Tamb) ⊘ Ra) <$> seqZ 0 N).
Lemma heat_lost_eq T :
  asum ((λ r, at_index T r ⊗ (of_int 1 ⊘ Ra)) <$> seqZ 0 N) =
  heat_lost T ⊕ asum ((λ _, Tamb ⊘ Ra) <$> seqZ 0 N).
Proof.
  unfold heat_lost. rewrite <- (asum_map_add (λ r, (at_index T r ⊖ Tamb) ⊘ Ra) (λ _, Tamb ⊘ Ra)).
  apply asum_ext. intros r _. rewrite (exact_div (at_index T r ⊖ Tamb)), (exact_div Tamb). ring.
Qed.

(** *** The Euler step *)
Section Step.
Context (Cap P Tp : list D) (dt : D).
Notation capacity r := (at_index Cap (Z.quot r N)).

Lemma contributions_off t (l : list (Entry D)) r : (∀ e, e ∈ l → e.(e_row) = r ∧ e.(e_col) ≠ r) →
  foldl (contribution dimX dimZ Cap P dt Tp) t l =
  t ⊖ (dt ⊘ capacity r) ⊗ asum ((λ e, e.(e_val) ⊗ at_index Tp e.(e_col)) <$> l).
Proof.
  revert t. induction l as [|e l IH]; intros t Hl; cbn [foldl fmap list_fmap]; rewrite ?asum_cons, ?asum_nil.
  { ring. }
  rewrite IH by (intros; apply Hl; by right). destruct (Hl e ltac:(left)) as [Hr Hc].
  unfold contribution at 1. rewrite Hr. destruct (Z.eqb_spec r e.(e_col)); [congruence|].
  rewrite (exact_div (e.(e_val) ⊗ at_index Tp e.(e_col) ⊗ dt)), (exact_div dt). ring.
Qed.

Lemma euler_row a : in_grid numP dimX dimZ a → let r := number dimX dimZ a in
  foldl (contribution dimX dimZ Cap P dt Tp) (of_int 0) (row_of r matrix) =
  at_index Tp r ⊕ (dt ⊘ capacity r) ⊗ (at_index P r ⊖ matrix_times matrix Tp r).
Proof.
  intros Ha. cbn zeta. unfold matrix_times. rewrite row_of_matrix by done.
  pose proof (off_diagonal W Lc numP dimX dimZ HX HZ a) as Hoff.
  destruct a as [[l j] i]. set (r := number dimX dimZ (l, j, i)).
  assert (Hlu : ∀ e, e ∈ lower_nodes W Lc numP dimX dimZ l j i ++ upper_nodes W Lc numP dimX dimZ l j i →
    e.(e_row) = r ∧ e.(e_col) ≠ r).
  { intros e He. apply (Hoff e Ha) in He as (b & Hb & Hr & Hc & Hl). split; [done|]. rewrite Hc. intros Heq.
    apply (number_inj numP dimX dimZ HX HZ) in Heq; [|done..]. apply linked_ne in Hl. congruence. }
  unfold ThermalSolverSpec.matrix_row. rewrite !foldl_app, !fmap_app, !asum_app.
  rewrite (contributions_off _ (lower_nodes _ _ _ _ _ _ _ _) r) by (intros; apply Hlu; set_solver).
  rewrite (contributions_off _ (upper_nodes _ _ _ _ _ _ _ _) r) by (intros; apply Hlu; set_solver).
  cbn [foldl fmap list_fmap]. rewrite asum_cons, asum_nil. unfold contribution. cbn [e_row e_col e_val].
  change (node dimX dimZ l j i) with r. rewrite Z.eqb_refl.
  rewrite (exact_div (_ ⊗ dt)), (exact_div (at_index P r ⊗ dt)), (exact_div dt). ring.
Qed.
End Step.
End Heat.

(** ** Theorems *)

Lemma calculate_Cap_length {D} `{Arith D} (W Lc : D) numP dimX dimZ :
  0 < numP → zlen (calculate_Cap_array W Lc numP dimX dimZ) = numLayer numP + 1.
Proof. intros. unfold calculate_Cap_array. rewrite zlen_fmap, zlen_seqZ; [done|]. unfold numLayer. lia. Qed.

(** the temperatures after [k] reference steps *)
Definition reference_steps {D} `{Arith D} (numP dimX dimZ : Z) (M : list (Entry D)) (Cap P : list D) (dt : D)
    (k : nat) (T : list D) : list D :=
  Nat.iter k (λ T, next_temperatures numP dimX dimZ Cap P dt T M) T.

Lemma transient_solver_spec (W Lc Tamb : double) (numP dimX dimZ iter : Z) powerM time T :
  0 < numP → 0 < dimX → 0 < dimZ → 0 <= iter →
  power_shape numP dimX dimZ powerM → zlen T = T_size numP dimX dimZ →
  let M := matrix W Lc numP dimX dimZ in let Cap := calculate_Cap_array W Lc numP dimX dimZ in
  ∃ P,
    transient_thermal_solver W Lc numP dimX dimZ Tamb powerM M (MidxSize numP dimX dimZ) Cap time iter T =
      Ret (reference_steps numP dimX dimZ M Cap P (time ⊘ of_int iter) (Z.to_nat iter) T) ∧
    ∀ l i j, 0 <= l < numP → 0 <= i < dimX → 0 <= j < dimZ →
      aget P (dimX * dimZ * (layerP l + 1) + i * dimZ + j) = Ret (power_of powerM (l, i, j)).
Proof.
  intros Hp HX HZ Hi Hsh HT M Cap. rewrite (MidxSize_spec W Lc) by lia. unfold M. clear M.
  destruct (transient_power_spec W Lc numP dimX dimZ Tamb Hp HX HZ powerM Hsh) as (P & HP & HPl & _ & Hin).
  exists P. split; [|done]. unfold transient_thermal_solver. rewrite HP. cbn [mbind outcome_bind].
  unfold reference_steps. generalize (time ⊘ of_int iter). intros dt'.
  rewrite <- (Z2Nat.id iter) at 1 by done. generalize (Z.to_nat iter). clear Hi. intros k.
  assert (∀ m, for_ (seqZ m (Z.of_nat k)) T (λ Tp _, euler_step numP dimX dimZ (matrix W Lc numP dimX dimZ)
      (zlen (matrix W Lc numP dimX dimZ)) Cap P dt' Tp) =
    Ret (Nat.iter k (λ T, next_temperatures numP dimX dimZ Cap P dt' T (matrix W Lc numP dimX dimZ)) T)) as ->; [|done].
  revert T HT. induction k as [|k IH]; intros T HT m; [done|].
  rewrite seqZ_cons by lia. cbn [for_]. rewrite euler_step_spec; [|done..| | | |].
  - cbn [mbind outcome_bind]. replace (Z.pred (Z.of_nat (S k))) with (Z.of_nat k) by lia.
    rewrite IH; [by rewrite Nat.iter_succ_r|]. unfold next_temperatures. rewrite zlen_fmap, zlen_seqZ; [done|].
    rewrite <- HT. apply zlen_nonneg.
  - intros e He. destruct (matrix_entry _ _ _ _ _ HX HZ e He) as (a & b & Ha & Hb & ->). split; by apply number_range.
  - by apply calculate_Cap_length.
  - done.
  - done.
Qed.

(** C34. In [double]s, the transient solver (thermal_solver.c), given the arrays that the thermal model builds, never
    leaves them and returns after [iter] steps; its blocks of eight entries make no difference: each step gives every
    node the fold, from zero and in the order of the columns, of the contributions of the entries of its row. The power
    of cell [(i, j)] of die [l] is the source of node number [i * dimZ + j] of the layer above the die's. *)
Theorem transient_reference (W Lc Tamb : double) (numP dimX dimZ iter : Z) powerM time T M :
  0 < numP → 0 < dimX → 0 < dimZ → 0 <= iter →
  power_shape numP dimX dimZ powerM → zlen T = T_size numP dimX dimZ →
  calculate_Midx_array W Lc numP dimX dimZ = Ret M →
  let Cap := calculate_Cap_array W Lc numP dimX dimZ in
  ∃ P,
    transient_thermal_solver W Lc numP dimX dimZ Tamb powerM M (MidxSize numP dimX dimZ) Cap time iter T =
      Ret (reference_steps numP dimX dimZ M Cap P (time ⊘ of_int iter) (Z.to_nat iter) T) ∧
    ∀ l i j, 0 <= l < numP → 0 <= i < dimX → 0 <= j < dimZ →
      aget P (dimX * dimZ * (layerP l + 1) + i * dimZ + j) = Ret (power_of powerM (l, i, j)).
Proof.
  intros Hp HX HZ Hi Hsh HT HM. destruct (Midx_reference W Lc numP dimX dimZ HX HZ ltac:(lia)) as [HM' _].
  rewrite HM' in HM. injection HM as <-. by apply transient_solver_spec.
Qed.

(** a die of three by two cells, one of which works *)
Definition demo_power {D} `{Arith D} : list (list (list D)) :=
  [[[of_int 0]; [of_int 1]]; [[of_int 0]; [of_int 0]]; [[of_int 0]; [of_int 0]]].
Lemma demo_power_shape {D} `{Arith D} : power_shape 1 3 2 (demo_power (D := D)).
Proof.
  split; [done|]. intros i Hi. assert (i = 0 ∨ i = 1 ∨ i = 2) as [->|[->| ->]] by lia; eexists; (split; [done|]);
    (split; [done|]); intros j Hj; assert (j = 0 ∨ j = 1) as [->| ->] by lia; eexists; (split; [done|]); done.
Qed.
(** the power of cell (0, 1) is given to node 7, which is the cell (1, 0) *)
Lemma transient_reference_witness :
  let M := matrix (double_lit 8 3) (double_lit 8 3) 1 3 2 in
  let Cap := calculate_Cap_array (double_lit 8 3) (double_lit 8 3) 1 3 2 in
  ∃ P T, transient_thermal_solver (double_lit 8 3) (double_lit 8 3) 1 3 2 (double_lit 31315 2) demo_power M
      (MidxSize 1 3 2) Cap (double_lit 1 3) 4 (initialize_Temperature 1 3 2 (double_lit 31315 2)) = Ret T ∧
    aget P 7 = Ret (double_of_Z 1).
Proof.
  destruct (transient_reference (double_lit 8 3) (double_lit 8 3) (double_lit 31315 2) 1 3 2 4 demo_power
    (double_lit 1 3) (initialize_Temperature 1 3 2 (double_lit 31315 2)) _ eq_refl eq_refl eq_refl ltac:(lia)
    demo_power_shape eq_refl (proj1 (Midx_reference (double_lit 8 3) (double_lit 8 3) 1 3 2 eq_refl eq_refl
      ltac:(lia)))) as (P & HP & Hin).
  exists P. eexists. split; [exact HP|exact (Hin 0 0 1 ltac:(lia) ltac:(lia) ltac:(lia))].
Defined.

(** C35. In exact arithmetic, whatever solves the linear system that the steady solver sets up obeys the balance of heat:
    what leaves through the nodes of the sink, by their temperatures above the ambient, is the total power of the
    cells. (The right-hand side is built without leaving its array.) *)
Theorem steady_heat_balance {D} `{ExactArith D} (W Lc Tamb : D) (numP dimX dimZ : Z) powerM M :
  0 < numP → 0 < dimX → 0 < dimZ → power_shape numP dimX dimZ powerM →
  calculate_Midx_array W Lc numP dimX dimZ = Ret M →
  ∃ rhs, steady_rhs W Lc numP dimX dimZ Tamb powerM = Ret rhs ∧
    ∀ T, (∀ r, 0 <= r < T_size numP dimX dimZ → matrix_times M T r = at_index rhs r) →
      heat_lost W Lc dimX dimZ Tamb T = total_power numP dimX dimZ powerM.
Proof.
  intros Hp HX HZ Hsh HM. destruct (Midx_reference W Lc numP dimX dimZ HX HZ ltac:(lia)) as [HM' _].
  rewrite HM' in HM. injection HM as <-.
  destruct (steady_rhs_spec W Lc numP dimX dimZ Tamb Hp HX HZ powerM Hsh) as (rhs & Hr & Hl & Hs & _).
  exists rhs. split; [done|]. intros T HT. specialize (Hs _).
  pose proof (heat_out W Lc numP dimX dimZ Hp HX HZ T) as Ho.
  rewrite (asum_ext _ (at_index rhs)) in Ho by (intros r Hr'%elem_of_seqZ; apply HT; lia).
  rewrite <- Hl, <- asum_at_index, Hs, (heat_lost_eq W Lc dimX dimZ Tamb) in Ho.
  symmetry. eapply asum_cancel. exact Ho.
Qed.

(** In exact arithmetic, a step of the transient solver obeys the first law: the heat stored in the nodes grows by the
    time of the step times the difference of the power put in and the heat lost to the ambient. *)
Theorem transient_heat_balance {D} `{ExactArith D} (W Lc Tamb dt : D) (numP dimX dimZ : Z) powerM M Cap T :
  0 < numP → 0 < dimX → 0 < dimZ → power_shape numP dimX dimZ powerM →
  calculate_Midx_array W Lc numP dimX dimZ = Ret M →
  zlen Cap = numLayer numP + 1 →
  (∀ l, 0 <= l <= numLayer numP → at_index Cap l ⊗ (of_int 1 ⊘ at_index Cap l) = of_int 1) →
  zlen T = T_size numP dimX dimZ →
  ∃ P T', transient_power W Lc numP dimX dimZ Tamb powerM = Ret P ∧
    euler_step numP dimX dimZ M (MidxSize numP dimX dimZ) Cap P dt T = Ret T' ∧
    asum ((λ r, at_index Cap (Z.quot r (dimX * dimZ)) ⊗ (at_index T' r ⊖ at_index T r)) <$>
      seqZ 0 (T_size numP dimX dimZ)) =
    dt ⊗ (total_power numP dimX dimZ powerM ⊖ heat_lost W Lc dimX dimZ Tamb T).
Proof.
  intros Hp HX HZ Hsh HM HC Hinv HT. destruct (Midx_reference W Lc numP dimX dimZ HX HZ ltac:(lia)) as [HM' ->].
  rewrite HM' in HM. injection HM as <-.
  destruct (transient_power_spec W Lc numP dimX dimZ Tamb Hp HX HZ powerM Hsh) as (P & HP & HPl & Hs & _).
  set (M := matrix W Lc numP dimX dimZ). exists P, (next_temperatures numP dimX dimZ Cap P dt T M).
  split; [done|]. split.
  { apply euler_step_spec; [done..| |done|done|done].
    intros e He. by apply (matrix_in W Lc numP dimX dimZ HX HZ). }
  rewrite (asum_ext _ (λ r, dt ⊗ (at_index P r ⊖ matrix_times M T r))).
  - rewrite asum_map_scale, (asum_map_sub (at_index P) (matrix_times M T)). f_equal. unfold M.
    rewrite (heat_out W Lc numP dimX dimZ Hp HX HZ T), (heat_lost_eq W Lc dimX dimZ Tamb).
    rewrite <- HPl, <- asum_at_index, (Hs _). apply asum_sub_sum.
  - intros r Hr%elem_of_seqZ. destruct (number_onto numP dimX dimZ HX HZ r ltac:(lia)) as (a & Ha & <-).
    unfold at_index at 2, next_temperatures. rewrite list_lookup_fmap, lookup_seqZ_lt by lia.
    cbn [fmap option_fmap option_map default]. rewrite Z2Nat.id, Z.add_0_l by lia.
    unfold id, M. rewrite (euler_row W Lc numP dimX dimZ Hp HX HZ Cap P T dt a Ha). apply euler_stored.
    apply Hinv. rewrite Z.quot_div_nonneg by nia. split; [apply Z.div_pos; nia|].
    assert (number dimX dimZ a / (dimX * dimZ) < numLayer numP + 1); [|lia].
    apply Z.div_lt_upper_bound; [nia|]. unfold T_size in Hr. lia.
Qed.

(** *** A chip of one cell, in exact arithmetic *)
Definition q1 : Qc := of_int 1.
Definition chip_matrix : list (Entry Qc) := matrix q1 q1 1 1 1.
Definition chip_power : list (list (list Qc)) := [[[q1]]].
Definition chip_sink : Qc := of_int 313 ⊕ Ramb q1 q1 1 1.
Definition chip_die : Qc := chip_sink ⊕ (Rvert q1 q1 1 1 1 0 0 0 ⊘ of_int 2 ⊕ Rvert q1 q1 1 1 1 0 0 1 ⊘ of_int 2).
Definition chip_T : list Qc := [chip_sink; chip_die; chip_die; chip_die].
Lemma chip_reference : calculate_Midx_array q1 q1 1 1 1 = Ret chip_matrix.
Proof. apply Midx_reference; lia. Qed.
Lemma chip_shape : power_shape 1 1 1 chip_power.
Proof.
  split; [done|]. intros i Hi. assert (i = 0) as -> by lia. exists [[q1]]. split; [done|]. split; [done|].
  intros j Hj. assert (j = 0) as -> by lia. by exists [q1].
Qed.
Lemma chip_solved rhs : steady_rhs q1 q1 1 1 1 (of_int 313) chip_power = Ret rhs →
  ∀ r, 0 <= r < 4 → matrix_times chip_matrix chip_T r = at_index rhs r.
Proof.
  intros Hr r Hr'. assert (rhs = [of_int 313 ⊘ Ramb q1 q1 1 1; q1; of_int 0; of_int 0]) as ->.
  { assert (steady_rhs q1 q1 1 1 1 (of_int 313) chip_power = Ret [of_int 313 ⊘ Ramb q1 q1 1 1; q1; of_int 0; of_int 0])
      as Heq by reflexivity. congruence. }
  assert (r = 0 ∨ r = 1 ∨ r = 2 ∨ r = 3) as [->|[->|[->| ->]]] by lia; apply Qc_is_canon; vm_compute; reflexivity.
Qed.
Lemma steady_heat_balance_witness : ∃ rhs, steady_rhs q1 q1 1 1 1 (of_int 313) chip_power = Ret rhs ∧
  heat_lost q1 q1 1 1 (of_int 313) chip_T = total_power 1 1 1 chip_power.
Proof.
  destruct (steady_heat_balance q1 q1 (of_int 313) 1 1 1 chip_power chip_matrix eq_refl eq_refl eq_refl chip_shape
    chip_reference) as (rhs & Hr & Hb).
  exists rhs. split; [exact Hr|]. exact (Hb chip_T (chip_solved rhs Hr)).
Defined.

Lemma chip_capacity : ∀ l, 0 <= l <= numLayer 1 →
  at_index (calculate_Cap_array q1 q1 1 1 1) l ⊗ (of_int 1 ⊘ at_index (calculate_Cap_array q1 q1 1 1 1) l) = of_int 1.
Proof.
  intros l Hl. assert (l = 0 ∨ l = 1 ∨ l = 2 ∨ l = 3) as [->|[->|[->| ->]]] by (unfold numLayer in Hl; lia);
    apply Qc_is_canon; vm_compute; reflexivity.
Qed.
Lemma transient_heat_balance_witness : ∃ P T',
  transient_power q1 q1 1 1 1 (of_int 313) chip_power = Ret P ∧
  euler_step 1 1 1 chip_matrix (MidxSize 1 1 1) (calculate_Cap_array q1 q1 1 1 1) P (dec 1 3)
    (initialize_Temperature 1 1 1 (of_int 313)) = Ret T'.
Proof.
  destruct (transient_heat_balance q1 q1 (of_int 313) (dec 1 3) 1 1 1 chip_power chip_matrix
    (calculate_Cap_array q1 q1 1 1 1) (initialize_Temperature 1 1 1 (of_int 313)) eq_refl eq_refl eq_refl chip_shape
    chip_reference eq_refl chip_capacity eq_refl) as (P & T' & HP & HT & _).
  exists P, T'. split; [exact HP|exact HT].
Defined.
