(* ===== verification/Thermal.v ===== *)
(** * DRAMsim3: the thermal model (DRAMsim3/src/thermal.cc, thermal.h; configuration.cc, THERMAL builds)

    [InitThermalParams] derives the grid of a bank from the configuration. [ThermalCalculator] lays banks and vaults out
    on a floor plan of [dimX * dimY] cells in [numP] layers, adds the energy of every command to the cells its address
    maps to, and hands the power of the cells to the solver ([ThermalSolver]). A run is a sequence of the calls that
    the controllers and the memory system make in these builds. What is printed is left out; the maxima that are
    printed are results. An [int] that is computed by several sums and products is wrapped once, at the end, which in
    two's complement is the same. *)
From S2P Require Import Prelude Common Config ThermalSolver.

(** ** Conversion of a [double] to [int]: towards zero, and [ceil] before it *)
Definition to_int (z : Z) : outcome Z :=
  if (-2147483648 <=? z) && (z <? 2147483648) then Ret z else Fault Undefined.
Definition int_of_double (x : double) : outcome Z :=
  match x with
  | S754_zero _ => Ret 0
  | S754_finite s m e =>
      let a := if 0 <=? e then Zpos m * 2 ^ e else Zpos m / 2 ^ (- e) in
      to_int (if s then - a else a)
  | _ => Fault Undefined
  end.
Definition int_of_ceil (x : double) : outcome Z :=
  match x with
  | S754_zero _ => Ret 0
  | S754_finite s m e =>
      let v := if s then - Zpos m else Zpos m in
      to_int (if 0 <=? e then v * 2 ^ e else - (- v / 2 ^ (- e)))
  | _ => Fault Undefined
  end.

(** ** [InitThermalParams] (configuration.cc) *)

(** members that only the branch without tiling assigns *)
Record ThermalLayout := mkLayout {
  bank_order : Z; bank_layer_order : Z; num_row_refresh : Z;
  chip_dim_x : double; chip_dim_y : double; amb_temp : double
}.
Record ThermalParams := mkThermal {
  const_logic_power : double; mat_dim_x : Z; mat_dim_y : Z; num_x_grids : Z; num_y_grids : Z;
  row_tile : Z; tile_row_num : Z; bank_asr : double; loc_mapping : string; layout_ : option ThermalLayout
}.

(** [while (row_tile * row_tile * 4 < bank_asr) row_tile *= 2] *)
Fixpoint tile_rows (fuel : nat) (bank_asr : double) (row_tile : Z) : outcome Z :=
  if dltb (double_of_Z (i32 (row_tile * row_tile * 4))) bank_asr then
    match fuel with O => Fault Diverge | S fuel => tile_rows fuel bank_asr (i32 (row_tile * 2)) end
  else Ret row_tile.

Definition InitThermalParams `{Strtod} (r : INIReader) (d : DRAMParams) (t : TimingParams) : outcome ThermalParams :=
  let real := λ n v, GetReal r "thermal" n v in
  let int := GetInteger r "thermal" in
  let power := real "const_logic_power"%string (double_of_Z 5) in
  let mx := int "mat_dim_x"%string 512 in
  let my := int "mat_dim_y"%string 512 in
  nx ← iquot d.(rows) mx;
  ny ← iquot (i32 (d.(columns) * d.(device_width))) my;
  let asr := ddiv (double_of_Z nx) (double_of_Z ny) in
  if dltb (double_of_Z 4) asr && (d.(banks_per_group) =? 1) then
    tile ← tile_rows 32 asr 1;
    nx ← iquot nx tile;
    tr ← iquot d.(rows) tile;
    let ny := i32 (ny * tile) in
    Ret (mkThermal power mx my nx ny tile tr (ddiv (double_of_Z nx) (double_of_Z ny)) "" None)
  else
    nref ← int_of_ceil (ddiv (double_of_Z d.(rows))
             (ddiv (dmul (double_of_Z 64) (double_of_Z 1000000)) (dmul (double_of_Z t.(tREFI)) t.(tCK))));
    Ret (mkThermal power mx my nx ny 1 d.(rows) asr (Get r "thermal" "loc_mapping" "")
      (Some (mkLayout (int "bank_order"%string 1) (int "bank_layer_order"%string 0) nref
        (real "chip_dim_x"%string (double_lit 1 2)) (real "chip_dim_y"%string (double_lit 1 2))
        (real "amb_temp"%string (double_of_Z 40))))).

(** the members that have no value after the other branch *)
Definition layout_of (t : ThermalParams) : outcome ThermalLayout :=
  match t.(layout_) with Some l => Ret l | None => Fault Undefined end.

(** ** [StringSplit] (common.cc) and [std::stoi] *)

(** [getline] with a delimiter; empty items are dropped *)
Fixpoint split_at (delim : ascii) (item : string) (s : string) : list string :=
  match s with
  | EmptyString => [item]
  | String c s => if code c =? code delim then item :: split_at delim EmptyString s
                  else split_at delim (item ++ String c EmptyString) s
  end.
Definition StringSplit (s : string) (delim : ascii) : list string :=
  filter (λ i, i ≠ EmptyString) (split_at delim EmptyString s).

Fixpoint skip_spaces (s : string) : string :=
  match s with
  | EmptyString => EmptyString
  | String c s' => if is_space c then skip_spaces s' else s
  end.
Definition number10 (s : string) : option Z :=
  match skip_spaces s with
  | EmptyString => None
  | String c s' =>
      if code c =? 45 then Z.opp <$> digits_in 10 None s'
      else digits_in 10 None (if code c =? 43 then s' else String c s')
  end.
(** throws when there is no number, and when it is no [int] *)
Definition stoi (s : string) : outcome Z :=
  match number10 s with
  | Some n => if (-2147483648 <=? n) && (n <? 2147483648) then Ret n else Fault Throw
  | None => Fault Throw
  end.
(** [substr] up to and after the first colon, if there is one *)
Fixpoint at_colon (s : string) : option (string * string) :=
  match s with
  | EmptyString => None
  | String c s => if code c =? 58 then Some (EmptyString, s)
                  else (λ p : string * string, (String c p.1, p.2)) <$> at_colon s
  end.

(** ** [SetPhyAddressMapping] *)

Definition comma : ascii := Ascii.ascii_of_nat 44.
Definition dash : ascii := Ascii.ascii_of_nat 45.
(** positions that a part of a field stands for: a bit, or a range in either direction *)
Definition bit_positions (part : string) : outcome (list Z) :=
  match at_colon part with
  | None => p ← stoi part; Ret [p]
  | Some (a, b) =>
      start_pos ← stoi a; end_pos ← stoi b;
      Ret (if start_pos >? end_pos then reverse (seqZ end_pos (start_pos - end_pos + 1))
           else seqZ start_pos (end_pos - start_pos + 1))
  end.
(** [None]: addresses are not mapped *)
Definition SetPhyAddressMapping (loc_mapping : string) : outcome (option (list (list Z))) :=
  if String.eqb loc_mapping "" then Ret None
  else
    let bit_fields := StringSplit loc_mapping comma in
    if negb (zlen bit_fields =? 6) then Fault (Exit 1)
    else
      fields ← mapM (λ f, ps ← mapM bit_positions (StringSplit f dash); Ret (concat ps)) bit_fields;
      Ret (Some fields).

Definition origin_pos (a : Address) : list Z := [a.(channel); a.(rank); a.(bankgroup); a.(bank); a.(row); a.(column)].
(** the bits of every field at their new positions *)
Definition scatter (mapped_pos : list (list Z)) (origin : list Z) : outcome Z :=
  for_ (seqZ 0 (zlen mapped_pos)) 0 (λ new_hex i,
    ps ← aget mapped_pos i; o ← aget origin i;
    for_ (seqZ 0 (zlen ps)) new_hex (λ new_hex j,
      this_bit ← GetBitInPos (u64 o) (zlen ps - j - 1);
      p ← aget ps j;
      new_bit ← shl64 this_bit p;
      Ret (Z.lor new_hex new_bit))).
(** fields of the same widths, the last one lowest *)
Definition gather (mapped_pos : list (list Z)) (column_offset new_hex : Z) : outcome (list Z) :=
  s ← for_ (reverse (seqZ 0 (zlen mapped_pos))) ([0; 0; 0; 0; 0; 0], column_offset) (λ s i,
        let '(new_pos, pos) := s in
        ps ← aget mapped_pos i;
        v ← ModuloWidth new_hex (zlen ps) pos;
        new_pos ← aset new_pos i (i32 v);
        Ret (new_pos, pos + zlen ps));
  Ret s.1.
Definition GetPhyAddress (loc : option (list (list Z))) (column_offset : Z) (a : Address) : outcome Address :=
  match loc with
  | None => Ret a
  | Some mapped_pos =>
      new_hex ← scatter mapped_pos (origin_pos a);
      np ← gather mapped_pos column_offset new_hex;
      ch ← aget np 0; ra ← aget np 1; bg ← aget np 2; ba ← aget np 3; ro ← aget np 4; co ← aget np 5;
      Ret (mkAddress ch ra bg ba ro co)
  end.

(** ** The floor plan *)

(** one [y] of [determineXY]: the best [x] so far and its aspect ratio *)
Definition try_shape (xd yd : double) (total_grids_ : Z) (s : Z * double) (y : Z) : Z * double :=
  let x := Z.quot total_grids_ y in
  if x * y =? total_grids_ then
    let dx := dmul (double_of_Z x) xd in
    let dy := dmul (double_of_Z y) yd in
    let asr := if dleb dy dx then ddiv (ddiv dx (double_of_Z y)) yd
               else ddiv (ddiv dy (double_of_Z x)) xd in
    if dltb asr s.2 then (Z.quot total_grids_ y, asr) else s
  else s.
Definition determineXY (xd yd : double) (total_grids_ : Z) : Z :=
  (foldl (try_shape xd yd total_grids_) (1, double_of_Z 1000) (seqZ 1 total_grids_)).1.

Record FloorPlan := mkFloor {
  numP : Z; bank_x : Z; bank_y : Z; vault_x : Z; vault_y : Z; dimX : Z; dimY : Z; num_case : Z
}.
(** the planar memories have no vaults: their members are never assigned nor read *)
Definition floor_plan (c : Config) (t : ThermalParams) : outcome FloorPlan :=
  if IsHMC c then
    let vault_x := determineXY (dmul (double_of_Z 1) t.(bank_asr)) (dmul (double_of_Z 2) (double_of_Z 1)) c.(channels) in
    vault_y ← iquot c.(channels) vault_x;
    Ret (mkFloor (i32 (c.(num_dies) + 1)) 1 2 vault_x vault_y
      (i32 (vault_x * 1 * t.(num_x_grids))) (i32 (vault_y * 2 * t.(num_y_grids))) 1)
  else if IsHBM c then
    Ret (mkFloor (i32 (c.(num_dies) + 1)) 8 2 1 2 (i32 (1 * 8 * t.(num_x_grids))) (i32 (2 * 2 * t.(num_y_grids))) 1)
  else
    let bank_x := determineXY t.(bank_asr) (double_of_Z 1) c.(banks) in
    bank_y ← iquot c.(banks) bank_x;
    Ret (mkFloor 1 bank_x bank_y 0 0 (i32 (bank_x * t.(num_x_grids))) (i32 (bank_y * t.(num_y_grids)))
      (i32 (c.(ranks) * c.(channels)))).

Definition pair_swap (p : Z * Z) : Z * Z := (p.2, p.1).
Definition MapToVault (c : Config) (l : ThermalLayout) (f : FloorPlan) (channel_id : Z) : outcome (Z * Z) :=
  if IsHMC c then
    let vault_factor := if l.(bank_order) =? 0 then f.(vault_x) else f.(vault_y) in
    x ← iquot channel_id vault_factor; y ← irem channel_id vault_factor;
    Ret (if l.(bank_order) =? 0 then pair_swap (x, y) else (x, y))
  else if IsHBM c then Ret (0, Z.rem channel_id 2)
  else Ret (0, 0).

Definition MapToBank (c : Config) (l : ThermalLayout) (f : FloorPlan) (bankgroup_id bank_id : Z) : outcome (Z * Z) :=
  let abs_bank_id := i32 (bankgroup_id * c.(banks_per_group) + bank_id) in
  let bank_factor := if negb (l.(bank_order) =? 0) then f.(bank_y) else f.(bank_x) in
  let order p := if l.(bank_order) =? 0 then pair_swap p else p in
  if IsHMC c then
    num_bank_per_layer ← iquot c.(banks) c.(num_dies);
    bank_same_layer ← irem abs_bank_id num_bank_per_layer;
    x ← iquot bank_same_layer bank_factor; y ← irem bank_same_layer bank_factor;
    Ret (order (x, y))
  else if IsHBM c then Ret (i32 (bankgroup_id * 2 + Z.quot bank_id 2), Z.rem bank_id 2)
  else if c.(bankgroups) >? 1 then
    let '(x, y) := order (Z.quot bank_id 2, Z.rem bank_id 2) in
    Ret (if f.(bank_x) <=? f.(bank_y) then (x, i32 (y + bankgroup_id * 2)) else (i32 (x + bankgroup_id * 2), y))
  else
    x ← iquot abs_bank_id bank_factor; y ← irem abs_bank_id bank_factor;
    Ret (order (x, y)).

Definition MapToZ (c : Config) (l : ThermalLayout) (f : FloorPlan) (channel_id bank_id : Z) : outcome Z :=
  if IsHMC c then
    num_bank_per_layer ← iquot c.(banks) c.(num_dies);
    k ← iquot bank_id num_bank_per_layer;
    Ret (if l.(bank_layer_order) =? 0 then k else i32 (f.(numP) - k - 2))
  else if IsHBM c then Ret (Z.quot channel_id 2)
  else Ret 0.

(** ** The calculator *)

Record ThermalCalculator := mkCalc {
  floor :> FloorPlan; plan : ThermalLayout; loc : option (list (list Z)); Tamb : double;
  accu_Pmap : list (list double); cur_Pmap : list (list double);
  refresh_count : list (list Z); background_energy_ : list (list double); avg_logic_power_ : double;
  Midx : list (Entry double); Cap : list double; time_iter : Z;
  T_trans : list (list double); T_final : list (list double); sample_id : Z
}.
Definition num_dummy : Z := 2.
Definition zero : double := double_of_Z 0.

(** *** Cells of a command *)

(** [MapToXY]: the cells of the columns and device bits of a burst *)
Definition MapToXY (c : Config) (t : ThermalParams) (s : ThermalCalculator) (cmd : Command)
    (vault_id bank_id : Z * Z) : outcome (list (Z * Z)) :=
  let row_id := Row cmd in
  col_tile_id ← iquot row_id t.(tile_row_num);
  g ← iquot row_id t.(mat_dim_x); grid_id_x ← iquot g t.(row_tile);
  off ← LogBase2 c.(BL);
  r ← for_ (seqZ 0 c.(BL)) ([], cmd.(addr)) (λ st _,
        let '(cells, temp_addr) := st in
        phy_loc ← GetPhyAddress s.(loc) off temp_addr;
        let col_id := i32 (phy_loc.(column) * c.(device_width)) in
        let bank_x_offset := s.(bank_x) * t.(num_x_grids) in
        let bank_y_offset := s.(bank_y) * t.(num_y_grids) in
        cells ← for_ (seqZ 0 c.(device_width)) cells (λ cells j,
          q ← iquot (i32 (col_id + j)) t.(mat_dim_y); w ← iquot t.(num_y_grids) t.(row_tile);
          let grid_id_y := q + col_tile_id * w in
          let temp_x := i32 (vault_id.1 * bank_x_offset + bank_id.1 * t.(num_x_grids) + grid_id_x) in
          let temp_y := i32 (vault_id.2 * bank_y_offset + bank_id.2 * t.(num_y_grids) + grid_id_y) in
          Ret (cells ++ [(temp_x, temp_y)]));
        Ret (cells, temp_addr <| column ::= λ x, i32 (x + 1) |>));
  Ret r.1.

(** [m[case][idx] += e] *)
Definition add_energy (m : list (list double)) (case_id idx : Z) (e : double) : outcome (list (list double)) :=
  row ← aget m case_id; v ← aget row idx;
  row ← aset row idx (dadd v e); aset m case_id row.
(** both maps of a cell *)
Definition add_both (case_id : Z) (e : double) (s : ThermalCalculator) (idx : Z) : outcome ThermalCalculator :=
  a ← add_energy s.(accu_Pmap) case_id idx e;
  u ← add_energy s.(cur_Pmap) case_id idx e;
  Ret (s <| accu_Pmap := a |> <| cur_Pmap := u |>).

Definition LocationMappingANDaddEnergy (c : Config) (t : ThermalParams) (s : ThermalCalculator) (channel : Z)
    (cmd : Command) (caseID_ : Z) (energy_ : double) : outcome ThermalCalculator :=
  vault_id ← MapToVault c s.(plan) s channel;
  bank_id ← MapToBank c s.(plan) s (Bankgroup cmd) (Bank cmd);
  xy ← MapToXY c t s cmd vault_id bank_id;
  z ← MapToZ c s.(plan) s channel (Bank cmd);
  let dimX := s.(dimX) in
  let z_offset := z * dimX * s.(dimY) in
  let energy := ddiv energy_ (double_of_Z c.(device_width)) in
  for_ xy s (λ s p, add_both caseID_ energy s (i32 (z_offset + p.2 * dimX + p.1))).

(** a refreshed row: the first cell of each column of cells; [bank0] counts the banks of the rank *)
Definition LocationMappingANDaddEnergy_RF (c : Config) (t : ThermalParams) (s : ThermalCalculator) (channel : Z)
    (cmd : Command) (bank0 row0 caseID_ : Z) (energy_ : double) : outcome ThermalCalculator :=
  bankgroup_id ← iquot bank0 c.(banks_per_group);
  bank_id ← irem bank0 c.(banks_per_group);
  let new_addr := cmd.(addr) <| row := row0 |> <| bankgroup := bankgroup_id |> <| bank := bank_id |> in
  vault ← MapToVault c s.(plan) s channel;
  bk ← MapToBank c s.(plan) s bankgroup_id bank_id;
  z ← MapToZ c s.(plan) s channel bank_id;
  off ← LogBase2 c.(BL);
  phy_addr ← GetPhyAddress s.(loc) off new_addr;
  let row_id := phy_addr.(row) in
  col_tile_id ← iquot row_id t.(tile_row_num);
  g ← iquot row_id t.(mat_dim_x); grid_id_x ← iquot g t.(row_tile);
  q ← iquot 0 t.(mat_dim_y); w ← iquot t.(num_y_grids) t.(row_tile);
  let grid_id_y := q + col_tile_id * w in
  let x := vault.1 * (s.(bank_x) * t.(num_x_grids)) + bk.1 * t.(num_x_grids) + grid_id_x in
  let y := vault.2 * (s.(bank_y) * t.(num_y_grids)) + bk.2 * t.(num_y_grids) + grid_id_y in
  let dimX := s.(dimX) in
  let z_offset := z * (dimX * s.(dimY)) in
  for_ (seqZ 0 t.(num_y_grids)) s (λ s i, add_both caseID_ energy_ s (i32 (z_offset + (y + i) * dimX + x))).

(** *** [UpdateCMDPower] *)

(** the rows that one refresh of bank [ib] covers, and the counter behind them *)
Definition next_refresh (c : Config) (l : ThermalLayout) (s : ThermalCalculator) (rank_idx ib : Z) :
    outcome (Z * ThermalCalculator) :=
  r ← aget s.(refresh_count) rank_idx; n ← aget r ib;
  let n1 := i32 (n + 1) in
  let n2 := if i32 (n1 * l.(num_row_refresh)) =? c.(rows) then 0 else n1 in
  r ← aset r ib n2; rc ← aset s.(refresh_count) rank_idx r;
  Ret (i32 (n * l.(num_row_refresh)), s <| refresh_count := rc |>).
Definition refresh_one (c : Config) (t : ThermalParams) (channel : Z) (cmd : Command) (case_id rank_idx : Z)
    (energy : double) (s : ThermalCalculator) (ib : Z) : outcome ThermalCalculator :=
  r ← next_refresh c s.(plan) s rank_idx ib;
  let '(row_s, s) := r in
  for_ (seqZ row_s (i32 (row_s + s.(plan).(num_row_refresh)) - row_s)) s (λ s ir,
    LocationMappingANDaddEnergy_RF c t s channel cmd ib ir case_id energy).

Definition d1000 : double := double_of_Z 1000.
(** [device_scale] and [case_id]: the stacked memories are one case *)
Definition device_scale (c : Config) : double :=
  if IsHMC c || IsHBM c then double_of_Z 1 else double_of_Z c.(devices_per_rank).
Definition case_of (c : Config) (channel rank : Z) : Z :=
  if IsHMC c || IsHBM c then 0 else i32 (channel * c.(ranks) + rank).
Definition UpdateCMDPower (c : Config) (t : ThermalParams) (s : ThermalCalculator) (channel : Z) (cmd : Command) :
    outcome ThermalCalculator :=
  let rank := Rank cmd in
  let case_id := case_of c channel rank in
  let rank_idx := i32 (channel * c.(ranks) + rank) in
  let scaled e := ddiv (ddiv e d1000) (device_scale c) in
  let l := s.(plan) in
  match cmd.(cmd_type) with
  | REFab =>
      let energy := ddiv (ddiv (ddiv c.(ref_energy_inc) (double_of_Z l.(num_row_refresh)))
                               (double_of_Z c.(banks))) (double_of_Z t.(num_y_grids)) in
      for_ (seqZ 0 c.(banks)) s (refresh_one c t channel cmd case_id rank_idx (scaled energy))
  | REFRESH_BANK =>
      let energy := ddiv (ddiv c.(refb_energy_inc) (double_of_Z l.(num_row_refresh))) (double_of_Z t.(num_y_grids)) in
      refresh_one c t channel cmd case_id rank_idx (scaled energy) s (Bank cmd)
  | ct =>
      let energy := match ct with
        | ACTIVATE => c.(act_energy_inc)
        | READ | READ_PRECHARGE => c.(read_energy_inc)
        | WRITE | WRITE_PRECHARGE => c.(write_energy_inc)
        | _ => zero
        end in
      if dltb zero energy then
        LocationMappingANDaddEnergy c t s channel cmd case_id (scaled (ddiv energy (double_of_Z c.(BL))))
      else Ret s
  end.

Definition UpdateBackgroundEnergy (s : ThermalCalculator) (channel rank : Z) (energy : double) :
    outcome ThermalCalculator :=
  r ← aget s.(background_energy_) channel; r ← aset r rank energy;
  b ← aset s.(background_energy_) channel r; Ret (s <| background_energy_ := b |>).
Definition SetLogicPower (s : ThermalCalculator) (logic_power : double) : ThermalCalculator :=
  s <| avg_logic_power_ := logic_power |>.

(** *** Epochs *)

(** [UpdatePowerMaps] on the map it updates; [period] is the length of the time it covers *)
Definition UpdatePowerMaps (f : FloorPlan) (logic : double) (add : double) (period : double)
    (m : list (list double)) : outcome (list (list double)) :=
  let below := i32 (f.(dimX) * f.(dimY) * (f.(numP) - 1)) in
  let cells := i32 (f.(dimX) * f.(dimY) * f.(numP)) in
  for_ (seqZ 0 f.(num_case)) m (λ m j,
    m ← for_ (seqZ 0 below) m (λ m i, add_energy m j i add);
    let layer := dmul (ddiv (ddiv logic (double_of_Z f.(dimX))) (double_of_Z f.(dimY))) period in
    for_ (seqZ below (cells - below)) m (λ m i, add_energy m j i layer)).
(** sum over channels and ranks, per cell of the dies *)
Definition background_per_cell (s : ThermalCalculator) : double :=
  ddiv (foldl (λ e r, foldl dadd e r) zero s.(background_energy_))
       (double_of_Z (i32 (s.(dimX) * s.(dimY) * (s.(numP) - 1)))).

(** [for (int k = 0; k < n; i++) m[case][at(k, i)] += e]: the loop increments the wrong variable. [fuel] bounds the
    turns; [i] is undefined when it leaves the [int]s. *)
Fixpoint stuck_loop (fuel : nat) (n i : Z) (at_ : Z → Z) (case_id : Z) (e : double) (m : list (list double)) :
    outcome (list (list double)) :=
  if 0 <? n then
    match fuel with
    | O => Fault Diverge
    | S fuel =>
        m ← add_energy m case_id (at_ i) e;
        if i + 1 <? 2147483648 then stuck_loop fuel n (i + 1) at_ case_id e m else Fault Undefined
    end
  else Ret m.
(** the background energy of the planar memories *)
Definition planar_background (fuel : nat) (c : Config) (s : ThermalCalculator) (at_ : Z → Z) (m : list (list double)) :
    outcome (list (list double)) :=
  let n := i32 (s.(dimX) * s.(dimY) * s.(numP)) in
  for_ (seqZ 0 c.(channels)) m (λ m i,
    for_ (seqZ 0 c.(ranks)) m (λ m j,
      r ← aget s.(background_energy_) i; b ← aget r j;
      let bg_energy := ddiv b (double_of_Z n) in
      stuck_loop fuel n i at_ (i32 (i * c.(ranks) + j))
        (ddiv (ddiv bg_energy d1000) (double_of_Z c.(devices_per_rank))) m)).

Definition UpdateEpoch (fuel : nat) (c : Config) (s : ThermalCalculator) : outcome ThermalCalculator :=
  m ← (if IsHBM c || IsHMC c then
         UpdatePowerMaps s s.(avg_logic_power_) (ddiv (background_per_cell s) d1000)
           (double_of_Z c.(epoch_period)) s.(cur_Pmap)
       else planar_background fuel c s (λ _, 0) s.(cur_Pmap));
  Ret (s <| cur_Pmap := m |>).

(** *** Temperatures *)

(** the grid with its border *)
Definition grid_x (f : FloorPlan) : Z := i32 (f.(dimX) + num_dummy).
Definition grid_y (f : FloorPlan) : Z := i32 (f.(dimY) + num_dummy).
(** the power of the cells inside a border of one dummy cell; [div] is the time the energies were gathered in *)
Definition InitPowerM (f : FloorPlan) (power_map : list (list double)) (case_id : Z) (div : double) :
    outcome (list (list (list double))) :=
  mapM (λ x, mapM (λ y, mapM (λ l,
    if (1 <=? x) && (x <=? f.(dimX)) && (1 <=? y) && (y <=? f.(dimY)) then
      r ← aget power_map case_id;
      v ← aget r (i32 (l * (f.(dimX) * f.(dimY)) + (y - 1) * f.(dimX) + (x - 1)));
      Ret (ddiv v div)
    else Ret zero)
    (seqZ 0 f.(numP))) (seqZ 0 (grid_y f))) (seqZ 0 (grid_x f)).

Definition epoch_time (c : Config) : double := dmul (dmul (double_of_Z c.(epoch_period)) c.(tCK)) (double_lit 1 9).

Definition CalcTransT (c : Config) (s : ThermalCalculator) (case_id : Z) : outcome ThermalCalculator :=
  powerM ← InitPowerM s s.(cur_Pmap) case_id (double_of_Z c.(epoch_period));
  T ← aget s.(T_trans) case_id;
  T ← transient_thermal_solver s.(plan).(chip_dim_x) s.(plan).(chip_dim_y) s.(numP) (grid_x s) (grid_y s) s.(Tamb)
        powerM s.(Midx) (MidxSize s.(numP) (grid_x s) (grid_y s)) s.(Cap) (epoch_time c) s.(time_iter) T;
  Tt ← aset s.(T_trans) case_id T;
  Ret (s <| T_trans := Tt |>).
(** a power of 0 cycles selects the other map in [InitPowerM], which is why [clk] matters *)
Definition CalcFinalT (pdgssv : CompCol double → list double → list double) (c : Config) (s : ThermalCalculator)
    (case_id clk : Z) : outcome ThermalCalculator :=
  powerM ← InitPowerM s (if clk =? 0 then s.(cur_Pmap) else s.(accu_Pmap)) case_id
             (double_of_Z (if clk =? 0 then c.(epoch_period) else clk));
  T ← steady_thermal_solver s.(plan).(chip_dim_x) s.(plan).(chip_dim_y) s.(numP) (grid_x s) (grid_y s) s.(Tamb)
        pdgssv powerM s.(Midx) (MidxSize s.(numP) (grid_x s) (grid_y s));
  Tf ← aset s.(T_final) case_id T;
  Ret (s <| T_final := Tf |>).

Definition GetMaxTofCase (s : ThermalCalculator) (temp_map : list (list double)) (case_id : Z) : outcome double :=
  T ← aget temp_map case_id;
  for_ (seqZ 0 (i32 (T_size s.(numP) (grid_x s) (grid_y s)))) zero (λ maxT i,
    v ← aget T i; Ret (if dltb maxT v then v else maxT)).
Definition GetMaxTofCaseLayer (s : ThermalCalculator) (temp_map : list (list double)) (case_id layer : Z) :
    outcome double :=
  let layer_pos_offset := (layerP layer + 1) * (grid_x s * grid_y s) in
  T ← aget temp_map case_id;
  for_ (seqZ 1 s.(dimY)) zero (λ maxT j,
    for_ (seqZ 1 s.(dimX)) maxT (λ maxT i,
      v ← aget T (i32 (layer_pos_offset + j * grid_x s + i));
      let t := dsub v ThermalSolver.T0 in
      Ret (if dltb t maxT then maxT else t))).

(** the calculator and the maxima of the layers of each case, as they are printed *)
Definition PrintTransPT (fuel : nat) (c : Config) (s : ThermalCalculator) :
    outcome (ThermalCalculator * list (list double)) :=
  UpdateEpoch fuel c s ≫= λ s : ThermalCalculator,
  r ← for_ (seqZ 0 s.(num_case)) (s, [] : list (list double)) (λ (r : ThermalCalculator * list (list double)) ir,
        let '(s, out) := r in
        s ← CalcTransT c s ir;
        ts ← mapM (GetMaxTofCaseLayer s s.(T_trans) ir) (seqZ 0 s.(numP));
        Ret (s, out ++ [ts]));
  let '(s, out) := r in
  cleared ← mapM (λ m, for_ (seqZ 0 (i32 (s.(numP) * s.(dimX) * s.(dimY)))) m (λ m i, aset m i zero)) s.(cur_Pmap);
  Ret (s <| cur_Pmap := cleared |> <| sample_id ::= λ x, i32 (x + 1) |>, out).

Definition PrintFinalPT (fuel : nat) (pdgssv : CompCol double → list double → list double) (c : Config)
    (s : ThermalCalculator) (clk : Z) : outcome (ThermalCalculator * list double) :=
  m ← (if IsHBM c || IsHMC c then
         UpdatePowerMaps s s.(avg_logic_power_) (ddiv (background_per_cell s) d1000) (double_of_Z clk) s.(accu_Pmap)
       else planar_background fuel c s (λ i, i) s.(accu_Pmap));
  let s := s <| accu_Pmap := m |> in
  for_ (seqZ 0 s.(num_case)) (s, [] : list double) (λ (r : ThermalCalculator * list double) ir,
    let '(s, out) := r in
    s ← CalcFinalT pdgssv c s ir clk;
    t ← GetMaxTofCase s s.(T_final) ir;
    Ret (s, out ++ [t])).

(** *** The constructor *)

(** the largest step that is stable, over the diagonal of the matrix *)
Definition stable_step (layer_dim : Z) (Cap : list double) (Midx : list (Entry double)) : outcome double :=
  for_ Midx (double_of_Z 100) (λ dt e,
    idxC ← iquot e.(e_row) layer_dim;
    if e.(e_row) =? e.(e_col) then
      c ← aget Cap idxC;
      let q := ddiv c e.(e_val) in
      Ret (if dltb q dt then q else dt)
    else Ret dt).
(** [while (power_epoch_time / time_iter >= dt) time_iter++] *)
Fixpoint count_steps (fuel : nat) (time dt : double) (iter : Z) : outcome Z :=
  if dleb dt (ddiv time (double_of_Z iter)) then
    match fuel with O => Fault Diverge | S fuel => count_steps fuel time dt (i32 (iter + 1)) end
  else Ret iter.
Definition time_iter0 : Z := 10.
Definition calculate_time_step (fuel : nat) (c : Config) (layer_dim : Z) (Cap : list double)
    (Midx : list (Entry double)) : outcome Z :=
  dt ← stable_step layer_dim Cap Midx;
  count_steps fuel (epoch_time c) dt time_iter0.

Definition matrix_of {A} (n m : Z) (x : A) : list (list A) := replicate (Z.to_nat n) (replicate (Z.to_nat m) x).
(** the constructor; a vector of negative size throws, and [fuel] bounds the steps of an epoch *)
Definition ThermalCalculator_new (fuel : nat) (c : Config) (t : ThermalParams) : outcome ThermalCalculator :=
  f ← floor_plan c t;
  l ← layout_of t;
  mapped ← SetPhyAddressMapping t.(loc_mapping);
  let Tamb := dadd l.(amb_temp) ThermalSolver.T0 in
  let cells := i32 (f.(numP) * f.(dimX) * f.(dimY)) in
  let rank_banks := i32 (c.(channels) * c.(ranks)) in
  let fits n := negb (n <? 0) in
  (if fits c.(channels) && fits c.(ranks) && fits f.(num_case) && fits cells && fits rank_banks && fits c.(banks)
   then Ret tt else Fault Throw);;
  M ← calculate_Midx_array l.(chip_dim_x) l.(chip_dim_y) f.(numP) (grid_x f) (grid_y f);
  let C := calculate_Cap_array l.(chip_dim_x) l.(chip_dim_y) f.(numP) (grid_x f) (grid_y f) in
  iter ← calculate_time_step fuel c (i32 (grid_x f * grid_y f)) C M;
  Ret {| floor := f; plan := l; loc := mapped; Tamb := Tamb;
         accu_Pmap := matrix_of f.(num_case) cells zero; cur_Pmap := matrix_of f.(num_case) cells zero;
         refresh_count := matrix_of rank_banks c.(banks) 0;
         background_energy_ := matrix_of c.(channels) c.(ranks) zero; avg_logic_power_ := zero;
         Midx := M; Cap := C; time_iter := iter;
         T_trans := replicate (Z.to_nat f.(num_case)) (initialize_Temperature f.(numP) (grid_x f) (grid_y f) Tamb);
         T_final := replicate (Z.to_nat f.(num_case)) []; sample_id := 0 |}.
