(* ===== verification/ThermalSpec.v ===== *)
(** * The thermal model: theorems

    On a floor plan that [fits], with sizes that are [int]s ([ints_ok]), every command adds its energy to the cells of
    its accesses or of its refreshed rows, which lie inside the banks the code selects ([UpdateCMDPower_spends]);
    epochs ([PrintTransPT_ok]) and the final temperatures ([PrintFinalPT_ok]) never leave the arrays; and all of them keep
    the invariant of the calculator ([calc_inv], [thermal_ok]). *)
From S2P Require Import Prelude Common Config ThermalSolver ThermalSolverSpec ThermalHeat Thermal.

(** ** The floor plan *)

Definition vaults_x (c : Config) (f : FloorPlan) : Z := if IsHMC c || IsHBM c then f.(vault_x) else 1.
Definition vaults_y (c : Config) (f : FloorPlan) : Z := if IsHMC c || IsHBM c then f.(vault_y) else 1.

(** an address of the memory; the column is the first of a burst *)
Record addr_ok (c : Config) (a : Address) : Prop := {
  ao_rank : 0 <= a.(rank) < c.(ranks); ao_bg : 0 <= a.(bankgroup) < c.(bankgroups);
  ao_bank : 0 <= a.(bank) < c.(banks_per_group); ao_row : 0 <= a.(row) < c.(rows);
  ao_col : 0 <= a.(column) /\ a.(column) + c.(BL) <= c.(columns)
}.
(** the physical location of a cell is a row and a column of the bank *)
Definition loc_ok (c : Config) (loc : option (list (list Z))) : Prop :=
  ∀ off a, LogBase2 c.(BL) = Ret off →
    0 <= a.(row) < c.(rows) → 0 <= a.(column) < c.(columns) →
    ∃ p, GetPhyAddress loc off a = Ret p ∧ 0 <= p.(row) < c.(rows) ∧ 0 <= p.(column) < c.(columns).

(** the sizes of the memory and of its plan are [int]s; the solver has at most eight entries for a node of its network,
    the last layer of which is the heat sink *)
Record ints_ok (c : Config) (f : FloorPlan) : Prop := {
  in_numP : 0 <= f.(numP); in_X : 0 <= f.(dimX); in_Y : 0 <= f.(dimY);
  in_net : 8 * T_size f.(numP) (f.(dimX) + num_dummy) (f.(dimY) + num_dummy) < 2147483648;
  in_ranks : c.(channels) * c.(ranks) < 2147483648; in_rows : c.(rows) < 2147483648;
  in_cols : c.(columns) * c.(device_width) < 2147483648; in_col : c.(columns) < 2147483648
}.
(** every bank has its cells inside the plan, and the rows and columns of a bank fill them *)
Record fits (c : Config) (t : ThermalParams) (l : ThermalLayout) (f : FloorPlan) : Prop := {
  fi_x : 0 < t.(num_x_grids); fi_y : 0 < t.(num_y_grids);
  fi_mx : 0 < t.(mat_dim_x); fi_my : 0 < t.(mat_dim_y);
  fi_rows : t.(mat_dim_x) * t.(num_x_grids) = c.(rows);
  fi_cols : t.(mat_dim_y) * t.(num_y_grids) = c.(columns) * c.(device_width);
  fi_tile : t.(row_tile) = 1 ∧ t.(tile_row_num) = c.(rows); fi_ints : ints_ok c f;
  fi_dw : 0 < c.(device_width); fi_bl : 0 < c.(BL) < 2147483648; fi_bpg : 0 < c.(banks_per_group);
  fi_dimX : f.(dimX) = vaults_x c f * f.(bank_x) * t.(num_x_grids);
  fi_dimY : f.(dimY) = vaults_y c f * f.(bank_y) * t.(num_y_grids);
  fi_vault : ∀ ch, 0 <= ch < c.(channels) → returns (MapToVault c l f ch) (λ v,
    0 <= v.1 < vaults_x c f ∧ 0 <= v.2 < vaults_y c f);
  fi_bank : ∀ bg ba, 0 <= bg < c.(bankgroups) → 0 <= ba < c.(banks_per_group) →
    returns (MapToBank c l f bg ba) (λ b, 0 <= b.1 < f.(bank_x) ∧ 0 <= b.2 < f.(bank_y));
  fi_z : ∀ ch ba, 0 <= ch < c.(channels) → 0 <= ba < c.(banks_per_group) →
    returns (MapToZ c l f ch ba) (λ z, 0 <= z < f.(numP))
}.

(** the cells of a bank *)
Definition in_bank (t : ThermalParams) (f : FloorPlan) (v b : Z * Z) (p : Z * Z) : Prop :=
  let x0 := v.1 * (f.(bank_x) * t.(num_x_grids)) + b.1 * t.(num_x_grids) in
  let y0 := v.2 * (f.(bank_y) * t.(num_y_grids)) + b.2 * t.(num_y_grids) in
  x0 <= p.1 < x0 + t.(num_x_grids) ∧ y0 <= p.2 < y0 + t.(num_y_grids).
Definition cell_index (f : FloorPlan) (z : Z) (p : Z * Z) : Z := z * (f.(dimX) * f.(dimY)) + p.2 * f.(dimX) + p.1.
(** the power maps' index [k] is a cell of bank [(bg, ba)] of channel [ch] *)
Definition bank_cell (c : Config) (t : ThermalParams) (l : ThermalLayout) (f : FloorPlan) (ch bg ba k : Z) : Prop :=
  ∃ v b z p, MapToVault c l f ch = Ret v ∧ MapToBank c l f bg ba = Ret b ∧ MapToZ c l f ch ba = Ret z ∧
    in_bank t f v b p ∧ k = cell_index f z p.

Lemma coordinate_range (n v b k g V B : Z) :
  0 <= v < V → 0 <= b < B → 0 <= g < n → k = v * (B * n) + b * n + g → 0 <= k < V * B * n.
Proof.
  intros Hv Hb Hg ->. pose proof (digits_range n B g b Hg Hb) as Hin. rewrite (Z.mul_comm n) in Hin.
  pose proof (digits_range (B * n) V (b * n + g) v Hin Hv). lia.
Qed.

Definition map_cells (f : FloorPlan) : Z := f.(numP) * f.(dimX) * f.(dimY).
(** the sizes that are computed are the sizes *)
Section Sizes.
Context (c : Config) (f : FloorPlan) (Hi : ints_ok c f).
Lemma grid_x_eq : grid_x f = f.(dimX) + num_dummy ∧ 0 < grid_x f.
Proof.
  destruct Hi as [Hp HX HY Hn _ _ _ _]. unfold T_size, numLayer, grid_x, num_dummy in *. rewrite i32_id; [lia|]. unfold is_i32. nia.
Qed.
Lemma grid_y_eq : grid_y f = f.(dimY) + num_dummy ∧ 0 < grid_y f.
Proof.
  destruct Hi as [Hp HX HY Hn _ _ _ _]. unfold T_size, numLayer, grid_y, num_dummy in *. rewrite i32_id; [lia|]. unfold is_i32. nia.
Qed.
Lemma net_small : 0 < grid_x f * grid_y f ∧ 0 <= f.(numP) ∧ 8 * T_size f.(numP) (grid_x f) (grid_y f) < 2147483648.
Proof.
  destruct grid_x_eq as [Ex Hx], grid_y_eq as [Ey Hy]. split; [nia|]. split; [apply Hi|]. rewrite Ex, Ey. apply Hi.
Qed.
Lemma layer_small : 0 <= f.(dimX) * f.(dimY) ∧ f.(dimX) * f.(dimY) < 268435456.
Proof.
  destruct Hi as [Hp HX HY Hn _ _ _ _]. unfold T_size, numLayer, num_dummy in *. split; [nia|].
  assert (f.(dimX) * f.(dimY) <= (f.(dimX) + 2) * (f.(dimY) + 2)) by nia.
  assert ((f.(dimX) + 2) * (f.(dimY) + 2) * 1 <= (f.(dimX) + 2) * (f.(dimY) + 2) * (f.(numP) * 3 + 1)) by (apply Z.mul_le_mono_nonneg_l; nia).
  lia.
Qed.
Lemma cells_small : 0 <= map_cells f < 268435456.
Proof.
  destruct Hi as [Hp HX HY Hn _ _ _ _]. unfold map_cells, T_size, numLayer, num_dummy in *. rewrite <- Z.mul_assoc.
  assert (f.(dimX) * f.(dimY) <= (f.(dimX) + 2) * (f.(dimY) + 2)) as Hd by nia.
  assert (0 <= f.(dimX) * f.(dimY)) as H0 by nia. split; [nia|].
  assert (f.(numP) * (f.(dimX) * f.(dimY)) <= f.(numP) * ((f.(dimX) + 2) * (f.(dimY) + 2))) by (apply Z.mul_le_mono_nonneg_l; lia).
  assert (0 <= f.(numP) * ((f.(dimX) + 2) * (f.(dimY) + 2))) by (apply Z.mul_nonneg_nonneg; lia). lia.
Qed.
End Sizes.
Lemma cell_i32 c f k : ints_ok c f → 0 <= k < map_cells f → i32 k = k.
Proof. intros Hi Hk. pose proof (cells_small c f Hi). apply i32_id. unfold is_i32. lia. Qed.

Section Cells.
Context (c : Config) (t : ThermalParams) (l : ThermalLayout) (f : FloorPlan) (Hf : fits c t l f).

Lemma in_bank_range v b p : 0 <= v.1 < vaults_x c f → 0 <= v.2 < vaults_y c f →
  0 <= b.1 < f.(bank_x) → 0 <= b.2 < f.(bank_y) → in_bank t f v b p →
  0 <= p.1 < f.(dimX) ∧ 0 <= p.2 < f.(dimY).
Proof.
  intros Hvx Hvy Hbx Hby [Hx Hy]. rewrite (fi_dimX _ _ _ _ Hf), (fi_dimY _ _ _ _ Hf). split.
  - eapply coordinate_range with (g := p.1 - (v.1 * (f.(bank_x) * t.(num_x_grids)) + b.1 * t.(num_x_grids)));
      [exact Hvx|exact Hbx|lia|lia].
  - eapply coordinate_range with (g := p.2 - (v.2 * (f.(bank_y) * t.(num_y_grids)) + b.2 * t.(num_y_grids)));
      [exact Hvy|exact Hby|lia|lia].
Qed.

Lemma cell_index_range z p : 0 <= z < f.(numP) → 0 <= p.1 < f.(dimX) → 0 <= p.2 < f.(dimY) →
  0 <= cell_index f z p < f.(numP) * f.(dimX) * f.(dimY).
Proof.
  intros Hz Hx Hy. unfold cell_index. pose proof (digits_range _ _ _ _ Hx Hy).
  assert (z * (f.(dimX) * f.(dimY)) + f.(dimX) * f.(dimY) <= f.(numP) * (f.(dimX) * f.(dimY))) by nia. nia.
Qed.
Lemma cell_index_inj z p z' p' : 0 <= p.1 < f.(dimX) → 0 <= p.2 < f.(dimY) →
  0 <= p'.1 < f.(dimX) → 0 <= p'.2 < f.(dimY) → cell_index f z p = cell_index f z' p' → z = z' ∧ p = p'.
Proof.
  intros Hx Hy Hx' Hy'. unfold cell_index. rewrite <- !Z.add_assoc. intros Heq.
  pose proof (digits_range _ _ _ _ Hx Hy). pose proof (digits_range _ _ _ _ Hx' Hy').
  apply digits_inj in Heq as [Heq ->]; [|lia|lia]. apply digits_inj in Heq as [H1 H2]; [|lia|lia].
  destruct p, p'. cbn in *. by subst.
Qed.

(** different banks have different cells *)
Lemma bank_cell_disjoint ch bg ba ch' bg' ba' k :
  0 <= ch < c.(channels) → 0 <= bg < c.(bankgroups) → 0 <= ba < c.(banks_per_group) →
  0 <= ch' < c.(channels) → 0 <= bg' < c.(bankgroups) → 0 <= ba' < c.(banks_per_group) →
  bank_cell c t l f ch bg ba k → bank_cell c t l f ch' bg' ba' k →
  MapToVault c l f ch = MapToVault c l f ch' ∧ MapToBank c l f bg ba = MapToBank c l f bg' ba' ∧
  MapToZ c l f ch ba = MapToZ c l f ch' ba'.
Proof.
  intros Hch Hbg Hba Hch' Hbg' Hba' (v & b & z & p & Hv & Hb & Hz & Hin & ->) (v' & b' & z' & p' & Hv' & Hb' & Hz' & Hin' & Heq).
  pose proof (returns_inv _ _ _ (fi_vault _ _ _ _ Hf ch Hch) Hv) as [Hvx Hvy].
  pose proof (returns_inv _ _ _ (fi_vault _ _ _ _ Hf ch' Hch') Hv') as [Hvx' Hvy'].
  pose proof (returns_inv _ _ _ (fi_bank _ _ _ _ Hf bg ba Hbg Hba) Hb) as [Hbx Hby].
  pose proof (returns_inv _ _ _ (fi_bank _ _ _ _ Hf bg' ba' Hbg' Hba') Hb') as [Hbx' Hby'].
  destruct (in_bank_range v b p) as [Hx Hy]; [done..|]. destruct (in_bank_range v' b' p') as [Hx' Hy']; [done..|].
  apply cell_index_inj in Heq as [<- <-]; [|done..].
  destruct v as [vx vy], v' as [vx' vy'], b as [bx by_], b' as [bx' by'], p as [x y]. unfold in_bank in Hin, Hin'.
  cbn [fst snd] in *. destruct Hin as [Hix Hiy], Hin' as [Hix' Hiy'].
  assert (Hco : ∀ n B q v b v' b', 0 < n → 0 <= b < B → 0 <= b' < B →
    v * (B * n) + b * n <= q < v * (B * n) + b * n + n → v' * (B * n) + b' * n <= q < v' * (B * n) + b' * n + n →
    v = v' ∧ b = b').
  { clear. intros n B q v b v' b' Hn Hb Hb' Hq Hq'.
    assert (v * B + b = v' * B + b') as Heq.
    { replace (v * (B * n) + b * n) with ((v * B + b) * n) in Hq by ring.
      replace (v' * (B * n) + b' * n) with ((v' * B + b') * n) in Hq' by ring.
      revert Hq Hq'. generalize (v * B + b) (v' * B + b'). intros A A' Hq Hq'.
      destruct (Z.lt_total A A') as [?|[?|?]]; [nia|done|nia]. }
    apply digits_inj in Heq as [-> ->]; [done|lia|lia]. }
  destruct (Hco t.(num_x_grids) f.(bank_x) x vx bx vx' bx' (fi_x _ _ _ _ Hf) Hbx Hbx' Hix Hix') as [-> ->].
  destruct (Hco t.(num_y_grids) f.(bank_y) y vy by_ vy' by' (fi_y _ _ _ _ Hf) Hby Hby' Hiy Hiy') as [-> ->].
  rewrite Hv, Hv', Hb, Hb', Hz, Hz'. done.
Qed.
End Cells.

(** ** Power maps *)

Definition shape {A} (n k : Z) (m : list (list A)) : Prop := zlen m = n ∧ ∀ i r, aget m i = Ret r → zlen r = k.
Definition cell_of {A} (m : list (list A)) (i j : Z) : outcome A := r ← aget m i; aget r j.

Lemma shape_row {A} n k (m : list (list A)) i : shape n k m → 0 <= i < n → ∃ r, aget m i = Ret r ∧ zlen r = k.
Proof.
  intros [Hn Hk] Hi. destruct (aget_ok m i ltac:(lia)) as [r Hr]. exists r. split; [done|]. by eapply Hk.
Qed.
Lemma shape_cell {A} n k (m : list (list A)) i j :
  shape n k m → 0 <= i < n → 0 <= j < k → ∃ x, cell_of m i j = Ret x.
Proof.
  intros Hs Hi Hj. destruct (shape_row _ _ _ _ Hs Hi) as (r & Hr & Hl). unfold cell_of. rewrite Hr.
  apply aget_ok. lia.
Qed.
Lemma shape_matrix_of {A} n k (x : A) : 0 <= n → 0 <= k → shape n k (matrix_of n k x).
Proof.
  intros Hn Hk. unfold matrix_of. split; [unfold zlen; rewrite length_replicate; lia|].
  intros i r [_ Hr]%aget_Ret. apply lookup_replicate in Hr as [-> _]. unfold zlen. rewrite length_replicate. lia.
Qed.
(** writing one cell *)
Lemma write_cell {A} n k (m m' : list (list A)) i j r r' x :
  shape n k m → aget m i = Ret r → aset r j x = Ret r' → aset m i r' = Ret m' →
  shape n k m' ∧ ∀ a b, cell_of m' a b = if (a =? i) && (b =? j) then Ret x else cell_of m a b.
Proof.
  intros [Hn Hk] Hr Hj Hi. split.
  - split; [by rewrite (aset_length _ _ _ _ Hi)|]. intros a q. rewrite (aget_aset _ _ _ _ _ Hi).
    destruct (a =? i); [|apply Hk]. intros [= <-]. rewrite (aset_length _ _ _ _ Hj). by eapply Hk.
  - intros a b. unfold cell_of. rewrite (aget_aset _ _ _ _ _ Hi). destruct (Z.eqb_spec a i) as [->|]; [|done].
    cbn [mbind outcome_bind andb]. rewrite (aget_aset _ _ _ _ _ Hj), Hr. done.
Qed.

(** [m'] differs from [m] only in the cells [K] of case [case_id] *)
Definition same_outside (case_id : Z) (K : Z → Prop) (m m' : list (list double)) : Prop :=
  (∀ n k, shape n k m → shape n k m') ∧ (∀ i j, ¬ (i = case_id ∧ K j) → cell_of m' i j = cell_of m i j).
#[export] Instance same_outside_refl case_id K : Reflexive (same_outside case_id K).
Proof. done. Qed.
#[export] Instance same_outside_trans case_id K : Transitive (same_outside case_id K).
Proof. intros m1 m2 m3 [A B] [C E]. split; [auto|]. intros i j Hn. by rewrite E, B. Qed.
Lemma same_outside_mono case_id (K K' : Z → Prop) m m' :
  (∀ k, K k → K' k) → same_outside case_id K m m' → same_outside case_id K' m m'.
Proof. intros HK [A B]. split; [done|]. intros i j Hn. apply B. naive_solver. Qed.

(** the value of a cell after [n] additions of [e] *)
Definition gain (e : double) (n : nat) (v : double) : double := Nat.iter n (λ v, dadd v e) v.
Definition occ (k : Z) (ks : list Z) : nat := length (filter (λ j, j = k) ks).
(** [m'] is [m] with [e] added once to a cell of case [case_id] for each time that [ks] lists it *)
Definition map_adds (case_id : Z) (e : double) (ks : list Z) (m m' : list (list double)) : Prop :=
  (∀ n k, shape n k m → shape n k m') ∧
  ∀ i j, cell_of m' i j = (if i =? case_id then gain e (occ j ks) <$> cell_of m i j else cell_of m i j).
Lemma occ_app k l l' : occ k (l ++ l') = (occ k l + occ k l')%nat.
Proof. unfold occ. by rewrite filter_app, length_app. Qed.
Lemma occ_none k ks : k ∉ ks → occ k ks = 0%nat.
Proof.
  unfold occ. induction ks as [|j ks IH]; [done|]. intros [Hj Hks]%not_elem_of_cons.
  rewrite filter_cons, decide_False by done. by apply IH.
Qed.
Lemma gain_add e n m v : gain e (m + n) v = gain e m (gain e n v).
Proof. unfold gain. by rewrite Nat.iter_add. Qed.
Lemma map_adds_refl case_id e m : map_adds case_id e [] m m.
Proof. split; [done|]. intros i j. destruct (_ =? _); [|done]. by destruct (cell_of m i j). Qed.
Lemma map_adds_trans case_id e ks ks' m1 m2 m3 :
  map_adds case_id e ks m1 m2 → map_adds case_id e ks' m2 m3 → map_adds case_id e (ks ++ ks') m1 m3.
Proof.
  intros [A B] [C E]. split; [auto|]. intros i j. rewrite E, B. destruct (i =? case_id); [|done].
  destruct (cell_of m1 i j); [|done]. cbn. by rewrite occ_app, Nat.add_comm, gain_add.
Qed.
Lemma map_adds_outside case_id e ks (K : Z → Prop) m m' :
  (∀ k, k ∈ ks → K k) → map_adds case_id e ks m m' → same_outside case_id K m m'.
Proof.
  intros HK [A B]. split; [done|]. intros i j Hn. rewrite B. destruct (Z.eqb_spec i case_id) as [->|]; [|done].
  rewrite occ_none by naive_solver. by destruct (cell_of m case_id j).
Qed.
Lemma add_energy_adds n k m case_id idx e : shape n k m → 0 <= case_id < n → 0 <= idx < k →
  returns (add_energy m case_id idx e) (map_adds case_id e [idx] m).
Proof.
  intros Hs Hc Hi. unfold add_energy. destruct (shape_row _ _ _ _ Hs Hc) as (r & Hr & Hl).
  destruct (aget_ok r idx ltac:(lia)) as [v Hv]. rewrite Hr. cbn [mbind outcome_bind]. rewrite Hv. cbn [mbind outcome_bind].
  destruct (aset r idx (dadd v e)) as [r'|] eqn:Hr'; [|rewrite aset_ok in Hr' by lia; done]. cbn [mbind outcome_bind].
  destruct (aset m case_id r') as [m'|] eqn:Hm'; [|rewrite aset_ok in Hm' by (destruct Hs; lia); done].
  exists m'. split; [done|]. destruct (write_cell _ _ _ _ _ _ _ _ _ Hs Hr Hr' Hm') as [Hs' Hcell]. split.
  - intros n' k' Hs''. by destruct (write_cell _ _ _ _ _ _ _ _ _ Hs'' Hr Hr' Hm').
  - intros i j. rewrite Hcell. destruct (Z.eqb_spec i case_id) as [->|]; [|done].
    unfold occ. rewrite filter_cons, filter_nil. cbn [andb]. destruct (Z.eqb_spec j idx) as [->|Hne].
    + rewrite decide_True by done. unfold cell_of. rewrite Hr. cbn [mbind outcome_bind]. by rewrite Hv.
    + rewrite decide_False by done. by destruct (cell_of m case_id j).
Qed.

Lemma add_energy_spec n k m case_id idx e : shape n k m → 0 <= case_id < n → 0 <= idx < k →
  returns (add_energy m case_id idx e) (same_outside case_id (λ j, j = idx) m).
Proof.
  intros Hs Hc Hi. eapply returns_mono; [by eapply add_energy_adds|]. intros m'. apply map_adds_outside.
  by intros k' ->%list_elem_of_singleton.
Qed.

(** *** The calculator *)
(** [s'] is [s] with energy added in the cells [K] of a case *)
Definition touches (case_id : Z) (K : Z → Prop) (s s' : ThermalCalculator) : Prop :=
  s' = s <| accu_Pmap := s'.(accu_Pmap) |> <| cur_Pmap := s'.(cur_Pmap) |> ∧
  same_outside case_id K s.(accu_Pmap) s'.(accu_Pmap) ∧ same_outside case_id K s.(cur_Pmap) s'.(cur_Pmap).
#[export] Instance touches_refl case_id K : Reflexive (touches case_id K).
Proof. intros s. split; [by destruct s|done]. Qed.
#[export] Instance touches_trans case_id K : Transitive (touches case_id K).
Proof.
  intros s1 s2 s3 (E1 & A1 & B1) (E2 & A2 & B2). split; [|split; [by etrans|by etrans]].
  rewrite E2, E1. by destruct s1.
Qed.
Lemma touches_mono case_id (K K' : Z → Prop) s s' :
  (∀ k, K k → K' k) → touches case_id K s s' → touches case_id K' s s'.
Proof. intros HK (E & A & B). split; [done|]. split; by eapply same_outside_mono. Qed.

Definition maps_ok (s : ThermalCalculator) : Prop :=
  shape s.(num_case) (map_cells s) s.(accu_Pmap) ∧ shape s.(num_case) (map_cells s) s.(cur_Pmap).
Lemma touches_floor case_id K s s' : touches case_id K s s' → floor s' = floor s ∧ plan s' = plan s ∧ loc s' = loc s.
Proof. intros [-> _]. done. Qed.
Lemma touches_maps case_id K s s' : touches case_id K s s' → maps_ok s → maps_ok s'.
Proof.
  intros Ht [A B]. destruct (touches_floor _ _ _ _ Ht) as [Hf _]. destruct Ht as (_ & [HA _] & [HB _]).
  unfold maps_ok. rewrite Hf. split; [by apply HA|by apply HB].
Qed.

(** [s'] is [s] with [e] added to the cells that [ks] lists, in both maps *)
Definition adds (case_id : Z) (e : double) (ks : list Z) (s s' : ThermalCalculator) : Prop :=
  s' = s <| accu_Pmap := s'.(accu_Pmap) |> <| cur_Pmap := s'.(cur_Pmap) |> ∧
  map_adds case_id e ks s.(accu_Pmap) s'.(accu_Pmap) ∧ map_adds case_id e ks s.(cur_Pmap) s'.(cur_Pmap).
Lemma adds_refl case_id e s : adds case_id e [] s s.
Proof. split; [by destruct s|]. split; apply map_adds_refl. Qed.
Lemma adds_trans case_id e ks ks' s1 s2 s3 :
  adds case_id e ks s1 s2 → adds case_id e ks' s2 s3 → adds case_id e (ks ++ ks') s1 s3.
Proof.
  intros (E1 & A1 & B1) (E2 & A2 & B2). split; [|split; by eapply map_adds_trans].
  rewrite E2, E1. by destruct s1.
Qed.
Lemma adds_touches case_id e ks (K : Z → Prop) s s' :
  (∀ k, k ∈ ks → K k) → adds case_id e ks s s' → touches case_id K s s'.
Proof. intros HK (E & A & B). split; [done|]. split; by eapply map_adds_outside. Qed.
Lemma adds_any case_id e ks s s' : adds case_id e ks s s' → touches case_id (λ _, True) s s'.
Proof. by apply adds_touches. Qed.

Lemma add_both_adds s case_id e idx : maps_ok s → 0 <= case_id < s.(num_case) → 0 <= idx < map_cells s →
  returns (add_both case_id e s idx) (adds case_id e [idx] s).
Proof.
  intros [HA HB] Hc Hi. unfold add_both.
  eapply returns_bind; [by eapply add_energy_adds|]. intros a Ha.
  eapply returns_bind; [by eapply add_energy_adds|]. intros u Hu.
  apply returns_ret. split; [by destruct s|]. rsimp. done.
Qed.

(** a loop that adds what each of its elements lists *)
Lemma for_adds {X} (body : ThermalCalculator → X → outcome ThermalCalculator) (ks : X → list Z) (ps : list X) s case_id e :
  (∀ s1 p, p ∈ ps → touches case_id (λ _, True) s s1 → returns (body s1 p) (adds case_id e (ks p) s1)) →
  returns (for_ ps s body) (adds case_id e (concat (ks <$> ps)) s).
Proof.
  revert s. induction ps as [|p ps IH]; intros s Hb; cbn [for_ fmap list_fmap concat].
  { apply returns_ret, adds_refl. }
  destruct (Hb s p) as (s1 & E1 & H1); [left|done|]. rewrite E1. cbn [mbind outcome_bind].
  eapply returns_mono; [apply IH|intros s2 H2; by eapply adds_trans].
  intros s2 q Hq H2. apply Hb; [by right|]. etrans; [by eapply adds_any|done].
Qed.
Lemma add_cells_adds {X} (idx : X → Z) (ps : list X) s case_id e :
  maps_ok s → 0 <= case_id < s.(num_case) → (∀ p, p ∈ ps → 0 <= idx p < map_cells s) →
  returns (for_ ps s (λ s p, add_both case_id e s (idx p))) (adds case_id e (idx <$> ps) s).
Proof.
  intros Hm Hc Hps. assert (idx <$> ps = concat ((λ p, [idx p]) <$> ps)) as ->.
  { clear. induction ps as [|p ps IH]; [done|]. cbn. by rewrite <- IH. }
  apply (for_adds _ (λ p, [idx p])). intros s1 p Hp H1. pose proof (touches_floor _ _ _ _ H1) as [Hf _].
  apply add_both_adds; [by eapply touches_maps|by rewrite Hf|rewrite Hf; auto].
Qed.

(** ** Commands *)
Section Commands.
Context (c : Config) (t : ThermalParams).

(** what [ThermalCalculator_new] sets up, as far as a command reads it *)
Record calc_ok (s : ThermalCalculator) : Prop := {
  co_fits : fits c t s.(plan) s; co_loc : loc_ok c s.(loc); co_maps : maps_ok s;
  co_numP : 0 <= s.(numP);
  co_case : s.(num_case) = if IsHMC c || IsHBM c then 1 else c.(ranks) * c.(channels)
}.
Lemma calc_ok_touches case_id K s s' : touches case_id K s s' → calc_ok s → calc_ok s'.
Proof.
  intros Ht [Hf Hl Hm Hp Hc]. destruct (touches_floor _ _ _ _ Ht) as (E1 & E2 & E3).
  split; [by rewrite E1, E2|by rewrite E3|by eapply touches_maps|by rewrite E1|by rewrite E1].
Qed.

Lemma LogBase2_BL s : calc_ok s → ∃ off, LogBase2 c.(BL) = Ret off.
Proof.
  intros Hs. pose proof (fi_bl _ _ _ _ (co_fits _ Hs)). eexists. apply LogBase2_eq. unfold is_i32. lia.
Qed.

Lemma grid_y_range s q : calc_ok s → 0 <= q < c.(columns) * c.(device_width) →
  0 <= Z.quot q t.(mat_dim_y) < t.(num_y_grids).
Proof.
  intros Hs Hq. pose proof (fi_cols _ _ _ _ (co_fits _ Hs)) as Hc. pose proof (fi_my _ _ _ _ (co_fits _ Hs)).
  rewrite Z.quot_div_nonneg by lia. split; [apply Z.div_pos; lia|apply Z.div_lt_upper_bound; lia].
Qed.
Lemma grid_x_range s r : calc_ok s → 0 <= r < c.(rows) → 0 <= Z.quot r t.(mat_dim_x) < t.(num_x_grids).
Proof.
  intros Hs Hr. pose proof (fi_rows _ _ _ _ (co_fits _ Hs)) as Hc. pose proof (fi_mx _ _ _ _ (co_fits _ Hs)).
  rewrite Z.quot_div_nonneg by lia. split; [apply Z.div_pos; lia|apply Z.div_lt_upper_bound; lia].
Qed.

(** *** The cells of a command *)

(** the first cell of a bank: its layer and its column and row of cells *)
Definition corner (s : ThermalCalculator) (ch bg ba : Z) : outcome (Z * (Z * Z)) :=
  v ← MapToVault c s.(plan) s ch; b ← MapToBank c s.(plan) s bg ba; z ← MapToZ c s.(plan) s ch ba;
  Ret (z, (v.1 * (s.(bank_x) * t.(num_x_grids)) + b.1 * t.(num_x_grids),
           v.2 * (s.(bank_y) * t.(num_y_grids)) + b.2 * t.(num_y_grids))).
(** cell [(gx, gy)] of the grid of a bank *)
Definition grid_cell (s : ThermalCalculator) (ch bg ba gx gy : Z) : Z :=
  match corner s ch bg ba with Ret (z, (x, y)) => cell_index s z (x + gx, y + gy) | Fault _ => -1 end.
(** the physical location of an address *)
Definition phys (s : ThermalCalculator) (a : Address) : Address :=
  match off ← LogBase2 c.(BL); GetPhyAddress s.(loc) off a with Ret p => p | Fault _ => a end.
(** a cell for each of the [device_width] bits of each of the [BL] columns of a burst *)
Definition access_cells (s : ThermalCalculator) (ch : Z) (cmd : Command) : list Z :=
  concat ((λ i, let p := phys s (cmd.(addr) <| column := Column cmd + i |>) in
    (λ j, grid_cell s ch (Bankgroup cmd) (Bank cmd) (Row cmd / t.(mat_dim_x))
            ((p.(column) * c.(device_width) + j) / t.(mat_dim_y))) <$> seqZ 0 c.(device_width)) <$> seqZ 0 c.(BL)).
(** a row of cells for a refreshed row *)
Definition refreshed_cells (s : ThermalCalculator) (ch : Z) (a : Address) (bg ba ir : Z) : list Z :=
  let p := phys s (a <| row := ir |> <| bankgroup := bg |> <| bank := ba |>) in
  (λ y, grid_cell s ch bg ba (p.(row) / t.(mat_dim_x)) y) <$> seqZ 0 t.(num_y_grids).

Lemma phys_ok s a : calc_ok s → 0 <= a.(row) < c.(rows) → 0 <= a.(column) < c.(columns) →
  ∃ off, LogBase2 c.(BL) = Ret off ∧ GetPhyAddress s.(loc) off a = Ret (phys s a) ∧
    0 <= (phys s a).(row) < c.(rows) ∧ 0 <= (phys s a).(column) < c.(columns).
Proof.
  intros Hs Hr Hc. destruct (LogBase2_BL s Hs) as [off Hoff]. exists off. split; [done|].
  destruct (co_loc _ Hs off a Hoff Hr Hc) as (p & Hp & Hpr & Hpc). unfold phys. rewrite Hoff. cbn [mbind outcome_bind].
  by rewrite Hp.
Qed.

Lemma elem_of_concat_fmap {A X} (f : A → list X) l x : x ∈ concat (f <$> l) ↔ ∃ y, y ∈ l ∧ x ∈ f y.
Proof.
  rewrite list_elem_of_In, in_concat. split.
  - intros (k & (y & -> & Hy)%list_elem_of_In%list_elem_of_fmap & Hx%list_elem_of_In). by exists y.
  - intros (y & Hy & Hx). exists (f y). split; [apply list_elem_of_In; by apply list_elem_of_fmap_2|by apply list_elem_of_In].
Qed.
Lemma fmap_concat_fmap {A X Y} (f : A → list X) (g : X → Y) l :
  g <$> concat (f <$> l) = concat ((λ y, g <$> f y) <$> l).
Proof. induction l as [|y l IH]; [done|]. cbn. by rewrite fmap_app, IH. Qed.
(** where a bank is *)
Lemma corner_ok s ch bg ba : calc_ok s → 0 <= ch < c.(channels) → 0 <= bg < c.(bankgroups) → 0 <= ba < c.(banks_per_group) →
  ∃ v b z, MapToVault c s.(plan) s ch = Ret v ∧ MapToBank c s.(plan) s bg ba = Ret b ∧ MapToZ c s.(plan) s ch ba = Ret z ∧
    (∀ gx gy, grid_cell s ch bg ba gx gy = cell_index s z
      (v.1 * (s.(bank_x) * t.(num_x_grids)) + b.1 * t.(num_x_grids) + gx,
       v.2 * (s.(bank_y) * t.(num_y_grids)) + b.2 * t.(num_y_grids) + gy)) ∧
    ∀ gx gy, 0 <= gx < t.(num_x_grids) → 0 <= gy < t.(num_y_grids) →
      0 <= v.1 * (s.(bank_x) * t.(num_x_grids)) + b.1 * t.(num_x_grids) + gx < s.(dimX) ∧
      0 <= v.2 * (s.(bank_y) * t.(num_y_grids)) + b.2 * t.(num_y_grids) + gy < s.(dimY) ∧
      0 <= grid_cell s ch bg ba gx gy < map_cells s ∧
      bank_cell c t s.(plan) s ch bg ba (grid_cell s ch bg ba gx gy).
Proof.
  intros Hs Hch Hbg Hba. pose proof (co_fits _ Hs) as Hf.
  destruct (fi_vault _ _ _ _ Hf ch Hch) as (v & Hv & Hvx & Hvy).
  destruct (fi_bank _ _ _ _ Hf _ _ Hbg Hba) as (b & Hb & Hbx & Hby).
  destruct (fi_z _ _ _ _ Hf ch _ Hch Hba) as (z & Hz & Hzr).
  exists v, b, z. split; [done|]. split; [done|]. split; [done|].
  assert (Hcell : ∀ gx gy, grid_cell s ch bg ba gx gy = cell_index s z
      (v.1 * (s.(bank_x) * t.(num_x_grids)) + b.1 * t.(num_x_grids) + gx,
       v.2 * (s.(bank_y) * t.(num_y_grids)) + b.2 * t.(num_y_grids) + gy)).
  { intros gx gy. unfold grid_cell, corner. by rewrite Hv, Hb, Hz. }
  split; [done|]. intros gx gy Hgx Hgy. rewrite Hcell. set (p := (_ + gx, _ + gy)).
  assert (in_bank t s v b p) as Hin by (unfold in_bank, p; cbn [fst snd]; lia).
  destruct (in_bank_range c t s.(plan) s Hf v b p) as [Hx Hy]; [done..|].
  split; [done|]. split; [done|]. split; [by apply cell_index_range|]. by exists v, b, z, p.
Qed.

(** an access *)
Lemma access_col s cmd i : calc_ok s → addr_ok c cmd.(addr) → 0 <= i < c.(BL) →
  ∃ off, LogBase2 c.(BL) = Ret off ∧
    GetPhyAddress s.(loc) off (cmd.(addr) <| column := Column cmd + i |>) = Ret (phys s (cmd.(addr) <| column := Column cmd + i |>)) ∧
    ∀ j, 0 <= j < c.(device_width) →
      let q := (phys s (cmd.(addr) <| column := Column cmd + i |>)).(column) * c.(device_width) + j in
      i32 (i32 ((phys s (cmd.(addr) <| column := Column cmd + i |>)).(column) * c.(device_width)) + j) = q ∧
      Z.quot q t.(mat_dim_y) = q / t.(mat_dim_y) ∧ 0 <= q / t.(mat_dim_y) < t.(num_y_grids).
Proof.
  intros Hs [_ _ _ Hrow Hcol] Hi. pose proof (co_fits _ Hs) as Hf. pose proof (in_cols _ _ (fi_ints _ _ _ _ Hf)).
  destruct (phys_ok s (cmd.(addr) <| column := Column cmd + i |>) Hs) as (off & Hoff & Hp & _ & Hpc);
    [by rsimp|rsimp; unfold Column; lia|]. exists off. split; [done|]. split; [done|]. intros j Hj q.
  pose proof (fi_my _ _ _ _ Hf). set (pc := (phys s _).(column)) in *.
  assert (0 <= q < c.(columns) * c.(device_width)) as Hq by (unfold q; nia).
  rewrite (i32_id (pc * _)) by (unfold is_i32; nia). rewrite i32_id by (unfold is_i32, q in *; lia).
  split; [done|]. pose proof (grid_y_range s q Hs Hq) as Hgy. rewrite Z.quot_div_nonneg in * by lia. done.
Qed.
Lemma next_column (a : Address) x :
  (a <| column := x |>) <| column ::= λ y, i32 (y + 1) |> = a <| column := i32 (x + 1) |>.
Proof. by destruct a. Qed.
Lemma MapToXY_eq s cmd v b : calc_ok s → addr_ok c cmd.(addr) →
  (∀ gx gy, 0 <= gx < t.(num_x_grids) → 0 <= gy < t.(num_y_grids) →
    0 <= v.1 * (s.(bank_x) * t.(num_x_grids)) + b.1 * t.(num_x_grids) + gx < s.(dimX) ∧
    0 <= v.2 * (s.(bank_y) * t.(num_y_grids)) + b.2 * t.(num_y_grids) + gy < s.(dimY)) →
  MapToXY c t s cmd v b = Ret (concat ((λ i, (λ j,
    (v.1 * (s.(bank_x) * t.(num_x_grids)) + b.1 * t.(num_x_grids) + Row cmd / t.(mat_dim_x),
     v.2 * (s.(bank_y) * t.(num_y_grids)) + b.2 * t.(num_y_grids) +
       ((phys s (cmd.(addr) <| column := Column cmd + i |>)).(column) * c.(device_width) + j) / t.(mat_dim_y)))
    <$> seqZ 0 c.(device_width)) <$> seqZ 0 c.(BL))).
Proof.
  intros Hs Ha Hxy. pose proof Ha as [_ _ _ Hrow Hcol]. pose proof (co_fits _ Hs) as Hf. destruct (fi_tile _ _ _ _ Hf) as [Ht1 Ht2].
  pose proof (fi_ints _ _ _ _ Hf) as Hi. pose proof (grid_x_range s (Row cmd) Hs Hrow) as Hgx. pose proof (fi_mx _ _ _ _ Hf).
  unfold MapToXY. rewrite Ht1, Ht2, (iquot_ok (Row cmd) c.(rows)) by lia. cbn [mbind outcome_bind].
  rewrite (iquot_ok (Row cmd)) by lia. cbn [mbind outcome_bind].
  rewrite (iquot_ok (Z.quot _ _)) by lia. cbn [mbind outcome_bind]. rewrite (Z.quot_1_r (Z.quot _ _)).
  destruct (LogBase2_BL s Hs) as [off Hoff]. rewrite Hoff. cbn [mbind outcome_bind].
  rewrite (Z.quot_small (Row cmd) c.(rows)) by (unfold Row; lia).
  rewrite (Z.quot_div_nonneg (Row cmd)) in * by (unfold Row in *; lia).
  set (cells := λ i, _ <$> seqZ 0 c.(device_width)).
  match goal with |- (x ← ?e; _) = _ => assert (returns e (λ st,
    st.1 = concat (cells <$> seqZ 0 c.(BL)) ∧ st.2 = cmd.(addr) <| column := Column cmd + c.(BL) |>)) as (st & E & E1 & _);
    [|rewrite E; cbn [mbind outcome_bind]; by rewrite E1] end.
  eapply returns_mono.
  { apply (for_seqZ (λ i st, st.1 = concat (cells <$> seqZ 0 i) ∧ st.2 = cmd.(addr) <| column := Column cmd + i |>) 0 c.(BL)).
    - pose proof (fi_bl _ _ _ _ Hf). lia.
    - split; [done|]. cbn [fst snd]. rewrite Z.add_0_r. unfold Column. by destruct (addr cmd).
    - intros [cs a] i Hi' [E1 E2]. cbn [fst snd] in *. subst cs a.
      destruct (access_col s cmd i Hs Ha ltac:(lia)) as (off' & Hoff' & Hp & Hq). assert (off' = off) as -> by congruence.
      rewrite Hp. cbn [mbind outcome_bind]. set (pc := (phys s _).(column)) in *.
      eapply returns_bind.
      + apply (for_seqZ (λ j cs', cs' = concat (cells <$> seqZ 0 i) ++ ((λ j,
          (v.1 * (s.(bank_x) * t.(num_x_grids)) + b.1 * t.(num_x_grids) + Row cmd / t.(mat_dim_x),
           v.2 * (s.(bank_y) * t.(num_y_grids)) + b.2 * t.(num_y_grids) + (pc * c.(device_width) + j) / t.(mat_dim_y)))
          <$> seqZ 0 j)) 0 c.(device_width)).
        * pose proof (fi_dw _ _ _ _ Hf). lia.
        * cbn [seqZ fmap list_fmap]. by rewrite app_nil_r.
        * intros cs j Hj ->. rewrite (iquot_ok t.(num_y_grids) 1) by lia.
          destruct (Hq j ltac:(lia)) as (E1 & E2 & E3). rewrite E1, iquot_ok by (pose proof (fi_my _ _ _ _ Hf); lia).
          cbn [mbind outcome_bind]. apply returns_ret. rewrite E2, Z.mul_0_l, Z.add_0_r.
          destruct (Hxy _ _ Hgx E3) as [Hx Hy]. pose proof (grid_x_eq c s Hi) as [Gx Hgx']. pose proof (grid_y_eq c s Hi) as [Gy Hgy'].
          pose proof (net_small c s Hi) as (Hn1 & Hn2 & Hn3). unfold T_size, numLayer in Hn3.
          unfold num_dummy in *.
          rewrite !i32_id by (unfold is_i32; nia).
          by rewrite (seqZ_app 0 j 1), fmap_app, app_assoc by lia.
      + intros cs ->. apply returns_ret. cbn [fst snd]. split.
        * rewrite (seqZ_app 0 i 1), fmap_app, concat_app by lia. f_equal.
          change (seqZ (0 + i) 1) with [i]. cbn [fmap list_fmap concat]. by rewrite app_nil_r.
        * pose proof (in_col _ _ Hi). rewrite next_column, i32_id by (unfold is_i32, Column in *; lia). by rewrite Z.add_assoc. }
  done.
Qed.
Lemma LocationMapping_adds s ch cmd case_id e : calc_ok s → 0 <= ch < c.(channels) → addr_ok c cmd.(addr) →
  0 <= case_id < s.(num_case) →
  returns (LocationMappingANDaddEnergy c t s ch cmd case_id e)
    (adds case_id (ddiv e (double_of_Z c.(device_width))) (access_cells s ch cmd) s) ∧
  ∀ k, k ∈ access_cells s ch cmd → bank_cell c t s.(plan) s ch (Bankgroup cmd) (Bank cmd) k.
Proof.
  intros Hs Hch Ha Hc. pose proof (co_fits _ Hs) as Hf. pose proof Ha as [_ Hbg Hba Hrow _].
  destruct (corner_ok s ch _ _ Hs Hch Hbg Hba) as (v & b & z & Hv & Hb & Hz & Hcell & Hrange).
  pose proof (grid_x_range s (Row cmd) Hs Hrow) as Hgx. pose proof (fi_mx _ _ _ _ Hf).
  rewrite (Z.quot_div_nonneg (Row cmd)) in Hgx by (unfold Row in *; lia).
  assert (Hin : ∀ k, k ∈ access_cells s ch cmd → 0 <= k < map_cells s ∧
    bank_cell c t s.(plan) s ch (Bankgroup cmd) (Bank cmd) k).
  { unfold access_cells. intros k (i & Hi%elem_of_seqZ & Hk)%elem_of_concat_fmap.
    apply list_elem_of_fmap in Hk as (j & -> & Hj%elem_of_seqZ).
    destruct (access_col s cmd i Hs Ha ltac:(lia)) as (off & _ & _ & Hq). destruct (Hq j ltac:(lia)) as (_ & _ & E3).
    by destruct (Hrange _ _ Hgx E3) as (_ & _ & H1 & H2). }
  split; [|intros k Hk; by apply Hin].
  unfold LocationMappingANDaddEnergy. rewrite Hv. cbn [mbind outcome_bind]. unfold Bankgroup, Bank. rewrite Hb. cbn [mbind outcome_bind].
  rewrite (MapToXY_eq s cmd v b Hs Ha). 2: { intros gx gy H1 H2. by destruct (Hrange gx gy H1 H2) as (? & ? & _). }
  cbn [mbind outcome_bind]. rewrite Hz. cbn [mbind outcome_bind]. set (xy := concat _).
  assert (access_cells s ch cmd = (λ p : Z * Z, cell_index s z p) <$> xy) as Hxy.
  { unfold access_cells, xy. rewrite fmap_concat_fmap. f_equal. apply list_fmap_ext.
    intros _ i _. cbn. rewrite <- list_fmap_compose. apply list_fmap_ext. intros _ j _. cbn. apply Hcell. }
  rewrite Hxy. eapply returns_mono.
  - apply (add_cells_adds (λ p : Z * Z, i32 (z * s.(dimX) * s.(dimY) + p.2 * s.(dimX) + p.1))); [apply co_maps, Hs|done|].
    intros p Hp. assert (0 <= cell_index s z p < map_cells s) as Hr.
    { apply Hin. rewrite Hxy. by apply list_elem_of_fmap_2. }
    replace (z * s.(dimX) * s.(dimY) + p.2 * s.(dimX) + p.1) with (cell_index s z p) by (unfold cell_index; ring).
    by rewrite (cell_i32 c s) by (done || apply Hf).
  - intros s' H'. assert ((λ p : Z * Z, i32 (z * s.(dimX) * s.(dimY) + p.2 * s.(dimX) + p.1)) <$> xy =
      (λ p : Z * Z, cell_index s z p) <$> xy) as <-; [|done].
    apply Forall_fmap_ext_1, Forall_forall. intros p Hp.
    replace (z * s.(dimX) * s.(dimY) + p.2 * s.(dimX) + p.1) with (cell_index s z p) by (unfold cell_index; ring).
    apply (cell_i32 c s); [apply Hf|]. apply Hin. rewrite Hxy. by apply list_elem_of_fmap_2.
Qed.

(** a refreshed row *)
Lemma LocationMapping_RF_adds s ch cmd bank0 row0 case_id e (bg := bank0 / c.(banks_per_group))
    (ba := bank0 mod c.(banks_per_group)) : calc_ok s → 0 <= ch < c.(channels) →
  0 <= bank0 < c.(bankgroups) * c.(banks_per_group) → 0 <= row0 < c.(rows) →
  0 <= cmd.(addr).(column) < c.(columns) → 0 <= case_id < s.(num_case) →
  returns (LocationMappingANDaddEnergy_RF c t s ch cmd bank0 row0 case_id e)
    (adds case_id e (refreshed_cells s ch cmd.(addr) bg ba row0) s) ∧
  ∀ k, k ∈ refreshed_cells s ch cmd.(addr) bg ba row0 → bank_cell c t s.(plan) s ch bg ba k.
Proof.
  intros Hs Hch Hb0 Hr0 Hcol Hc. pose proof (co_fits _ Hs) as Hf. destruct (fi_tile _ _ _ _ Hf) as [Ht1 Ht2].
  pose proof (fi_bpg _ _ _ _ Hf) as Hbpg.
  assert (Hbg : 0 <= bg < c.(bankgroups)).
  { unfold bg. split; [apply Z.div_pos; lia|apply Z.div_lt_upper_bound; lia]. }
  assert (Hba : 0 <= ba < c.(banks_per_group)) by (apply Z.mod_pos_bound; lia).
  destruct (corner_ok s ch _ _ Hs Hch Hbg Hba) as (v & b & z & Hv & Hb & Hz & Hcell & Hrange).
  destruct (phys_ok s (cmd.(addr) <| row := row0 |> <| bankgroup := bg |> <| bank := ba |>) Hs) as (off & Hoff & Hp & Hpr & _);
    [by rsimp|by rsimp|]. unfold refreshed_cells. set (p := phys s _) in *.
  pose proof (grid_x_range s p.(row) Hs Hpr) as Hgx. pose proof (fi_mx _ _ _ _ Hf). pose proof (fi_my _ _ _ _ Hf).
  assert (Hin : ∀ y, 0 <= y < t.(num_y_grids) → 0 <= grid_cell s ch bg ba (p.(row) / t.(mat_dim_x)) y < map_cells s ∧
    bank_cell c t s.(plan) s ch bg ba (grid_cell s ch bg ba (p.(row) / t.(mat_dim_x)) y)).
  { intros y Hy. rewrite Z.quot_div_nonneg in Hgx by lia. by destruct (Hrange _ y Hgx Hy) as (_ & _ & H1 & H2). }
  split. 2: { intros k (y & -> & Hy%elem_of_seqZ)%list_elem_of_fmap. apply Hin. lia. }
  unfold LocationMappingANDaddEnergy_RF. rewrite (iquot_ok bank0 c.(banks_per_group)), (irem_ok bank0) by lia. cbn [mbind outcome_bind].
  rewrite (Z.quot_div_nonneg bank0), (Z.rem_mod_nonneg bank0) by lia. fold bg ba.
  rewrite Hv. cbn [mbind outcome_bind]. rewrite Hb. cbn [mbind outcome_bind]. rewrite Hz. cbn [mbind outcome_bind].
  rewrite Hoff. cbn [mbind outcome_bind]. rewrite Hp. cbn [mbind outcome_bind].
  rewrite Ht1, Ht2, (iquot_ok p.(row) c.(rows)), (iquot_ok p.(row) t.(mat_dim_x)) by lia.
  cbn [mbind outcome_bind]. rewrite (iquot_ok (Z.quot _ _) 1) by lia. cbn [mbind outcome_bind].
  rewrite (iquot_ok 0), (iquot_ok t.(num_y_grids) 1) by lia. cbn [mbind outcome_bind].
  rewrite !Z.quot_1_r, Z.quot_0_l, (Z.quot_small p.(row) c.(rows)), (Z.quot_div_nonneg p.(row)) by lia.
  set (x := v.1 * _ + _ + _). set (y := v.2 * _ + _ + _).
  assert (Hidx : ∀ i, 0 <= i < t.(num_y_grids) → i32 (z * (s.(dimX) * s.(dimY)) + (y + i) * s.(dimX) + x) =
    grid_cell s ch bg ba (p.(row) / t.(mat_dim_x)) i).
  { intros i Hi. destruct (Hin i Hi) as [Hr _].
    assert (z * (s.(dimX) * s.(dimY)) + (y + i) * s.(dimX) + x = grid_cell s ch bg ba (p.(row) / t.(mat_dim_x)) i) as ->.
    { rewrite Hcell. unfold cell_index, x, y. cbn [fst snd]. ring. }
    by apply (cell_i32 c s); [apply Hf|]. }
  eapply returns_mono.
  - apply (add_cells_adds (λ i : Z, i32 (z * (s.(dimX) * s.(dimY)) + (y + i) * s.(dimX) + x))); [apply co_maps, Hs|done|].
    intros i Hi%elem_of_seqZ. rewrite Hidx by lia. apply Hin. lia.
  - intros s' H'. assert ((λ i : Z, i32 (z * (s.(dimX) * s.(dimY)) + (y + i) * s.(dimX) + x)) <$> seqZ 0 t.(num_y_grids) =
      (λ y, grid_cell s ch bg ba (p.(row) / t.(mat_dim_x)) y) <$> seqZ 0 t.(num_y_grids)) as <-; [|done].
    apply Forall_fmap_ext_1, Forall_forall. intros i Hi%elem_of_seqZ. apply Hidx. lia.
Qed.

(** *** Refresh counters *)

(** every bank's counter stays below the number of refreshes that cover its rows *)
Record refresh_ok (s : ThermalCalculator) : Prop := {
  ro_shape : shape (c.(channels) * c.(ranks)) c.(banks) s.(refresh_count);
  ro_banks : c.(banks) = c.(bankgroups) * c.(banks_per_group);
  ro_int : c.(rows) < 2147483648; ro_num : 0 < s.(plan).(num_row_refresh); ro_rows : (s.(plan).(num_row_refresh) | c.(rows));
  ro_range : ∀ i j n, cell_of s.(refresh_count) i j = Ret n → 0 <= n ∧ n * s.(plan).(num_row_refresh) < c.(rows)
}.
Definition refreshes (s : ThermalCalculator) : Z := c.(rows) / s.(plan).(num_row_refresh).

Lemma next_refresh_spec s r ib n : refresh_ok s → cell_of s.(refresh_count) r ib = Ret n →
  returns (next_refresh c s.(plan) s r ib) (λ p, p.1 = n * s.(plan).(num_row_refresh) ∧
    p.2 = s <| refresh_count := p.2.(refresh_count) |> ∧ refresh_ok p.2 ∧
    ∀ a b, cell_of p.2.(refresh_count) a b =
      if (a =? r) && (b =? ib) then Ret ((n + 1) mod refreshes s) else cell_of s.(refresh_count) a b).
Proof.
  intros Hr Hn. destruct Hr as [Hs Hb Hint Hpos [m Hm] Hrg]. destruct (Hrg r ib n Hn) as [Hn0 Hlt].
  assert (0 <= n * s.(plan).(num_row_refresh) ∧ n + 1 <= (n + 1) * s.(plan).(num_row_refresh) <= c.(rows)) as [H0 H1].
  { split; [nia|]. split; [nia|]. rewrite Hm in *. assert (n < m) by nia. nia. }
  unfold next_refresh. unfold cell_of in Hn. destruct (aget s.(refresh_count) r) as [row|] eqn:Hrow; [|done].
  cbn [mbind outcome_bind] in *. rewrite Hn. cbn [mbind outcome_bind].
  rewrite (i32_id (n + 1)), (i32_id ((n + 1) * _)), (i32_id (n * _)) by (unfold is_i32; lia). cbv zeta.
  assert (Hnew : (if (n + 1) * s.(plan).(num_row_refresh) =? c.(rows) then 0 else n + 1) = (n + 1) mod refreshes s).
  { unfold refreshes. rewrite Hm, Z.div_mul by lia. assert (n < m) by nia.
    destruct (Z.eqb_spec ((n + 1) * s.(plan).(num_row_refresh)) (m * s.(plan).(num_row_refresh))) as [Heq|Hne].
    - assert (n + 1 = m) as -> by nia. by rewrite Z.mod_same by lia.
    - rewrite Z.mod_small; [done|]. assert (n + 1 ≠ m) by (intros <-; lia). lia. }
  rewrite Hnew.
  destruct (aset row ib ((n + 1) mod refreshes s)) as [row'|] eqn:Hrow'.
  2: { rewrite aset_ok in Hrow' by (apply aget_bound in Hn; done). done. }
  cbn [mbind outcome_bind].
  destruct (aset s.(refresh_count) r row') as [rc|] eqn:Hrc.
  2: { rewrite aset_ok in Hrc by (apply aget_bound in Hrow; done). done. }
  cbn [mbind outcome_bind]. apply returns_ret. cbn [fst snd].
  destruct (write_cell _ _ _ _ _ _ _ _ _ Hs Hrow Hrow' Hrc) as [Hs' Hcell].
  split; [done|]. split; [by destruct s|]. split; [|rsimp; exact Hcell].
  split; rsimp; [done|done|done|done|by exists m|]. intros i j k. rewrite Hcell. destruct ((i =? r) && (j =? ib)); [|apply Hrg].
  intros [= <-]. unfold refreshes. rewrite Hm, Z.div_mul by lia.
  pose proof (Z.mod_pos_bound (n + 1) m ltac:(nia)). split; [lia|]. nia.
Qed.

Definition calc_inv (s : ThermalCalculator) : Prop := calc_ok s ∧ refresh_ok s.

(** what a counter holds, and the cells that the next refresh of bank [ib] of a rank covers *)
Definition refresh_at (s : ThermalCalculator) (r ib : Z) : Z :=
  match cell_of s.(refresh_count) r ib with Ret n => n | Fault _ => 0 end.
Definition bank_refresh_cells (s : ThermalCalculator) (ch : Z) (a : Address) (ib : Z) : list Z :=
  let num := s.(plan).(num_row_refresh) in
  concat (refreshed_cells s ch a (ib / c.(banks_per_group)) (ib mod c.(banks_per_group)) <$>
    seqZ (refresh_at s (ch * c.(ranks) + a.(rank)) ib * num) num).

(** the energy [e] added to the cells of [ks], and new refresh counters *)
Definition spends (case_id : Z) (e : double) (ks : list Z) (s s' : ThermalCalculator) : Prop :=
  adds case_id e ks (s <| refresh_count := s'.(refresh_count) |>) s'.
Lemma spends_trans case_id e ks ks' s1 s2 s3 :
  spends case_id e ks s1 s2 → spends case_id e ks' s2 s3 → spends case_id e (ks ++ ks') s1 s3.
Proof.
  intros (E1 & A1 & B1) (E2 & A2 & B2). split; [|split; by eapply map_adds_trans].
  rewrite E2, E1. by destruct s1.
Qed.
Lemma spends_refl case_id e s : spends case_id e [] s s.
Proof. split; [by destruct s|]. split; apply map_adds_refl. Qed.
Lemma adds_spends case_id e ks s s' : adds case_id e ks s s' → spends case_id e ks s s'.
Proof. intros (E & A & B). split; [|done]. rewrite E. by destruct s. Qed.

(** energy in the cells [K] of a case, and new refresh counters *)
Definition updates (case_id : Z) (K : Z → Prop) (s s' : ThermalCalculator) : Prop :=
  touches case_id K (s <| refresh_count := s'.(refresh_count) |>) s'.
Lemma updates_trans case_id K s1 s2 s3 : updates case_id K s1 s2 → updates case_id K s2 s3 → updates case_id K s1 s3.
Proof.
  intros (E1 & A1 & B1) (E2 & A2 & B2). split; [|split].
  - rewrite E2, E1. by destruct s1.
  - etrans; [exact A1|exact A2].
  - etrans; [exact B1|exact B2].
Qed.
Lemma updates_refl case_id K s : updates case_id K s s.
Proof. split; [by destruct s|done]. Qed.
Lemma updates_mono case_id (K K' : Z → Prop) s s' :
  (∀ k, K k → K' k) → updates case_id K s s' → updates case_id K' s s'.
Proof. intros HK. by apply touches_mono. Qed.
Lemma touches_updates case_id K s s' : touches case_id K s s' → updates case_id K s s'.
Proof. intros (E & A & B). split; [|done]. rewrite E. by destruct s. Qed.
Lemma updates_ok case_id K s s' : updates case_id K s s' → calc_ok s → calc_ok s'.
Proof. intros Hu [Hf Hl Hm Hp Hc]. eapply calc_ok_touches; [exact Hu|]. by split; rsimp. Qed.
Lemma updates_floor case_id K s s' : updates case_id K s s' →
  floor s' = floor s ∧ plan s' = plan s ∧ loc s' = loc s.
Proof. intros Hu. destruct (touches_floor _ _ _ _ Hu) as (A & B & E). rsimp. done. Qed.
Lemma touches_refresh case_id K s s' : touches case_id K s s' → refresh_ok s → refresh_ok s'.
Proof. intros [-> _] [A B C' E F]. split; rsimp; done. Qed.

Lemma spends_updates case_id e ks (K : Z → Prop) s s' :
  (∀ k, k ∈ ks → K k) → spends case_id e ks s s' → updates case_id K s s'.
Proof. intros HK. by apply adds_touches. Qed.
(** the cells of a command depend on the plan, the mapping and the counters only *)
Lemma refreshed_cells_same s s' ch a bg ba ir : floor s' = floor s → plan s' = plan s → loc s' = loc s →
  refreshed_cells s' ch a bg ba ir = refreshed_cells s ch a bg ba ir.
Proof. intros E1 E2 E3. unfold refreshed_cells, grid_cell, corner, phys. by rewrite E1, E2, E3. Qed.

(** the cells that a command may add energy to *)
Definition cmd_cells (s : ThermalCalculator) (ch : Z) (cmd : Command) (k : Z) : Prop :=
  match cmd.(cmd_type) with
  | REFab => ∃ ib, 0 <= ib < c.(banks) ∧
      bank_cell c t s.(plan) s ch (Z.quot ib c.(banks_per_group)) (Z.rem ib c.(banks_per_group)) k
  | REFRESH_BANK => bank_cell c t s.(plan) s ch 0 (Bank cmd) k
  | _ => bank_cell c t s.(plan) s ch (Bankgroup cmd) (Bank cmd) k
  end.
Definition cmd_case (ch : Z) (cmd : Command) : Z := case_of c ch (Rank cmd).

Lemma rank_index_range ch cmd : 0 <= ch < c.(channels) → addr_ok c cmd.(addr) →
  0 <= ch * c.(ranks) + Rank cmd < c.(channels) * c.(ranks).
Proof. intros Hch [Hr _ _ _ _]. unfold Rank. nia. Qed.
Lemma cmd_case_range s ch cmd : calc_ok s → 0 <= ch < c.(channels) → addr_ok c cmd.(addr) →
  0 <= cmd_case ch cmd < s.(num_case).
Proof.
  intros Hs Hch Ha. rewrite (co_case _ Hs). unfold cmd_case, case_of. pose proof (rank_index_range ch cmd Hch Ha).
  destruct (IsHMC c || IsHBM c); [lia|]. pose proof (in_ranks _ _ (fi_ints _ _ _ _ (co_fits _ Hs))).
  rewrite i32_id by (unfold is_i32; lia). lia.
Qed.

Lemma rank_index_i32 s ch cmd : calc_ok s → 0 <= ch < c.(channels) → addr_ok c cmd.(addr) →
  i32 (ch * c.(ranks) + Rank cmd) = ch * c.(ranks) + Rank cmd.
Proof.
  intros Hs Hch Ha. pose proof (rank_index_range ch cmd Hch Ha). pose proof (in_ranks _ _ (fi_ints _ _ _ _ (co_fits _ Hs))).
  apply i32_id. unfold is_i32. lia.
Qed.

Lemma refresh_one_spec s ch cmd ib case_id e : calc_inv s → 0 <= ch < c.(channels) → addr_ok c cmd.(addr) →
  0 <= ib < c.(banks) → 0 <= case_id < s.(num_case) →
  returns (refresh_one c t ch cmd case_id (ch * c.(ranks) + Rank cmd) e s ib) (λ s',
    spends case_id e (bank_refresh_cells s ch cmd.(addr) ib) s s' ∧ refresh_ok s' ∧
    ∀ a b, ¬ (a = ch * c.(ranks) + Rank cmd ∧ b = ib) → cell_of s'.(refresh_count) a b = cell_of s.(refresh_count) a b) ∧
  ∀ k, k ∈ bank_refresh_cells s ch cmd.(addr) ib →
    bank_cell c t s.(plan) s ch (ib / c.(banks_per_group)) (ib mod c.(banks_per_group)) k.
Proof.
  intros [Hs Hr] Hch Ha Hib Hc. unfold refresh_one.
  pose proof (rank_index_range ch cmd Hch Ha) as Hri.
  destruct (shape_cell _ _ _ _ _ (ro_shape _ Hr) Hri Hib) as [n Hn]. destruct (ro_range _ Hr _ _ _ Hn) as [Hn0 Hlt].
  set (num := s.(plan).(num_row_refresh)) in *.
  pose proof (ro_num _ Hr) as Hnum. fold num in Hnum.
  assert (Hrows : 0 <= n * num ∧ n * num + num <= c.(rows)).
  { split; [nia|]. destruct (ro_rows _ Hr) as [m Hm]. fold num in Hm.
    assert (n < m) by nia. nia. }
  assert (Hcells : bank_refresh_cells s ch cmd.(addr) ib =
    concat (refreshed_cells s ch cmd.(addr) (ib / c.(banks_per_group)) (ib mod c.(banks_per_group)) <$> seqZ (n * num) num)).
  { unfold bank_refresh_cells, refresh_at. unfold Rank in Hn. by rewrite Hn. }
  assert (Hbk : 0 <= ib < c.(bankgroups) * c.(banks_per_group)) by (by rewrite <- (ro_banks _ Hr)).
  assert (Hcol : 0 <= cmd.(addr).(column) < c.(columns)).
  { destruct Ha as [_ _ _ _ Hcol]. pose proof (fi_bl _ _ _ _ (co_fits _ Hs)). lia. }
  rewrite Hcells. split.
  - eapply returns_bind; [by apply (next_refresh_spec s _ _ n)|]. intros [row_s s1] (Hrow & Hs1 & Hr1 & Hcnt).
    cbn [fst snd] in *. fold num in Hrow. subst row_s.
    assert (Hu : updates case_id (λ _, True) s s1) by (unfold updates; rewrite <- Hs1; done).
    assert (Hok : calc_ok s1) by (by eapply updates_ok).
    destruct (updates_floor _ _ _ _ Hu) as (F1 & F2 & F3). rewrite F2. fold num. pose proof (ro_int _ Hr).
    rewrite (i32_id (n * num + num)) by (unfold is_i32; lia). replace (n * num + num - n * num) with num by lia.
    eapply returns_mono.
    + apply (for_adds _ (refreshed_cells s1 ch cmd.(addr) (ib / c.(banks_per_group)) (ib mod c.(banks_per_group)))).
      intros s2 ir Hir%elem_of_seqZ H2. destruct (touches_floor _ _ _ _ H2) as (F1' & F2' & F3').
      destruct (LocationMapping_RF_adds s2 ch cmd ib ir case_id e) as [Hadd _]; [by eapply calc_ok_touches|done|done|lia|done|
        by rewrite F1', F1|]. by rewrite (refreshed_cells_same s1 s2) in Hadd.
    + intros s' H'. split; [|split].
      * assert (∀ l, concat (refreshed_cells s1 ch cmd.(addr) (ib / c.(banks_per_group)) (ib mod c.(banks_per_group)) <$> l) =
          concat (refreshed_cells s ch cmd.(addr) (ib / c.(banks_per_group)) (ib mod c.(banks_per_group)) <$> l)) as El.
        { intros l. f_equal. apply list_fmap_ext. intros _ ir _. by apply refreshed_cells_same. }
        rewrite El in H'. apply (spends_trans _ _ [] _ _ s1); [|by apply adds_spends].
        unfold spends. rewrite <- Hs1. apply adds_refl.
      * eapply touches_refresh; [by eapply adds_any|done].
      * destruct H' as (-> & _). rsimp. intros a b Hab. rewrite Hcnt.
        destruct (Z.eqb_spec a (ch * c.(ranks) + Rank cmd)) as [->|]; [|done].
        destruct (Z.eqb_spec b ib) as [->|]; [|done]. by destruct Hab.
  - intros k (ir & Hir%elem_of_seqZ & Hk)%elem_of_concat_fmap.
    destruct (LocationMapping_RF_adds s ch cmd ib ir case_id e) as [_ Hin]; [done|done|done|lia|done|done|]. by apply Hin.
Qed.

(** *** A command *)

(** the energy of one cell of a command *)
Definition access_energy (ty : CommandType) : double :=
  match ty with
  | ACTIVATE => c.(act_energy_inc)
  | READ | READ_PRECHARGE => c.(read_energy_inc)
  | WRITE | WRITE_PRECHARGE => c.(write_energy_inc)
  | _ => zero
  end.
Definition cell_energy (s : ThermalCalculator) (ty : CommandType) : double :=
  let per_device e := ddiv (ddiv e d1000) (device_scale c) in
  let num := double_of_Z s.(plan).(num_row_refresh) in
  match ty with
  | REFab => per_device (ddiv (ddiv (ddiv c.(ref_energy_inc) num) (double_of_Z c.(banks))) (double_of_Z t.(num_y_grids)))
  | REFRESH_BANK => per_device (ddiv (ddiv c.(refb_energy_inc) num) (double_of_Z t.(num_y_grids)))
  | _ => ddiv (per_device (ddiv (access_energy ty) (double_of_Z c.(BL)))) (double_of_Z c.(device_width))
  end.
(** the cells it is added to, once for each time they are listed *)
Definition energy_cells (s : ThermalCalculator) (ch : Z) (cmd : Command) : list Z :=
  match cmd.(cmd_type) with
  | REFab => concat (bank_refresh_cells s ch cmd.(addr) <$> seqZ 0 c.(banks))
  | REFRESH_BANK => bank_refresh_cells s ch cmd.(addr) (Bank cmd)
  | ty => if dltb zero (access_energy ty) then access_cells s ch cmd else []
  end.

Lemma UpdateCMDPower_spends s ch cmd : calc_inv s → 0 <= ch < c.(channels) → addr_ok c cmd.(addr) →
  returns (UpdateCMDPower c t s ch cmd) (λ s',
    spends (cmd_case ch cmd) (cell_energy s cmd.(cmd_type)) (energy_cells s ch cmd) s s' ∧ calc_inv s') ∧
  ∀ k, k ∈ energy_cells s ch cmd → cmd_cells s ch cmd k.
Proof.
  intros Hi Hch Ha. pose proof Hi as [Hs Hr]. pose proof (cmd_case_range s ch cmd Hs Hch Ha) as Hcase.
  assert (Hbank : 0 <= Bank cmd < c.(banks)).
  { destruct Ha as [_ Hbg Hba _ _]. rewrite (ro_banks _ Hr). unfold Bank. nia. }
  unfold UpdateCMDPower. cbv zeta. fold (cmd_case ch cmd). rewrite (rank_index_i32 s) by done.
  assert (Hacc : ∀ e, match cmd.(cmd_type) with REFab | REFRESH_BANK => False | _ => True end →
    returns (LocationMappingANDaddEnergy c t s ch cmd (cmd_case ch cmd) e)
      (λ s', spends (cmd_case ch cmd) (ddiv e (double_of_Z c.(device_width))) (access_cells s ch cmd) s s' ∧ calc_inv s') ∧
    ∀ k, k ∈ access_cells s ch cmd → cmd_cells s ch cmd k).
  { intros e Hty. destruct (LocationMapping_adds s ch cmd (cmd_case ch cmd) e Hs Hch Ha Hcase) as [Hadd Hin]. split.
    - eapply returns_mono; [exact Hadd|]. intros s' Ht. split; [by apply adds_spends|].
      apply adds_any in Ht. split; [by eapply calc_ok_touches|by eapply touches_refresh].
    - intros k Hk. apply Hin in Hk. unfold cmd_cells. by destruct (cmd_type cmd). }
  assert (Hnone : ∀ e, returns (Ret s) (λ s', spends (cmd_case ch cmd) e [] s s' ∧ calc_inv s') ∧
    ∀ k, k ∈ ([] : list Z) → cmd_cells s ch cmd k).
  { intros e. split; [apply returns_ret; split; [apply spends_refl|done]|]. intros k Hk. by apply elem_of_nil in Hk. }
  unfold energy_cells, cell_energy.
  destruct (cmd_type cmd) eqn:Hty; cbn [access_energy];
    try (destruct (dltb _ _); [by apply Hacc|by apply Hnone]).
  - (* REFRESH_BANK *)
    set (e := ddiv (ddiv (ddiv _ _) _) _).
    destruct (refresh_one_spec s ch cmd (Bank cmd) (cmd_case ch cmd) e Hi Hch Ha Hbank Hcase) as [Hrun Hin].
    split.
    + eapply returns_mono; [exact Hrun|]. intros s' (Hu & Hr' & _). split; [done|]. split; [|done].
      eapply updates_ok; [|exact Hs]. by apply (spends_updates _ _ _ (λ _, True) _ _ (λ _ _, I) Hu).
    + intros k Hk. apply Hin in Hk. unfold cmd_cells. rewrite Hty. destruct Ha as [_ _ Hba _ _]. unfold Bank in *.
      by rewrite Z.div_small, Z.mod_small in Hk by lia.
  - (* REFab *)
    set (e := ddiv (ddiv (ddiv _ _) _) _). pose proof (fi_bpg _ _ _ _ (co_fits _ Hs)) as Hbpg.
    split.
    + eapply returns_mono.
      * apply (for_seqZ (λ ib s', spends (cmd_case ch cmd) e (concat (bank_refresh_cells s ch cmd.(addr) <$> seqZ 0 ib)) s s' ∧
          calc_inv s' ∧ ∀ a b, ib <= b → cell_of s'.(refresh_count) a b = cell_of s.(refresh_count) a b) 0 c.(banks)).
        -- lia.
        -- split; [apply spends_refl|done].
        -- intros s1 ib Hib (Hu1 & Hi1 & Hc1).
           destruct (updates_floor _ _ _ _ (spends_updates _ _ _ (λ _, True) _ _ (λ _ _, I) Hu1)) as (F1 & F2 & F3).
           destruct (refresh_one_spec s1 ch cmd ib (cmd_case ch cmd) e Hi1 Hch Ha) as [Hrun _]; [lia|by rewrite F1|].
           eapply returns_mono; [exact Hrun|]. intros s2 (Hu2 & Hr2 & Hc2). split; [|split].
           ++ rewrite (seqZ_app 0 ib 1), fmap_app, concat_app by lia. eapply spends_trans; [exact Hu1|].
              change (seqZ (0 + ib) 1) with [ib]. cbn [fmap list_fmap concat]. rewrite app_nil_r.
              assert (bank_refresh_cells s ch cmd.(addr) ib = bank_refresh_cells s1 ch cmd.(addr) ib) as ->; [|done].
              unfold bank_refresh_cells, refresh_at. rewrite F2, Hc1 by lia. f_equal. apply list_fmap_ext.
              intros _ ir _. symmetry. by apply refreshed_cells_same.
           ++ split; [|done]. eapply updates_ok; [|apply Hi1]. by apply (spends_updates _ _ _ (λ _, True) _ _ (λ _ _, I) Hu2).
           ++ intros a b Hb. rewrite Hc2, Hc1 by lia. done.
      * intros s' (H1 & H2 & _). done.
    + intros k (ib & Hib%elem_of_seqZ & Hk)%elem_of_concat_fmap.
      destruct (refresh_one_spec s ch cmd ib (cmd_case ch cmd) e Hi Hch Ha ltac:(lia) Hcase) as [_ Hin]. apply Hin in Hk.
      unfold cmd_cells. rewrite Hty. exists ib. split; [lia|]. by rewrite Z.quot_div_nonneg, Z.rem_mod_nonneg by lia.
Qed.
Lemma UpdateCMDPower_spec s ch cmd : calc_inv s → 0 <= ch < c.(channels) → addr_ok c cmd.(addr) →
  returns (UpdateCMDPower c t s ch cmd) (λ s',
    updates (cmd_case ch cmd) (cmd_cells s ch cmd) s s' ∧ calc_inv s').
Proof.
  intros Hi Hch Ha. destruct (UpdateCMDPower_spends s ch cmd Hi Hch Ha) as [Hrun Hin].
  eapply returns_mono; [exact Hrun|]. intros s' [Hu Hi']. split; [|done]. by eapply spends_updates.
Qed.
End Commands.

(** ** Epochs of the stacked memories *)

Lemma returns_mapM {A B} (f : A → outcome B) (P : A → B → Prop) (l : list A) :
  (∀ x, x ∈ l → returns (f x) (P x)) → returns (mapM f l) (Forall2 P l).
Proof.
  induction l as [|x l IH]; intros Hf; cbn [mapM]; [by apply returns_ret; constructor|].
  eapply returns_bind; [apply Hf; left|]. intros y Hy.
  eapply returns_bind; [apply IH; intros; apply Hf; by right|]. intros k Hk.
  apply returns_ret. by constructor.
Qed.
Lemma Forall2_aget {A B} (P : A → B → Prop) l k i y : Forall2 P l k → aget k i = Ret y →
  ∃ x, aget l i = Ret x ∧ P x y.
Proof.
  intros HP [Hi Hy]%aget_Ret. destruct (Forall2_lookup_r _ _ _ _ _ HP Hy) as (x & Hx & HPx).
  exists x. split; [by apply aget_Ret|done].
Qed.
Lemma Forall2_zlen {A B} (P : A → B → Prop) l k : Forall2 P l k → zlen k = zlen l.
Proof. intros HP. unfold zlen. by rewrite (Forall2_length _ _ _ HP). Qed.
Lemma aget_seqZ n i : 0 <= i < n → aget (seqZ 0 n) i = Ret i.
Proof. intros. apply aget_Ret. split; [lia|]. rewrite lookup_seqZ_lt by lia. f_equal. lia. Qed.

Lemma UpdatePowerMaps_shape c f logic add period m : ints_ok c f → 0 < f.(numP) → shape f.(num_case) (map_cells f) m →
  returns (UpdatePowerMaps f logic add period m) (shape f.(num_case) (map_cells f)).
Proof.
  intros Hi HP Hm. unfold UpdatePowerMaps. pose proof (in_X _ _ Hi). pose proof (in_Y _ _ Hi).
  pose proof (cells_small c f Hi) as Hc. assert (0 <= f.(dimX) * f.(dimY)) by nia. unfold map_cells in Hc.
  rewrite (i32_id (_ * f.(numP))), (i32_id (_ * (f.(numP) - 1))) by (unfold is_i32; nia).
  apply for_inv; [done|]. intros m1 j Hj%elem_of_seqZ Hm1.
  assert (Hadd : ∀ lo hi e m2, 0 <= lo → lo + hi <= map_cells f → shape f.(num_case) (map_cells f) m2 →
    returns (for_ (seqZ lo hi) m2 (λ m i, add_energy m j i e)) (shape f.(num_case) (map_cells f))).
  { intros lo hi e m2 Hlo Hhi Hm2. apply for_inv; [done|]. intros m3 i Hi'%elem_of_seqZ Hm3.
    eapply returns_mono; [by eapply add_energy_spec; [exact Hm3|lia|lia]|]. intros m4 [Hsh _]. by apply Hsh. }
  eapply returns_bind; [apply Hadd; [lia|unfold map_cells; nia|done]|]. intros m2 Hm2.
  apply Hadd; [nia|unfold map_cells; nia|done].
Qed.

Lemma InitPowerM_shape c f m case_id div :
  ints_ok c f → shape f.(num_case) (map_cells f) m → 0 <= case_id < f.(num_case) →
  returns (InitPowerM f m case_id div) (power_shape f.(numP) (grid_x f) (grid_y f)).
Proof.
  intros Hi Hm Hc. destruct (shape_row _ _ _ _ Hm Hc) as (r & Hr & Hl).
  pose proof (in_X _ _ Hi) as HX. pose proof (in_Y _ _ Hi) as HY. pose proof (in_numP _ _ Hi) as HP.
  unfold InitPowerM. destruct (grid_x_eq c f Hi) as [_ Hgx], (grid_y_eq c f Hi) as [_ Hgy].
  assert (Hcell : ∀ x y l, 0 <= l < f.(numP) →
    returns (if (1 <=? x) && (x <=? f.(dimX)) && (1 <=? y) && (y <=? f.(dimY)) then
      r ← aget m case_id; v ← aget r (i32 (l * (f.(dimX) * f.(dimY)) + (y - 1) * f.(dimX) + (x - 1))); Ret (ddiv v div)
      else Ret zero) (λ _, True)).
  { intros x y l Hll. destruct (Z.leb_spec 1 x), (Z.leb_spec x f.(dimX)), (Z.leb_spec 1 y), (Z.leb_spec y f.(dimY));
      cbn [andb]; try (by apply returns_ret).
    rewrite Hr. cbn [mbind outcome_bind].
    assert (0 <= l * (f.(dimX) * f.(dimY)) + (y - 1) * f.(dimX) + (x - 1) < map_cells f) as Hk.
    { apply (cell_index_range f l (x - 1, y - 1)); cbn [fst snd]; lia. }
    rewrite (cell_i32 c f _ Hi Hk). destruct (aget_ok r _ ltac:(rewrite Hl; exact Hk)) as [v ->].
    by apply returns_ret. }
  eapply returns_mono.
  { apply (returns_mapM _ (λ _ col, zlen col = grid_y f ∧ ∀ j e, aget col j = Ret e → zlen e = f.(numP))).
    intros x Hx. eapply returns_mono.
    - apply (returns_mapM _ (λ _ e, zlen e = f.(numP))). intros y Hy. eapply returns_mono.
      + apply (returns_mapM _ (λ _ _, True)). intros l Hll%elem_of_seqZ. apply Hcell. lia.
      + intros e He. rewrite (Forall2_zlen _ _ _ He), zlen_seqZ; lia.
    - intros col Hcol. split; [rewrite (Forall2_zlen _ _ _ Hcol), zlen_seqZ; lia|].
      intros j e He. by destruct (Forall2_aget _ _ _ _ _ Hcol He) as (_ & _ & ?). }
  intros pm Hpm. assert (Hlen : zlen pm = grid_x f) by (rewrite (Forall2_zlen _ _ _ Hpm), zlen_seqZ; lia).
  split; [done|]. intros i Hi'. destruct (aget_ok pm i ltac:(lia)) as [col Hcol]. exists col. split; [done|].
  destruct (Forall2_aget _ _ _ _ _ Hpm Hcol) as (_ & _ & Hcl & Hce). split; [done|].
  intros j Hj. destruct (aget_ok col j ltac:(lia)) as [e He]. exists e. split; [done|]. by eapply Hce.
Qed.

Section Stacked.
Context (fuel : nat) (c : Config) (t : ThermalParams) (H3D : IsHBM c || IsHMC c = true).

(** what an epoch reads besides *)
Record temps_ok (s : ThermalCalculator) : Prop := {
  to_numP : 0 < s.(numP); to_ints : ints_ok c s;
  to_M : calculate_Midx_array s.(plan).(chip_dim_x) s.(plan).(chip_dim_y) s.(numP) (grid_x s) (grid_y s) = Ret s.(Midx);
  to_C : s.(Cap) = calculate_Cap_array s.(plan).(chip_dim_x) s.(plan).(chip_dim_y) s.(numP) (grid_x s) (grid_y s);
  to_iter : 0 <= s.(time_iter);
  to_T : shape s.(num_case) (T_size s.(numP) (grid_x s) (grid_y s)) s.(T_trans);
  to_F : zlen s.(T_final) = s.(num_case);
  to_bg : shape c.(channels) c.(ranks) s.(background_energy_)
}.

Lemma next_temperatures_length {D} `{Arith D} (n x z : Z) (C P : list D) dt T M :
  0 <= T_size n x z → zlen (next_temperatures n x z C P dt T M) = T_size n x z.
Proof. intros. unfold next_temperatures. by rewrite zlen_fmap, zlen_seqZ. Qed.
Lemma reference_steps_length {D} `{Arith D} (n x z : Z) M (C P : list D) dt k T :
  0 <= T_size n x z → zlen T = T_size n x z → zlen (reference_steps n x z M C P dt k T) = T_size n x z.
Proof. intros Hn HT. unfold reference_steps. destruct k; [done|]. by apply next_temperatures_length. Qed.
Lemma grid_pos s : temps_ok s → 0 < grid_x s ∧ 0 < grid_y s.
Proof. intros Hs. split; [by apply (grid_x_eq c s), Hs|by apply (grid_y_eq c s), Hs]. Qed.
Lemma T_size_pos s : temps_ok s → 0 < T_size s.(numP) (grid_x s) (grid_y s).
Proof. intros Hs. destruct (grid_pos s Hs). pose proof (to_numP _ Hs). unfold T_size, numLayer. nia. Qed.

Lemma Midx_is_matrix s : temps_ok s →
  s.(Midx) = matrix s.(plan).(chip_dim_x) s.(plan).(chip_dim_y) s.(numP) (grid_x s) (grid_y s).
Proof.
  intros Hs. destruct (grid_pos s Hs) as [HX HY]. pose proof (to_M _ Hs) as HM. pose proof (to_numP _ Hs) as Hp0.
  rewrite (proj1 (Midx_reference _ _ _ _ _ HX HY (Z.lt_le_incl _ _ Hp0))) in HM. by injection HM.
Qed.

(** one case of an epoch changes its temperatures only *)
Lemma CalcTransT_spec s case_id : temps_ok s → shape s.(num_case) (map_cells s) s.(cur_Pmap) →
  0 <= case_id < s.(num_case) →
  returns (CalcTransT c s case_id) (λ s', s' = s <| T_trans := s'.(T_trans) |> ∧ temps_ok s').
Proof.
  intros Hs Hm Hc. unfold CalcTransT. pose proof (grid_pos s Hs) as [Hgx Hgy]. pose proof (T_size_pos s Hs).
  eapply returns_bind; [by apply (InitPowerM_shape c); [apply Hs|exact Hm|exact Hc]|]. intros pm Hpm.
  destruct (shape_row _ _ _ _ (to_T _ Hs) Hc) as (T & HT & HTl). rewrite HT. cbn [mbind outcome_bind].
  rewrite (to_C _ Hs).
  destruct (transient_solver_spec s.(plan).(chip_dim_x) s.(plan).(chip_dim_y) s.(Tamb) s.(numP) (grid_x s) (grid_y s)
    s.(time_iter) pm (epoch_time c) T) as (P & HP & _);
    [apply Hs|done|done|apply Hs|done|done|]. rewrite (Midx_is_matrix _ Hs), HP. cbn [mbind outcome_bind].
  set (T' := reference_steps _ _ _ _ _ _ _ _ _).
  assert (HT' : zlen T' = T_size s.(numP) (grid_x s) (grid_y s)) by (apply reference_steps_length; [lia|done]).
  destruct (aset s.(T_trans) case_id T') as [Tt|] eqn:HTt.
  2: { rewrite aset_ok in HTt by (destruct (to_T _ Hs); lia). done. }
  cbn [mbind outcome_bind]. apply returns_ret. split; [by destruct s|].
  destruct Hs as [A1 A2 A4 A5 A6 [A7 A7'] A8 A9]. split; rsimp; try done.
  split; [by rewrite (aset_length _ _ _ _ HTt)|]. intros i r. rewrite (aget_aset _ _ _ _ _ HTt).
  destruct (i =? case_id); [by intros [= <-]|apply A7'].
Qed.

Lemma GetMaxTofCaseLayer_ok s m case_id layer : temps_ok s → shape s.(num_case) (T_size s.(numP) (grid_x s) (grid_y s)) m →
  0 <= case_id < s.(num_case) → 0 <= layer < s.(numP) →
  returns (GetMaxTofCaseLayer s m case_id layer) (λ _, True).
Proof.
  intros Hs Hm Hc Hl. unfold GetMaxTofCaseLayer. destruct (shape_row _ _ _ _ Hm Hc) as (T & -> & HTl).
  pose proof (to_ints _ Hs) as Hi. destruct (grid_x_eq c s Hi) as [Ex Hx], (grid_y_eq c s Hi) as [Ey Hy].
  destruct (net_small c s Hi) as (_ & _ & Hn). unfold num_dummy in Ex, Ey.
  cbn [mbind outcome_bind]. apply for_inv; [done|]. intros d j Hj%elem_of_seqZ _.
  apply for_inv; [done|]. intros d' i Hii%elem_of_seqZ _.
  set (k := (layerP layer + 1) * (grid_x s * grid_y s) + j * grid_x s + i).
  assert (0 <= k < T_size s.(numP) (grid_x s) (grid_y s)) as Hk.
  { unfold k, T_size, numLayer, layerP. pose proof (digits_range (grid_x s) (grid_y s) i j ltac:(lia) ltac:(lia)). nia. }
  rewrite (i32_id k) by (unfold is_i32; lia). destruct (aget_ok T k ltac:(lia)) as [v ->].
  by apply returns_ret.
Qed.

(** the whole state of a stacked memory *)
Record thermal_ok (s : ThermalCalculator) : Prop := {
  tk_inv : calc_inv c t s; tk_temps : temps_ok s
}.

Lemma temps_ok_frame s s' : temps_ok s →
  s' = s <| accu_Pmap := s'.(accu_Pmap) |> <| cur_Pmap := s'.(cur_Pmap) |> <| refresh_count := s'.(refresh_count) |>
         <| avg_logic_power_ := s'.(avg_logic_power_) |> <| sample_id := s'.(sample_id) |> →
  temps_ok s'.
Proof. intros [A1 A2 A4 A5 A6 A7 A8 A9] ->. split; rsimp; done. Qed.

Lemma is_stacked : IsHMC c || IsHBM c = true.
Proof. by rewrite orb_comm. Qed.

Lemma UpdateEpoch_ok s : thermal_ok s → returns (UpdateEpoch fuel c s) (λ s',
  s' = s <| cur_Pmap := s'.(cur_Pmap) |> ∧ thermal_ok s').
Proof.
  intros [[Hc Hr] Ht]. unfold UpdateEpoch. rewrite H3D. destruct (co_maps _ _ _ Hc) as [HA HB].
  eapply returns_bind; [apply (UpdatePowerMaps_shape c); [apply Ht|apply Ht|exact HB]|]. intros m Hm.
  apply returns_ret. split; [by destruct s|]. split; [split|].
  - destruct Hc as [C1 C2 C3 C4 C5]. split; rsimp; try done.
  - destruct Hr as [R1 R2 R3 R4 R5 R6]. split; rsimp; done.
  - destruct Ht as [A1 A2 A4 A5 A6 A7 A8 A9]. split; rsimp; done.
Qed.

Lemma clear_maps n k (m : list (list double)) : shape n k m →
  returns (mapM (λ r, for_ (seqZ 0 k) r (λ r i, aset r i zero)) m)
    (λ m', shape n k m' ∧ ∀ i j v, cell_of m' i j = Ret v → v = zero).
Proof.
  intros [Hn Hk]. eapply returns_mono.
  { apply (returns_mapM _ (λ r r', zlen r' = zlen r ∧ ∀ j v, aget r' j = Ret v → v = zero)).
    intros r [i Hi]%list_elem_of_lookup.
    assert (Hl : zlen r = k) by (apply (Hk (Z.of_nat i)), aget_Ret; rewrite Nat2Z.id; split; [lia|done]).
    eapply returns_mono.
    - apply (for_seqZ (λ j r', zlen r' = zlen r ∧ ∀ a v, 0 <= a < j → aget r' a = Ret v → v = zero)).
      + rewrite <- Hl. apply zlen_nonneg.
      + split; [done|]. intros; lia.
      + intros r' j Hj [Hl' Hz]. destruct (aset r' j zero) as [r''|] eqn:Hs.
        2: { rewrite aset_ok in Hs by lia. done. }
        apply returns_ret. split; [by rewrite (aset_length _ _ _ _ Hs)|].
        intros a v Ha. rewrite (aget_aset _ _ _ _ _ Hs). destruct (Z.eqb_spec a j); [by intros [= <-]|].
        apply Hz. lia.
    - intros r' [Hl' Hz]. split; [done|]. intros j v Hj. pose proof (aget_bound _ _ _ Hj). apply (Hz j); [lia|done]. }
  intros m' Hm'. split.
  - split; [by rewrite (Forall2_zlen _ _ _ Hm')|]. intros i r Hr.
    destruct (Forall2_aget _ _ _ _ _ Hm' Hr) as (r0 & Hr0 & Hl & _). rewrite Hl. by eapply Hk.
  - intros i j v. unfold cell_of. destruct (aget m' i) as [r|] eqn:Hr; [|done]. cbn [mbind outcome_bind].
    destruct (Forall2_aget _ _ _ _ _ Hm' Hr) as (r0 & _ & _ & Hz). apply Hz.
Qed.

Lemma PrintTransPT_ok s : thermal_ok s → returns (PrintTransPT fuel c s) (λ r,
  thermal_ok r.1 ∧ (∀ i j v, cell_of r.1.(cur_Pmap) i j = Ret v → v = zero) ∧
  r.1.(accu_Pmap) = s.(accu_Pmap) ∧ r.1.(sample_id) = i32 (s.(sample_id) + 1) ∧ zlen r.2 = s.(num_case)).
Proof.
  intros Hs. unfold PrintTransPT. eapply returns_bind; [by apply UpdateEpoch_ok|].
  intros s1 (E1 & Hs1). pose proof Hs1 as [[Hc1 Hr1] Ht1]. destruct (co_maps _ _ _ Hc1) as [HA HB].
  assert (F1 : floor s1 = floor s ∧ accu_Pmap s1 = accu_Pmap s ∧ sample_id s1 = sample_id s) by (rewrite E1; done).
  destruct F1 as (F1 & F2 & F3).
  assert (Hn : 0 <= s1.(num_case)) by (destruct HA; pose proof (zlen_nonneg s1.(accu_Pmap)); lia).
  eapply returns_bind.
  { apply (for_seqZ (λ i r, r.1 = s1 <| T_trans := r.1.(T_trans) |> ∧ temps_ok r.1 ∧ zlen r.2 = i) 0 s1.(num_case)).
    - done.
    - cbn [fst snd]. split; [by destruct s1|]. done.
    - intros [s2 out] i Hi (E2 & Ht2 & Hl). cbn [fst snd] in *.
      assert (F2' : floor s2 = floor s1 ∧ cur_Pmap s2 = cur_Pmap s1) by (rewrite E2; done). destruct F2' as [F2' F2''].
      eapply returns_bind; [apply CalcTransT_spec; [done|by rewrite F2', F2''|by rewrite F2']|].
      intros s3 (E3 & Ht3). assert (F3' : floor s3 = floor s2) by (rewrite E3; done).
      eapply returns_bind.
      + apply (returns_mapM _ (λ _ _, True)). intros l Hl'%elem_of_seqZ.
        apply GetMaxTofCaseLayer_ok; [done|apply Ht3|rewrite F3', F2'; lia|lia].
      + intros ts Hts. apply returns_ret. cbn [fst snd]. split; [|split; [done|]].
        * rewrite E3, E2. by destruct s1.
        * rewrite zlen_app, Hl. unfold zlen. cbn [length]. lia. }
  intros [s2 out] (E2 & Ht2 & Hl). cbn [fst snd] in *.
  assert (F2' : floor s2 = floor s1 ∧ cur_Pmap s2 = cur_Pmap s1) by (rewrite E2; done). destruct F2' as [F2' F2''].
  rewrite F2', F2''. fold (map_cells s1).
  rewrite (i32_id (map_cells s1)) by (pose proof (cells_small c s1 (to_ints _ Ht1)); unfold is_i32; lia).
  eapply returns_bind; [by apply clear_maps|]. intros m [Hm Hz]. apply returns_ret. cbn [fst snd].
  split; [|split; [|split; [|split]]].
  - split; [split|].
    + destruct Hc1 as [C1 C2 C3 C4 C5]. rewrite E2. split; rsimp; try done; split; rsimp; done.
    + destruct Hr1 as [R1 R2 R3 R4 R5 R6]. rewrite E2. split; rsimp; done.
    + destruct Ht2 as [A1 A2 A4 A5 A6 A7 A8 A9]. split; rsimp; done.
  - rsimp. exact Hz.
  - rewrite E2. rsimp. done.
  - rewrite E2. rsimp. by rewrite F3.
  - rewrite <- F1. lia.
Qed.

(** *** Runs *)
(** what the controllers and the memory system call in a THERMAL build *)
Inductive ThermalEvent :=
  | TCommand (ch : Z) (cmd : Command) | TBackground (ch r : Z) (energy : double)
  | TLogic (power : double) | TEpoch.
#[export] Instance TEpoch_dec e : Decision (e = TEpoch).
Proof. destruct e; first [by left|by right]. Defined.
Definition thermal_step (s : ThermalCalculator) (e : ThermalEvent) : outcome ThermalCalculator :=
  match e with
  | TCommand ch cmd => UpdateCMDPower c t s ch cmd
  | TBackground ch r energy => UpdateBackgroundEnergy s ch r energy
  | TLogic power => Ret (SetLogicPower s power)
  | TEpoch => r ← PrintTransPT fuel c s; Ret r.1
  end.
Definition event_ok (e : ThermalEvent) : Prop :=
  match e with
  | TCommand ch cmd => 0 <= ch < c.(channels) ∧ addr_ok c cmd.(addr)
  | TBackground ch r _ => 0 <= ch < c.(channels) ∧ 0 <= r < c.(ranks)
  | _ => True
  end.

Lemma thermal_step_ok s e : thermal_ok s → event_ok e → returns (thermal_step s e) thermal_ok.
Proof.
  intros Hs He. destruct e as [ch cmd|ch r energy|power|]; cbn [thermal_step event_ok] in *.
  - destruct He as [Hch Ha]. destruct Hs as [Hi Ht]. eapply returns_mono; [by apply UpdateCMDPower_spec|].
    intros s' [Hu Hi']. split; [done|]. eapply temps_ok_frame; [exact Ht|]. destruct Hu as (E & _).
    rewrite E. by destruct s.
  - destruct He as [Hch Hr]. unfold UpdateBackgroundEnergy.
    destruct (shape_row _ _ _ _ (to_bg _ (tk_temps _ Hs)) Hch) as (row & Hrow & Hl). rewrite Hrow.
    cbn [mbind outcome_bind]. destruct (aset row r energy) as [row'|] eqn:Hrow'.
    2: { rewrite aset_ok in Hrow' by lia. done. }
    cbn [mbind outcome_bind]. destruct (aset s.(background_energy_) ch row') as [b|] eqn:Hb.
    2: { rewrite aset_ok in Hb by (destruct (to_bg _ (tk_temps _ Hs)); lia). done. }
    apply returns_ret. destruct (write_cell _ _ _ _ _ _ _ _ _ (to_bg _ (tk_temps _ Hs)) Hrow Hrow' Hb) as [Hsh _].
    destruct Hs as [[[C1 C2 C3 C4 C5] [R1 R2 R3 R4 R5 R6]] [A1 A2 A4 A5 A6 A7 A8 A9]].
    split; [split|]; split; rsimp; done.
  - apply returns_ret. destruct Hs as [[[C1 C2 C3 C4 C5] [R1 R2 R3 R4 R5 R6]] [A1 A2 A4 A5 A6 A7 A8 A9]].
    unfold SetLogicPower. split; [split|]; split; rsimp; done.
  - eapply returns_bind; [by apply PrintTransPT_ok|]. intros r (Hr & _). by apply returns_ret.
Qed.

(** *** The end *)
Lemma CalcFinalT_spec pdgssv s case_id clk : (∀ A b, zlen (pdgssv A b) = zlen b) → thermal_ok s →
  0 <= case_id < s.(num_case) →
  returns (CalcFinalT pdgssv c s case_id clk) (λ s', s' = s <| T_final := s'.(T_final) |> ∧ thermal_ok s' ∧
    ∃ T, aget s'.(T_final) case_id = Ret T ∧ zlen T = T_size s.(numP) (grid_x s) (grid_y s)).
Proof.
  intros Hsolve Hs Hc. pose proof Hs as [[Hck Hr] Ht]. unfold CalcFinalT. destruct (co_maps _ _ _ Hck) as [HA HB].
  pose proof (grid_pos s Ht) as [Hgx Hgy].
  eapply returns_bind; [apply (InitPowerM_shape c); [apply Ht| |exact Hc]; by destruct (clk =? 0)|]. intros pm Hpm.
  unfold steady_thermal_solver.
  rewrite (Midx_is_matrix _ Ht), compress_matrix by (first [done|apply Ht]). set (A := mkCompCol _ _ _).
  cbn [mbind outcome_bind].
  destruct (steady_rhs_spec s.(plan).(chip_dim_x) s.(plan).(chip_dim_y) s.(numP) (grid_x s) (grid_y s) s.(Tamb)
    (to_numP _ Ht) Hgx Hgy pm Hpm) as (rhs & -> & Hrl & _). cbn [mbind outcome_bind].
  set (T := _ <$> pdgssv A rhs). destruct (aset s.(T_final) case_id T) as [Tf|] eqn:HTf.
  2: { rewrite aset_ok in HTf by (pose proof (to_F _ Ht); lia). done. }
  cbn [mbind outcome_bind]. apply returns_ret. split; [by destruct s|]. split.
  - destruct Hck as [C1 C2 C3 C4 C5], Hr as [R1 R2 R3 R4 R5 R6], Ht as [A1 A2 A4 A5 A6 A7 A8 A9].
    split; [split|]; split; rsimp; try done. by rewrite (aset_length _ _ _ _ HTf).
  - exists T. rsimp. rewrite (aget_aset _ _ _ _ _ HTf), Z.eqb_refl. split; [done|].
    unfold T. by rewrite zlen_fmap, Hsolve.
Qed.

Lemma PrintFinalPT_ok pdgssv s clk : (∀ A b, zlen (pdgssv A b) = zlen b) → thermal_ok s →
  returns (PrintFinalPT fuel pdgssv c s clk) (λ r, thermal_ok r.1 ∧ zlen r.2 = s.(num_case)).
Proof.
  intros Hsolve Hs. pose proof Hs as [[Hck Hr] Ht]. unfold PrintFinalPT. rewrite H3D.
  destruct (co_maps _ _ _ Hck) as [HA HB].
  eapply returns_bind; [apply (UpdatePowerMaps_shape c); [apply Ht|apply Ht|exact HA]|]. intros m Hm. cbv zeta.
  set (s1 := s <| accu_Pmap := m |>).
  assert (Hs1 : thermal_ok s1).
  { destruct Hck as [C1 C2 C3 C4 C5], Hr as [R1 R2 R3 R4 R5 R6], Ht as [A1 A2 A4 A5 A6 A7 A8 A9].
    unfold s1. split; [split|]; split; rsimp; done. }
  assert (F1 : floor s1 = floor s) by done. clearbody s1.
  assert (Hn : 0 <= s.(num_case)) by (destruct HA; pose proof (zlen_nonneg s.(accu_Pmap)); lia). rewrite F1.
  eapply returns_mono.
  { apply (for_seqZ (λ i r, floor r.1 = floor s1 ∧ thermal_ok r.1 ∧ zlen r.2 = i) 0 s.(num_case)); [done|done|].
    intros [s2 out] i Hi (F2 & Hs2 & Hl). cbn [fst snd] in *.
    eapply returns_bind; [apply CalcFinalT_spec; [done|done|rewrite F2, F1; lia]|].
    intros s3 (E3 & Hs3 & T & HT & HTl). assert (F3 : floor s3 = floor s2) by (rewrite E3; done).
    eapply returns_bind.
    - unfold GetMaxTofCase. rewrite HT. cbn [mbind outcome_bind]. apply (for_inv (λ _, True)); [done|].
      pose proof (net_small c s3 (to_ints _ (tk_temps _ Hs3))) as (_ & _ & Hn3).
      intros d j Hj%elem_of_seqZ _. rewrite F3 in *.
      assert (0 <= T_size s2.(numP) (grid_x s2) (grid_y s2)) by (pose proof (T_size_pos s2 (tk_temps _ Hs2)); lia).
      rewrite i32_id in Hj by (unfold is_i32; lia). destruct (aget_ok T j ltac:(lia)) as [v ->].
      by apply returns_ret.
    - intros d _. apply returns_ret. cbn [fst snd]. split; [by rewrite F3|]. split; [done|].
      rewrite zlen_app, Hl. unfold zlen. cbn [length]. lia. }
  intros r (_ & Hr' & Hl). by split.
Qed.
End Stacked.
