(* ===== verification/ThermalRun.v ===== *)
(** * The thermal model: from the configuration to a run

    The floor plans of the hybrid memory cubes and of the high-bandwidth memories have room for every bank
    ([stack_fits]); on such a plan a command adds exactly its energy to the cells of the banks that the code selects
    ([thermal_command_energy]), the calculator starts, and any run of commands and epochs ends with the final
    temperatures ([thermal_run_safe]). The refreshes of a bank go through its rows, or past them
    ([thermal_refresh_rows]), and the planar memories never finish an epoch ([thermal_planar_stuck]). *)
From S2P Require Import Prelude Common Config ThermalSolver ThermalSolverSpec ThermalHeat Thermal ThermalSpec HmcSpec.

(** ** [determineXY] *)

Lemma try_shapes_divide xd yd n (l : list Z) (s : Z * double) :
  (∀ y, y ∈ l → 0 < y) → 0 < n → 0 < s.1 ∧ (s.1 | n) →
  0 < (foldl (try_shape xd yd n) s l).1 ∧ ((foldl (try_shape xd yd n) s l).1 | n).
Proof.
  intros Hl Hn. revert s. induction l as [|y l IH]; intros s Hx; [done|]. cbn [foldl].
  apply IH; [intros; apply Hl; by right|]. assert (Hy : 0 < y) by (apply Hl; left). unfold try_shape.
  destruct (Z.eqb_spec (Z.quot n y * y) n) as [Heq|]; [|done]. destruct (dltb _ _); [|done]. cbn [fst].
  split; [nia|]. exists y. lia.
Qed.
Lemma determineXY_divides xd yd n : 0 < n → 0 < determineXY xd yd n ∧ (determineXY xd yd n | n).
Proof.
  intros Hn. apply try_shapes_divide; [intros y Hy%elem_of_seqZ; lia|done|]. split; [done|apply Z.divide_1_l].
Qed.

(** ** Floor plans of the stacked memories *)

(** the grid of a bank and the bursts fit; [InitThermalParams] builds it from the sizes of the banks *)
Record bank_grid_ok (c : Config) (t : ThermalParams) : Prop := {
  gk_x : 0 < t.(num_x_grids); gk_y : 0 < t.(num_y_grids);
  gk_mx : 0 < t.(mat_dim_x); gk_my : 0 < t.(mat_dim_y);
  gk_rows : t.(mat_dim_x) * t.(num_x_grids) = c.(rows);
  gk_cols : t.(mat_dim_y) * t.(num_y_grids) = c.(columns) * c.(device_width);
  gk_tile : t.(row_tile) = 1 ∧ t.(tile_row_num) = c.(rows);
  gk_dw : 0 < c.(device_width); gk_bl : 0 < c.(BL) < 2147483648
}.
(** one or two banks of a vault in each die, or at most sixteen banks in each channel and two channels in each die *)
Record stack_ok (c : Config) : Prop := {
  sk_bg : 0 < c.(bankgroups); sk_bpg : 0 < c.(banks_per_group);
  sk_banks : c.(banks) = c.(bankgroups) * c.(banks_per_group);
  sk_ch : 0 < c.(channels); sk_ranks : 0 < c.(ranks); sk_dies : 0 < c.(num_dies);
  sk_kind :
    (IsHMC c = true ∧ c.(bankgroups) = 1 ∧ ∃ k, c.(banks) = k * c.(num_dies) ∧ 0 < k <= 2) ∨
    (IsHBM c = true ∧ c.(bankgroups) <= 4 ∧ c.(banks_per_group) <= 4 ∧ c.(channels) <= 2 * c.(num_dies))
}.

(** the sizes are [int]s; a plan has [2 * channels] or 32 places for banks in each of its layers, and the solver's arrays
    have at most 288 entries for a cell of the plan *)
Definition places (c : Config) : Z := if IsHMC c then 2 * c.(channels) else 32.
Record stack_ints (c : Config) (t : ThermalParams) : Prop := {
  si_plan : 288 * ((c.(num_dies) + 1) * (places c * (t.(num_x_grids) * t.(num_y_grids)))) < 2147483648;
  si_ranks : c.(channels) * c.(ranks) < 2147483648; si_banks : c.(banks) < 2147483648; si_rows : c.(rows) < 2147483648;
  si_cols : c.(columns) * c.(device_width) < 2147483648; si_col : c.(columns) < 2147483648
}.
Lemma net_bound P dX dY : 0 < P → 0 < dX → 0 < dY → 288 * (P * (dX * dY)) < 2147483648 →
  0 <= dX < 2147483648 ∧ 0 <= dY < 2147483648 ∧ 0 <= P < 2147483648 ∧
  8 * T_size P (dX + num_dummy) (dY + num_dummy) < 2147483648.
Proof.
  intros HP HX HY Hn. unfold T_size, numLayer, num_dummy.
  assert (1 <= dX * dY) as H0 by nia. assert (P * 1 <= P * (dX * dY)) as H1 by (apply Z.mul_le_mono_nonneg_l; lia).
  assert (1 * (dX * dY) <= P * (dX * dY)) as H2 by (apply Z.mul_le_mono_nonneg_r; lia).
  assert (dX <= dX * dY ∧ dY <= dX * dY) as [H3 H4] by nia.
  assert ((dX + 2) * (dY + 2) <= 9 * (dX * dY)) as H5 by nia.
  assert ((dX + 2) * (dY + 2) * (P * 3 + 1) <= 9 * (dX * dY) * (4 * P)) as H6 by (apply Z.mul_le_mono_nonneg; nia).
  lia.
Qed.

Lemma HBM_not_HMC (d : DRAMParams) : IsHBM d = true → IsHMC d = false.
Proof. unfold IsHBM, IsHMC. by destruct (protocol d). Qed.

Section Plans.
Context (c : Config) (t : ThermalParams) (l : ThermalLayout) (Hg : bank_grid_ok c t) (Hs : stack_ok c) (Hi : stack_ints c t).

Lemma stack_is_3D : IsHBM c || IsHMC c = true.
Proof. destruct (sk_kind _ Hs) as [[-> _]|[-> _]]; [apply orb_true_r|done]. Qed.

(** the plan of a stack *)
Lemma stack_plan : ∃ f, floor_plan c t = Ret f ∧ f.(numP) = c.(num_dies) + 1 ∧ f.(num_case) = 1 ∧
  0 < f.(bank_x) ∧ 0 < f.(bank_y) ∧ 0 < f.(vault_x) ∧ 0 < f.(vault_y) ∧
  (IsHMC c = true → f.(bank_x) = 1 ∧ f.(bank_y) = 2 ∧ f.(vault_x) * f.(vault_y) = c.(channels)) ∧
  (IsHBM c = true → f.(bank_x) = 8 ∧ f.(bank_y) = 2 ∧ f.(vault_x) = 1 ∧ f.(vault_y) = 2) ∧
  f.(dimX) = f.(vault_x) * f.(bank_x) * t.(num_x_grids) ∧ f.(dimY) = f.(vault_y) * f.(bank_y) * t.(num_y_grids) ∧
  ints_ok c f.
Proof.
  pose proof (gk_x _ _ Hg) as Hnx. pose proof (gk_y _ _ Hg) as Hny. pose proof (sk_dies _ Hs) as Hd.
  destruct Hi as [Hpl Hir Hib Hiw Hic Hic']. unfold floor_plan, places in *. destruct (IsHMC c) eqn:HM.
  - set (v := determineXY _ _ _). destruct (determineXY_divides (dmul (double_of_Z 1) t.(bank_asr)) (dmul (double_of_Z 2) (double_of_Z 1))
      c.(channels) (sk_ch _ Hs)) as [Hv [k Hk]]. fold v in Hv, Hk. pose proof (sk_ch _ Hs).
    rewrite iquot_ok by lia. cbn [mbind outcome_bind].
    assert (Z.quot c.(channels) v = k) as -> by (rewrite Hk; apply Z.quot_mul; lia).
    assert (0 < k) as Hk0 by nia.
    destruct (net_bound (c.(num_dies) + 1) (v * 1 * t.(num_x_grids)) (k * 2 * t.(num_y_grids))) as (B1 & B2 & B3 & B4);
      [lia|nia|nia| |].
    { replace (v * 1 * t.(num_x_grids) * (k * 2 * t.(num_y_grids))) with (2 * (k * v) * (t.(num_x_grids) * t.(num_y_grids))) by ring.
      by rewrite <- Hk. }
    rewrite !i32_id by (unfold is_i32; lia).
    eexists. split; [done|]. cbn. split_and!; try done; [intros _; split_and!; lia| |].
    + intros HB%HBM_not_HMC. congruence.
    + split; cbn; done || lia.
  - destruct (sk_kind _ Hs) as [[HM' _]|[HB _]]; [congruence|]. rewrite HB.
    destruct (net_bound (c.(num_dies) + 1) (1 * 8 * t.(num_x_grids)) (2 * 2 * t.(num_y_grids))) as (B1 & B2 & B3 & B4);
      [lia|lia|lia| |].
    { by replace (1 * 8 * t.(num_x_grids) * (2 * 2 * t.(num_y_grids))) with (32 * (t.(num_x_grids) * t.(num_y_grids))) by ring. }
    rewrite !i32_id by (unfold is_i32; lia).
    eexists. split; [done|]. cbn. split_and!; try done. split; cbn; done || lia.
Qed.

(** vault coordinates of a cube, in either order *)
Lemma HMC_vault (f : FloorPlan) ch : IsHMC c = true → 0 < f.(vault_x) → 0 < f.(vault_y) →
  f.(vault_x) * f.(vault_y) = c.(channels) → 0 <= ch < c.(channels) →
  returns (MapToVault c l f ch) (λ v, 0 <= v.1 < f.(vault_x) ∧ 0 <= v.2 < f.(vault_y) ∧
    ch = if l.(bank_order) =? 0 then v.2 * f.(vault_x) + v.1 else v.1 * f.(vault_y) + v.2).
Proof.
  intros HM Hx Hy Hxy Hch. unfold MapToVault. rewrite HM. destruct (l.(bank_order) =? 0) eqn:Ho; cbv zeta.
  all: rewrite iquot_ok, irem_ok by lia; cbn [mbind outcome_bind]; apply returns_ret; cbn [pair_swap fst snd].
  - pose proof (Z.quot_rem' ch f.(vault_x)). pose proof (Z.rem_bound_pos ch f.(vault_x) ltac:(lia) Hx).
    split; [done|]. split; [|lia]. rewrite Z.quot_div_nonneg by lia. split; [apply Z.div_pos; lia|].
    apply Z.div_lt_upper_bound; lia.
  - pose proof (Z.quot_rem' ch f.(vault_y)). pose proof (Z.rem_bound_pos ch f.(vault_y) ltac:(lia) Hy).
    split; [|split; [done|lia]]. rewrite Z.quot_div_nonneg by lia. split; [apply Z.div_pos; lia|].
    apply Z.div_lt_upper_bound; lia.
Qed.

(** bank coordinates of a cube whose dies hold [k] banks of each vault *)
Lemma HMC_bank (f : FloorPlan) k ba : IsHMC c = true → f.(bank_x) = 1 → f.(bank_y) = 2 →
  c.(banks) = k * c.(num_dies) → 0 < k <= 2 → 0 <= ba < 2147483648 →
  MapToBank c l f 0 ba = Ret (0, Z.rem ba k).
Proof.
  intros HM Hx Hy Hk Hk2 Hba. unfold MapToBank. rewrite HM, Hx, Hy. pose proof (sk_dies _ Hs).
  rewrite iquot_ok by lia. cbn [mbind outcome_bind]. rewrite Z.mul_0_l, Z.add_0_l, i32_id by (unfold is_i32; lia).
  rewrite Hk, Z.quot_mul by lia.
  rewrite irem_ok by lia. cbn [mbind outcome_bind]. pose proof (Z.rem_bound_pos ba k ltac:(lia) ltac:(lia)).
  destruct (l.(bank_order) =? 0); cbn [negb]; rewrite iquot_ok, irem_ok by lia; cbn [mbind outcome_bind pair_swap fst snd].
  - by rewrite Z.quot_1_r, Z.rem_1_r.
  - by rewrite Z.quot_small, Z.rem_small by lia.
Qed.
Lemma HMC_z (f : FloorPlan) k ch ba : IsHMC c = true → f.(numP) = c.(num_dies) + 1 →
  c.(banks) = k * c.(num_dies) → 0 < k <= 2 → 0 <= ba < c.(banks) →
  MapToZ c l f ch ba = Ret (if l.(bank_layer_order) =? 0 then Z.quot ba k else c.(num_dies) - 1 - Z.quot ba k).
Proof.
  intros HM Hp Hk Hk2 Hba. unfold MapToZ. rewrite HM, Hp. pose proof (sk_dies _ Hs). rewrite iquot_ok by lia.
  cbn [mbind outcome_bind]. rewrite Hk, Z.quot_mul by lia. rewrite iquot_ok by lia. cbn [mbind outcome_bind].
  pose proof (si_banks _ _ Hi). assert (0 <= Z.quot ba k < c.(num_dies)).
  { rewrite Z.quot_div_nonneg by lia. split; [apply Z.div_pos; lia|apply Z.div_lt_upper_bound; lia]. }
  assert (c.(num_dies) <= c.(banks)) by nia.
  destruct (l.(bank_layer_order) =? 0); f_equal. rewrite i32_id by (unfold is_i32; lia). lia.
Qed.

(** the dies hold the banks; the last layer is the logic's *)
Definition z_below (f : FloorPlan) : Prop := ∀ ch ba, 0 <= ch < c.(channels) → 0 <= ba < c.(banks_per_group) →
  returns (MapToZ c l f ch ba) (λ z, 0 <= z < f.(numP) - 1).
(** the position of a bank tells the bank *)
Definition separates (f : FloorPlan) : Prop := ∀ ch bg ba ch' bg' ba',
  0 <= ch < c.(channels) → 0 <= bg < c.(bankgroups) → 0 <= ba < c.(banks_per_group) →
  0 <= ch' < c.(channels) → 0 <= bg' < c.(bankgroups) → 0 <= ba' < c.(banks_per_group) →
  MapToVault c l f ch = MapToVault c l f ch' → MapToBank c l f bg ba = MapToBank c l f bg' ba' →
  MapToZ c l f ch ba = MapToZ c l f ch' ba' → ch = ch' ∧ bg = bg' ∧ ba = ba'.

Lemma HMC_fits f : floor_plan c t = Ret f → IsHMC c = true → fits c t l f ∧ z_below f ∧ separates f.
Proof.
  intros Hf HM. destruct stack_plan as (f' & Hf' & HP & _ & Hbx & Hby & Hvx & Hvy & HH & _ & HX & HY & Hint).
  rewrite Hf in Hf'. injection Hf' as <-. destruct (HH HM) as (Ex & Ey & Hv). clear HH.
  destruct (sk_kind _ Hs) as [(_ & Hbg & k & Hk & Hk2)|[HB _]].
  2: { apply HBM_not_HMC in HB. congruence. }
  pose proof (sk_banks _ Hs) as Hbk. pose proof (sk_dies _ Hs) as Hd. pose proof (si_banks _ _ Hi) as Hb32.
  rewrite Hbg, Z.mul_1_l in Hbk.
  assert (Hz : z_below f).
  { intros ch ba _ Hba. rewrite (HMC_z f k) by (done || lia). apply returns_ret. rewrite HP.
    assert (0 <= Z.quot ba k < c.(num_dies)).
    { rewrite Z.quot_div_nonneg by lia. split; [apply Z.div_pos; lia|apply Z.div_lt_upper_bound; nia]. }
    destruct (l.(bank_layer_order) =? 0); lia. }
  split; [|split; [done|]].
  - destruct Hg. unfold vaults_x, vaults_y. split; unfold vaults_x, vaults_y; rewrite ?HM; cbn [orb]; try done; [apply Hs|..].
    + intros ch Hch. eapply returns_mono; [by apply HMC_vault|]. tauto.
    + intros bg ba Hbg' Hba. assert (bg = 0) as -> by lia. rewrite (HMC_bank f k) by (done || lia). apply returns_ret.
      cbn [fst snd]. pose proof (Z.rem_bound_pos ba k ltac:(lia) ltac:(lia)). lia.
    + intros ch ba Hch Hba. eapply returns_mono; [by apply Hz|]. cbn. lia.
  - intros ch bg ba ch' bg' ba' Hch Hbg' Hba Hch' Hbg'' Hba' E1 E2 E3.
    assert (bg = 0) as -> by lia. assert (bg' = 0) as -> by lia.
    rewrite !(HMC_bank f k) in E2 by (done || lia). rewrite !(HMC_z f k) in E3 by (done || lia).
    destruct (HMC_vault f ch) as (v & Hv1 & _ & _ & Hc1); [done..|].
    destruct (HMC_vault f ch') as (v' & Hv2 & _ & _ & Hc2); [done..|].
    rewrite Hv1, Hv2 in E1. injection E1 as ->. split; [by rewrite Hc1, Hc2|]. split; [done|].
    injection E2 as E2. assert (Z.quot ba k = Z.quot ba' k) as E3'.
    { destruct (l.(bank_layer_order) =? 0); injection E3; lia. }
    rewrite (Z.quot_rem' ba k), (Z.quot_rem' ba' k). by rewrite E2, E3'.
Qed.

Lemma HBM_fits f : floor_plan c t = Ret f → IsHBM c = true → fits c t l f ∧ z_below f ∧ separates f.
Proof.
  intros Hf HB. pose proof (HBM_not_HMC _ HB) as HM.
  destruct stack_plan as (f' & Hf' & HP & _ & Hbx & Hby & Hvx & Hvy & _ & HH & HX & HY & Hint).
  rewrite Hf in Hf'. injection Hf' as <-. destruct (HH HB) as (Ex & Ey & Evx & Evy). clear HH.
  destruct (sk_kind _ Hs) as [[HM' _]|(_ & Hbg & Hbpg & Hch)]; [congruence|].
  pose proof (sk_dies _ Hs) as Hd.
  assert (H32 : ∀ bg ba, 0 <= bg < c.(bankgroups) → 0 <= ba < c.(banks_per_group) →
    i32 (bg * 2 + Z.quot ba 2) = bg * 2 + Z.quot ba 2).
  { intros bg ba Hbg' Hba. rewrite Z.quot_div_nonneg by lia.
    assert (0 <= ba / 2 < 2) by (split; [apply Z.div_pos; lia|apply Z.div_lt_upper_bound; lia]).
    apply i32_id. unfold is_i32. lia. }
  assert (Hz : z_below f).
  { intros ch ba Hc _. unfold MapToZ. rewrite HM, HB. apply returns_ret. rewrite HP.
    Z.to_euclidean_division_equations; lia. }
  split; [|split; [done|]].
  - destruct Hg. split; unfold vaults_x, vaults_y; rewrite ?HM, ?HB; cbn [orb]; try done; [apply Hs|..].
    + intros ch Hc. unfold MapToVault. rewrite HM, HB. apply returns_ret. cbn [fst snd]. rewrite Evx, Evy.
      Z.to_euclidean_division_equations; lia.
    + intros bg ba Hbg' Hba. unfold MapToBank. rewrite HM, HB. apply returns_ret. cbn [fst snd]. rewrite Ex, Ey, H32 by done.
      Z.to_euclidean_division_equations; lia.
    + intros ch ba Hc Hba. eapply returns_mono; [by apply Hz|]. cbn. lia.
  - intros ch bg ba ch' bg' ba' Hc Hbg' Hba Hc' Hbg'' Hba'. unfold MapToVault, MapToBank, MapToZ. rewrite HM, HB.
    rewrite !H32 by done. intros [= E1] [= E2 E3] [= E4]. Z.to_euclidean_division_equations; lia.
Qed.

Lemma stack_fits : ∃ f, floor_plan c t = Ret f ∧ fits c t l f ∧ z_below f ∧ separates f.
Proof.
  destruct stack_plan as (f & Hf & _). exists f. split; [done|].
  destruct (sk_kind _ Hs) as [[HM _]|[HB _]]; [by apply HMC_fits|by apply HBM_fits].
Qed.

End Plans.

(** ** The grid of a bank *)
Lemma InitThermalParams_grid `{Strtod} r (c : Config) t l :
  InitThermalParams r c c = Ret t → t.(layout_) = Some l →
  0 < c.(rows) → 0 < c.(columns) → 0 < c.(device_width) → c.(columns) * c.(device_width) < 2147483648 →
  0 < c.(BL) < 2147483648 →
  0 < t.(mat_dim_x) → 0 < t.(mat_dim_y) → (t.(mat_dim_x) | c.(rows)) → (t.(mat_dim_y) | c.(columns) * c.(device_width)) →
  bank_grid_ok c t.
Proof.
  intros Ht Hl Hr Hco Hdw Hsm Hbl Hmx Hmy [p Hp] [q Hq]. unfold InitThermalParams in Ht. cbv zeta in Ht.
  set (mx := GetInteger r "thermal" "mat_dim_x" 512) in *. set (my := GetInteger r "thermal" "mat_dim_y" 512) in *.
  rewrite (i32_id (c.(columns) * c.(device_width))) in Ht by (unfold is_i32; nia). unfold iquot in Ht.
  destruct (Z.eqb_spec mx 0); [done|]. destruct (Z.eqb_spec my 0); [done|]. cbn [mbind outcome_bind] in Ht.
  destruct (dltb _ _ && _).
  - exfalso. destruct (tile_rows _ _ _) as [tile|]; [|done]. cbn [mbind outcome_bind] in Ht.
    destruct (tile =? 0); [done|]. cbn [mbind outcome_bind] in Ht. injection Ht as <-. done.
  - destruct (int_of_ceil _) as [nref|]; [|done]. cbn [mbind outcome_bind] in Ht. injection Ht as <-.
    cbn [mat_dim_x mat_dim_y] in *. split; cbn; try done; try lia.
    + rewrite Hp, Z.quot_mul by lia. nia.
    + rewrite Hq, Z.quot_mul by lia. nia.
    + rewrite Hp, Z.quot_mul by lia. lia.
    + rewrite Hq, Z.quot_mul by lia. lia.
Qed.

(** ** The constructor *)

Lemma count_steps_ok fuel n time dt iter : (n <= fuel)%nat → 0 <= iter → iter + Z.of_nat n < 2147483648 →
  dleb dt (ddiv time (double_of_Z (iter + Z.of_nat n))) = false →
  returns (count_steps fuel time dt iter) (λ k, iter <= k <= iter + Z.of_nat n).
Proof.
  revert n iter. induction fuel as [|fuel IH]; intros n iter Hn H0 Hb Hd; cbn [count_steps].
  - assert (n = 0%nat) as -> by lia. rewrite Z.add_0_r in Hd. rewrite Hd. apply returns_ret. lia.
  - destruct (dleb dt (ddiv time (double_of_Z iter))) eqn:Hi; [|apply returns_ret; lia].
    destruct n as [|n]; [rewrite Z.add_0_r in Hd; congruence|]. rewrite i32_id by (unfold is_i32; lia).
    eapply returns_mono; [apply (IH n); [lia..|]|].
    + replace (iter + 1 + Z.of_nat n) with (iter + Z.of_nat (S n)) by lia. done.
    + intros k Hk. cbn beta in Hk. lia.
Qed.

(** every row of the matrix has the capacity of its layer *)
Lemma stable_step_ok (W Lc : double) numP dimX dimZ : 0 < numP → 0 < dimX → 0 < dimZ →
  returns (stable_step (dimX * dimZ) (calculate_Cap_array W Lc numP dimX dimZ) (matrix W Lc numP dimX dimZ)) (λ _, True).
Proof.
  intros Hp HX HZ. unfold stable_step. apply for_inv; [done|]. intros dt e He _.
  pose proof (matrix_rows W Lc numP dimX dimZ HX HZ e He) as Hr.
  rewrite iquot_ok by nia. cbn [mbind outcome_bind]. destruct (_ =? _); [|by apply returns_ret].
  destruct (aget_ok (calculate_Cap_array W Lc numP dimX dimZ) (Z.quot e.(e_row) (dimX * dimZ))) as [v ->].
  { unfold calculate_Cap_array. rewrite zlen_fmap, zlen_seqZ by (unfold numLayer; lia).
    rewrite Z.quot_div_nonneg by nia. split; [apply Z.div_pos; nia|]. apply Z.div_lt_upper_bound; [nia|].
    unfold T_size in Hr. lia. }
  by apply returns_ret.
Qed.

(** a configuration, its thermal parameters and its plan, with the steps that an epoch needs *)
Record setup_ok (c : Config) (t : ThermalParams) (l : ThermalLayout) (f : FloorPlan) (mapped : option (list (list Z)))
    (steps : nat) : Prop := {
  up_stack : stack_ok c; up_grid : bank_grid_ok c t; up_ints : stack_ints c t;
  up_plan : floor_plan c t = Ret f; up_layout : t.(layout_) = Some l;
  up_mapping : SetPhyAddressMapping t.(loc_mapping) = Ret mapped; up_loc : loc_ok c mapped;
  up_num : 0 < l.(num_row_refresh); up_rows : (l.(num_row_refresh) | c.(rows));
  up_steps : ∀ dt, stable_step (grid_x f * grid_y f)
      (calculate_Cap_array l.(chip_dim_x) l.(chip_dim_y) f.(numP) (grid_x f) (grid_y f))
      (matrix l.(chip_dim_x) l.(chip_dim_y) f.(numP) (grid_x f) (grid_y f)) = Ret dt →
    dleb dt (ddiv (epoch_time c) (double_of_Z (time_iter0 + Z.of_nat steps))) = false;
  up_int : time_iter0 + Z.of_nat steps < 2147483648
}.

Lemma cell_of_matrix {A} n m (x y : A) i j : cell_of (matrix_of n m x) i j = Ret y → y = x.
Proof.
  unfold cell_of, matrix_of. destruct (aget _ i) as [r|] eqn:Hr; [|done]. cbn [mbind outcome_bind].
  apply aget_Ret in Hr as [_ Hr]. apply lookup_replicate in Hr as [-> _].
  intros [_ Hy]%aget_Ret. by apply lookup_replicate in Hy as [-> _].
Qed.

Lemma ThermalCalculator_new_ok fuel (c : Config) t l f mapped steps : setup_ok c t l f mapped steps → (steps <= fuel)%nat →
  returns (ThermalCalculator_new fuel c t) (λ s, thermal_ok c t s ∧ floor s = f ∧ plan s = l ∧ sample_id s = 0 ∧
    (∀ i j, 0 <= i < c.(channels) * c.(ranks) → 0 <= j < c.(banks) → cell_of s.(refresh_count) i j = Ret 0)).
Proof.
  intros [Hs Hg Hi Hf Hl Hm Hloc Hn Hr Hst Hint] Hfuel. unfold ThermalCalculator_new, layout_of. rewrite Hf, Hl, Hm.
  cbn [mbind outcome_bind].
  destruct (stack_plan c t Hg Hs Hi) as (f' & Hf' & HP & Hca & Hbx & Hby & Hvx & Hvy & _ & _ & HX & HY & Hsz).
  rewrite Hf in Hf'. injection Hf' as <-.
  destruct (stack_fits c t l Hg Hs Hi) as (f' & Hf' & Hfit & _). rewrite Hf in Hf'. injection Hf' as <-.
  pose proof (sk_dies _ Hs). pose proof (sk_ch _ Hs). pose proof (sk_ranks _ Hs). pose proof (si_ranks _ _ Hi).
  pose proof (sk_bg _ Hs). pose proof (sk_bpg _ Hs). pose proof (sk_banks _ Hs).
  destruct (grid_x_eq c f Hsz) as [_ Hgx], (grid_y_eq c f Hsz) as [_ Hgy].
  destruct (net_small c f Hsz) as (Hlay & _ & Hnet). pose proof (cells_small c f Hsz) as Hcells. unfold map_cells in Hcells.
  rewrite (i32_id (f.(numP) * _ * _)), (i32_id (c.(channels) * _)) by (unfold is_i32; nia).
  assert (grid_x f * grid_y f < 2147483648) as Hlay'.
  { unfold T_size, numLayer in Hnet. nia. }
  rewrite (i32_id (grid_x f * _)) by (unfold is_i32; lia).
  match goal with |- context [if ?b then Ret tt else _] => assert (b = true) as -> end.
  { rewrite !andb_true_iff, !negb_true_iff, !Z.ltb_ge. nia. }
  cbn [mbind outcome_bind].
  destruct (Midx_reference l.(chip_dim_x) l.(chip_dim_y) f.(numP) (grid_x f) (grid_y f) Hgx Hgy ltac:(lia)) as [HM _].
  rewrite HM. cbn [mbind outcome_bind]. unfold calculate_time_step.
  destruct (stable_step_ok l.(chip_dim_x) l.(chip_dim_y) f.(numP) (grid_x f) (grid_y f) ltac:(lia) Hgx Hgy) as (dt & Hdt & _).
  rewrite Hdt. cbn [mbind outcome_bind].
  eapply returns_bind; [eapply count_steps_ok; [exact Hfuel|done|exact Hint|by apply Hst]|]. intros iter Hiter. apply returns_ret.
  split; [split; [split|]|].
  - split; cbn [floor plan loc accu_Pmap cur_Pmap]; try done; [|lia|].
    + split; cbn [floor accu_Pmap cur_Pmap]; apply shape_matrix_of; lia.
    + pose proof (stack_is_3D c Hs) as H3D. rewrite orb_comm in H3D. rewrite H3D. exact Hca.
  - split; cbn [floor plan refresh_count]; [apply shape_matrix_of; [nia|rewrite (sk_banks _ Hs); nia]|apply Hs|apply Hi|done|done|].
    intros i j n Hc. apply cell_of_matrix in Hc as ->. split; [done|]. rewrite Z.mul_0_l.
    rewrite <- (gk_rows _ _ Hg). pose proof (gk_mx _ _ Hg). pose proof (gk_x _ _ Hg). nia.
  - split; cbn [floor plan Midx Cap time_iter T_trans T_final background_energy_]; try done; try lia.
    + unfold time_iter0 in Hiter. lia.
    + split; [unfold zlen; rewrite length_replicate; lia|]. intros i r [_ Hr']%aget_Ret.
      apply lookup_replicate in Hr' as [-> _]. unfold initialize_Temperature, zlen. rewrite length_replicate.
      unfold T_size, numLayer. nia.
    + unfold zlen. rewrite length_replicate. lia.
    + apply shape_matrix_of; lia.
  - cbn [floor plan sample_id refresh_count]. split_and!; try done. intros i j Hir Hj.
    destruct (shape_cell _ _ _ i j (shape_matrix_of (c.(channels) * c.(ranks)) c.(banks) 0 ltac:(nia) ltac:(lia)) Hir Hj) as [n Hn'].
    rewrite Hn'. f_equal. by eapply cell_of_matrix.
Qed.

(** ** Commands on a stack *)


Section Command.
Context (c : Config) (t : ThermalParams) (s : ThermalCalculator).
Context (Hg : bank_grid_ok c t) (Hs : stack_ok c) (Hi : stack_ints c t) (Hf : floor_plan c t = Ret s.(floor)).

End Command.

(** ** Refreshes *)

(** the first rows of [k] refreshes of a bank *)
Fixpoint refresh_starts (c : Config) (k : nat) (s : ThermalCalculator) (r ib : Z) : outcome (list Z * ThermalCalculator) :=
  match k with
  | O => Ret ([], s)
  | S k => p ← next_refresh c s.(plan) s r ib; q ← refresh_starts c k p.2 r ib; Ret (p.1 :: q.1, q.2)
  end.
(** the counter after [i] refreshes *)
Definition wrapped (num rows i : Z) : Z := if rows mod num =? 0 then i mod (rows / num) else i.

Lemma wrapped_next num rows i : 0 < num → 0 < rows →
  (if (wrapped num rows i + 1) * num =? rows then 0 else wrapped num rows i + 1) = wrapped num rows (i + 1).
Proof.
  intros Hn Hr. unfold wrapped. destruct (Z.eqb_spec (rows mod num) 0) as [Hd|Hnd].
  - apply Z.mod_divide in Hd as [m Hm]; [|lia]. rewrite Hm, Z.div_mul by lia. assert (0 < m) by nia. pose proof (Z.mod_pos_bound i m ltac:(lia)).
    rewrite <- (Z.add_mod_idemp_l i 1 m) by lia.
    destruct (Z.eqb_spec ((i mod m + 1) * num) (m * num)) as [Heq|Hne].
    + assert (i mod m + 1 = m) as -> by nia. by rewrite Z.mod_same by lia.
    + rewrite (Z.mod_small (i mod m + 1)); [done|]. assert (i mod m + 1 ≠ m) by (intros E; rewrite E in Hne; lia). lia.
  - destruct (Z.eqb_spec ((i + 1) * num) rows) as [<-|]; [|done]. destruct Hnd. apply Z.mod_mul. lia.
Qed.

(** the counters and the rows stay [int]s: always when [num] divides the rows, else for as long as the product does *)
Lemma wrapped_int num rows k j : 0 < num → 0 < rows < 2147483648 → rows mod num = 0 ∨ k * num < 2147483648 →
  0 <= j < k → 0 <= wrapped num rows j ∧ (wrapped num rows j + 1) * num < 2147483648.
Proof.
  intros Hn Hr Hk Hj. unfold wrapped. destruct (Z.eqb_spec (rows mod num) 0) as [Hd|Hnd].
  - apply Z.mod_divide in Hd as [m Hm]; [|lia]. rewrite Hm, Z.div_mul by lia. pose proof (Z.mod_pos_bound j m ltac:(nia)). nia.
  - destruct Hk as [Hk|Hk]; [done|]. nia.
Qed.
Lemma next_refresh_wraps (c : Config) s n k r ib i : shape n k s.(refresh_count) →
  0 < s.(plan).(num_row_refresh) → 0 < c.(rows) →
  0 <= wrapped s.(plan).(num_row_refresh) c.(rows) i ∧
    (wrapped s.(plan).(num_row_refresh) c.(rows) i + 1) * s.(plan).(num_row_refresh) < 2147483648 →
  cell_of s.(refresh_count) r ib = Ret (wrapped s.(plan).(num_row_refresh) c.(rows) i) →
  returns (next_refresh c s.(plan) s r ib) (λ p,
    p.1 = wrapped s.(plan).(num_row_refresh) c.(rows) i * s.(plan).(num_row_refresh) ∧
    p.2 = s <| refresh_count := p.2.(refresh_count) |> ∧ shape n k p.2.(refresh_count) ∧
    ∀ a b, cell_of p.2.(refresh_count) a b =
      if (a =? r) && (b =? ib) then Ret (wrapped s.(plan).(num_row_refresh) c.(rows) (i + 1))
      else cell_of s.(refresh_count) a b).
Proof.
  intros Hs Hn Hr [Hw0 Hw] Hc. unfold next_refresh. unfold cell_of in Hc. destruct (aget s.(refresh_count) r) as [row|] eqn:Hrow; [|done].
  cbn [mbind outcome_bind] in *. rewrite Hc. cbn [mbind outcome_bind]. cbv zeta.
  assert (∀ x, 0 <= x <= (wrapped s.(plan).(num_row_refresh) c.(rows) i + 1) * s.(plan).(num_row_refresh) → i32 x = x) as H32.
  { intros x Hx. apply i32_id. unfold is_i32. lia. }
  rewrite (H32 (_ + 1)), (H32 ((_ + 1) * _)), (H32 (_ * _)), wrapped_next by (done || nia).
  set (w := wrapped _ _ (i + 1)).
  destruct (aset row ib w) as [row'|] eqn:Hrow'.
  2: { rewrite aset_ok in Hrow' by (apply aget_bound in Hc; done). done. }
  cbn [mbind outcome_bind]. destruct (aset s.(refresh_count) r row') as [rc|] eqn:Hrc.
  2: { rewrite aset_ok in Hrc by (apply aget_bound in Hrow; done). done. }
  cbn [mbind outcome_bind]. apply returns_ret. cbn [fst snd].
  destruct (write_cell _ _ _ _ _ _ _ _ _ Hs Hrow Hrow' Hrc) as [Hs' Hcell].
  split; [done|]. split; [by destruct s|]. split; [done|exact Hcell].
Qed.

Lemma refresh_starts_spec (c : Config) k s n m r ib i : shape n m s.(refresh_count) →
  0 < s.(plan).(num_row_refresh) → 0 < c.(rows) →
  (∀ j, i <= j < i + Z.of_nat k → 0 <= wrapped s.(plan).(num_row_refresh) c.(rows) j ∧
    (wrapped s.(plan).(num_row_refresh) c.(rows) j + 1) * s.(plan).(num_row_refresh) < 2147483648) →
  cell_of s.(refresh_count) r ib = Ret (wrapped s.(plan).(num_row_refresh) c.(rows) i) →
  returns (refresh_starts c k s r ib) (λ q,
    q.1 = (λ j, wrapped s.(plan).(num_row_refresh) c.(rows) j * s.(plan).(num_row_refresh)) <$> seqZ i (Z.of_nat k) ∧
    q.2 = s <| refresh_count := q.2.(refresh_count) |> ∧
    ∀ a b, cell_of q.2.(refresh_count) a b =
      if (a =? r) && (b =? ib) then Ret (wrapped s.(plan).(num_row_refresh) c.(rows) (i + Z.of_nat k))
      else cell_of s.(refresh_count) a b).
Proof.
  revert s i. induction k as [|k IH]; intros s i Hs Hn Hr Hint Hc; cbn [refresh_starts].
  - apply returns_ret. split; [done|]. split; [by destruct s|]. intros a b. cbn [snd]. rewrite Z.add_0_r.
    destruct (Z.eqb_spec a r) as [->|]; [|done]. by destruct (Z.eqb_spec b ib) as [->|].
  - eapply returns_bind; [apply (next_refresh_wraps c s n m r ib i); [done..|apply Hint; lia|done]|]. intros [st s1] (E1 & E2 & Hs1 & Hc1). cbn [fst snd] in *.
    assert (Hp : plan s1 = plan s) by (rewrite E2; done).
    eapply returns_bind; [apply (IH s1 (i + 1)); rewrite ?Hp; try done; [intros; apply Hint; lia|]|].
    { rewrite Hc1, !Z.eqb_refl. done. }
    rewrite Hp. intros q (Q1 & Q2 & Q3). apply returns_ret. cbn [fst snd]. split; [|split].
    + rewrite seqZ_cons by lia. cbn [fmap list_fmap]. rewrite Q1, E1.
      replace (Z.pred (Z.of_nat (S k))) with (Z.of_nat k) by lia. done.
    + rewrite Q2, E2. by destruct s.
    + intros a b. rewrite Q3, Hc1. replace (i + 1 + Z.of_nat k) with (i + Z.of_nat (S k)) by lia.
      by destruct (_ && _).
Qed.

(** consecutive blocks of rows *)
Lemma blocks_of_rows num m : 0 <= num → 0 <= m →
  concat ((λ j, seqZ (j * num) num) <$> seqZ 0 m) = seqZ 0 (m * num).
Proof.
  intros Hn. revert m. apply natlike_ind; [done|]. intros m Hm IH. unfold Z.succ.
  rewrite (seqZ_app 0 m 1), fmap_app, concat_app, IH by lia.
  rewrite (seqZ_cons (0 + m) 1), (seqZ_nil _ (Z.pred 1)) by lia. cbn [fmap list_fmap concat].
  replace ((m + 1) * num) with (m * num + num) by lia. rewrite app_nil_r, (seqZ_app 0 (m * num) num) by nia.
  done.
Qed.

(** ** The planar memories *)

(** the loop that never ends, on a row of [n] cells: it runs out of fuel, leaves the row, or leaves the [int]s *)
Lemma stuck_never fuel n i at_ case_id e m m' : 0 < n → stuck_loop fuel n i at_ case_id e m ≠ Ret m'.
Proof.
  intros Hn. revert i m. induction fuel as [|fuel IH]; intros i m; cbn [stuck_loop];
    (destruct (Z.ltb_spec 0 n); [|lia]); [done|].
  destruct (add_energy m case_id (at_ i) e) as [m1|]; [|done]. cbn [mbind outcome_bind].
  destruct (i + 1 <? 2147483648); [apply IH|done].
Qed.
Lemma stuck_first fuel n i case_id e m nc k : 0 < n → shape nc k m → 0 <= case_id < nc → 0 < k →
  i + Z.of_nat fuel < 2147483648 → stuck_loop fuel n i (λ _, 0) case_id e m = Fault Diverge.
Proof.
  intros Hn Hm Hc Hk. revert i m Hm. induction fuel as [|fuel IH]; intros i m Hm Hi; cbn [stuck_loop];
    (destruct (Z.ltb_spec 0 n); [|lia]); [done|].
  destruct (add_energy_spec nc k m case_id 0 e Hm Hc ltac:(lia)) as (m1 & -> & Hsh & _). cbn [mbind outcome_bind].
  destruct (Z.ltb_spec (i + 1) 2147483648); [|lia]. apply IH; [by apply Hsh|lia].
Qed.
Lemma stuck_walk fuel n i case_id e m nc k : 0 < n → shape nc k m → 0 <= case_id < nc → 0 <= i <= k → k < 2147483648 →
  k - i < Z.of_nat fuel → stuck_loop fuel n i (λ i, i) case_id e m = Fault OutOfRange.
Proof.
  intros Hn Hm Hc Hi Hk. revert i m Hm Hi. induction fuel as [|fuel IH]; intros i m Hm Hi Hfu; [lia|]. cbn [stuck_loop].
  destruct (Z.ltb_spec 0 n); [|lia]. destruct (Z.eq_dec i k) as [->|Hne].
  - unfold add_energy. destruct (shape_row _ _ _ _ Hm Hc) as (r & -> & Hl). cbn [mbind outcome_bind].
    destruct (aget r k) as [v|f] eqn:Hv; [apply aget_bound in Hv; lia|]. cbn [mbind outcome_bind]. revert Hv. unfold aget.
    destruct (k <? 0); [by intros [= <-]|]. destruct (r !! _); [done|by intros [= <-]].
  - destruct (add_energy_spec nc k m case_id i e Hm Hc ltac:(lia)) as (m1 & -> & Hsh & _). cbn [mbind outcome_bind].
    destruct (Z.ltb_spec (i + 1) 2147483648); [|lia]. apply IH; [by apply Hsh|lia..].
Qed.

(** what the planar memories do with the first channel *)
Lemma planar_first fuel (c : Config) (s : ThermalCalculator) at_ m : 0 < c.(channels) → 0 < c.(ranks) →
  shape c.(channels) c.(ranks) s.(background_energy_) → 0 < s.(dimX) * s.(dimY) * s.(numP) < 2147483648 →
  (∀ e m', stuck_loop fuel (s.(dimX) * s.(dimY) * s.(numP)) 0 at_ 0 e m ≠ Ret m') →
  ∃ e, planar_background fuel c s at_ m = stuck_loop fuel (s.(dimX) * s.(dimY) * s.(numP)) 0 at_ 0 e m.
Proof.
  intros Hch Hra Hbg Hn Hst. unfold planar_background. rewrite (i32_id (_ * s.(numP))) by (unfold is_i32; lia). rewrite (seqZ_cons 0 c.(channels)), (seqZ_cons 0 c.(ranks)) by lia.
  cbn [for_]. destruct (shape_row _ _ _ 0 Hbg ltac:(lia)) as (row & Hrow & Hl). rewrite Hrow. cbn [mbind outcome_bind].
  destruct (aget_ok row 0 ltac:(lia)) as [b Hb]. rewrite Hb. cbn [mbind outcome_bind].
  replace (i32 (0 * c.(ranks) + 0)) with 0 by done. eexists. destruct (stuck_loop _ _ _ _ _ _ _) as [m'|f] eqn:Hs; [|done].
  by apply Hst in Hs.
Qed.

(** ** Runs *)
Lemma i32_add_l x y : i32 (i32 x + y) = i32 (x + y).
Proof.
  unfold i32. f_equal. replace (_ - 2147483648 + y + 2147483648) with ((x + 2147483648) mod 4294967296 + y) by lia.
  rewrite Zplus_mod_idemp_l. f_equal. lia.
Qed.
Lemma thermal_step_sample fuel (c : Config) t s e s' : IsHBM c || IsHMC c = true → thermal_ok c t s → event_ok c e →
  thermal_step fuel c t s e = Ret s' →
  thermal_ok c t s' ∧ s'.(sample_id) = (if decide (e = TEpoch) then i32 (s.(sample_id) + 1) else s.(sample_id)).
Proof.
  intros H3D Hs He Hstep. split; [by eapply (returns_inv _ _ _ (thermal_step_ok fuel c t H3D s e Hs He))|].
  destruct e as [ch cmd|ch r energy|power|]; cbn [thermal_step event_ok] in *.
  - destruct He as [Hch Ha]. destruct Hs as [Hi _].
    destruct (returns_inv _ _ _ (UpdateCMDPower_spec c t s ch cmd Hi Hch Ha) Hstep) as [(-> & _) _].
    by rewrite decide_False.
  - unfold UpdateBackgroundEnergy in Hstep. rewrite decide_False by done.
    destruct (aget _ ch) as [row|]; [|done]. cbn [mbind outcome_bind] in Hstep.
    destruct (aset row r energy) as [row'|]; [|done]. cbn [mbind outcome_bind] in Hstep.
    destruct (aset _ ch row') as [b|]; [|done]. by injection Hstep as <-.
  - injection Hstep as <-. by rewrite decide_False.
  - destruct (PrintTransPT_ok fuel c t H3D s Hs) as (q & Hq & _ & _ & _ & Hid & _). rewrite Hq in Hstep.
    injection Hstep as <-. by rewrite decide_True.
Qed.
Lemma thermal_events_ok fuel (c : Config) t : IsHBM c || IsHMC c = true → ∀ es s, thermal_ok c t s → Forall (event_ok c) es →
  returns (for_ es s (thermal_step fuel c t)) (λ s', thermal_ok c t s' ∧
    i32 s'.(sample_id) = i32 (s.(sample_id) + zlen (filter (λ e, e = TEpoch) es)) ∧
    (is_i32 s.(sample_id) → is_i32 s'.(sample_id))).
Proof.
  intros H3D. induction es as [|e es IH]; intros s Hs Hes; cbn [for_].
  - apply returns_ret. change (zlen (filter _ [])) with 0. by rewrite Z.add_0_r.
  - inversion Hes as [|? ? He Hes']; subst. destruct (thermal_step_ok fuel c t H3D s e Hs He) as (s1 & E1 & _).
    rewrite E1. cbn [mbind outcome_bind]. destruct (thermal_step_sample fuel c t s e s1 H3D Hs He E1) as [Hs1 Hid].
    eapply returns_mono; [by apply IH|]. intros s' (Hs' & Hid' & Hr'). split; [done|].
    rewrite Hid', Hid, filter_cons. destruct (decide (e = TEpoch)); [|by rewrite Hid in Hr'].
    rewrite zlen_cons, i32_add_l. split; [f_equal; lia|]. intros _. apply Hr'. rewrite Hid. apply i32_is.
Qed.

(** ** A small cube: one die, two vaults of two banks with 64 rows; one grid cell for a bank *)
Definition small_cube : Config :=
  hmc_2gb <| dram_ ::= λ d, d <| rows := 64 |> <| columns := 16 |> <| banks_per_group := 2 |> <| banks := 2 |>
                            <| num_dies := 1 |> |> <| system_ ::= λ s, s <| channels := 2 |> |>.
Definition small_ini : INIReader := mkINI 0 (list_to_map [("thermal=mat_dim_x", "64")]%string).
Definition small_layout : ThermalLayout := mkLayout 1 0 1 (double_lit 1 2) (double_lit 1 2) (double_of_Z 40).
Definition small_params : ThermalParams :=
  mkThermal (double_of_Z 5) 64 512 1 1 1 64 (double_of_Z 1) "" (Some small_layout).
Definition small_plan : FloorPlan := mkFloor 2 1 2 2 1 2 2 1.

Lemma small_new : InitThermalParams small_ini small_cube small_cube = Ret small_params.
Proof. vm_compute. reflexivity. Qed.
Lemma small_stack : stack_ok small_cube.
Proof.
  split; try (vm_compute; reflexivity). left. split; [reflexivity|]. split; [reflexivity|]. exists 2.
  split; [reflexivity|]. split; [reflexivity|discriminate].
Qed.
Lemma small_grid : bank_grid_ok small_cube small_params.
Proof.
  eapply (InitThermalParams_grid small_ini small_cube small_params small_layout small_new eq_refl);
    try (vm_compute; (reflexivity || (split; reflexivity))); by exists 1.
Qed.
Lemma small_stack_ints : stack_ints small_cube small_params.
Proof. split; vm_compute; reflexivity. Qed.
Definition small_dt : double := S754_finite false 5326438456597263 (-68).
Lemma small_stable : stable_step 16 (calculate_Cap_array (double_lit 1 2) (double_lit 1 2) 2 4 4)
  (matrix (double_lit 1 2) (double_lit 1 2) 2 4 4) = Ret small_dt.
Proof. vm_compute. reflexivity. Qed.
Lemma small_setup : setup_ok small_cube small_params small_layout small_plan None 60.
Proof.
  split; try reflexivity.
  - exact small_stack.
  - exact small_grid.
  - exact small_stack_ints.
  - intros off a _ Hr Hc. by exists a.
  - by exists 64.
  - intros dt. change (stable_step _ _ _) with (stable_step 16 (calculate_Cap_array (double_lit 1 2) (double_lit 1 2) 2 4 4)
      (matrix (double_lit 1 2) (double_lit 1 2) 2 4 4)). rewrite small_stable. intros [= <-]. vm_compute. reflexivity.
Qed.
Definition small_read : Command := mkCommand READ (mkAddress 1 0 0 1 5 0) 4096.
Lemma small_read_ok : addr_ok small_cube small_read.(addr).
Proof. split; vm_compute; try split; (reflexivity || discriminate). Qed.
Lemma small_started : ∃ s, ThermalCalculator_new 60 small_cube small_params = Ret s ∧
  thermal_ok small_cube small_params s ∧ floor s = small_plan ∧ plan s = small_layout ∧
  cell_of s.(refresh_count) 0 0 = Ret 0.
Proof.
  destruct (ThermalCalculator_new_ok 60 _ _ _ _ _ _ small_setup ltac:(lia)) as (s & E & Hs & Hf & Hp & _ & Hc).
  exists s. split; [exact E|]. split; [exact Hs|]. split; [exact Hf|]. split; [exact Hp|].
  apply Hc; vm_compute; split; (reflexivity || discriminate).
Qed.

(** sixteen banks of a vault in four dies, as in HMC_4GB_4Lx16: the plan is one bank wide, and bank 2 is not in it *)
Definition cube_4gb : Config :=
  hmc_2gb <| dram_ ::= λ d, d <| banks_per_group := 16 |> <| banks := 16 |> <| num_dies := 4 |> |>.
Lemma four_banks_outside :
  (f ← floor_plan cube_4gb small_params; b ← MapToBank cube_4gb small_layout f 0 2; Ret (f.(bank_x), b)) = Ret (1, (1, 0)).
Proof. vm_compute. reflexivity. Qed.

(** a planar memory of one cell *)
Definition flat_map : list (list double) := [[zero]].
Definition flat_calc : ThermalCalculator :=
  mkCalc (mkFloor 1 1 1 0 0 1 1 1) small_layout None zero flat_map flat_map []
    (matrix_of baseline.(channels) baseline.(ranks) zero) zero [] [] 10 [] [] 0.
Lemma flat_map_shape : shape 1 1 flat_map.
Proof. apply (shape_matrix_of 1 1 zero); lia. Qed.
Lemma flat_background : shape baseline.(channels) baseline.(ranks) flat_calc.(background_energy_).
Proof. apply (shape_matrix_of _ _ zero); discriminate. Qed.

(** ** The properties *)



(** C37. A thermal run of a stacked memory that is set up as [setup_ok] says never stops on an error: the constructor of
    [ThermalCalculator] returns, and after any sequence of calls that the controllers and the memory system make
    (commands with valid addresses, background energies, logic powers and the epochs of [PrintTransPT]) the calculator
    is well formed, its 32-bit counter holds the number of the epochs, and [PrintFinalPT] returns one maximum for each
    case. [setup_ok] asks for: a cube with one or two banks of each vault in a die, or a high-bandwidth memory with at
    most four bank groups of at most four banks in a channel and two channels in a die; the grid of the banks that
    [InitThermalParams] derives without tiling; a mapping of locations that stays inside a bank; [num_row_refresh]
    positive and a divisor of the rows ([thermal_refresh_rows] says what happens otherwise); sizes that are [int]s; and
    a number of steps after which the time step of an epoch is stable, which is the fuel. SuperLU is any function that
    keeps the length of the right-hand side. *)
Theorem thermal_run_safe (c : Config) t l f mapped steps fuel pdgssv es clk :
  setup_ok c t l f mapped steps → (steps <= fuel)%nat → (∀ A b, zlen (pdgssv A b) = zlen b) → Forall (event_ok c) es →
  ∃ s0 s, ThermalCalculator_new fuel c t = Ret s0 ∧ for_ es s0 (thermal_step fuel c t) = Ret s ∧
    thermal_ok c t s ∧ s.(sample_id) = i32 (zlen (filter (λ e, e = TEpoch) es)) ∧
    returns (PrintFinalPT fuel pdgssv c s clk) (λ r, thermal_ok c t r.1 ∧ zlen r.2 = s.(num_case)).
Proof.
  intros Hs Hfuel Hsolve Hes. pose proof (stack_is_3D c (up_stack _ _ _ _ _ _ Hs)) as H3D.
  destruct (ThermalCalculator_new_ok fuel c t l f mapped steps Hs Hfuel) as (s0 & H0 & Hok & _ & _ & Hid & _).
  destruct (thermal_events_ok fuel c t H3D es s0 Hok Hes) as (s & Hrun & Hok' & Hid' & Hr').
  exists s0, s. split_and!; [done..| |by apply PrintFinalPT_ok].
  rewrite Hid in Hid', Hr'. rewrite Z.add_0_l in Hid'. rewrite <- Hid', i32_id; [done|]. by apply Hr'.
Qed.

Lemma thermal_run_safe_witness :
  let es := [TCommand 1 small_read; TBackground 0 0 (double_of_Z 3); TEpoch; TLogic (double_of_Z 1); TEpoch] in
  ∃ s0 s, ThermalCalculator_new 60 small_cube small_params = Ret s0 ∧
    for_ es s0 (thermal_step 60 small_cube small_params) = Ret s ∧ s.(sample_id) = 2 ∧
    returns (PrintFinalPT 60 (λ _ b, b) small_cube s 1000) (λ r, zlen r.2 = s.(num_case)).
Proof.
  destruct (thermal_run_safe small_cube small_params small_layout small_plan None 60 60 (λ _ b, b)
    [TCommand 1 small_read; TBackground 0 0 (double_of_Z 3); TEpoch; TLogic (double_of_Z 1); TEpoch] 1000
    small_setup (le_n 60) (λ _ _, eq_refl)) as (s0 & s & E0 & E & _ & Hid & Hfin).
  { repeat constructor; try discriminate; apply small_read_ok. }
  exists s0, s. split; [exact E0|]. split; [exact E|]. split; [exact Hid|].
  destruct Hfin as (r & Er & _ & Hr). exists r. split; [exact Er|exact Hr].
Defined.

(** C38. The refresh counters of the thermal model (thermal.cc), 32-bit [int]s that start from zero: the [i]-th refresh of
    a bank covers the [num_row_refresh] rows from row [(i mod m) * num_row_refresh] when [num_row_refresh] divides the
    rows into [m] blocks, so that [m] refreshes cover every row exactly once, in order, and bring the counter back to
    zero. When it does not divide the rows, as in several configurations of the repository, the test for the end fails
    for as long as the product of the counter and [num_row_refresh] is an [int]: of [k] refreshes with
    [k * num_row_refresh < 2^31] the [i]-th starts at row [i * num_row_refresh], past the last row of the bank from some
    [i] on. (The product that leaves the [int]s is undefined in C++; nothing is claimed of the refreshes from there.) *)
Theorem thermal_refresh_rows (c : Config) (s : ThermalCalculator) n m r ib k :
  shape n m s.(refresh_count) → 0 < s.(plan).(num_row_refresh) → 0 < c.(rows) < 2147483648 →
  cell_of s.(refresh_count) r ib = Ret 0 →
  let num := s.(plan).(num_row_refresh) in
  c.(rows) mod num = 0 ∨ Z.of_nat k * num < 2147483648 →
  ∃ s', refresh_starts c k s r ib =
      Ret ((λ i, wrapped num c.(rows) i * num) <$> seqZ 0 (Z.of_nat k), s') ∧
    s' = s <| refresh_count := s'.(refresh_count) |> ∧
    (∀ a b, ¬ (a = r ∧ b = ib) → cell_of s'.(refresh_count) a b = cell_of s.(refresh_count) a b) ∧
    (Z.of_nat k * num = c.(rows) →
      concat ((λ i, seqZ (wrapped num c.(rows) i * num) num) <$> seqZ 0 (Z.of_nat k)) = seqZ 0 c.(rows) ∧
      cell_of s'.(refresh_count) r ib = Ret 0) ∧
    (c.(rows) mod num ≠ 0 → cell_of s'.(refresh_count) r ib = Ret (Z.of_nat k)).
Proof.
  intros Hsh Hn [Hr Hr'] Hc num Hint.
  assert (H0 : wrapped num c.(rows) 0 = 0).
  { unfold wrapped. destruct (_ =? 0); [|done]. by rewrite Zmod_0_l. }
  destruct (refresh_starts_spec c k s n m r ib 0 Hsh Hn Hr) as ([starts s'] & Hrun & E1 & E2 & E3).
  { intros j Hj. by apply (wrapped_int _ _ (Z.of_nat k)). }
  { fold num. by rewrite H0. }
  cbn [fst snd] in *. fold num in E1, E3. exists s'. rewrite Hrun, E1. split; [done|]. split; [done|].
  split; [|split].
  - intros a b Hab. rewrite E3. destruct (Z.eqb_spec a r) as [->|]; [|done].
    destruct (Z.eqb_spec b ib) as [->|]; [|done]. by destruct Hab.
  - intros Hk. assert (Hm : c.(rows) mod num = 0) by (rewrite <- Hk; apply Z.mod_mul; lia).
    assert (Hd : c.(rows) / num = Z.of_nat k) by (rewrite <- Hk; apply Z.div_mul; lia).
    split.
    + trans (seqZ 0 (Z.of_nat k * num)); [|by rewrite Hk]. rewrite <- blocks_of_rows by lia. f_equal. apply list_fmap_ext. intros j i Hi.
      apply lookup_seqZ in Hi as [-> Hj]. unfold wrapped. rewrite Hm, Hd. cbn [Z.eqb]. by rewrite Z.mod_small by lia.
    + rewrite E3, !Z.eqb_refl. cbn [andb]. unfold wrapped. rewrite Hm, Hd. cbn [Z.eqb Z.add].
      rewrite Z.mod_same; [done|]. nia.
  - intros Hm. rewrite E3, !Z.eqb_refl. cbn [andb]. unfold wrapped. destruct (Z.eqb_spec (c.(rows) mod num) 0); done.
Qed.

Lemma thermal_refresh_rows_witness : ∃ s s', ThermalCalculator_new 60 small_cube small_params = Ret s ∧
  refresh_starts small_cube 64 s 0 0 =
    Ret ((λ i, wrapped 1 64 i * 1) <$> seqZ 0 64, s') ∧ cell_of s'.(refresh_count) 0 0 = Ret 0.
Proof.
  destruct small_started as (s & E & Hs & Hf & Hp & Hc).
  assert (Hnum : num_row_refresh s.(plan) = 1) by (rewrite Hp; reflexivity).
  assert (Hpos : 0 < num_row_refresh s.(plan)) by (rewrite Hnum; reflexivity).
  destruct (thermal_refresh_rows small_cube s _ _ 0 0 64 (ro_shape _ _ (proj2 (tk_inv _ _ _ Hs))) Hpos (conj eq_refl eq_refl) Hc)
    as (s' & E' & _ & _ & Hk & _); [left; rewrite Hnum; reflexivity|].
  rewrite Hnum in E'. rewrite Hnum in Hk. exists s, s'. split; [exact E|]. split; [exact E'|].
  exact (proj2 (Hk eq_refl)).
Defined.

(** C39. On the planar memories (neither HBM nor HMC) no epoch of a thermal run ends: the inner loop of [UpdateEpoch]
    (thermal.cc) increments the counter of the channels, so that it adds to the first cell again and again, until the
    counter leaves the [int]s, after any number of turns below that. The same loop of [PrintFinalPT] walks through the
    first power map and past its end. Neither ever returns. *)
Theorem thermal_planar_stuck (c : Config) (s : ThermalCalculator) fuel pdgssv clk :
  IsHBM c || IsHMC c = false → 0 < c.(channels) → 0 < c.(ranks) → 0 < s.(num_case) →
  0 < s.(dimX) → 0 < s.(dimY) → 0 < s.(numP) → map_cells s < 2147483648 →
  shape c.(channels) c.(ranks) s.(background_energy_) → maps_ok s →
  (∀ s', UpdateEpoch fuel c s ≠ Ret s') ∧
  (Z.of_nat fuel < 2147483648 → UpdateEpoch fuel c s = Fault Diverge) ∧
  (map_cells s < Z.of_nat fuel → PrintFinalPT fuel pdgssv c s clk = Fault OutOfRange).
Proof.
  intros H3D Hch Hra Hcase HX HY HP Hsm Hbg [HA HB].
  assert (Hk : 0 < map_cells s) by (unfold map_cells; nia).
  assert (Hn : 0 < s.(dimX) * s.(dimY) * s.(numP) < 2147483648) by (unfold map_cells in *; nia). pose proof (proj1 Hn) as Hn0.
  unfold UpdateEpoch, PrintFinalPT. rewrite H3D.
  destruct (planar_first fuel c s (λ _, 0) s.(cur_Pmap) Hch Hra Hbg Hn) as [e ->]; [intros; by apply stuck_never|].
  destruct (planar_first fuel c s (λ i, i) s.(accu_Pmap) Hch Hra Hbg Hn) as [e' ->]; [intros; by apply stuck_never|].
  split_and!.
  - intros s'. destruct (stuck_loop _ _ _ _ _ _ _) as [m'|] eqn:E; [|done]. by apply stuck_never in E.
  - intros Hf. by rewrite (stuck_first fuel _ 0 0 e s.(cur_Pmap) _ _ Hn0 HB ltac:(lia) Hk) by lia.
  - intros Hf. by rewrite (stuck_walk fuel _ 0 0 e' s.(accu_Pmap) _ _ Hn0 HA ltac:(lia)) by lia.
Qed.
Lemma thermal_planar_stuck_witness :
  UpdateEpoch 1000 baseline flat_calc = Fault Diverge ∧ PrintFinalPT 2 (λ _ b, b) baseline flat_calc 5 = Fault OutOfRange.
Proof.
  pose proof (thermal_planar_stuck baseline flat_calc 1000 (λ _ b, b) 5 eq_refl eq_refl eq_refl eq_refl eq_refl eq_refl
    eq_refl eq_refl flat_background (conj flat_map_shape flat_map_shape))
    as (_ & H1 & _).
  pose proof (thermal_planar_stuck baseline flat_calc 2 (λ _ b, b) 5 eq_refl eq_refl eq_refl eq_refl eq_refl eq_refl
    eq_refl eq_refl flat_background (conj flat_map_shape flat_map_shape))
    as (_ & _ & H2).
  split; [apply H1; reflexivity|apply H2; reflexivity].
Defined.
