(* ===== verification/ThermalReplay.v ===== *)
(** * DRAMsim3: the replay of a command trace on the thermal model (DRAMsim3/src/thermal_replay.cc, thermal_replay.h)

    [ThermalReplay_new] reads the trace, [Run] gives its commands to the counters of the channels and to the thermal
    calculator a number of times and ends with the final temperatures. The arguments of the command line are
    parameters; the files that the counters print are left out. *)
From S2P Require Import Prelude Common Config Stats ThermalSolver Thermal.

(** ** Lines *)

(** [std::getline] on the text of a file *)
Fixpoint getlines (line : string) (s : string) : list string :=
  match s with
  | EmptyString => if String.eqb line "" then [] else [line]
  | String c s => if code c =? 10 then line :: getlines EmptyString s
                  else getlines (line ++ String c EmptyString) s
  end.
(** [std::stoull]: a minus sign wraps around *)
Definition stoull (s : string) : outcome Z :=
  match number10 s with
  | Some n => if Z.abs n <? 18446744073709551616 then Ret (u64 n) else Fault Throw
  | None => Fault Throw
  end.

(** [cmd_map[name]]: an unknown name gets the first value of the enumeration *)
Definition cmd_map : list (string * CommandType) :=
  [("read", READ); ("read_p", READ_PRECHARGE); ("write", WRITE); ("write_p", WRITE_PRECHARGE);
   ("activate", ACTIVATE); ("precharge", PRECHARGE); ("refresh_bank", REFRESH_BANK); ("refresh", REFab);
   ("self_refresh_enter", SREF_ENTER); ("self_refresh_exit", SREF_EXIT)]%string.
Definition cmd_named (name : string) : CommandType :=
  default READ ((list_to_map cmd_map : gmap string CommandType) !! name).

Definition space : ascii := Ascii.ascii_of_nat 32.
Definition ParseLine (line : string) : outcome (Z * Command) :=
  match StringSplit line space with
  | [t0; t1; t2; t3; t4; t5; t6; t7] =>
      clk ← stoull t0;
      ch ← stoi t2; ra ← stoi t3; bg ← stoi t4; ba ← stoi t5; ro ← stoi t6; co ← stoi t7;
      Ret (clk, mkCommand (cmd_named t1) (mkAddress ch ra bg ba ro co) 0)
  | _ => AbruptExit
  end.

(** ** The replay *)

Notation BankActive := (list (list (list (list bool)))).
Record ThermalReplay := mkReplay {
  timed_commands_ : list (Z * Command); thermal_calc_ : ThermalCalculator; last_clk_ : Z;
  channel_stats_ : list SimpleStats; bank_active_ : BankActive
}.

(** no bank is active *)
Definition no_banks (c : Config) : BankActive :=
  replicate (Z.to_nat c.(channels)) (replicate (Z.to_nat c.(ranks))
    (replicate (Z.to_nat c.(bankgroups)) (replicate (Z.to_nat c.(banks_per_group)) false))).
(** the file is [None] when it cannot be opened *)
Definition ThermalReplay_new (fuel : nat) (c : Config) (t : ThermalParams) (trace_file : option string) :
    outcome ThermalReplay :=
  calc ← ThermalCalculator_new fuel c t;
  sts ← mapM (λ _, SimpleStats_new c.(ranks)) (seqZ 0 c.(channels));
  match trace_file with
  | None => Fault (Exit 1)
  | Some text =>
      cmds ← mapM ParseLine (getlines EmptyString text);
      Ret (mkReplay cmds calc 0 sts (no_banks c))
  end.

Definition IsRankActive (s : ThermalReplay) (channel rank : Z) : outcome bool :=
  v ← aget s.(bank_active_) channel; rank_active ← aget v rank;
  Ret (existsb (existsb id) rank_active).

(** [channel_stats_[i]] is updated in place *)
Definition on_channel (s : ThermalReplay) (i : Z) (f : SimpleStats → outcome SimpleStats) : outcome ThermalReplay :=
  st ← aget s.(channel_stats_) i; st ← f st;
  sts ← aset s.(channel_stats_) i st; Ret (s <| channel_stats_ := sts |>).
Definition rank_clocks (past_clks : Z) (s : ThermalReplay) (i j : Z) : outcome ThermalReplay :=
  active ← IsRankActive s i j;
  on_channel s i (IncrementVecBy (if active : bool then "rank_active_cycles" else "all_bank_idle_cycles") j past_clks).

(** the counter of a command *)
Definition count_name (t : CommandType) : outcome string :=
  match t with
  | READ | READ_PRECHARGE => Ret "num_read_cmds"%string
  | WRITE | WRITE_PRECHARGE => Ret "num_write_cmds"%string
  | ACTIVATE => Ret "num_act_cmds"%string
  | PRECHARGE => Ret "num_pre_cmds"%string
  | REFab => Ret "num_ref_cmds"%string
  | REFRESH_BANK => Ret "num_refb_cmds"%string
  | SREF_ENTER => Ret "num_srefe_cmds"%string
  | SREF_EXIT => Ret "num_srefx_cmds"%string
  | _ => AbruptExit
  end.
Definition set_bank (m : BankActive) (a : Address) (v : bool) : outcome BankActive :=
  x ← aget m a.(channel); y ← aget x a.(rank); z ← aget y a.(bankgroup);
  z ← aset z a.(bank) v; y ← aset y a.(bankgroup) z; x ← aset x a.(rank) y; aset m a.(channel) x.
Definition bank_update (m : BankActive) (cmd : Command) : outcome BankActive :=
  match cmd.(cmd_type) with
  | ACTIVATE => set_bank m cmd.(addr) true
  | READ_PRECHARGE | WRITE_PRECHARGE | PRECHARGE => set_bank m cmd.(addr) false
  | _ => Ret m
  end.

(** the background energies of a channel after the statistics of an epoch *)
Definition channel_epoch (c : Config) (s : ThermalReplay) (i : Z) : outcome ThermalReplay :=
  s ← on_channel s i (UpdateEpochStats c);
  for_ (seqZ 0 c.(ranks)) s (λ s r,
    st ← aget s.(channel_stats_) i; bg_energy ← RankBackgroundEnergy st r;
    calc ← UpdateBackgroundEnergy s.(thermal_calc_) i r bg_energy;
    Ret (s <| thermal_calc_ := calc |>)).

Definition ProcessCMD (c : Config) (s : ThermalReplay) (cmd : Command) (clk : Z) : outcome ThermalReplay :=
  let past_clks := u64 (clk - s.(last_clk_)) in
  s ← for_ (seqZ 0 c.(channels)) s (λ s i, for_ (seqZ 0 c.(ranks)) s (λ s j, rank_clocks past_clks s i j));
  name ← count_name cmd.(cmd_type);
  s ← on_channel s cmd.(addr).(channel) (λ st, Ret (Increment name st));
  m ← bank_update s.(bank_active_) cmd;
  let s := s <| bank_active_ := m |> in
  q ← umod clk (u64 c.(epoch_period));
  s ← (if negb (q =? 0) then for_ (seqZ 0 c.(channels)) s (channel_epoch c) else Ret s);
  Ret (s <| last_clk_ := clk |>).

(** one command at its clock; the thermal calculator is always told channel 0 *)
Definition replay_one (c : Config) (t : ThermalParams) (clk : Z) (s : ThermalReplay) (e : Z * Command) :
    outcome ThermalReplay :=
  s ← ProcessCMD c s e.2 (u64 (clk + e.1));
  calc ← UpdateCMDPower c t s.(thermal_calc_) 0 e.2;
  Ret (s <| thermal_calc_ := calc |>).
Definition clk_offset (cmds : list (Z * Command)) : Z := match last cmds with Some e => e.1 | None => 0 end.
Definition repeat_one (c : Config) (t : ThermalParams) (r : ThermalReplay * Z) (_ : Z) : outcome (ThermalReplay * Z) :=
  let '(s, clk) := r in
  s ← for_ s.(timed_commands_) s (replay_one c t clk);
  Ret (s <| bank_active_ := no_banks c |>, u64 (clk + clk_offset s.(timed_commands_))).
(** the replay and the maxima of the cases *)
Definition Run (fuel : nat) (pdgssv : CompCol double → list double → list double) (c : Config) (t : ThermalParams)
    (repeat_ : Z) (s : ThermalReplay) : outcome (ThermalReplay * list double) :=
  r ← for_ (seqZ 0 repeat_) (s, 0) (repeat_one c t);
  let '(s, clk) := r : ThermalReplay * Z in
  s ← for_ (seqZ 0 c.(channels)) s (λ s i, on_channel s i (UpdateFinalStats c));
  p ← PrintFinalPT fuel pdgssv c s.(thermal_calc_) clk;
  Ret (s <| thermal_calc_ := p.1 |>, p.2).
