(* ===== verification/ThermalReplaySpec.v ===== *)
(** * The replay of a command trace: theorems

    On a memory whose floor plan fits, the replay of a written trace of valid commands returns; its counters hold the
    commands of each channel, and the active and idle cycles of a rank are those of a reference that keeps the set of
    open banks ([thermal_replay_run]). *)
From S2P Require Import Prelude Common Config Trace Stats ThermalSolver ThermalSolverSpec ThermalHeat Thermal ThermalSpec.
From S2P Require Import ThermalRun ThermalReplay.

(** ** The reference *)

Notation BankKey := (Z * Z * Z * Z)%type.
Definition bank_key (a : Address) : BankKey := (a.(channel), a.(rank), a.(bankgroup), a.(bank)).
Inductive replay_event := RCommand (clk : Z) (cmd : Command) | RReset.
(** the open banks after an event *)
Definition open_step (B : gset BankKey) (e : replay_event) : gset BankKey :=
  match e with
  | RCommand _ cmd =>
      match cmd.(cmd_type) with
      | ACTIVATE => {[bank_key cmd.(addr)]} ∪ B
      | READ_PRECHARGE | WRITE_PRECHARGE | PRECHARGE => B ∖ {[bank_key cmd.(addr)]}
      | _ => B
      end
  | RReset => ∅
  end.
Definition open_after (log : list replay_event) : gset BankKey := foldl open_step ∅ log.
Definition clk_step (last : Z) (e : replay_event) : Z := match e with RCommand clk _ => clk | RReset => last end.
Definition clk_after (log : list replay_event) : Z := foldl clk_step 0 log.
(** some bank of the rank is open *)
Definition rank_open (B : gset BankKey) (i j : Z) : Prop := set_Exists (λ k : BankKey, k.1.1 = (i, j)) B.
#[export] Instance rank_open_dec B i j : Decision (rank_open B i j).
Proof. apply _. Defined.

(** the cycles up to the events in which rank [j] of channel [i] is open, or is not *)
Definition time_step (open : bool) (i j : Z) (s : gset BankKey * Z * Z) (e : replay_event) : gset BankKey * Z * Z :=
  let '(B, last, time) := s in
  (open_step B e, clk_step last e,
   if Bool.eqb (bool_decide (rank_open B i j)) open then time + (clk_step last e - last) else time).
Definition time_in (open : bool) (i j : Z) (log : list replay_event) : Z :=
  (foldl (time_step open i j) (∅, 0, 0) log).2.
Definition counts (i : Z) (n : string) (e : replay_event) : bool :=
  match e with
  | RCommand _ cmd => (cmd.(addr).(channel) =? i) && match count_name cmd.(cmd_type) with Ret m => String.eqb m n | _ => false end
  | RReset => false
  end.
Definition count_of (i : Z) (n : string) (log : list replay_event) : Z := zlen (List.filter (counts i n) log).

Lemma time_state open i j log :
  foldl (time_step open i j) (∅, 0, 0) log = (open_after log, clk_after log, time_in open i j log).
Proof.
  unfold time_in. assert ((foldl (time_step open i j) (∅, 0, 0) log).1 = (open_after log, clk_after log)) as <-.
  2: { by destruct (foldl _ _ _) as [? ?]. }
  unfold open_after, clk_after. induction log as [|e log IH] using rev_ind; [done|].
  rewrite !foldl_app. cbn [foldl]. destruct (foldl (time_step open i j) _ log) as [[B last] time]. cbn [fst] in IH.
  injection IH as -> ->. done.
Qed.
Lemma time_in_snoc open i j log e : time_in open i j (log ++ [e]) =
  time_in open i j log +
  (if Bool.eqb (bool_decide (rank_open (open_after log) i j)) open then clk_step (clk_after log) e - clk_after log else 0).
Proof.
  unfold time_in at 1. rewrite foldl_app, time_state. cbn [foldl time_step snd]. destruct (Bool.eqb _ _); lia.
Qed.
Lemma open_after_snoc log e : open_after (log ++ [e]) = open_step (open_after log) e.
Proof. unfold open_after. by rewrite foldl_app. Qed.
Lemma clk_after_snoc log e : clk_after (log ++ [e]) = clk_step (clk_after log) e.
Proof. unfold clk_after. by rewrite foldl_app. Qed.
Lemma count_of_snoc i n log e : count_of i n (log ++ [e]) = count_of i n log + b2z (counts i n e).
Proof.
  unfold count_of, zlen. rewrite List.filter_app, length_app. cbn [List.filter]. destruct (counts i n e); cbn; lia.
Qed.

(** ** Counters *)

Lemma IncrementVecBy_spec (c : Config) st name pos num : stats_ok c st → name ∈ rank_vecs → 0 <= pos < c.(ranks) →
  returns (IncrementVecBy name pos num st) (λ st', stats_ok c st' ∧ (∀ n, tot_c st' n = tot_c st n) ∧
    ∀ n i, eq64 (tot_v st' n i)
      (tot_v st n i + (if String.eqb name n && (pos =? Z.of_nat i) then num else 0))).
Proof.
  intros [H1 H2 H3 H4 H5 H6 H7] Hn Hp. unfold IncrementVecBy. rewrite <- (H5 name Hn) in Hp.
  destruct (aget_ok _ _ Hp) as [x Hx]. rewrite Hx. cbn [mbind outcome_bind]. rewrite aset_ok by done.
  cbn [mbind outcome_bind]. apply returns_ret. apply aget_Ret in Hx as [_ Hx].
  assert (∀ m, length (vec (<[name := <[Z.to_nat pos := u64 (x + num)]> (vec (epoch_vec_counters_ st) name)]>
    (epoch_vec_counters_ st)) m) = length (vec (epoch_vec_counters_ st) m)) as Hl.
  { intros m. rewrite vec_insert. case_decide; [subst; by rewrite length_insert|done]. }
  split; [|split; [done|]].
  - split; rsimp; try done.
    + intros m. by rewrite Hl.
    + intros m Hm. unfold zlen. rewrite Hl. by apply H5.
  - intros m i. unfold tot_v. rsimp. rewrite vec_insert.
    destruct (decide (name = m)) as [->|Hne].
    + rewrite String.eqb_refl. cbn [andb]. unfold at0 at 2. rewrite list_lookup_insert.
      case_decide as Hd.
      * destruct Hd as [Hd _]. subst i. rewrite Z2Nat.id, Z.eqb_refl by lia. cbn [default]. unfold id.
        rewrite eq64_u64. unfold at0 at 3. rewrite Hx. cbn [default]. unfold id. by rewrite Z.add_assoc.
      * rewrite (proj2 (Z.eqb_neq _ _)); [by rewrite Z.add_0_r|].
        intros ->. apply Hd. rewrite Nat2Z.id. split; [done|]. unfold zlen in Hp. lia.
    + rewrite (proj2 (String.eqb_neq name m)) by done. cbn [andb]. by rewrite Z.add_0_r.
Qed.
Lemma Increment_spec (c : Config) st name : stats_ok c st →
  stats_ok c (Increment name st) ∧ (∀ n, eq64 (tot_c (Increment name st) n) (tot_c st n + b2z (String.eqb name n))) ∧
  ∀ n i, tot_v (Increment name st) n i = tot_v st n i.
Proof.
  intros [H1 H2 H3 H4 H5 H6 H7]. split; [by split|]. split; [|done].
  intros m. unfold tot_c, Increment. rsimp. unfold ctr at 2. rewrite lookup_insert.
  destruct (decide (name = m)) as [->|Hne].
  - rewrite String.eqb_refl. cbn [default b2z]. unfold id. rewrite eq64_u64, Z.add_assoc. done.
  - rewrite (proj2 (String.eqb_neq name m)) by done. cbn [b2z]. by rewrite Z.add_0_r.
Qed.

(** ** Open banks *)

Definition bank_flag (m : BankActive) (k : BankKey) : outcome bool :=
  let '(i, j, g, b) := k in x ← aget m i; y ← aget x j; z ← aget y g; aget z b.
Definition key_ok (c : Config) (k : BankKey) : Prop :=
  let '(i, j, g, b) := k in
  0 <= i < c.(channels) ∧ 0 <= j < c.(ranks) ∧ 0 <= g < c.(bankgroups) ∧ 0 <= b < c.(banks_per_group).
(** the flags are the set of the open banks *)
Record banks_rel (c : Config) (m : BankActive) (B : gset BankKey) : Prop := {
  br_flag : ∀ k, key_ok c k → bank_flag m k = Ret (bool_decide (k ∈ B));
  br_key : ∀ k v, bank_flag m k = Ret v → key_ok c k;
  br_open : ∀ k, k ∈ B → key_ok c k
}.

Lemma aget_replicate_Z {A} (x y : A) n i : aget (replicate (Z.to_nat n) x) i = Ret y → 0 <= i < n ∧ y = x.
Proof.
  intros Hy. pose proof (aget_bound _ _ _ Hy) as Hb. apply aget_Ret in Hy as [Hi Hy].
  apply lookup_replicate in Hy as [-> _]. unfold zlen in Hb. rewrite length_replicate in Hb. split; [lia|done].
Qed.
Lemma aget_replicate_ok {A} (x : A) n i : 0 <= i < n → aget (replicate (Z.to_nat n) x) i = Ret x.
Proof.
  intros Hi. destruct (aget_ok (replicate (Z.to_nat n) x) i) as [y Hy].
  { unfold zlen. rewrite length_replicate. lia. }
  rewrite Hy. by apply aget_replicate_Z in Hy as [_ ->].
Qed.

Lemma no_banks_rel (c : Config) : banks_rel c (no_banks c) ∅.
Proof.
  split; [|intros [[[i j] g] b] v|set_solver].
  - intros [[[i j] g] b] (Hi & Hj & Hg & Hb). unfold bank_flag, no_banks.
    rewrite aget_replicate_ok by done. cbn [mbind outcome_bind]. rewrite aget_replicate_ok by done. cbn [mbind outcome_bind].
    rewrite aget_replicate_ok by done. cbn [mbind outcome_bind]. by rewrite aget_replicate_ok by done.
  - unfold bank_flag, no_banks. intros (x & Hx & H1)%bind_Ret. apply aget_replicate_Z in Hx as [? ->].
    apply bind_Ret in H1 as (y & Hy & H1). apply aget_replicate_Z in Hy as [? ->].
    apply bind_Ret in H1 as (z & Hz & H1). apply aget_replicate_Z in Hz as [? ->].
    apply aget_replicate_Z in H1 as [? ->]. done.
Qed.

(** writing one flag *)
Lemma set_bank_spec m a v w : bank_flag m (bank_key a) = Ret w →
  returns (set_bank m a v) (λ m', ∀ k, bank_flag m' k = if decide (k = bank_key a) then Ret v else bank_flag m k).
Proof.
  unfold bank_flag at 1, bank_key at 1. intros (x & Hx & H1)%bind_Ret. apply bind_Ret in H1 as (y & Hy & H1).
  apply bind_Ret in H1 as (z & Hz & Hw). unfold set_bank. rewrite Hx. cbn [mbind outcome_bind]. rewrite Hy.
  cbn [mbind outcome_bind]. rewrite Hz. cbn [mbind outcome_bind].
  destruct (aset z a.(bank) v) as [z'|] eqn:Ez; [|rewrite aset_ok in Ez by (by eapply aget_bound); done]. cbn [mbind outcome_bind].
  destruct (aset y a.(bankgroup) z') as [y'|] eqn:Ey; [|rewrite aset_ok in Ey by (by eapply aget_bound); done]. cbn [mbind outcome_bind].
  destruct (aset x a.(rank) y') as [x'|] eqn:Ex; [|rewrite aset_ok in Ex by (by eapply aget_bound); done]. cbn [mbind outcome_bind].
  destruct (aset m a.(channel) x') as [m'|] eqn:Em; [|rewrite aset_ok in Em by (by eapply aget_bound); done].
  exists m'. split; [done|]. intros [[[i j] g] b]. unfold bank_flag, bank_key.
  rewrite (aget_aset _ _ _ _ _ Em). destruct (Z.eqb_spec i a.(channel)) as [->|Hne]; [|rewrite decide_False by congruence; done].
  cbn [mbind outcome_bind]. rewrite (aget_aset _ _ _ _ _ Ex), Hx. cbn [mbind outcome_bind].
  destruct (Z.eqb_spec j a.(rank)) as [->|Hne]; [|rewrite decide_False by congruence; done].
  cbn [mbind outcome_bind]. rewrite (aget_aset _ _ _ _ _ Ey), Hy. cbn [mbind outcome_bind].
  destruct (Z.eqb_spec g a.(bankgroup)) as [->|Hne]; [|rewrite decide_False by congruence; done].
  cbn [mbind outcome_bind]. rewrite (aget_aset _ _ _ _ _ Ez), Hz. cbn [mbind outcome_bind].
  destruct (Z.eqb_spec b a.(bank)) as [->|Hne]; [by rewrite decide_True|rewrite decide_False by congruence; done].
Qed.

Section Replay.
Context (fuel : nat) (c : Config) (t : ThermalParams).

Lemma bank_update_spec m B cmd clk : banks_rel c m B → key_ok c (bank_key cmd.(addr)) →
  returns (bank_update m cmd) (λ m', banks_rel c m' (open_step B (RCommand clk cmd))).
Proof.
  intros [Hf Hk Ho] Ha. pose proof (Hf _ Ha) as Hw.
  assert (Hset : ∀ v B', (∀ k, k ∈ B' ↔ if decide (k = bank_key cmd.(addr)) then v = true else k ∈ B) →
    returns (set_bank m cmd.(addr) v) (λ m', banks_rel c m' B')).
  { intros v B' HB. eapply returns_mono; [by eapply set_bank_spec|]. intros m' Hm'. split.
    - intros k Hko. rewrite Hm'. specialize (HB k). destruct (decide (k = bank_key cmd.(addr))).
      + f_equal. rewrite (bool_decide_ext _ _ HB). by destruct v.
      + rewrite Hf by done. f_equal. symmetry. by apply bool_decide_ext.
    - intros k w. rewrite Hm'. destruct (decide _) as [->|]; [done|apply Hk].
    - intros k Hin%HB. destruct (decide _) as [->|]; [done|by apply Ho]. }
  assert (Hsame : returns (Ret m) (λ m', banks_rel c m' B)) by (apply returns_ret; split; assumption).
  assert (Hopen : ∀ k, k ∈ ({[bank_key cmd.(addr)]} ∪ B : gset BankKey) ↔
    if decide (k = bank_key cmd.(addr)) then true = true else k ∈ B).
  { intros k. rewrite elem_of_union, elem_of_singleton. destruct (decide (k = bank_key cmd.(addr))) as [Hd|Hd]; [split; [intros _; reflexivity|intros _; left; exact Hd]|].
    split; [intros [?|?]; [congruence|assumption]|intros; by right]. }
  assert (Hclose : ∀ k, k ∈ (B ∖ {[bank_key cmd.(addr)]} : gset BankKey) ↔
    if decide (k = bank_key cmd.(addr)) then false = true else k ∈ B).
  { intros k. rewrite elem_of_difference, elem_of_singleton. destruct (decide (k = bank_key cmd.(addr))) as [Hd|Hd]; [split; [intros [_ Hn]; congruence|discriminate]|].
    split; [intros [? _]; assumption|intros; split; assumption]. }
  unfold bank_update, open_step.
  destruct (cmd_type cmd); first [exact Hsame|exact (Hset true _ Hopen)|exact (Hset false _ Hclose)].
Qed.

Lemma IsRankActive_spec s B i j : banks_rel c s.(bank_active_) B → 0 < c.(bankgroups) → 0 < c.(banks_per_group) →
  0 <= i < c.(channels) → 0 <= j < c.(ranks) → IsRankActive s i j = Ret (bool_decide (rank_open B i j)).
Proof.
  intros [Hf Hk Ho] Hg Hb Hi Hj. unfold IsRankActive.
  assert (Hko : key_ok c (i, j, 0, 0)) by (unfold key_ok; lia).
  pose proof (Hf _ Hko) as H1. unfold bank_flag in H1. apply bind_Ret in H1 as (x & Hx & H1).
  apply bind_Ret in H1 as (y & Hy & _). rewrite Hx. cbn [mbind outcome_bind]. rewrite Hy. cbn [mbind outcome_bind].
  assert (Hflag : ∀ g b, bank_flag s.(bank_active_) (i, j, g, b) = (z ← aget y g; aget z b)).
  { intros g b. unfold bank_flag. rewrite Hx. cbn [mbind outcome_bind]. by rewrite Hy. }
  f_equal. apply eq_true_iff_eq. rewrite bool_decide_eq_true, existsb_exists. unfold rank_open, set_Exists. split.
  - intros (z & Hz & Hzb). apply existsb_exists in Hzb as (v & Hv & Hvt). unfold id in Hvt. subst v.
    apply list_elem_of_In, list_elem_of_lookup in Hz as [g Hz]. apply list_elem_of_In, list_elem_of_lookup in Hv as [b Hv].
    assert (He : bank_flag s.(bank_active_) (i, j, Z.of_nat g, Z.of_nat b) = Ret true).
    { rewrite Hflag. assert (aget y (Z.of_nat g) = Ret z) as ->; [|cbn [mbind outcome_bind]]; apply aget_Ret; rewrite Nat2Z.id; (split; [lia|done]). }
    exists (i, j, Z.of_nat g, Z.of_nat b). split; [|done].
    rewrite (Hf _ (Hk _ _ He)) in He. injection He as He. by apply bool_decide_eq_true in He.
  - intros ([[[i' j'] g] b] & Hin & E). cbn in E. injection E as -> ->.
    pose proof (Hf _ (Ho _ Hin)) as He. rewrite bool_decide_true in He by done. rewrite Hflag in He.
    apply bind_Ret in He as (z & Hz & Hv). apply aget_Ret in Hz as [_ Hz]. apply aget_Ret in Hv as [_ Hv].
    exists z. split; [apply list_elem_of_In; by eapply list_elem_of_lookup_2|].
    apply existsb_exists. exists true. split; [apply list_elem_of_In; by eapply list_elem_of_lookup_2|done].
Qed.

(** ** The statistics of the channels *)

Definition stats_all (s : ThermalReplay) : Prop :=
  zlen s.(channel_stats_) = c.(channels) ∧ ∀ i st, aget s.(channel_stats_) i = Ret st → stats_ok c st.
(** totals, read through the index of the channel *)
Definition chan_v (s : ThermalReplay) (n : string) (i j : Z) : Z :=
  match aget s.(channel_stats_) i with Ret st => tot_v st n (Z.to_nat j) | Fault _ => 0 end.
Definition chan_c (s : ThermalReplay) (n : string) (i : Z) : Z :=
  match aget s.(channel_stats_) i with Ret st => tot_c st n | Fault _ => 0 end.
Definition only_stats (s s' : ThermalReplay) : Prop := s' = s <| channel_stats_ := s'.(channel_stats_) |>.
Lemma only_stats_refl s : only_stats s s.
Proof. unfold only_stats. by destruct s. Qed.
Lemma only_stats_trans s1 s2 s3 : only_stats s1 s2 → only_stats s2 s3 → only_stats s1 s3.
Proof. unfold only_stats. intros E1 E2. rewrite E2, E1. by destruct s1. Qed.
Lemma only_stats_fields s s' : only_stats s s' →
  timed_commands_ s' = timed_commands_ s ∧ thermal_calc_ s' = thermal_calc_ s ∧ last_clk_ s' = last_clk_ s ∧
  bank_active_ s' = bank_active_ s.
Proof. intros ->. done. Qed.

Lemma on_channel_spec s i f (Q : SimpleStats → SimpleStats → Prop) : stats_all s → 0 <= i < c.(channels) →
  (∀ st, stats_ok c st → returns (f st) (λ st', stats_ok c st' ∧ Q st st')) →
  returns (on_channel s i f) (λ s', only_stats s s' ∧ stats_all s' ∧
    ∃ st st', aget s.(channel_stats_) i = Ret st ∧ Q st st' ∧
      ∀ a, aget s'.(channel_stats_) a = if a =? i then Ret st' else aget s.(channel_stats_) a).
Proof.
  intros [Hl Hs] Hi Hf. unfold on_channel. destruct (aget_ok s.(channel_stats_) i ltac:(lia)) as [st Hst].
  rewrite Hst. cbn [mbind outcome_bind]. eapply returns_bind; [by apply Hf; eapply Hs|]. intros st' [Hok HQ].
  destruct (aset s.(channel_stats_) i st') as [sts|] eqn:E; [|rewrite aset_ok in E by lia; done].
  cbn [mbind outcome_bind]. apply returns_ret. split; [by destruct s|].
  assert (Ha : ∀ a, aget sts a = if a =? i then Ret st' else aget s.(channel_stats_) a) by (intros; by apply aget_aset).
  split; [split|].
  - rsimp. by rewrite (aset_length _ _ _ _ E).
  - rsimp. intros a x. rewrite Ha. destruct (a =? i); [by intros [= <-]|apply Hs].
  - exists st, st'. done.
Qed.

(** the cycles of one rank are added to one of its two counters *)
Definition adds (b : bool) (d : Z) : Z := if b then d else 0.
Definition rank_name (open : bool) : string := if open then "rank_active_cycles" else "all_bank_idle_cycles".
Lemma rank_clocks_spec d s B i j : stats_all s → banks_rel c s.(bank_active_) B → 0 < c.(bankgroups) →
  0 < c.(banks_per_group) → 0 <= i < c.(channels) → 0 <= j < c.(ranks) →
  returns (rank_clocks d s i j) (λ s', only_stats s s' ∧ stats_all s' ∧ (∀ n a, chan_c s' n a = chan_c s n a) ∧
    ∀ open a b, 0 <= b → eq64 (chan_v s' (rank_name open) a b)
      (chan_v s (rank_name open) a b +
       adds ((a =? i) && (b =? j) && Bool.eqb (bool_decide (rank_open B i j)) open) d)).
Proof.
  intros Hs Hb Hg Hk Hi Hj. unfold rank_clocks. rewrite (IsRankActive_spec s B) by done. cbn [mbind outcome_bind].
  set (now := bool_decide (rank_open B i j)).
  assert ((if now then "rank_active_cycles"%string else "all_bank_idle_cycles"%string) = rank_name now) as -> by done.
  eapply returns_mono.
  - apply on_channel_spec; [done|done|]. intros st Hst. apply (IncrementVecBy_spec c st (rank_name now) j d Hst); [|done].
    destruct now; [left|right; left].
  - intros s' (Ho & Hs' & st & st' & Hst & [Hc Hv] & Ha). split; [done|]. split; [done|]. split.
    + intros n a. unfold chan_c. rewrite Ha. destruct (Z.eqb_spec a i) as [->|]; [|done]. by rewrite Hst, Hc.
    + intros open a b Hb0. unfold chan_v. rewrite Ha. destruct (Z.eqb_spec a i) as [->|]; cbn [andb adds]; [|by rewrite Z.add_0_r].
      rewrite Hst, Hv, Z2Nat.id by done. unfold adds. rewrite (Z.eqb_sym b j).
      assert (String.eqb (rank_name now) (rank_name open) = Bool.eqb now open) as -> by (by destruct now, open).
      rewrite (andb_comm (Bool.eqb now open)). done.
Qed.

(** all ranks of all channels *)
Lemma all_clocks_spec d s B : stats_all s → banks_rel c s.(bank_active_) B → 0 < c.(bankgroups) →
  0 < c.(banks_per_group) → 0 <= c.(channels) → 0 <= c.(ranks) →
  returns (for_ (seqZ 0 c.(channels)) s (λ s i, for_ (seqZ 0 c.(ranks)) s (λ s j, rank_clocks d s i j)))
    (λ s', only_stats s s' ∧ stats_all s' ∧ (∀ n a, chan_c s' n a = chan_c s n a) ∧
      ∀ open a b, 0 <= a < c.(channels) → 0 <= b < c.(ranks) → eq64 (chan_v s' (rank_name open) a b)
        (chan_v s (rank_name open) a b + adds (Bool.eqb (bool_decide (rank_open B a b)) open) d)).
Proof.
  intros Hs Hb Hg Hk Hch Hra.
  set (I := λ i j s', only_stats s s' ∧ stats_all s' ∧ (∀ n a, chan_c s' n a = chan_c s n a) ∧
    ∀ open a b, 0 <= a < c.(channels) → 0 <= b < c.(ranks) → eq64 (chan_v s' (rank_name open) a b)
      (chan_v s (rank_name open) a b +
       adds (((a <? i) || (a =? i) && (b <? j)) && Bool.eqb (bool_decide (rank_open B a b)) open) d)).
  eapply returns_mono.
  { apply (for_seqZ (λ i s', I i 0 s') 0 c.(channels)); [done| |].
    - split; [apply only_stats_refl|]. split; [done|]. split; [done|]. intros open a b Ha Hb'.
      rewrite (proj2 (Z.ltb_ge a 0)), (proj2 (Z.ltb_ge b 0)), andb_false_r by lia. cbn [orb andb adds]. by rewrite Z.add_0_r.
    - intros s1 i Hi H1. eapply returns_mono.
      + apply (for_seqZ (λ j s', I i j s') 0 c.(ranks)); [done|exact H1|].
        intros s2 j Hj (Ho2 & Hs2 & Hc2 & Hv2). destruct (only_stats_fields _ _ Ho2) as (_ & _ & _ & E).
        eapply returns_mono; [by apply (rank_clocks_spec d s2 B); rewrite ?E|].
        intros s3 (Ho3 & Hs3 & Hc3 & Hv3). split; [by eapply only_stats_trans|]. split; [done|].
        split; [intros n a; by rewrite Hc3|]. intros open a b Ha Hb'. rewrite Hv3, Hv2, <- Z.add_assoc by lia.
        destruct (Z.eqb_spec a i) as [->|Hai].
        * rewrite Z.ltb_irrefl. cbn [orb andb]. destruct (Z.eqb_spec b j) as [->|Hbj].
          -- rewrite Z.ltb_irrefl, (proj2 (Z.ltb_lt j (j + 1))) by lia. cbn [andb adds]. by rewrite Z.add_0_l.
          -- cbn [andb adds]. rewrite Z.add_0_r. assert ((b <? j + 1) = (b <? j)) as ->; [|done].
             destruct (Z.ltb_spec b j), (Z.ltb_spec b (j + 1)); lia.
        * cbn [andb adds]. by rewrite !orb_false_r, Z.add_0_r.
      + intros s2 (Ho2 & Hs2 & Hc2 & Hv2). split; [done|]. split; [done|]. split; [done|]. intros open a b Ha Hb'.
        rewrite Hv2 by done. rewrite (proj2 (Z.ltb_lt b (0 + c.(ranks)))), (proj2 (Z.ltb_ge b 0)) by lia.
        rewrite andb_true_r, andb_false_r, orb_false_r.
        assert ((a <? i) || (a =? i) = (a <? i + 1)) as ->; [|done].
        destruct (Z.ltb_spec a i), (Z.eqb_spec a i), (Z.ltb_spec a (i + 1)); cbn; lia. }
  intros s' (Ho & Hs' & Hc & Hv). split; [done|]. split; [done|]. split; [done|]. intros open a b Ha Hb'.
  rewrite Hv by done. by rewrite (proj2 (Z.ltb_lt a (0 + c.(channels)))) by lia.
Qed.

(** the same totals, and nothing but the counters and the calculator changed *)
Definition same_counts (s s' : ThermalReplay) : Prop :=
  (∀ n a, eq64 (chan_c s' n a) (chan_c s n a)) ∧ (∀ n a b, eq64 (chan_v s' n a b) (chan_v s n a b)).
Definition keeps (s s' : ThermalReplay) : Prop :=
  timed_commands_ s' = timed_commands_ s ∧ last_clk_ s' = last_clk_ s ∧ bank_active_ s' = bank_active_ s.
#[local] Instance keeps_refl : Reflexive keeps.
Proof. done. Qed.
#[local] Instance keeps_trans : Transitive keeps.
Proof. intros ? ? ? (E1 & E2 & E3) (F1 & F2 & F3). unfold keeps. by rewrite F1, F2, F3. Qed.
#[local] Instance same_counts_refl : Reflexive same_counts.
Proof. done. Qed.
#[local] Instance same_counts_trans : Transitive same_counts.
Proof. intros ? ? ? (E1 & E2) (F1 & F2). split; intros; [by rewrite F1|by rewrite F2]. Qed.

Lemma vec_double st n r : stats_ok c st → n ∈ rank_dbls → 0 <= r < c.(ranks) →
  ∃ v x, st.(vec_doubles_) !! n = Some v ∧ aget v r = Ret x.
Proof.
  intros Hst Hn Hr. pose proof (so_dbl _ _ Hst n Hn) as Hl. unfold vec in Hl.
  destruct (st.(vec_doubles_) !! n) as [v|] eqn:E.
  - exists v. destruct (aget_ok v r) as [x Hx]; [|by exists x]. cbn in Hl. unfold id in Hl. lia.
  - cbn in Hl. change (zlen []) with 0 in Hl. lia.
Qed.
Lemma RankBackgroundEnergy_ok st r : stats_ok c st → 0 <= r < c.(ranks) → ∃ x, RankBackgroundEnergy st r = Ret x.
Proof.
  intros Hst Hr. unfold RankBackgroundEnergy, at_.
  destruct (vec_double st "act_stb_energy" r Hst) as (v1 & x1 & E1 & F1); [by left|done|].
  destruct (vec_double st "pre_stb_energy" r Hst) as (v2 & x2 & E2 & F2); [by right; left|done|].
  destruct (vec_double st "sref_energy" r Hst) as (v3 & x3 & E3 & F3); [by right; right; left|done|].
  rewrite E1. cbn [mbind outcome_bind]. rewrite F1. cbn [mbind outcome_bind].
  rewrite E2. cbn [mbind outcome_bind]. rewrite F2. cbn [mbind outcome_bind].
  rewrite E3. cbn [mbind outcome_bind]. rewrite F3. cbn [mbind outcome_bind]. by eexists.
Qed.

Lemma channel_epoch_spec (H3D : IsHBM c || IsHMC c = true) s i : stats_all s → thermal_ok c t s.(thermal_calc_) →
  0 <= i < c.(channels) →
  returns (channel_epoch c s i) (λ s', stats_all s' ∧ thermal_ok c t s'.(thermal_calc_) ∧ keeps s s' ∧ same_counts s s').
Proof.
  intros Hs Ht Hi. unfold channel_epoch. eapply returns_bind.
  { apply (on_channel_spec s i _ same_totals Hs Hi). intros st Hst. eapply returns_mono; [by apply UpdateEpochStats_spec|].
    intros st' (Hok & Htot & _). done. }
  intros s1 (Ho & Hs1 & st & st' & Hst & (Tc & Tv & _) & Ha). destruct (only_stats_fields _ _ Ho) as (E1 & E2 & E3 & E4).
  assert (Hsame : same_counts s s1).
  { split; [intros n a|intros n a b]; [unfold chan_c|unfold chan_v]; rewrite Ha;
      (destruct (Z.eqb_spec a i) as [->|]; [rewrite Hst|done]); [apply Tc|apply Tv]. }
  assert (Hk : keeps s s1) by done.
  apply for_inv.
  - split; [done|]. split; [by rewrite E2|]. done.
  - intros s2 r Hr%elem_of_seqZ (Hs2 & Ht2 & Hk2 & Hc2). destruct Hs2 as [Hl2 Hok2].
    destruct (aget_ok s2.(channel_stats_) i ltac:(lia)) as [st2 Hst2]. rewrite Hst2. cbn [mbind outcome_bind].
    destruct (RankBackgroundEnergy_ok st2 r (Hok2 _ _ Hst2) ltac:(lia)) as [x ->]. cbn [mbind outcome_bind].
    eapply returns_bind; [apply (thermal_step_ok fuel c t H3D s2.(thermal_calc_) (TBackground i r x) Ht2); cbn; lia|].
    intros calc Hcalc. apply returns_ret. done.
Qed.

(** ** Commands *)
Definition cmd_ok (cmd : Command) : Prop :=
  0 <= cmd.(addr).(channel) < c.(channels) ∧ addr_ok c cmd.(addr) ∧ ∃ n, count_name cmd.(cmd_type) = Ret n.
Lemma cmd_ok_key cmd : cmd_ok cmd → key_ok c (bank_key cmd.(addr)).
Proof. intros (Hch & [Hr Hg Hb _ _] & _). unfold key_ok, bank_key. done. Qed.

(** the state after the events [log] *)
Record replay_inv (log : list replay_event) (s : ThermalReplay) : Prop := {
  ri_calc : thermal_ok c t s.(thermal_calc_); ri_stats : stats_all s;
  ri_banks : banks_rel c s.(bank_active_) (open_after log); ri_last : s.(last_clk_) = clk_after log;
  ri_time : ∀ open i j, 0 <= i < c.(channels) → 0 <= j < c.(ranks) →
    eq64 (chan_v s (rank_name open) i j) (time_in open i j log);
  ri_count : ∀ i n, 0 <= i < c.(channels) → eq64 (chan_c s n i) (count_of i n log)
}.

(** sizes that the loops go through *)
Record sizes_ok : Prop := {
  sz_3D : IsHBM c || IsHMC c = true; sz_ch : 0 < c.(channels); sz_ra : 0 < c.(ranks); sz_bg : 0 < c.(bankgroups);
  sz_bpg : 0 < c.(banks_per_group); sz_ep : 0 < c.(epoch_period) < 2147483648
}.

Lemma ProcessCMD_spec (Hz : sizes_ok) log s cmd clk : replay_inv log s → cmd_ok cmd →
  returns (ProcessCMD c s cmd clk) (λ s', replay_inv (log ++ [RCommand clk cmd]) s' ∧ s'.(timed_commands_) = s.(timed_commands_)).
Proof.
  intros [Ht Hs Hb Hl Htime Hcount] Hcmd. destruct Hz as [H3D Hch Hra Hbg Hbpg Hep]. pose proof Hcmd as (Hc & _ & nm & Hnm).
  unfold ProcessCMD. eapply returns_bind; [by apply (all_clocks_spec (u64 (clk - last_clk_ s)) s (open_after log)); [..|lia|lia]|].
  intros s1 (Ho1 & Hs1 & Hc1 & Hv1). destruct (only_stats_fields _ _ Ho1) as (E1 & E2 & E3 & E4). cbn beta.
  rewrite Hnm. cbn [mbind outcome_bind]. eapply returns_bind.
  { apply (on_channel_spec s1 cmd.(addr).(channel) _ (λ st st', st' = Increment nm st) Hs1 Hc). intros st Hst. apply returns_ret.
    split; [by apply Increment_spec|done]. }
  intros s2 (Ho2 & Hs2 & st & st' & Hst & -> & Ha). destruct (only_stats_fields _ _ Ho2) as (F1 & F2 & F3 & F4).
  assert (Hst_ok : stats_ok c st) by (by eapply (proj2 Hs1)). destruct (Increment_spec c st nm Hst_ok) as (_ & Ic & Iv).
  eapply returns_bind; [apply (bank_update_spec _ (open_after log) cmd clk); [by rewrite F4, E4|by apply cmd_ok_key]|].
  intros m Hm. cbv zeta. rewrite umod_ok by (unfold u64; rewrite Z.mod_small; lia). cbn [mbind outcome_bind].
  set (s3 := s2 <| bank_active_ := m |>).
  assert (H3 : stats_all s3 ∧ thermal_ok c t s3.(thermal_calc_)).
  { unfold s3. split; [exact Hs2|]. rsimp. by rewrite F2, E2. }
  eapply returns_bind.
  { assert (returns (if negb (clk mod u64 c.(epoch_period) =? 0) then for_ (seqZ 0 c.(channels)) s3 (channel_epoch c) else Ret s3)
      (λ s', stats_all s' ∧ thermal_ok c t s'.(thermal_calc_) ∧ keeps s3 s' ∧ same_counts s3 s')) as Hr; [|exact Hr].
    destruct (negb _); [|by apply returns_ret; destruct H3]. apply for_inv; [by destruct H3|].
    intros s4 i Hi%elem_of_seqZ (Hs4 & Ht4 & Hk4 & Hc4). eapply returns_mono; [apply (channel_epoch_spec H3D); [done..|lia]|].
    intros s5 (Hs5 & Ht5 & Hk5 & Hc5). split; [done|]. split; [done|]. split; [by etrans|by etrans]. }
  intros s4 (Hs4 & Ht4 & (K1 & K2 & K3) & Kc & Kv). apply returns_ret. split.
  2: { rsimp. rewrite K1. unfold s3. rsimp. by rewrite F1, E1. }
  split; rsimp; try done.
  - rewrite K3, open_after_snoc. done.
  - by rewrite clk_after_snoc.
  - intros open i j Hi Hj. rewrite time_in_snoc. cbn [clk_step].
    change (chan_v (s4 <| last_clk_ := clk |>) (rank_name open) i j) with (chan_v s4 (rank_name open) i j). rewrite Kv.
    assert (chan_v s3 (rank_name open) i j = chan_v s1 (rank_name open) i j) as ->.
    { unfold chan_v, s3. rsimp. rewrite Ha. destruct (Z.eqb_spec i cmd.(addr).(channel)) as [->|]; [|done].
      by rewrite Hst, Iv. }
    rewrite Hv1, Htime by done. unfold adds. rewrite <- Hl. destruct (Bool.eqb _ _); [by rewrite eq64_u64|done].
  - intros i n Hi. rewrite count_of_snoc. change (chan_c (s4 <| last_clk_ := clk |>) n i) with (chan_c s4 n i). rewrite Kc.
    assert (eq64 (chan_c s3 n i) (chan_c s1 n i + b2z (counts i n (RCommand clk cmd)))) as ->.
    { unfold chan_c, s3. rsimp. rewrite Ha. cbn [counts]. rewrite Hnm, (Z.eqb_sym _ i).
      destruct (Z.eqb_spec i cmd.(addr).(channel)) as [->|]; cbn [andb b2z]; [|by rewrite Z.add_0_r].
      by rewrite Hst, Ic. }
    by rewrite Hc1, Hcount.
Qed.

(** *** The log of a replay *)
Definition repeat_log (cmds : list (Z * Command)) (clk : Z) : list replay_event :=
  ((λ e : Z * Command, RCommand (u64 (clk + e.1)) e.2) <$> cmds) ++ [RReset].
Fixpoint replay_log (n : nat) (cmds : list (Z * Command)) (clk : Z) : list replay_event :=
  match n with
  | O => []
  | S n => repeat_log cmds clk ++ replay_log n cmds (u64 (clk + clk_offset cmds))
  end.

Lemma replay_one_spec (Hz : sizes_ok) log s clk e : replay_inv log s → cmd_ok e.2 →
  returns (replay_one c t clk s e) (λ s', replay_inv (log ++ [RCommand (u64 (clk + e.1)) e.2]) s' ∧
    s'.(timed_commands_) = s.(timed_commands_)).
Proof.
  intros Hs He. unfold replay_one. eapply returns_bind; [by apply ProcessCMD_spec|]. intros s1 [H1 E1].
  pose proof He as (_ & Ha & _). pose proof (sz_ch Hz) as Hch.
  eapply returns_bind.
  { apply (thermal_step_ok fuel c t (sz_3D Hz) s1.(thermal_calc_) (TCommand 0 e.2)); [apply H1|]. split; [lia|done]. }
  intros calc Hcalc. apply returns_ret. split; [|done]. destruct H1 as [A1 A2 A3 A4 A5 A6]. by split.
Qed.
Lemma replay_cmds (Hz : sizes_ok) clk cmds : Forall (λ e, cmd_ok e.2) cmds → ∀ log s, replay_inv log s →
  returns (for_ cmds s (replay_one c t clk)) (λ s',
    replay_inv (log ++ ((λ e : Z * Command, RCommand (u64 (clk + e.1)) e.2) <$> cmds)) s' ∧
    s'.(timed_commands_) = s.(timed_commands_)).
Proof.
  induction 1 as [|e cmds He _ IH]; intros log s Hs; cbn [for_].
  - apply returns_ret. cbn [fmap list_fmap]. by rewrite app_nil_r.
  - eapply returns_bind; [by apply replay_one_spec|]. intros s1 [H1 E1].
    eapply returns_mono; [by apply IH|]. intros s2 [H2 E2]. rewrite <- app_assoc in H2. split; [exact H2|congruence].
Qed.
Lemma reset_inv log s : replay_inv log s → replay_inv (log ++ [RReset]) (s <| bank_active_ := no_banks c |>).
Proof.
  intros [A1 A2 A3 A4 A5 A6]. split; rsimp; try done.
  - rewrite open_after_snoc. apply no_banks_rel.
  - by rewrite clk_after_snoc.
  - intros open i j Hi Hj. rewrite time_in_snoc. cbn [clk_step]. rewrite Z.sub_diag.
    destruct (Bool.eqb _ _); rewrite Z.add_0_r; by apply A5.
  - intros i n Hi. rewrite count_of_snoc. cbn [counts b2z]. rewrite Z.add_0_r. by apply A6.
Qed.
Lemma repeats_spec (Hz : sizes_ok) cmds n : Forall (λ e, cmd_ok e.2) cmds → ∀ m clk log s, replay_inv log s →
  s.(timed_commands_) = cmds →
  returns (for_ (seqZ m (Z.of_nat n)) (s, clk) (repeat_one c t)) (λ r, replay_inv (log ++ replay_log n cmds clk) r.1).
Proof.
  intros Hc. induction n as [|n IH]; intros m clk log s Hs Ht.
  - apply returns_ret. cbn [replay_log fst]. by rewrite app_nil_r.
  - rewrite seqZ_cons by lia. cbn [for_ repeat_one]. rewrite Ht.
    replace (Z.pred (Z.of_nat (S n))) with (Z.of_nat n) by lia.
    destruct (replay_cmds Hz clk cmds Hc log s Hs) as (s1 & -> & H1 & E1). cbn [mbind outcome_bind]. rewrite E1, Ht.
    eapply returns_mono; [apply (IH (Z.succ m) _ _ _ (reset_inv _ _ H1)); by rewrite <- Ht, <- E1|].
    intros r Hr. cbn [replay_log]. unfold repeat_log. rewrite !app_assoc. exact Hr.
Qed.

(** *** The final statistics *)
Definition final_of (st st' : SimpleStats) : Prop :=
  (∀ n, eq64 (GetCtr st' n) (tot_c st n)) ∧ ∀ n i, eq64 (at0 (vec st'.(vec_counters_) n) i) (tot_v st n i).
Lemma final_stats s : stats_all s → 0 <= c.(channels) →
  returns (for_ (seqZ 0 c.(channels)) s (λ s i, on_channel s i (UpdateFinalStats c))) (λ s',
    only_stats s s' ∧ ∀ i, 0 <= i < c.(channels) →
      ∃ st st', aget s.(channel_stats_) i = Ret st ∧ aget s'.(channel_stats_) i = Ret st' ∧ final_of st st').
Proof.
  intros Hs Hch. eapply returns_mono.
  { apply (for_seqZ (λ i s', only_stats s s' ∧ stats_all s' ∧ ∀ a, 0 <= a < c.(channels) →
      if a <? i then ∃ st st', aget s.(channel_stats_) a = Ret st ∧ aget s'.(channel_stats_) a = Ret st' ∧ final_of st st'
      else aget s'.(channel_stats_) a = aget s.(channel_stats_) a) 0 c.(channels)); [done| |].
    - split; [apply only_stats_refl|]. split; [done|]. intros a Ha. by rewrite (proj2 (Z.ltb_ge a 0)) by lia.
    - intros s1 i Hi (Ho & Hs1 & Hf). eapply returns_mono.
      + apply (on_channel_spec s1 i _ final_of Hs1 Hi). intros st Hst.
        eapply returns_mono; [apply (summary_spec c true st Hst)|]. intros st' (Hok & _ & _ & _ & Hc & Hv & _). done.
      + intros s2 (Ho2 & Hs2 & st & st' & Hst & HQ & Ha). split; [by eapply only_stats_trans|]. split; [done|].
        intros a Hra. rewrite Ha. specialize (Hf a Hra). destruct (Z.eqb_spec a i) as [->|Hne].
        * rewrite (proj2 (Z.ltb_lt i (i + 1))) by lia. rewrite Z.ltb_irrefl in Hf. exists st, st'.
          rewrite <- Hf. done.
        * assert ((a <? i + 1) = (a <? i)) as ->; [|done]. destruct (Z.ltb_spec a i), (Z.ltb_spec a (i + 1)); lia. }
  intros s' (Ho & _ & Hf). split; [done|]. intros i Hi. specialize (Hf i Hi).
  by rewrite (proj2 (Z.ltb_lt i (0 + c.(channels)))) in Hf by lia.
Qed.

Lemma Run_spec (Hz : sizes_ok) pdgssv n s cmds : (∀ A b, zlen (pdgssv A b) = zlen b) → replay_inv [] s →
  s.(timed_commands_) = cmds → Forall (λ e, cmd_ok e.2) cmds →
  returns (Run fuel pdgssv c t (Z.of_nat n) s) (λ r, thermal_ok c t r.1.(thermal_calc_) ∧
    ∀ i, 0 <= i < c.(channels) → ∃ st, aget r.1.(channel_stats_) i = Ret st ∧
      (∀ m, eq64 (GetCtr st m) (count_of i m (replay_log n cmds 0))) ∧
      ∀ open j, 0 <= j < c.(ranks) →
        eq64 (at0 (vec st.(vec_counters_) (rank_name open)) (Z.to_nat j)) (time_in open i j (replay_log n cmds 0))).
Proof.
  intros Hsolve Hs Ht Hc. unfold Run. eapply returns_bind; [by eapply (repeats_spec Hz cmds n Hc 0 0 [] s)|].
  intros [s1 clk] H1. cbn [fst app] in H1. pose proof (sz_ch Hz). eapply returns_bind; [apply final_stats; [apply H1|lia]|].
  intros s2 [Ho Hf]. destruct (only_stats_fields _ _ Ho) as (_ & E2 & _ & _).
  eapply returns_bind; [apply (PrintFinalPT_ok fuel c t (sz_3D Hz) pdgssv); [done|rewrite E2; apply H1]|].
  intros p (Hp & _). apply returns_ret. cbn [fst]. split; [exact Hp|]. rsimp. intros i Hi.
  destruct (Hf i Hi) as (st & st' & Est & Est' & Fc & Fv). exists st'. split; [done|]. split.
  - intros m. rewrite Fc. pose proof (ri_count _ _ H1 i m Hi) as Hq. unfold chan_c in Hq. by rewrite Est in Hq.
  - intros open j Hj. rewrite Fv. pose proof (ri_time _ _ H1 open i j Hi Hj) as Hq. unfold chan_v in Hq. by rewrite Est in Hq.
Qed.
End Replay.

(** ** Lines *)

Definition word (l : list ascii) : string := String.string_of_list_ascii l.
Definition without (n : Z) (w : string) : Prop := Forall (λ a, (code a =? n) = false) (chars w).
Lemma app_cons b w s : String b w +:+ s = String b (w +:+ s).
Proof. done. Qed.
Lemma app_String_assoc w a s : (w +:+ String a EmptyString) +:+ s = w +:+ String a s.
Proof. induction w as [|b w IH]; [done|]. by rewrite !app_cons, IH. Qed.
Lemma app_empty item : item +:+ EmptyString = item.
Proof. induction item as [|b item IH]; [done|]. by rewrite app_cons, IH. Qed.

Lemma split_word w s : without 32 w → w ≠ EmptyString →
  StringSplit (w +:+ String space s) space = w :: StringSplit s space ∧ StringSplit w space = [w].
Proof.
  intros Hw Hne. assert (∀ w' item, without 32 w' → split_at space item (w' +:+ String space s) = (item +:+ w') :: split_at space EmptyString s ∧
    split_at space item w' = [item +:+ w']) as Hs.
  { clear. induction w' as [|a w' IH]; intros item Hw.
    - change (EmptyString +:+ String space s) with (String space s). cbn [split_at]. by rewrite Z.eqb_refl, app_empty.
    - apply Forall_cons in Hw as [Ha Hw]. rewrite app_cons. cbn [split_at]. change (code space) with 32. rewrite Ha.
      destruct (IH (item +:+ String a EmptyString) Hw) as [E1 E2]. change (code space) with 32 in *.
      rewrite app_String_assoc in E1, E2. split; [exact E1|exact E2]. }
  destruct (Hs w EmptyString Hw) as [E1 E2]. unfold StringSplit. rewrite E1, E2.
  change (EmptyString +:+ w) with w. rewrite !filter_cons_True by done. done.
Qed.
Lemma getlines_word w s : without 10 w → getlines EmptyString (w +:+ String newline s) = w :: getlines EmptyString s.
Proof.
  intros Hw. assert (∀ w' item, without 10 w' → getlines item (w' +:+ String newline s) = (item +:+ w') :: getlines EmptyString s) as Hs;
    [|by apply Hs].
  clear. induction w' as [|a w' IH]; intros item Hw.
  - change (EmptyString +:+ String newline s) with (String newline s). cbn [getlines]. change (code newline =? 10) with true. cbn iota. by rewrite app_empty.
  - apply Forall_cons in Hw as [Ha Hw]. rewrite app_cons. cbn [getlines]. rewrite Ha, IH by done. by rewrite app_String_assoc.
Qed.

(** words with blanks between them *)
Fixpoint join (ws : list string) : string :=
  match ws with
  | [] => EmptyString
  | [w] => w
  | w :: ws => w +:+ String space (join ws)
  end.
Definition good_word (w : string) : Prop := without 32 w ∧ without 10 w ∧ w ≠ EmptyString.
Lemma join_cons w w' ws : join (w :: w' :: ws) = w +:+ String space (join (w' :: ws)).
Proof. done. Qed.
Lemma split_join ws : Forall good_word ws → ws ≠ [] → StringSplit (join ws) space = ws.
Proof.
  induction 1 as [|w ws (Hw & _ & Hne) Hws IH]; intros Hn; [done|]. destruct ws as [|w' ws].
  - by apply (split_word w EmptyString).
  - rewrite join_cons. destruct (split_word w (join (w' :: ws)) Hw Hne) as [-> _]. f_equal. by apply IH.
Qed.
Lemma without_app n w s : without n w → without n s → without n (w +:+ s).
Proof.
  unfold without. intros Hw Hs. induction w as [|a w IH]; [done|]. rewrite app_cons.
  apply Forall_cons in Hw as [Ha Hw]. apply Forall_cons. split; [done|by apply IH].
Qed.
Lemma join_without ws : Forall good_word ws → without 10 (join ws).
Proof.
  induction 1 as [|w ws (_ & Hw & _) Hws IH]; [constructor|]. destruct ws as [|w' ws]; [done|].
  rewrite join_cons. apply without_app; [done|]. apply Forall_cons. by split.
Qed.

(** a number in decimal *)
Definition decimal (n : Z) : string := word (show_u64 10 n).
Lemma chars_word l : chars (word l) = l.
Proof. apply String.list_ascii_of_string_of_list_ascii. Qed.
Lemma digits_decimal fuel n : Forall (λ a, ∃ d, 0 <= d < 10 ∧ a = digit_char d) (digits_of fuel 10 n).
Proof.
  revert n. induction fuel as [|fuel IH]; intros n; cbn [digits_of]; [constructor|].
  apply Forall_app. split; [by destruct (_ <? _)|]. apply Forall_cons. split; [|constructor].
  exists (n mod 10). split; [apply Z.mod_pos_bound; lia|done].
Qed.
Lemma decimal_good n : good_word (decimal n).
Proof.
  assert (Hd : ∀ k, (∀ d, 0 <= d < 10 → (code (digit_char d) =? k) = false) → without k (decimal n)).
  { intros k Hk. unfold without, decimal. rewrite chars_word. eapply Forall_impl; [apply digits_decimal|].
    intros a (d & Hd & ->). by apply Hk. }
  split; [|split].
  - apply Hd. intros d Hr. destruct (digit_char_plain d ltac:(lia)) as (Hs & _). unfold is_space in Hs.
    by apply orb_false_elim in Hs as [Hs _].
  - apply Hd. intros d Hr. destruct (digit_char_plain d ltac:(lia)) as (Hs & _). unfold is_space in Hs.
    apply orb_false_elim in Hs as [_ Hs]. apply Z.eqb_neq. intros E. rewrite E in Hs. done.
  - destruct (show_head 10 n (or_introl eq_refl)) as (d & l & E & _). unfold decimal. by rewrite E.
Qed.

Lemma get_digits_count base v n l : n <= (get_digits base v n l).1.2.
Proof.
  revert v n. induction l as [|a l IH]; intros v n; cbn [get_digits]; [done|].
  destruct (digit_val a); [|done]. destruct (_ <? _); [|done]. etrans; [|apply IH]. lia.
Qed.
(** the two ways of reading digits agree *)
Lemma digits_in_get base s acc j : digits_in base acc s =
  (let '(w, k, _) := get_digits base (default 0 acc) j (chars s) in if k =? j then acc else Some w).
Proof.
  revert acc j. induction s as [|a s IH]; intros acc j; cbn [digits_in chars String.list_ascii_of_string get_digits].
  { by rewrite Z.eqb_refl. }
  destruct (digit_val a) as [d|]; [|by rewrite Z.eqb_refl]. destruct (d <? base); [|by rewrite Z.eqb_refl].
  rewrite (IH _ (j + 1)). change (default 0 (Some (base * default 0 acc + d))) with (base * default 0 acc + d). fold (chars s).
  pose proof (get_digits_count base (base * default 0 acc + d) (j + 1) (chars s)) as Hc.
  destruct (get_digits _ _ _ _) as [[w k] r] eqn:E. cbn [fst snd] in Hc.
  destruct (Z.eqb_spec k j); [lia|]. destruct (Z.eqb_spec k (j + 1)) as [->|]; [|done].
  clear IH. f_equal. revert E. generalize (base * default 0 acc + d). intros v E.
  destruct (chars s) as [|b l]; cbn [get_digits] in E; [congruence|].
  destruct (digit_val b); [|congruence]. destruct (_ <? _); [|congruence].
  pose proof (get_digits_count base (base * v + z) (j + 1 + 1) l) as Hc'. rewrite E in Hc'. cbn in Hc'. lia.
Qed.
Lemma number10_decimal n : is_u64 n → number10 (decimal n) = Some n.
Proof.
  intros Hn. destruct (show_head 10 n (or_introl eq_refl)) as (d & l & E & Hd).
  destruct (show_u64_get 10 n [] (or_introl eq_refl) Hn I) as (i & Hi & Eg). rewrite app_nil_r in Eg.
  assert (Hdig : digits_in 10 None (decimal n) = Some n).
  { rewrite (digits_in_get 10 _ _ 0). unfold decimal. rewrite chars_word. cbn [default]. rewrite Eg.
    by destruct (Z.eqb_spec i 0); [lia|]. }
  unfold decimal in *. rewrite E in *. destruct (digit_char_plain d ltac:(lia)) as (H1 & H2 & H3).
  unfold number10. cbn [word String.string_of_list_ascii Thermal.skip_spaces]. rewrite H1, H2, H3. exact Hdig.
Qed.

(** *** Commands as they are written *)
Definition cmd_text (ct : CommandType) : string :=
  match list_find (λ p : string * CommandType, p.2 = ct) cmd_map with Some (_, p) => p.1 | None => EmptyString end.
Definition line_words (e : Z * Command) : list string :=
  let a := e.2.(addr) in
  [decimal e.1; cmd_text e.2.(cmd_type); decimal a.(channel); decimal a.(rank); decimal a.(bankgroup); decimal a.(bank);
   decimal a.(row); decimal a.(column)].
Definition replay_line (e : Z * Command) : string := join (line_words e).
Definition replay_text (xs : list (Z * Command)) : string :=
  foldr (λ e s, replay_line e +:+ String newline s) EmptyString xs.
Definition small (n : Z) : Prop := 0 <= n < 2147483648.
(** what a line can say *)
Definition line_fits (e : Z * Command) : Prop :=
  is_u64 e.1 ∧ e.2.(hex_addr) = 0 ∧ (∃ n, count_name e.2.(cmd_type) = Ret n) ∧
  let a := e.2.(addr) in
  small a.(channel) ∧ small a.(rank) ∧ small a.(bankgroup) ∧ small a.(bank) ∧ small a.(row) ∧ small a.(column).

Lemma stoi_decimal n : small n → stoi (decimal n) = Ret n.
Proof.
  unfold small. intros Hn. unfold stoi. rewrite number10_decimal by (unfold is_u64; lia).
  by rewrite (proj2 (Z.leb_le _ n)), (proj2 (Z.ltb_lt n _)) by lia.
Qed.
Lemma stoull_decimal n : is_u64 n → stoull (decimal n) = Ret n.
Proof.
  intros Hn. unfold stoull. rewrite number10_decimal by done. unfold is_u64 in Hn.
  rewrite Z.abs_eq, (proj2 (Z.ltb_lt n _)) by lia. f_equal. unfold u64. apply Z.mod_small. lia.
Qed.
Lemma cmd_text_named ct n : count_name ct = Ret n → cmd_named (cmd_text ct) = ct.
Proof. destruct ct; intros [=]; vm_compute; reflexivity. Qed.
Lemma cmd_text_good ct n : count_name ct = Ret n → good_word (cmd_text ct).
Proof. destruct ct; intros [=]; (split; [|split]; [repeat constructor..|discriminate]). Qed.
Lemma line_good e : line_fits e → Forall good_word (line_words e).
Proof.
  intros (_ & _ & (n & Hn) & _). unfold line_words.
  repeat (apply Forall_cons; split; [first [apply decimal_good|by eapply cmd_text_good]|]). constructor.
Qed.
(** a written line is read back *)
Lemma ParseLine_line e : line_fits e → ParseLine (replay_line e) = Ret e.
Proof.
  intros He. unfold ParseLine, replay_line. rewrite split_join by (done || by apply line_good). unfold line_words.
  destruct e as [clk [ct [ch ra bg ba ro co] hex]]. destruct He as (H0 & Hx & (n & Hn) & H1 & H2 & H3 & H4 & H5 & H6).
  cbn [fst snd addr cmd_type hex_addr channel rank bankgroup bank row column] in *.
  rewrite stoull_decimal by done. cbn [mbind outcome_bind]. rewrite stoi_decimal by done. cbn [mbind outcome_bind].
  rewrite stoi_decimal by done. cbn [mbind outcome_bind]. rewrite stoi_decimal by done. cbn [mbind outcome_bind].
  rewrite stoi_decimal by done. cbn [mbind outcome_bind]. rewrite stoi_decimal by done. cbn [mbind outcome_bind].
  rewrite stoi_decimal by done. cbn [mbind outcome_bind]. by rewrite (cmd_text_named _ _ Hn), Hx.
Qed.
Lemma parse_text xs : Forall line_fits xs → mapM ParseLine (getlines EmptyString (replay_text xs)) = Ret xs.
Proof.
  induction 1 as [|e xs He Hxs IH]; [done|]. cbn [replay_text foldr].
  rewrite getlines_word by (apply join_without, line_good, He). cbn [mapM]. rewrite ParseLine_line by done.
  cbn [mbind outcome_bind]. unfold replay_text in IH. by rewrite IH.
Qed.

(** ** The start *)
Lemma mapM_const {A B} (x : B) (l : list A) : mapM (λ _ : A, Ret x) l = Ret (replicate (length l) x).
Proof. induction l as [|a l IH]; [done|]. cbn [mapM length replicate]. by rewrite IH. Qed.

Lemma new_stats (c : Config) : 0 <= c.(ranks) → 0 <= c.(channels) →
  mapM (λ _ : Z, SimpleStats_new c.(ranks)) (seqZ 0 c.(channels)) =
  Ret (replicate (Z.to_nat c.(channels)) (stats_init (Z.to_nat c.(ranks)))).
Proof.
  intros Hr Hc. rewrite SimpleStats_new_eq, mapM_const by done. by rewrite length_seqZ.
Qed.

Lemma ThermalReplay_new_ok fuel (c : Config) t l f mapped steps xs : setup_ok c t l f mapped steps → (steps <= fuel)%nat →
  Forall line_fits xs →
  returns (ThermalReplay_new fuel c t (Some (replay_text xs))) (λ s, replay_inv c t [] s ∧ s.(timed_commands_) = xs).
Proof.
  intros Hs Hfuel Hxs. pose proof (up_stack _ _ _ _ _ _ Hs) as Hst. pose proof (sk_ch _ Hst). pose proof (sk_ranks _ Hst).
  unfold ThermalReplay_new. eapply returns_bind; [by eapply ThermalCalculator_new_ok|]. intros calc (Hc & _).
  rewrite new_stats by lia. cbn [mbind outcome_bind]. rewrite parse_text by done. cbn [mbind outcome_bind].
  apply returns_ret. split; [|done]. destruct (stats_init_inv c ltac:(lia)) as [Hok _ _ Hcc Hvv _].
  assert (Ha : ∀ i st, aget (replicate (Z.to_nat c.(channels)) (stats_init (Z.to_nat c.(ranks)))) i = Ret st →
    st = stats_init (Z.to_nat c.(ranks))) by (intros i st Hi; by apply aget_replicate_Z in Hi as [_ ->]).
  split; cbn [thermal_calc_ bank_active_ last_clk_]; try done.
  - split; cbn [channel_stats_]; [unfold zlen; rewrite length_replicate; lia|]. by intros i st ->%Ha.
  - apply no_banks_rel.
  - intros open i j Hi Hj. unfold chan_v. cbn [channel_stats_]. rewrite aget_replicate_ok by done. apply Hvv.
  - intros i n Hi. unfold chan_c. cbn [channel_stats_]. rewrite aget_replicate_ok by done. apply Hcc.
Qed.

(** ** The property *)

(** C40. The replay of a command trace (thermal_replay.cc) on a stacked memory that is set up as [setup_ok] says (one or
    two banks of each vault in a die of a cube, or four bank groups of four banks in a channel and two channels in a die
    at most; [num_row_refresh] divides the rows; sizes are [int]s): when the file holds lines
    with valid commands, as a program would print them, the constructor reads back exactly these commands, and [Run]
    returns for any number of repeats, with the calculator well formed. Then every counter of a channel holds,
    modulo [2^64], the number of the commands of the log that it stands for, and the active and idle cycles of every
    rank are the cycles in which, by a reference that keeps the set of open banks, some bank of the rank is open and
    in which none is; a repeat starts with all banks closed and at the clock of the last command. *)
Theorem thermal_replay_run (c : Config) t l f mapped steps fuel pdgssv xs n :
  setup_ok c t l f mapped steps → (steps <= fuel)%nat → 0 < c.(epoch_period) < 2147483648 →
  (∀ A b, zlen (pdgssv A b) = zlen b) → Forall (λ e, line_fits e ∧ cmd_ok c e.2) xs →
  ∃ s r, ThermalReplay_new fuel c t (Some (replay_text xs)) = Ret s ∧ s.(timed_commands_) = xs ∧
    Run fuel pdgssv c t (Z.of_nat n) s = Ret r ∧ thermal_ok c t r.1.(thermal_calc_) ∧
    let log := replay_log n xs 0 in
    ∀ i, 0 <= i < c.(channels) → ∃ st, aget r.1.(channel_stats_) i = Ret st ∧
      (∀ m, eq64 (GetCtr st m) (count_of i m log)) ∧
      ∀ j, 0 <= j < c.(ranks) →
        eq64 (at0 (vec st.(vec_counters_) "rank_active_cycles") (Z.to_nat j)) (time_in true i j log) ∧
        eq64 (at0 (vec st.(vec_counters_) "all_bank_idle_cycles") (Z.to_nat j)) (time_in false i j log).
Proof.
  intros Hs Hfuel Hep Hsolve Hxs. pose proof (up_stack _ _ _ _ _ _ Hs) as Hst.
  apply Forall_and in Hxs as [Hfits Hcmds].
  destruct (ThermalReplay_new_ok fuel c t l f mapped steps xs Hs Hfuel Hfits) as (s & Hnew & Hi & Ht).
  assert (Hz : sizes_ok c) by (split; [by apply stack_is_3D|apply Hst..|done]).
  destruct (Run_spec fuel c t Hz pdgssv n s xs Hsolve Hi Ht Hcmds) as (r & Hrun & Hr & Hstats).
  exists s, r. split; [done|]. split; [done|]. split; [done|]. split; [done|]. cbv zeta. intros i Hch.
  destruct (Hstats i Hch) as (st & Est & Hc & Hv). exists st. split; [done|]. split; [done|].
  intros j Hj. split; [apply (Hv true j Hj)|apply (Hv false j Hj)].
Qed.

Definition replay_cmds_ex : list (Z * Command) :=
  [(10, mkCommand ACTIVATE (mkAddress 1 0 0 1 5 0) 0); (20, mkCommand READ (mkAddress 1 0 0 1 5 0) 0);
   (50, mkCommand PRECHARGE (mkAddress 1 0 0 1 5 0) 0); (70, mkCommand REFab (mkAddress 0 0 0 0 0 0) 0)].
Lemma replay_cmds_ex_ok : Forall (λ e, line_fits e ∧ cmd_ok small_cube e.2) replay_cmds_ex.
Proof.
  repeat (apply Forall_cons; split); [..|constructor]; (split; [|split; [|split]]);
    try (split; [split; [discriminate|reflexivity]|]; split; [reflexivity|]; split; [by eexists|];
         cbn; unfold small; repeat (split; [lia|]); lia);
    try (split; vm_compute; try split; (reflexivity || discriminate)); by eexists.
Qed.
Lemma cube_channel : 0 <= 1 < small_cube.(channels).
Proof. vm_compute. split; [discriminate|reflexivity]. Qed.
Lemma cube_rank : 0 <= 0 < small_cube.(ranks).
Proof. vm_compute. split; [discriminate|reflexivity]. Qed.
(** ten cycles of the two repeats are idle before, and twenty after, the forty cycles between ACTIVATE and PRECHARGE *)
Lemma thermal_replay_run_witness : ∃ s r st,
  ThermalReplay_new 60 small_cube small_params (Some (replay_text replay_cmds_ex)) = Ret s ∧
  Run 60 (λ _ b, b) small_cube small_params 2 s = Ret r ∧ aget r.1.(channel_stats_) 1 = Ret st ∧
  eq64 (GetCtr st "num_act_cmds") 2 ∧
  eq64 (at0 (vec st.(vec_counters_) "rank_active_cycles") 0) 80 ∧
  eq64 (at0 (vec st.(vec_counters_) "all_bank_idle_cycles") 0) 60.
Proof.
  destruct (thermal_replay_run small_cube small_params small_layout small_plan None 60 60 (λ _ b, b) replay_cmds_ex 2
    small_setup (le_n 60) (conj eq_refl eq_refl) (λ _ _, eq_refl) replay_cmds_ex_ok)
    as (s & r & Es & _ & Er & _ & Hst).
  destruct (Hst 1 cube_channel) as (st & Est & Hc & Hv).
  exists s, r, st. split; [exact Es|]. split; [exact Er|]. split; [exact Est|]. split; [exact (Hc "num_act_cmds"%string)|].
  destruct (Hv 0 cube_rank) as [Ha Hi].
  split; [exact Ha|exact Hi].
Defined.
